(* ===== verification/_CoqProject ===== *)
-Q . S2P
Prelude.v
Utils.v
Charconv.v
Http.v
HttpParser.v
HeadProofs.v
BodyProofs.v
BodyContent.v
ChunkedWire.v
ParserTypes.v
HeadFraming.v
HeadWire.v
Unobserved.v
Stream.v
Session.v
SessionProofs.v
ReadProofs.v
Pipeline.v
Progress.v
PluginRefinement.v
Scripted.v
Restful.v
HandlerShapes.v
LruCache.v
Buffer.v
EventLoop.v
LoopThreads.v
Deadlines.v
Server.v
ThreadWorker.v
SimpleTimer.v
Config.v
AcceptLoop.v
Shutdown.v
Exec.v
Serving.v
Paths.v
TemplatePlugin.v
StaticContent.v
