(* ===== verification/Prelude.v ===== *)
(** * Dracon: a verification library for the HTTP server

    Dracon is an HTTP server in C++ (src/server) that loads plugins, with a
    library for writing them (include/dracon).  This development models its
    code as Rocq functions and step relations and proves what makes it correct.
    Paths below are those of the repository.

    ** The program

    - The accept thread ([server::exec], src/server/server.cpp) reads the
      configuration, binds the ports, drops privileges, loads the plugins and
      accepts connections.  Each becomes a [server_session] in the least used
      event loop.
    - Every event loop (src/server/sessions_event_loop.cpp) has a thread: it
      waits for events, resumes the coroutines of its sessions, times them out
      and deletes them.
    - A session's coroutine runs [basic_http_session::io_loop]
      (src/server/streams.cpp) over a TCP or a TLS transport: it reads a request
      with [http_request_parser] (src/server/http_parser.h), asks the plugins
      for a handler and lets it answer through [abstract_stream]
      (include/dracon/stream.h), then goes on with the next request.
    - Plugins route with [restful_router] (include/dracon/restful.h), or serve
      files (src/plugins/static_content), with the help of the containers and
      threads of include/dracon/utils.h and include/dracon/thread_worker.h.

    ** How the code is modelled

    A function that changes state is a Rocq function in the monad [M] of this
    file: it returns, throws a C++ exception or runs out of fuel ([Diverge]).
    Strings and buffers are lists of characters, sizes are [Z] with the wrap
    around of their width written out ([u64], [u32]), pointers to objects are
    numbers.  Code that runs on several threads is a step relation at the
    accesses to what the threads share, with sequentially consistent atomics.
    The operating system, OpenSSL, Boost, the file system and the plugins'
    callbacks are parameters; what is relied on of them is a class or a named
    hypothesis ([os_laws], [os_willing], [transport_laws], [reports_codes], [sends],
    [valid_accounts], [reads_uint32], [json_lib], [sorts_plugins],
    [readable_files]), and each has an instance for which the theorems are run ([Scripted] and the
    samples at the end of the files).

    ** The files

    Strings and messages
    - [Prelude]: bytes, the monad, shared lemmas and automation.
    - [Utils]: [from_hex], [unescape_url], [split] of utils.h.
    - [Charconv]: [to_chars], [from_chars], [strtoull] as the sources use them.
    - [Http]: http.h: status codes, [response] and its [to_string], [request].

    The parser (src/server/http_parser.h)
    - [HttpParser]: every member function.
    - [HeadProofs], [BodyProofs]: both calls end, throw only what is documented,
      stay within their limits, and do not depend on how the network cut the
      bytes.
    - [ParserTypes]: the members keep their ranges on every path.
    - [BodyContent], [ChunkedWire]: what a session is given of a body; the
      chunked format is decoded.
    - [HeadFraming], [HeadWire]: no accepted head has two framings; every printed
      head that repeats no header is read back.
    - [Unobserved]: parsing does not depend on the variables of a session.

    Connections (src/server/streams.{h,cpp}, include/dracon/stream.h)
    - [Stream]: the interface of streams, [chunked_stream], [ostream_buffer].
    - [Session]: reading, writing, timeouts, errors, [io_loop], both transports.
    - [SessionProofs], [ReadProofs]: writes put the bytes on the wire in order;
      reading a request is one call of the parser; the loops end; a connection is
      reused only when that is safe.
    - [Pipeline]: a whole connection over plugins whose sessions may register a
      body callback, read the request and answer with a response and at most one
      more write: the answers to the requests of the bytes received, in order, and
      after them only what belongs to the next request.
    - [Progress]: a connection that works gets every answer that is due, and the
      error answer when its first request is rejected.
    - [PluginRefinement]: plugins whose handlers answer alike cannot be told apart
      over a connection; what a plugin keeps between requests stays sound.
    - [Scripted]: an operating system that plays a script; sessions run on it.

    Library
    - [Restful]: routes, captures, dispatch, queries.
    - [HandlerShapes]: which captures a handler is called with.
    - [LruCache], [Buffer]: the containers; the cache refines a list.
    - [ThreadWorker], [SimpleTimer]: [thread_worker], [spin_lock] and
      [simple_timer] under every interleaving.

    The server (src/server)
    - [EventLoop]: the operations of an event loop, the parts of [loop()],
      the reactions of [server_session].
    - [LoopThreads]: [loop()], the registration and the destruction of sessions,
      interleaved: no session is used after it was destroyed.
    - [Deadlines]: who publishes the deadlines of the sessions and who looks for
      them, interleaved: the loop forgets none.
    - [Server]: the accounting of sessions and addresses, the plugins, the status
      page (server_plugin.cpp, server_service_sessions.cpp).
    - [Config]: server.conf, the TLS context, the ports, the privileges.
    - [AcceptLoop]: the accept loop over the server and its event loops, the
      constructor and the destructor of [server_session].
    - [Shutdown]: the life of a server to its end: every socket is closed once.
      In both a session is an address, and [new] may give the address of a deleted
      one again.
    - [Exec]: [main] and [exec] as a whole, with its errors, the signals and the
      constructors of the server and of the event loops.
    - [Serving]: the plugins and the settings of [exec] are what a connection is
      served with.

    The plugins
    - [Paths], [StaticContent]: paths, the mapping of URLs to files, the check
      against the root, the cache of files and the answers; a connection is
      served as if there were no cache.
    - [TemplatePlugin]: the REST service of template/src/main.cpp, which refines a
      list of names with five operations, down to the bytes of a connection.

    ** Fuel

    The loops of the parser and of the helpers consume input, so they carry the
    length of their input (plus one) and never run out: [parse_head_total] and
    [parse_body_total] show it, the loops of [Utils], [Charconv], [Http] and
    [Stream] are shown equal to their specifications.  The loops of a session
    wait for the other side; [read_headers_terminates],
    [session_read_terminates] and [session_writes_terminate] give the fuel that
    is enough: the bytes there are and the waits before the deadline; [rounds] of
    [Progress] is enough for the answers of a whole connection.
    [quit_io_loop] and [serve_loop] run as long as a handler makes them; what is
    proved of them is for every fuel.

    ** Not modelled

    Logging and stack traces (no effect on the behaviour modelled here); the help
    text and the scheduling priority of [exec]; the parsing of the command line
    and of the configuration files, which Boost does; the test plugin, the
    benchmark and the certbot scripts, which are examples and tools.  Time stamps
    are mathematical where the text says so; the deadline of a session is the
    64-bit one. *)

From stdpp Require Export base list gmap strings.
From Stdlib Require Export ZArith Ascii Lia.
From Stdlib Require String.

Declare Scope dracon_scope.
Delimit Scope dracon_scope with dracon.

(** ** Bytes

    A [std::string], a [std::string_view] and a region of a socket buffer are
    lists of 8-bit characters.  [code] is the unsigned value of a character:
    the sources compare characters of the ASCII range only, where the signed
    and the unsigned reading of [char] agree. *)

Abbreviation bytes := (list ascii).

Definition code (c : ascii) : Z := Z.of_N (N_of_ascii c).
Definition chr (z : Z) : ascii := ascii_of_N (Z.to_N (z mod 256)).

Definition CR : ascii := "013"%char.
Definition LF : ascii := "010"%char.
Definition NUL : ascii := "000"%char.
Definition SP : ascii := " "%char.
Definition HTAB : ascii := "009"%char.
Definition crlf_string : bytes := [CR; LF].

(** A string literal as bytes: [bs "GET"]. *)
Abbreviation bs s := (String.list_ascii_of_string s%string).

(** [size()] of a string, as the [size_t] it is. *)
Abbreviation len s := (Z.of_nat (length s)).

(** ** Machine integers

    [size_t] is 64 bits wide; every addition, subtraction and shift of the
    sources on it goes through [u64]. *)

Definition u64 (z : Z) : Z := (z mod 2 ^ 64)%Z.
Definition npos : Z := (2 ^ 64 - 1)%Z.

Lemma u64_small z : (0 <= z < 2 ^ 64)%Z -> u64 z = z.
Proof. apply Z.mod_small. Qed.

Lemma u64_range z : (0 <= u64 z < 2 ^ 64)%Z.
Proof. apply Z.mod_pos_bound. lia. Qed.

(** Two's complement, where the sources compute with a signed 64-bit count. *)
Definition i64 (z : Z) : Z := ((z + 2 ^ 63) mod 2 ^ 64 - 2 ^ 63)%Z.

Lemma i64_small z : (- 2 ^ 63 <= z < 2 ^ 63)%Z -> i64 z = z.
Proof. intros H. unfold i64. rewrite Z.mod_small by lia. lia. Qed.

(** Time points and durations of [std::chrono] count nanoseconds:
    [time_point::max()] and the default constructed [time_point{}]. *)
Definition time_max : Z := (2 ^ 63 - 1)%Z.
Definition no_deadline : Z := 0%Z.
Definition ns_per_s : Z := (10 ^ 9)%Z.
Definition ns_per_ms : Z := (10 ^ 6)%Z.

(** ** Outcomes and the exception monad with state

    A C++ function returns ([Ok]), leaves by an exception ([Throw]), or, for
    the models of loops that carry fuel, runs out of it ([Diverge]).  The
    state a function worked on survives an exception, as it does in C++:
    [M S E A] returns it on every path. *)

Inductive outcome (E A : Type) : Type :=
  | Ok (a : A)
  | Throw (e : E)
  | Diverge.
Arguments Ok {E A} a.
Arguments Throw {E A} e.
Arguments Diverge {E A}.

Definition M (S E A : Type) : Type := S -> outcome E A * S.

Global Instance outcome_ret {E} : MRet (outcome E) := fun _ a => Ok a.
Global Instance outcome_bind {E} : MBind (outcome E) := fun _ _ f m =>
  match m with
  | Ok a => f a
  | Throw e => Throw e
  | Diverge => Diverge
  end.
Global Instance outcome_fmap {E} : FMap (outcome E) := fun _ _ f m =>
  match m with
  | Ok a => Ok (f a)
  | Throw e => Throw e
  | Diverge => Diverge
  end.

Global Instance M_ret {S E} : MRet (M S E) := fun _ a s => (Ok a, s).
Global Instance M_bind {S E} : MBind (M S E) := fun _ _ f m s =>
  match m s with
  | (Ok a, s') => f a s'
  | (Throw e, s') => (Throw e, s')
  | (Diverge, s') => (Diverge, s')
  end.

Section monad.
Context {S E : Type}.

Definition throw {A} (e : E) : M S E A := fun s => (Throw e, s).
Definition diverge {A} : M S E A := fun s => (Diverge, s).
Definition get : M S E S := fun s => (Ok s, s).
Definition gets {A} (f : S -> A) : M S E A := fun s => (Ok (f s), s).
Definition modify (f : S -> S) : M S E unit := fun s => (Ok tt, f s).
Definition lift {A} (o : outcome E A) : M S E A := fun s => (o, s).
(** [if (cond) throw e;] *)
Definition throw_if (b : bool) (e : E) : M S E unit :=
  if b then throw e else mret tt.

Lemma bind_ret {A B} (a : A) (f : A -> M S E B) s :
  (mret a ≫= f) s = f a s.
Proof. done. Qed.

Lemma bind_ok {A B} (m : M S E A) (f : A -> M S E B) s a s' :
  m s = (Ok a, s') -> (m ≫= f) s = f a s'.
Proof. intros H. unfold mbind, M_bind. by rewrite H. Qed.

Lemma bind_throw {A B} (m : M S E A) (f : A -> M S E B) s e s' :
  m s = (Throw e, s') -> (m ≫= f) s = (Throw e, s').
Proof. intros H. unfold mbind, M_bind. by rewrite H. Qed.

Lemma bind_inv_ok {A B} (m : M S E A) (f : A -> M S E B) s b s' :
  (m ≫= f) s = (Ok b, s') ->
  exists a s1, m s = (Ok a, s1) /\ f a s1 = (Ok b, s').
Proof. unfold mbind, M_bind. destruct (m s) as [[] ?]; naive_solver. Qed.

Lemma bind_assoc {A B C} (m : M S E A) (f : A -> M S E B) (g : B -> M S E C) s :
  ((m ≫= f) ≫= g) s = (m ≫= (fun a => f a ≫= g)) s.
Proof. unfold mbind, M_bind. by destruct (m s) as [[] ?]. Qed.

Lemma bind_ext {A B} (m : M S E A) (f g : A -> M S E B) s :
  (forall a s', f a s' = g a s') -> (m ≫= f) s = (m ≫= g) s.
Proof. intros H. unfold mbind, M_bind. destruct (m s) as [[] ?]; auto. Qed.
End monad.

Lemma throw_if_true {S E} b (e : E) (s : S) : b = true -> throw_if b e s = (Throw e, s).
Proof. by intros ->. Qed.

Lemma throw_if_false {S E} b (e : E) (s : S) : b = false -> throw_if b e s = (Ok tt, s).
Proof. by intros ->. Qed.

Global Instance outcome_eq_dec {E A} `{EqDecision E, EqDecision A} : EqDecision (outcome E A).
Proof. solve_decision. Defined.

(** ** Searching and slicing strings *)

(** [str.find(ch)] from the beginning: the index of the first [ch]. *)
Fixpoint find_char (ch : ascii) (s : bytes) : option nat :=
  match s with
  | [] => None
  | c :: s' => if decide (c = ch) then Some 0%nat else S <$> find_char ch s'
  end.

(** [str.find(ch, pos)]. *)
Definition find_from (ch : ascii) (s : bytes) (pos : nat) : option nat :=
  (fun k => (pos + k)%nat) <$> find_char ch (drop pos s).

(** [str.substr(pos, n)]. *)
Definition substr (s : bytes) (pos n : nat) : bytes := take n (drop pos s).

Definition starts_with (s prefix : bytes) : bool :=
  bool_decide (take (length prefix) s = prefix).

(** ** The development's tactics and hint databases *)

Create HintDb dracon.

(** Case analysis on the scrutinee of the first [match] or [if] of the goal. *)
Ltac break :=
  match goal with
  | |- context [match ?x with _ => _ end] =>
      lazymatch x with
      | context [match _ with _ => _ end] => fail
      | _ => destruct x eqn:?
      end
  end.

Ltac break_in H :=
  match type of H with
  | context [match ?x with _ => _ end] =>
      lazymatch x with
      | context [match _ with _ => _ end] => fail
      | _ => destruct x eqn:?
      end
  end.

(** A decidable proposition on closed terms, by running its decision. *)
Ltac by_compute := refine (bool_decide_unpack _ _); vm_compute; exact I.

(** Unfold the monad's plumbing. *)
Ltac munfold :=
  unfold mbind, mret, M_bind, M_ret, gets, get, modify, throw, throw_if, lift in *.

(** ** Lemmas on characters *)

Lemma code_range c : (0 <= code c < 256)%Z.
Proof.
  unfold code. pose proof (N_ascii_bounded c). lia.
Qed.

Lemma code_inj c d : code c = code d -> c = d.
Proof.
  unfold code. intros H%N2Z.inj. by rewrite <- (ascii_N_embedding c), H, ascii_N_embedding.
Qed.

Lemma code_chr z : (0 <= z < 256)%Z -> code (chr z) = z.
Proof.
  intros H. unfold code, chr. rewrite Z.mod_small by lia.
  rewrite N_ascii_embedding by lia. lia.
Qed.

Lemma chr_code c : chr (code c) = c.
Proof. apply code_inj, code_chr, code_range. Qed.

(** ** Lemmas on searching *)

Lemma find_char_Some ch s k :
  find_char ch s = Some k -> (s !! k = Some ch) /\ (ch ∉ take k s) /\ (k < length s)%nat.
Proof.
  revert k. induction s as [|c s IH]; intros k; simpl; [done|].
  case_decide as Hc; [intros [= <-]; subst; simpl; split_and!; [done|set_solver|lia]|].
  intros (j & Hj & ->)%fmap_Some. destruct (IH _ Hj) as (?&?&?). simpl.
  split_and!; [done|set_solver|lia].
Qed.

Lemma find_char_None ch s : find_char ch s = None <-> ch ∉ s.
Proof.
  induction s as [|c s IH]; simpl; [set_solver|].
  case_decide as Hc; [set_solver|]. rewrite fmap_None, IH. set_solver.
Qed.

Lemma find_char_spec ch s k :
  find_char ch s = Some k -> s = take k s ++ ch :: drop (S k) s.
Proof.
  intros (Hk & _ & _)%find_char_Some. symmetry. by apply take_drop_middle.
Qed.

(** [find_char] stops at the first separator. *)
Lemma find_char_first ch a b : ch ∉ a -> find_char ch (a ++ ch :: b) = Some (length a).
Proof.
  induction a as [|c a IH]; intros Ha; simpl; [by case_decide|].
  rewrite decide_False by set_solver. rewrite IH by set_solver. done.
Qed.

Lemma find_char_app_Some ch s t k :
  find_char ch s = Some k -> find_char ch (s ++ t) = Some k.
Proof.
  revert k. induction s as [|c s IH]; intros k; simpl; [done|].
  case_decide; [done|]. intros (j & Hj & ->)%fmap_Some. by rewrite (IH _ Hj).
Qed.

Lemma find_char_app_None ch s t :
  find_char ch s = None ->
  find_char ch (s ++ t) = (fun k => (length s + k)%nat) <$> find_char ch t.
Proof.
  induction s as [|c s IH]; simpl; [by destruct (find_char ch t)|].
  case_decide; [done|]. rewrite fmap_None. intros ->%IH. by destruct (find_char ch t).
Qed.

Lemma take_find_char ch s k t :
  find_char ch s = Some k -> take k (s ++ t) = take k s.
Proof. intros (_ & _ & Hk)%find_char_Some. by rewrite take_app_le by lia. Qed.

Lemma find_from_Some ch s pos k :
  find_from ch s pos = Some k ->
  (pos <= k < length s)%nat /\ s !! k = Some ch /\ ch ∉ substr s pos (k - pos).
Proof.
  unfold find_from, substr. intros (j & Hj & ->)%fmap_Some.
  destruct (find_char_Some _ _ _ Hj) as (Hl & Hn & Hlt).
  rewrite lookup_drop in Hl. rewrite length_drop in Hlt.
  replace (pos + j - pos)%nat with j by lia. split_and!; [lia|lia|done|done].
Qed.

(** ** Lemmas on bits *)

(** [(hi << k) | lo] is an addition when [lo] fits below the shift. *)
Lemma lor_shiftl_add hi lo k :
  (0 <= k -> 0 <= lo < 2 ^ k -> Z.lor (Z.shiftl hi k) lo = hi * 2 ^ k + lo)%Z.
Proof.
  intros Hk Hl. rewrite Z.shiftl_mul_pow2 by lia.
  pose proof (Z.add_lor_land (hi * 2 ^ k) lo) as Hadd.
  enough (Z.land (hi * 2 ^ k) lo = 0)%Z by lia.
  apply Z.bits_inj'. intros n Hn. rewrite Z.land_spec, Z.bits_0.
  destruct (Z.ltb_spec n k); [by rewrite Z.mul_pow2_bits_low by lia|].
  rewrite <- (Z.mod_small lo (2 ^ k)) by lia.
  rewrite Z.mod_pow2_bits_high by lia. apply andb_false_r.
Qed.

(** ** Lemmas on lists *)

Lemma filter_all {A} (P : A -> Prop) `{!forall x, Decision (P x)} (l : list A) :
  Forall P l -> filter P l = l.
Proof.
  induction 1 as [|x l Hx _ IH]; [done|]. by rewrite filter_cons, decide_True, IH.
Qed.

Lemma filter_ext_in {A} (P Q : A -> Prop) `{!forall x, Decision (P x), !forall x, Decision (Q x)}
    (l : list A) :
  (forall x, x ∈ l -> P x <-> Q x) -> filter P l = filter Q l.
Proof.
  induction l as [|x l IH]; intros Heq; [done|]. rewrite !filter_cons, IH.
  - destruct (Heq x); [by left|]. by repeat case_decide; try tauto.
  - intros y Hy. apply Heq. by right.
Qed.

Lemma filter_none {A} (P : A -> Prop) `{!forall x, Decision (P x)} (l : list A) :
  (forall x, x ∈ l -> ~ P x) -> filter P l = [].
Proof.
  induction l as [|x l IH]; intros Hn; [done|]. rewrite filter_cons, decide_False by (apply Hn; by left).
  apply IH. intros y Hy. apply Hn. by right.
Qed.

Lemma sublist_filter {A} (P : A -> Prop) `{!forall x, Decision (P x)} (l : list A) :
  filter P l `sublist_of` l.
Proof.
  induction l as [|x l IH]; [done|]. rewrite filter_cons.
  case_decide; by constructor.
Qed.
