(* ===== verification/Utils.v ===== *)
(** * The string helpers of include/dracon/utils.h

    [from_hex], [unescape_url] and [split], which the router runs over every
    URL.  [unescape_url] is proved equivalent to a decoding relation, [split]
    to a reference definition by pieces. *)

From S2P Require Import Prelude.

(** The standard exceptions the sources throw, with their [what()]. *)
Inductive std_exception : Type :=
  | invalid_argument (what : bytes)
  | range_error (what : bytes)
  | runtime_error (what : bytes).

Global Instance std_exception_eq_dec : EqDecision std_exception.
Proof. solve_decision. Defined.

Definition what (e : std_exception) : bytes :=
  match e with
  | invalid_argument w | range_error w | runtime_error w => w
  end.

Local Open Scope Z_scope.

(** [uint8_t from_hex(char ch)] *)
Definition from_hex (ch : ascii) : outcome std_exception Z :=
  if (code "0" <=? code ch) && (code ch <=? code "9") then Ok (code ch - code "0")
  else if (code "a" <=? code ch) && (code ch <=? code "f") then Ok (10 + code ch - code "a")
  else if (code "A" <=? code ch) && (code ch <=? code "F") then Ok (10 + code ch - code "A")
  else Throw (invalid_argument (bs "Bad hex value")).

(** [std::string unescape_url(std::string_view in)]; the loop index is the
    position of the suffix the recursion is on. *)
Fixpoint unescape_url (s : bytes) : outcome std_exception bytes :=
  match s with
  | [] => Ok []
  | c :: rest =>
      if decide (c = "%"%char) then
        match rest with
        | a :: b :: rest' =>
            hi ← from_hex a;
            lo ← from_hex b;
            out ← unescape_url rest';
            Ok (chr (Z.lor (Z.shiftl hi 4) lo) :: out)
        | _ => Throw (invalid_argument (bs "Malformed URL"))
        end
      else if decide (c = "+"%char) then cons SP <$> unescape_url rest
      else cons c <$> unescape_url rest
  end.

(** [split(str, ch, count)].  The loop of the source runs at most once per
    character; [split_from_unfold] below shows that the fuel
    [S (length str - pos)] is never exhausted. *)
Fixpoint split_loop (fuel : nat) (str : bytes) (ch : ascii) (pos : nat) (count : Z)
    : list bytes :=
  let rest := if decide (pos < length str)%nat then [drop pos str] else [] in
  match fuel with
  | O => rest
  | S fuel' =>
      match find_from ch str pos with
      | Some next_pos =>
          if count =? 0 then rest
          else
            (if decide (pos = next_pos) then [] else [substr str pos (next_pos - pos)])
              ++ split_loop fuel' str ch (next_pos + 1) (u64 (count - 1))
      | None => rest
      end
  end.

Definition split_from (str : bytes) (ch : ascii) (pos : nat) (count : Z) : list bytes :=
  split_loop (S (length str - pos)) str ch pos count.

Definition split (str : bytes) (ch : ascii) (count : Z) : list bytes :=
  if decide (str = []) then [] else split_from str ch 0 count.

(** ** [unescape_url] decodes, and only decodes, well formed escapes *)

(** The value of a hexadecimal digit, from the digits' position. *)
Definition hex_digit (c : ascii) (v : Z) : Prop :=
  0 <= v < 16 /\
  (bs "0123456789abcdef" !! Z.to_nat v = Some c \/
   bs "0123456789ABCDEF" !! Z.to_nat v = Some c).

(** [encodes e s]: the text [e] is a percent encoding of [s]. *)
Inductive encodes : bytes -> bytes -> Prop :=
  | encodes_nil : encodes [] []
  | encodes_plus e s : encodes e s -> encodes ("+"%char :: e) (SP :: s)
  | encodes_escape a b hi lo e s :
      hex_digit a hi -> hex_digit b lo -> encodes e s ->
      encodes ("%"%char :: a :: b :: e) (chr (16 * hi + lo) :: s)
  | encodes_char c e s :
      c <> "%"%char -> c <> "+"%char -> encodes e s -> encodes (c :: e) (c :: s).

Lemma from_hex_digit c v : from_hex c = Ok v <-> hex_digit c v.
Proof.
  unfold hex_digit. split.
  - intros H. cut (0 <= v < 16 /\ (bs "0123456789abcdef" !! Z.to_nat v = Some c \/
      bs "0123456789ABCDEF" !! Z.to_nat v = Some c)); [done|].
    destruct c as [[] [] [] [] [] [] [] []]; vm_compute in H; try discriminate;
      injection H as <-; vm_compute; intuition congruence.
  - intros [Hv Hc].
    assert (exists n, v = Z.of_nat n /\ (n < 16)%nat) as (n & -> & Hn)
      by (exists (Z.to_nat v); lia).
    rewrite Nat2Z.id in Hc. clear Hv.
    do 16 (destruct n as [|n]; [destruct Hc as [[= <-]|[= <-]]; reflexivity|]). lia.
Qed.

Lemma hex_digit_range c v : hex_digit c v -> 0 <= v < 16.
Proof. by intros [? _]. Qed.

Lemma hex_pair hi lo :
  0 <= hi < 16 -> 0 <= lo < 16 -> Z.lor (Z.shiftl hi 4) lo = 16 * hi + lo.
Proof. intros. rewrite lor_shiftl_add by lia. lia. Qed.

Lemma unescape_encodes e : forall s, unescape_url e = Ok s -> encodes e s.
Proof.
  induction e as [e IH] using (induction_ltof1 _ (@length _)); unfold ltof in IH.
  destruct e as [|c e]; intros s; cbn [unescape_url]; [intros [= <-]; constructor|].
  case_decide as Hc; [subst c|case_decide as Hp; [subst c|]].
  - destruct e as [|a [|b e]]; [done..|].
    destruct (from_hex a) as [hi| |] eqn:Ha; try done.
    destruct (from_hex b) as [lo| |] eqn:Hb; try done. simpl.
    destruct (unescape_url e) as [out| |] eqn:He; try done. intros [= <-].
    apply from_hex_digit in Ha, Hb.
    rewrite hex_pair by eauto using hex_digit_range.
    constructor; [done..|]. apply IH; [simpl; lia|done].
  - destruct (unescape_url e) as [out| |] eqn:He; try done. intros [= <-].
    constructor. apply IH; [simpl; lia|done].
  - destruct (unescape_url e) as [out| |] eqn:He; try done. intros [= <-].
    constructor; [done..|]. apply IH; [simpl; lia|done].
Qed.

Lemma encodes_unescape e s : encodes e s -> unescape_url e = Ok s.
Proof.
  induction 1 as [|e s _ IH|a b hi lo e s Ha Hb _ IH|c e s H1 H2 _ IH].
  - done.
  - cbn -[decide]. rewrite decide_False by done. rewrite decide_True by done. by rewrite IH.
  - cbn [unescape_url]. rewrite decide_True by done.
    rewrite <- hex_pair by eauto using hex_digit_range.
    apply from_hex_digit in Ha, Hb. by rewrite Ha, Hb; simpl; rewrite IH.
  - cbn [unescape_url]. rewrite !decide_False by done. by rewrite IH.
Qed.

(** unescape_url accepts exactly the percent encodings and gives what they encode:
    '+' is a blank, %XX is the byte, anything malformed throws. *)
Theorem unescape_url_correct (e s : bytes) : unescape_url e = Ok s <-> encodes e s.
Proof. split; [apply unescape_encodes|apply encodes_unescape]. Qed.

(** ** [split] *)

(** The pieces of a string cut at its first [n] separators, empty ones
    included: the reference [split] is compared with. *)
Fixpoint pieces (n : nat) (ch : ascii) (s : bytes) : list bytes :=
  match n with
  | O => [s]
  | S n' =>
      match find_char ch s with
      | None => [s]
      | Some k => take k s :: pieces n' ch (drop (S k) s)
      end
  end.

Abbreviation nonempty := (filter (fun p : bytes => p <> [])).

Lemma nonempty_one (s : bytes) : nonempty [s] = if decide (s = []) then [] else [s].
Proof. by destruct s. Qed.

Lemma split_loop_pieces fuel str ch pos n :
  (length str - pos < fuel)%nat -> Z.of_nat n < 2 ^ 64 ->
  split_loop fuel str ch pos (Z.of_nat n) = nonempty (pieces n ch (drop pos str)).
Proof.
  revert pos n. induction fuel as [|fuel IH]; intros pos n Hf Hn; [lia|].
  assert (Hrest : (if decide (pos < length str)%nat then [drop pos str] else [])
                  = nonempty [drop pos str]).
  { rewrite nonempty_one. repeat case_decide; try done.
    - assert (length (drop pos str) = 0%nat) by (by replace (drop pos str) with (@nil ascii)).
      rewrite length_drop in *. lia.
    - by rewrite drop_ge in * by lia. }
  cbn [split_loop]. unfold find_from.
  destruct (find_char ch (drop pos str)) as [k|] eqn:Hk; cbn [fmap option_fmap option_map].
  2:{ destruct n; simpl; by rewrite ?Hk, Hrest. }
  destruct n as [|n]; [by rewrite Hrest|].
  destruct (find_char_Some _ _ _ Hk) as (_ & _ & Hlen). rewrite length_drop in Hlen.
  destruct (Z.eqb_spec (Z.of_nat (S n)) 0); [lia|].
  replace (u64 (Z.of_nat (S n) - 1)) with (Z.of_nat n) by (rewrite u64_small by lia; lia).
  cbn [pieces]. rewrite Hk, IH by lia.
  rewrite drop_drop. replace (pos + S k)%nat with (pos + k + 1)%nat by lia.
  unfold substr. replace (pos + k - pos)%nat with k by lia.
  rewrite filter_cons. destruct k as [|k].
  - rewrite decide_True by lia. simpl. done.
  - rewrite decide_False by lia. rewrite decide_True; [done|].
    destruct (drop pos str) eqn:E; [|done]. apply (f_equal length) in E.
    rewrite length_drop in E. simpl in E. lia.
Qed.

Lemma split_from_unfold str ch pos count :
  0 <= count < 2 ^ 64 ->
  split_from str ch pos count =
    let rest := if decide (pos < length str)%nat then [drop pos str] else [] in
    match find_from ch str pos with
    | Some next_pos =>
        if count =? 0 then rest
        else (if decide (pos = next_pos) then [] else [substr str pos (next_pos - pos)])
               ++ split_from str ch (next_pos + 1) (u64 (count - 1))
    | None => rest
    end.
Proof.
  intros Hc. unfold split_from at 1. cbn [split_loop].
  destruct (find_from ch str pos) as [np|] eqn:E; [|done].
  destruct (Z.eqb_spec count 0); [done|]. cbn zeta. f_equal.
  apply find_from_Some in E as (Hnp & _ & _). unfold split_from.
  rewrite u64_small by lia. replace (count - 1) with (Z.of_nat (Z.to_nat (count - 1))) by lia.
  by rewrite !split_loop_pieces by lia.
Qed.

Lemma pieces_ge n m ch s :
  (length s <= n)%nat -> (length s <= m)%nat -> pieces n ch s = pieces m ch s.
Proof.
  revert m s. induction n as [|n IH]; intros [|m] s Hn Hm; simpl; try done.
  - assert (s = []) as -> by (apply length_zero_iff_nil; lia). done.
  - assert (s = []) as -> by (apply length_zero_iff_nil; lia). done.
  - destruct (find_char ch s) as [k|] eqn:E; [|done].
    apply find_char_Some in E as (_ & _ & ?). f_equal.
    apply IH; rewrite length_drop; lia.
Qed.

Lemma pieces_empty n ch : pieces n ch [] = [[]].
Proof. by destruct n. Qed.

Lemma split_pieces str ch n :
  Z.of_nat n < 2 ^ 64 -> split str ch (Z.of_nat n) = nonempty (pieces n ch str).
Proof.
  intros Hn. unfold split. case_decide as He.
  - subst. by rewrite pieces_empty.
  - unfold split_from. by rewrite split_loop_pieces by lia.
Qed.

Lemma split_npos str ch :
  len str < npos -> split str ch npos = nonempty (pieces (length str) ch str).
Proof.
  intros Hl. unfold npos in *.
  replace (2 ^ 64 - 1) with (Z.of_nat (Z.to_nat (2 ^ 64 - 1))) by lia.
  rewrite split_pieces by lia. f_equal. apply pieces_ge; lia.
Qed.

Fixpoint join (ch : ascii) (ps : list bytes) : bytes :=
  match ps with
  | [] => []
  | [p] => p
  | p :: ps' => p ++ ch :: join ch ps'
  end.

Lemma join_cons ch p ps : ps <> [] -> join ch (p :: ps) = p ++ ch :: join ch ps.
Proof. by destruct ps. Qed.

Lemma pieces_nonnil n ch s : pieces n ch s <> [].
Proof. destruct n; simpl; [done|]. by destruct (find_char ch s). Qed.

Lemma join_pieces n ch s : join ch (pieces n ch s) = s.
Proof.
  revert s. induction n as [|n IH]; intros s; [done|]. cbn [pieces].
  destruct (find_char ch s) as [k|] eqn:E; [|done].
  rewrite join_cons by apply pieces_nonnil. rewrite IH. symmetry. by apply find_char_spec.
Qed.

Lemma length_pieces n ch s : (length (pieces n ch s) <= S n)%nat.
Proof.
  revert s. induction n as [|n IH]; intros s; [simpl; lia|]. cbn [pieces].
  destruct (find_char ch s); simpl; [specialize (IH (drop (S n0) s)); lia|lia].
Qed.

(** Every piece but the last is free of the separator, and so is the last one
    unless the count ran out. *)
Lemma pieces_no_sep n ch s i p :
  pieces n ch s !! i = Some p -> (i < n)%nat -> ch ∉ p.
Proof.
  revert s i. induction n as [|n IH]; intros s i Hp Hi; [lia|]. cbn [pieces] in Hp.
  destruct (find_char ch s) as [k|] eqn:E.
  - destruct i as [|i]; simpl in Hp.
    + injection Hp as <-. by apply find_char_Some in E as (_ & ? & _).
    + eapply IH; [done|lia].
  - destruct i as [|i]; simpl in Hp; [|done]. injection Hp as <-. by apply find_char_None.
Qed.

(** split gives the non-empty pieces between the first count separators, and the
    rest as one piece. *)
Theorem split_correct (str : bytes) (ch : ascii) (n : nat) :
  Z.of_nat n < 2 ^ 64 ->
  exists ps,
    split str ch (Z.of_nat n) = nonempty ps /\
    join ch ps = str /\
    (length ps <= S n)%nat /\
    (forall i p, ps !! i = Some p -> (i < n)%nat -> ch ∉ p).
Proof.
  intros Hn. exists (pieces n ch str). split_and!.
  - by apply split_pieces.
  - apply join_pieces.
  - apply length_pieces.
  - intros i p. apply pieces_no_sep.
Qed.

Lemma split_correct_witness :
  Z.of_nat 1 < 2 ^ 64 /\
  exists ps,
    split (bs "k=v=w") "=" (Z.of_nat 1) = nonempty ps /\
    join "=" ps = bs "k=v=w" /\
    (length ps <= 2)%nat /\
    (forall i p, ps !! i = Some p -> (i < 1)%nat -> "="%char ∉ p).
Proof. split; [lia|]. apply (split_correct (bs "k=v=w") "=" 1). lia. Defined.

Lemma pieces_join n ch ps :
  ps <> [] -> Forall (fun p => ch ∉ p) ps -> (length ps <= S n)%nat ->
  pieces n ch (join ch ps) = ps.
Proof.
  intros Hne Hall. revert n. induction Hall as [|p ps Hp Hall IH]; intros n Hn; [done|].
  destruct ps as [|q ps].
  - destruct n; simpl; [done|]. rewrite (proj2 (find_char_None ch p)); done.
  - destruct n as [|n]; [simpl in Hn; lia|].
    rewrite join_cons by done. cbn [pieces]. rewrite find_char_first by done.
    rewrite take_app_length. f_equal.
    replace (S (length p)) with (length p + 1)%nat by lia.
    rewrite <- drop_drop, drop_app_length. cbn [drop]. apply IH; simpl in *; [done|lia].
Qed.

Lemma length_join ch ps : Forall (fun p => p <> []) ps -> (length ps <= length (join ch ps))%nat.
Proof.
  induction 1 as [|p ps Hp Hall IH]; [done|]. destruct ps as [|q ps].
  - destruct p; simpl; [done|lia].
  - rewrite join_cons by done. rewrite length_app. simpl in *. destruct p; simpl; [done|lia].
Qed.

Lemma split_of_join (ch : ascii) (ps : list bytes) :
  Forall (fun p => p <> [] /\ ch ∉ p) ps -> len (join ch ps) < npos ->
  split (join ch ps) ch npos = ps.
Proof.
  intros Hall Hlen. rewrite Forall_and in Hall. destruct Hall as [Hne Hsep].
  rewrite split_npos by done. destruct ps as [|p ps]; [done|].
  rewrite pieces_join; [|done|done|].
  - by apply filter_all.
  - pose proof (length_join ch _ Hne). lia.
Qed.

Theorem split_join (ch : ascii) (ps : list bytes) :
  Forall (fun p => p <> [] /\ ch ∉ p) ps -> len (join ch ps) < npos ->
  split (join ch ps) ch npos = ps.
Proof. apply split_of_join. Qed.

Lemma split_join_witness :
  Forall (fun p => p <> [] /\ "/"%char ∉ p) [bs "api"; bs "v1"] /\
  split (bs "api/v1") "/" npos = [bs "api"; bs "v1"].
Proof.
  assert (H : Forall (fun p => p <> [] /\ "/"%char ∉ p) [bs "api"; bs "v1"])
    by by_compute.
  split; [exact H|]. apply (split_join "/" [bs "api"; bs "v1"] H). vm_compute. done.
Defined.
