(* ===== verification/Charconv.v ===== *)
(** * Number conversions of the C++ standard library

    What the sources use of [<charconv>] and [<cstdlib>]: [std::to_chars] on a
    [size_t] (append_number in include/dracon/http.h, chunk_header in
    include/dracon/stream.h), [std::from_chars] on decimal digits
    (parse_header_field in src/server/http_parser.h) and [std::strtoull]
    (request::content_length).  The lemmas show that each reads back what the
    other printed. *)

From S2P Require Import Prelude.

Local Open Scope Z_scope.

Definition is_digit (c : ascii) : bool := (code "0" <=? code c) && (code c <=? code "9").
Definition digit_value (c : ascii) : Z := code c - code "0".

(** The digit [std::to_chars] writes, lowercase above nine. *)
Definition digit_char (d : Z) : ascii :=
  if d <? 10 then chr (code "0" + d) else chr (code "a" + (d - 10)).

(** The digits of [n], most significant first, without leading zeros.  A
    64-bit number has at most 64 of them in any base from two up. *)
Fixpoint to_digits_loop (fuel : nat) (base n : Z) (acc : list Z) : list Z :=
  match fuel with
  | O => acc
  | S fuel' =>
      let acc' := n mod base :: acc in
      if n / base =? 0 then acc' else to_digits_loop fuel' base (n / base) acc'
  end.
Definition to_digits (base n : Z) : list Z := to_digits_loop 64 base n [].
Definition to_chars (base n : Z) : bytes := digit_char <$> to_digits base n.

Definition eval_digits (base : Z) (ds : list Z) : Z :=
  fold_left (fun v d => v * base + d) ds 0.

(** The longest prefix of decimal digits. *)
Fixpoint digits_prefix (s : bytes) : bytes :=
  match s with
  | [] => []
  | c :: s' => if is_digit c then c :: digits_prefix s' else []
  end.

Definition decimal (ds : bytes) : Z := eval_digits 10 (digit_value <$> ds).

Inductive conv_errc : Type := conv_ok | conv_invalid_argument | conv_out_of_range.
Global Instance conv_errc_eq_dec : EqDecision conv_errc.
Proof. solve_decision. Defined.

(** [std::from_chars(first, last, size_t &)]: how far it read ([ptr]), the
    error, and the value, which is written only on success. *)
Definition from_chars (s : bytes) : nat * conv_errc * Z :=
  let ds := digits_prefix s in
  if decide (ds = []) then (0%nat, conv_invalid_argument, 0)
  else if 2 ^ 64 <=? decimal ds then (length ds, conv_out_of_range, 0)
  else (length ds, conv_ok, decimal ds).

Definition is_space (c : ascii) : bool :=
  (code c =? 32) || ((9 <=? code c) && (code c <=? 13)).

Fixpoint skip_space (s : bytes) : bytes :=
  match s with
  | c :: s' => if is_space c then skip_space s' else s
  | [] => []
  end.

(** [std::strtoull(s, &end, 10)]: the value and the offset of [end]. *)
Definition strtoull (s : bytes) : Z * nat :=
  let t := skip_space s in
  let '(neg, u) :=
    match t with
    | c :: u =>
        if decide (c = "-"%char) then (true, u)
        else if decide (c = "+"%char) then (false, u) else (false, t)
    | [] => (false, t)
    end in
  let ds := digits_prefix u in
  if decide (ds = []) then (0, 0%nat)
  else
    let stop := (length s - length u + length ds)%nat in
    if 2 ^ 64 <=? decimal ds then (2 ^ 64 - 1, stop)
    else (if neg then u64 (- decimal ds) else decimal ds, stop).

(** ** Printing and reading agree *)

Lemma eval_digits_snoc base ds d :
  eval_digits base (ds ++ [d]) = eval_digits base ds * base + d.
Proof. unfold eval_digits. by rewrite fold_left_app. Qed.

(** [to_digits_loop] prepends the digits of [n] to the accumulator. *)
Lemma to_digits_loop_spec fuel base n acc :
  2 <= base -> 0 <= n < base ^ Z.of_nat fuel -> (0 < fuel)%nat ->
  exists ds, to_digits_loop fuel base n acc = ds ++ acc /\
    eval_digits base ds = n /\ ds <> [] /\ Forall (fun d => 0 <= d < base) ds /\
    (forall k, (0 < k)%nat -> n < base ^ Z.of_nat k -> (length ds <= k)%nat).
Proof.
  revert n acc. induction fuel as [|fuel IH]; intros n acc Hb Hn Hf; [lia|].
  cbn [to_digits_loop].
  pose proof (Z.mod_pos_bound n base ltac:(lia)) as Hmod.
  pose proof (Z.div_mod n base ltac:(lia)) as Hdiv.
  destruct (Z.eqb_spec (n / base) 0) as [E|E].
  - exists [n mod base]. split_and!; [done| |done|by apply Forall_singleton|simpl; lia].
    unfold eval_digits; simpl. lia.
  - assert (Hq : 0 <= n / base < base ^ Z.of_nat fuel).
    { split; [apply Z.div_pos; lia|]. apply Z.div_lt_upper_bound; [lia|].
      rewrite <- Z.pow_succ_r, <- Nat2Z.inj_succ by lia. lia. }
    destruct fuel as [|fuel]; [simpl in Hq; lia|].
    destruct (IH (n / base) (n mod base :: acc) Hb Hq ltac:(lia))
      as (ds & Hds & Hev & Hne & Hall & Hlen).
    exists (ds ++ [n mod base]). split_and!.
    + by rewrite Hds, <- app_assoc.
    + rewrite eval_digits_snoc, Hev. lia.
    + by destruct ds.
    + apply Forall_app. split; [done|by apply Forall_singleton].
    + intros [|[|k]] Hk Hlt; [lia| |].
      * rewrite Z.div_small in E by lia. done.
      * rewrite length_app; simpl. enough (length ds <= S k)%nat by lia.
        apply Hlen; [lia|]. apply Z.div_lt_upper_bound; [lia|].
        rewrite <- Z.pow_succ_r, <- Nat2Z.inj_succ by lia. done.
Qed.

Lemma to_digits_spec base n :
  2 <= base -> 0 <= n < 2 ^ 64 ->
  eval_digits base (to_digits base n) = n /\ to_digits base n <> [] /\
  Forall (fun d => 0 <= d < base) (to_digits base n) /\
  (forall k, (0 < k)%nat -> n < base ^ Z.of_nat k -> (length (to_digits base n) <= k)%nat).
Proof.
  intros Hb Hn. unfold to_digits.
  assert (Hp : 2 ^ Z.of_nat 64 <= base ^ Z.of_nat 64) by (apply Z.pow_le_mono_l; lia).
  change (2 ^ Z.of_nat 64) with (2 ^ 64) in Hp.
  destruct (to_digits_loop_spec 64 base n [] Hb ltac:(lia) ltac:(lia))
    as (ds & -> & ? & ? & ? & ?).
  rewrite app_nil_r. done.
Qed.

Lemma digit_char_decimal d :
  0 <= d < 10 -> is_digit (digit_char d) = true /\ digit_value (digit_char d) = d.
Proof.
  intros Hd. unfold is_digit, digit_value, digit_char.
  destruct (Z.ltb_spec d 10); [|lia].
  change (code "0") with 48. change (code "9") with 57.
  rewrite code_chr by lia. lia.
Qed.

Lemma digits_prefix_all s : Forall (fun c => is_digit c = true) s -> digits_prefix s = s.
Proof. induction 1 as [|c s Hc _ IH]; [done|]. simpl. by rewrite Hc, IH. Qed.

Lemma to_chars_decimal n :
  0 <= n < 2 ^ 64 ->
  to_chars 10 n <> [] /\ Forall (fun c => is_digit c = true) (to_chars 10 n) /\
  decimal (to_chars 10 n) = n.
Proof.
  intros Hn. destruct (to_digits_spec 10 n ltac:(lia) Hn) as (Hev & Hne & Hall & _).
  unfold to_chars. split_and!.
  - by destruct (to_digits 10 n).
  - apply Forall_fmap. eapply Forall_impl; [done|]. intros d ?. by apply digit_char_decimal.
  - unfold decimal. rewrite <- list_fmap_compose.
    rewrite <- Hev at 2. f_equal. rewrite <- (list_fmap_id (to_digits 10 n)) at 2.
    apply list_fmap_ext. intros i d Hd. simpl.
    apply digit_char_decimal. exact (Forall_lookup_1 _ _ _ _ Hall Hd).
Qed.

(** What [to_chars] printed is read back whole by [from_chars]. *)
Lemma from_chars_to_chars n :
  0 <= n < 2 ^ 64 -> from_chars (to_chars 10 n) = (length (to_chars 10 n), conv_ok, n).
Proof.
  intros Hn. destruct (to_chars_decimal n Hn) as (Hne & Hall & Hdec).
  unfold from_chars. rewrite digits_prefix_all by done.
  rewrite decide_False by done. rewrite Hdec.
  destruct (Z.leb_spec (2 ^ 64) n); [lia|done].
Qed.

Lemma skip_space_digits s : Forall (fun c => is_digit c = true) s -> skip_space s = s.
Proof.
  intros [|c s' Hc _]; [done|]. simpl.
  enough (is_space c = false) as -> by done.
  revert Hc. unfold is_digit, is_space.
  change (code "0") with 48. change (code "9") with 57. lia.
Qed.

(** A string of digits that fits is read the same way by [strtoull] and by
    [from_chars]. *)
Lemma strtoull_from_chars s n :
  from_chars s = (length s, conv_ok, n) -> strtoull s = (n, length s).
Proof.
  unfold from_chars. case_decide as Hne; [done|].
  destruct (Z.leb_spec (2 ^ 64) (decimal (digits_prefix s))); [done|].
  intros [= Hlen <-].
  assert (Hall : Forall (fun c => is_digit c = true) s).
  { clear -Hlen. induction s as [|c s IH]; [done|]. simpl in Hlen.
    destruct (is_digit c) eqn:E; [|done]. constructor; [done|]. apply IH.
    simpl in Hlen. lia. }
  unfold strtoull. rewrite skip_space_digits by done.
  rewrite digits_prefix_all in * by done.
  destruct s as [|c s]; [done|]. inversion Hall as [|? ? Hc Hs]; subst.
  assert (c <> "-"%char /\ c <> "+"%char) as [Hm Hp] by (split; intros ->; done).
  rewrite !decide_False by done. rewrite digits_prefix_all by done.
  rewrite decide_False by done.
  destruct (Z.leb_spec (2 ^ 64) (decimal (c :: s))); [lia|].
  f_equal. lia.
Qed.

(** ** Conversions give no negative number *)

Lemma eval_digits_nonneg ds acc :
  0 <= acc -> Forall (fun d => 0 <= d) ds -> 0 <= fold_left (fun a d => a * 10 + d) ds acc.
Proof. intros Ha H. revert acc Ha. induction H as [|d ds Hd _ IH]; intros acc Ha; [done|]. apply IH. lia. Qed.

Lemma decimal_nonneg s : 0 <= decimal (digits_prefix s).
Proof.
  unfold decimal, eval_digits. apply eval_digits_nonneg; [lia|]. apply Forall_fmap.
  induction s as [|c s IH]; cbn; [constructor|]. destruct (is_digit c) eqn:Hc; [|constructor].
  constructor; [|done]. unfold is_digit in Hc. unfold digit_value. cbn in *. lia.
Qed.

Lemma from_chars_nonneg s ptr ec n : from_chars s = (ptr, ec, n) -> 0 <= n.
Proof.
  unfold from_chars. pose proof (decimal_nonneg s) as Hd. case_decide; [by intros [= _ _ <-]|].
  destruct (_ <=? _); intros [= _ _ <-]; [lia|done].
Qed.
