(* ===== verification/Http.v ===== *)
(** * Requests and responses: include/dracon/http.h

    The status table and its binary search, header fields, the [response]
    class with its serialization [to_string], the [request] class, and the
    exceptions a session may leave by. *)

From stdpp Require Import sorting.
From S2P Require Import Prelude Utils Charconv.

Local Open Scope Z_scope.

(** ** The status table *)

Definition status_codes : list (Z * bytes) := [
  (100, bs "100 Continue" ++ crlf_string);
  (101, bs "101 Switching Protocols" ++ crlf_string);
  (200, bs "200 OK" ++ crlf_string);
  (201, bs "201 Created" ++ crlf_string);
  (202, bs "202 Accepted" ++ crlf_string);
  (203, bs "203 Non-Authoritative Information" ++ crlf_string);
  (204, bs "204 No Content" ++ crlf_string);
  (205, bs "205 Reset Content" ++ crlf_string);
  (206, bs "206 Partial Content" ++ crlf_string);
  (300, bs "300 Multiple Choices" ++ crlf_string);
  (301, bs "301 Moved Permanently" ++ crlf_string);
  (302, bs "302 Found" ++ crlf_string);
  (303, bs "303 See Other" ++ crlf_string);
  (304, bs "304 Not Modified" ++ crlf_string);
  (305, bs "305 Use Proxy" ++ crlf_string);
  (306, bs "306 Switch Proxy" ++ crlf_string);
  (307, bs "307 Temporary Redirect" ++ crlf_string);
  (400, bs "400 Bad Request" ++ crlf_string);
  (401, bs "401 Unauthorized" ++ crlf_string);
  (402, bs "402 Payment Required" ++ crlf_string);
  (403, bs "403 Forbidden" ++ crlf_string);
  (404, bs "404 Not Found" ++ crlf_string);
  (405, bs "405 Method Not Allowed" ++ crlf_string);
  (406, bs "406 Not Acceptable" ++ crlf_string);
  (407, bs "407 Proxy Authentication Required" ++ crlf_string);
  (408, bs "408 Request Timeout" ++ crlf_string);
  (409, bs "409 Conflict" ++ crlf_string);
  (410, bs "410 Gone" ++ crlf_string);
  (411, bs "411 Length Required" ++ crlf_string);
  (412, bs "412 Precondition Failed" ++ crlf_string);
  (413, bs "413 Request Entity Too Large" ++ crlf_string);
  (414, bs "414 Request-URI Too Long" ++ crlf_string);
  (415, bs "415 Unsupported Media Type" ++ crlf_string);
  (416, bs "416 Requested Range Not Satisfiable" ++ crlf_string);
  (417, bs "417 Expectation Failed" ++ crlf_string);
  (431, bs "431 Request Header Fields Too Large" ++ crlf_string);
  (500, bs "500 Internal Server Error" ++ crlf_string);
  (501, bs "501 Not Implemented" ++ crlf_string);
  (502, bs "502 Bad Gateway" ++ crlf_string);
  (503, bs "503 Service Unavailable" ++ crlf_string);
  (504, bs "504 Gateway Timeout" ++ crlf_string);
  (505, bs "505 HTTP Version Not Supported" ++ crlf_string)].

(** [std::ranges::lower_bound] on the first component: the first index whose
    key is not below [v].  [n] is the length of the range still searched, and
    the fuel its initial value, since every step makes it smaller. *)
Fixpoint lower_bound {A} (fuel : nat) (tbl : list (Z * A)) (v : Z) (first n : nat) : nat :=
  match fuel with
  | O => first
  | S fuel' =>
      if decide (n = 0)%nat then first
      else
        let half := (n / 2)%nat in
        let mid := (first + half)%nat in
        match tbl !! mid with
        | Some (k, _) =>
            if k <? v then lower_bound fuel' tbl v (mid + 1) (n - half - 1)
            else lower_bound fuel' tbl v first half
        | None => first
        end
  end.

(** [detail::status_code_string] *)
Definition status_code_string (status : Z) : bytes :=
  match status_codes !! lower_bound (length status_codes) status_codes status 0 (length status_codes) with
  | Some (k, text) =>
      if k =? status then text else bs "500 Internal Server Error" ++ crlf_string
  | None => bs "500 Internal Server Error" ++ crlf_string
  end.

(** ** Header fields

    [fields] is an [unordered_map]; it is kept as its list of entries in
    iteration order, so that serialization, which follows that order, is a
    function of it.  The lookups below find the one entry of a key. *)

Abbreviation fields := (list (bytes * bytes)).

Fixpoint fields_find (f : fields) (key : bytes) : option bytes :=
  match f with
  | [] => None
  | (k, v) :: f' => if decide (k = key) then Some v else fields_find f' key
  end.

(** [it->second = g(it->second)] on the entry of [key]. *)
Fixpoint fields_update (f : fields) (key : bytes) (g : bytes -> bytes) : fields :=
  match f with
  | [] => []
  | (k, v) :: f' =>
      if decide (k = key) then (k, g v) :: f' else (k, v) :: fields_update f' key g
  end.

(** [try_emplace(key, value)]: the entries, and whether it inserted. *)
Definition fields_try_emplace (f : fields) (key value : bytes) : fields * bool :=
  match fields_find f key with
  | Some _ => (f, false)
  | None => (f ++ [(key, value)], true)
  end.

(** [f[key] = value] *)
Definition fields_set (f : fields) (key value : bytes) : fields :=
  let '(f', inserted) := fields_try_emplace f key value in
  if inserted then f' else fields_update f' key (fun _ => value).

(** ** Serializing header fields *)

(** [detail::response_header_name_equals]: equal up to ASCII case. *)
Definition lower_letter (c : ascii) : ascii :=
  if (code "A" <=? code c) && (code c <=? code "Z") then chr (code c + (code "a" - code "A")) else c.

Definition response_header_name_equals (lhs rhs : bytes) : bool :=
  (length lhs =? length rhs)%nat &&
  forallb (fun '(a, b) => bool_decide (lower_letter a = lower_letter b)) (zip lhs rhs).

(** [detail::append_header_part]: CR, LF and NUL become a space. *)
Definition clean_char (c : ascii) : ascii :=
  if decide (c = CR \/ c = LF \/ c = NUL) then SP else c.
Definition append_header_part (out part : bytes) : bytes := out ++ (clean_char <$> part).

(** [detail::append_number] *)
Definition append_number (out : bytes) (value : Z) : bytes := out ++ to_chars 10 value.

(** [dracon::chunked_data]: the length of a body which is not known. *)
Definition chunked_data : Z := 2 ^ 64 - 1.

(** ** Responses *)

Record response : Type := mk_response {
  r_fields : fields;
  m_status_code : Z;
  m_body : bytes;
  m_content_length : Z;
  m_response_keep_alive : Z;
}.

(** [response(status_code, body, fields)] *)
Definition make_response (status : Z) (body : bytes) (flds : fields) : response :=
  mk_response flds status body (len body) (-1).

Definition set_status_code (r : response) (status : Z) : response :=
  mk_response (r_fields r) status (m_body r) (m_content_length r) (m_response_keep_alive r).
Definition set_content_length (r : response) (length : Z) : response :=
  mk_response (r_fields r) (m_status_code r) [] length (m_response_keep_alive r).
Definition response_set_keep_alive (r : response) (seconds : Z) : response :=
  mk_response (r_fields r) (m_status_code r) (m_body r) (m_content_length r) seconds.
Definition set_body (r : response) (body : bytes) : response :=
  mk_response (r_fields r) (m_status_code r) body (len body) (m_response_keep_alive r).

(** [operator ""_http]: the literal is narrowed to 16 bits. *)
Definition http_literal (status : Z) : response := make_response (status mod 2 ^ 16) [] [].

Definition computed_name (name : bytes) : bool :=
  response_header_name_equals name (bs "Content-Length") ||
  response_header_name_equals name (bs "Transfer-Encoding") ||
  response_header_name_equals name (bs "Keep-Alive") ||
  response_header_name_equals name (bs "Connection").

(** The loop of [to_string] over the header fields. *)
Fixpoint append_fields (res : bytes) (f : fields) : bytes :=
  match f with
  | [] => res
  | (name, value) :: f' =>
      if computed_name name then append_fields res f'
      else
        append_fields
          (append_header_part (append_header_part res name ++ bs ": ") value ++ crlf_string) f'
  end.

Definition effective_status (r : response) : Z :=
  if m_status_code r =? 0 then 500 else m_status_code r.
Definition informational (r : response) : bool :=
  (100 <=? effective_status r) && (effective_status r <? 200).
Definition body_less (r : response) : bool :=
  informational r || (effective_status r =? 204).

(** [response::to_string(keep_alive_override)] *)
Definition to_string (r : response) (keep_alive_override : Z) : bytes :=
  let res := bs "HTTP/1.1 " ++ status_code_string (effective_status r) in
  let res := append_fields res (r_fields r) in
  let keep_alive :=
    if keep_alive_override =? -1 then m_response_keep_alive r else keep_alive_override in
  let res :=
    if body_less r then res
    else if m_content_length r =? chunked_data then
      res ++ bs "Transfer-Encoding: chunked" ++ crlf_string
    else append_number (res ++ bs "Content-Length: ") (m_content_length r) ++ crlf_string in
  let res :=
    if informational r then res
    else if 0 <? keep_alive then
      append_number (res ++ bs "Keep-Alive: timeout=") (u64 keep_alive)
        ++ crlf_string ++ bs "Connection: keep-alive" ++ crlf_string
    else res ++ bs "Connection: close" ++ crlf_string in
  let res := res ++ crlf_string in
  if body_less r then res else res ++ m_body r.

(** ** What a session may leave by *)

(** The [std::error_code]s the server produces and tests for. *)
Inductive errc : Type :=
  | io_error | timed_out | operation_canceled | connection_reset
  | bad_argument | errno (n : Z).

Inductive exn : Type :=
  | ExInt (status : Z)                  (** [throw 404;] *)
  | ExResponse (r : response)           (** [throw response{...};] *)
  | ExStd (e : std_exception)           (** anything derived from std::exception *)
  | ExErrorCode (ec : errc)             (** [throw ec;] *)
  | ExUnknown.                          (** caught by [catch (...)] only *)

Global Instance errc_eq_dec : EqDecision errc.
Proof. solve_decision. Defined.
Global Instance response_eq_dec : EqDecision response.
Proof. solve_decision. Defined.
Global Instance exn_eq_dec : EqDecision exn.
Proof. solve_decision. Defined.

(** ** Requests *)

Inductive parse_state : Type :=
  | uninitialized | processing_url | processing_header
  | headers_completed | processing_body | completed.

Global Instance parse_state_eq_dec : EqDecision parse_state.
Proof. solve_decision. Defined.

Section request.
(** What the body callback of a session works on: the local variables of the
    session the callback captures by reference. *)
Context {B : Type}.

Definition body_callback : Type := bytes -> M B exn unit.

Record request : Type := mk_request {
  q_fields : fields;
  m_req_keep_alive : bool;
  m_url : bytes;
  m_method : bytes;
  m_callback : option body_callback;
  m_state : parse_state;
  m_max_body_size : Z;
}.

(** [request() = default] *)
Definition new_request : request := mk_request [] false [] [] None uninitialized 0.

Definition set_state (q : request) (s : parse_state) : request :=
  mk_request (q_fields q) (m_req_keep_alive q) (m_url q) (m_method q) (m_callback q) s
    (m_max_body_size q).
Definition set_url (q : request) (url : bytes) : request :=
  mk_request (q_fields q) (m_req_keep_alive q) url (m_method q) (m_callback q) (m_state q)
    (m_max_body_size q).
Definition set_method (q : request) (method : bytes) : request :=
  mk_request (q_fields q) (m_req_keep_alive q) (m_url q) method (m_callback q) (m_state q)
    (m_max_body_size q).
Definition set_req_keep_alive (q : request) (keep : bool) : request :=
  mk_request (q_fields q) keep (m_url q) (m_method q) (m_callback q) (m_state q)
    (m_max_body_size q).
Definition set_fields (q : request) (f : fields) : request :=
  mk_request f (m_req_keep_alive q) (m_url q) (m_method q) (m_callback q) (m_state q)
    (m_max_body_size q).

(** [append_body_callback(callback, max_size)] *)
Definition append_body_callback (q : request) (callback : body_callback) (max_size : Z)
    : request :=
  mk_request (q_fields q) (m_req_keep_alive q) (m_url q) (m_method q) (Some callback)
    (m_state q) max_size.

(** [append_body(body)] *)
Definition append_body (q : request) (body : bytes) : M B exn unit :=
  match m_callback q with
  | None => throw (ExResponse (make_response 400 (bs "unexpected body") []))
  | Some callback => callback body
  end.

(** [content_length()] *)
Definition content_length (q : request) : Z :=
  match fields_find (q_fields q) (bs "Content-Length") with
  | Some value =>
      let '(length_, stop) := strtoull value in
      if decide (stop = length value) then length_ else chunked_data
  | None => chunked_data
  end.
End request.
Arguments request : clear implicits.
Arguments body_callback : clear implicits.

(** ** The status table is searched correctly *)

Definition keys {A} (tbl : list (Z * A)) : list Z := fst <$> tbl.

Fixpoint assoc {A} (tbl : list (Z * A)) (v : Z) : option A :=
  match tbl with
  | [] => None
  | (k, a) :: tbl' => if decide (k = v) then Some a else assoc tbl' v
  end.

Lemma assoc_None {A} (tbl : list (Z * A)) v : assoc tbl v = None <-> v ∉ keys tbl.
Proof.
  induction tbl as [|[k a] tbl IH]; simpl; [set_solver|].
  case_decide; set_solver.
Qed.

Lemma assoc_lookup {A} (tbl : list (Z * A)) i k a :
  StronglySorted Z.lt (keys tbl) -> tbl !! i = Some (k, a) -> assoc tbl k = Some a.
Proof.
  revert i. induction tbl as [|[k' a'] tbl IH]; intros i Hs Hi; [done|].
  inversion Hs as [|? ? Hs' Hall]; subst. simpl. destruct i as [|i]; simpl in Hi.
  - injection Hi as -> ->. by case_decide.
  - rewrite decide_False; [eauto|]. intros ->.
    rewrite Forall_forall in Hall.
    assert (k ∈ keys tbl) as Hk
      by (apply list_elem_of_fmap; exists (k, a); split; [done|by eapply list_elem_of_lookup_2]).
    specialize (Hall k Hk). lia.
Qed.

Lemma sorted_keys_lt {A} (tbl : list (Z * A)) i j x y :
  StronglySorted Z.lt (keys tbl) -> tbl !! i = Some x -> tbl !! j = Some y -> (i < j)%nat ->
  x.1 < y.1.
Proof.
  intros Hs Hi Hj Hlt. revert i j Hi Hj Hlt.
  induction tbl as [|z tbl IH]; intros i j Hi Hj Hlt; [done|].
  inversion Hs as [|? ? Hs' Hall]; subst.
  destruct j as [|j]; [lia|]. destruct i as [|i]; simpl in *.
  - injection Hi as ->. rewrite Forall_forall in Hall. apply Hall.
    apply list_elem_of_fmap. exists y. split; [done|]. by eapply list_elem_of_lookup_2.
  - eapply IH; eauto. lia.
Qed.

(** Everything below the returned index is below [v], everything from it on
    is not. *)
Lemma lower_bound_spec {A} fuel (tbl : list (Z * A)) v first n :
  StronglySorted Z.lt (keys tbl) -> (n <= fuel)%nat -> (first + n <= length tbl)%nat ->
  (forall i x, tbl !! i = Some x -> (i < first)%nat -> x.1 < v) ->
  (forall i x, tbl !! i = Some x -> (first + n <= i)%nat -> v <= x.1) ->
  let r := lower_bound fuel tbl v first n in
  (forall i x, tbl !! i = Some x -> (i < r)%nat -> x.1 < v) /\
  (forall i x, tbl !! i = Some x -> (r <= i)%nat -> v <= x.1).
Proof.
  intros Hs. revert first n. induction fuel as [|fuel IH]; intros first n Hf Hlen Hlo Hhi.
  { simpl. assert (n = 0)%nat as -> by lia. rewrite Nat.add_0_r in Hhi. done. }
  cbn [lower_bound]. case_decide as Hn; [subst; rewrite Nat.add_0_r in Hhi; done|].
  pose proof (Nat.div_lt n 2 ltac:(lia) ltac:(lia)) as Hhalf.
  destruct (tbl !! (first + n / 2)%nat) as [[k a]|] eqn:Hmid.
  2:{ apply lookup_ge_None in Hmid. lia. }
  destruct (Z.ltb_spec k v) as [Hlt|Hge].
  - apply IH; [lia|lia| |].
    + intros i x Hx Hi. destruct (decide (i = first + n / 2)%nat) as [->|].
      * rewrite Hmid in Hx. by injection Hx as <-.
      * enough (x.1 < k) by lia.
        exact (sorted_keys_lt tbl _ _ _ (k, a) Hs Hx Hmid ltac:(lia)).
    + intros i x Hx Hi. apply (Hhi i); [done|lia].
  - apply IH; [lia|lia|done|].
    intros i x Hx Hi. destruct (decide (i = first + n / 2)%nat) as [->|].
    + rewrite Hmid in Hx. by injection Hx as <-.
    + enough (k < x.1) by lia.
      exact (sorted_keys_lt tbl _ _ (k, a) _ Hs Hmid Hx ltac:(lia)).
Qed.

Lemma status_codes_sorted : StronglySorted Z.lt (keys status_codes).
Proof. apply Sorted_StronglySorted; [exact Z.lt_trans|]. by_compute. Qed.

(** The binary search finds exactly the code's own line of the table, and a
    code the table does not have is sent as a 500. *)
Lemma status_code_string_spec (status : Z) :
  status_code_string status =
    default (bs "500 Internal Server Error" ++ crlf_string) (assoc status_codes status).
Proof.
  pose proof (lower_bound_spec (length status_codes) status_codes status 0 (length status_codes)
    status_codes_sorted) as Hlb.
  unfold status_code_string. cbn zeta in Hlb.
  set (r := lower_bound _ _ _ _ _) in *. clearbody r.
  destruct Hlb as [Hlo Hhi]; [lia|lia|intros; lia|intros i x Hx%lookup_lt_Some; lia|].
  destruct (assoc status_codes status) as [text|] eqn:Ha.
  - assert (exists i, status_codes !! i = Some (status, text)) as [i Hi].
    { revert Ha. generalize status_codes. intros tbl. induction tbl as [|[k a] tbl IH]; [done|].
      simpl. case_decide; [intros [= ->]; subst; by exists 0%nat|].
      intros [i Hi]%IH. by exists (S i). }
    destruct (decide (i = r)) as [->|Hne]; [rewrite Hi, Z.eqb_refl; done|].
    assert (r < i)%nat as Hri.
    { destruct (Nat.lt_ge_cases i r) as [H|]; [|lia].
      pose proof (Hlo i _ Hi H) as Hc. simpl in Hc. lia. }
    destruct (lookup_lt_is_Some_2 status_codes r) as [x Hx].
    { apply lookup_lt_Some in Hi. lia. }
    pose proof (sorted_keys_lt _ _ _ _ _ status_codes_sorted Hx Hi Hri) as Hc. simpl in Hc.
    pose proof (Hhi r x Hx ltac:(lia)). lia.
  - destruct (status_codes !! r) as [[k text]|] eqn:Hr; [|done].
    destruct (Z.eqb_spec k status) as [->|]; [|done].
    by rewrite (assoc_lookup _ _ _ _ status_codes_sorted Hr) in Ha.
Qed.

(** The binary search of status_code_string finds the text of a status that is in
    the table, and answers 500 for any other. *)
Theorem status_code_string_correct (status : Z) :
  status_code_string status =
    default (bs "500 Internal Server Error" ++ crlf_string) (assoc status_codes status).
Proof. apply status_code_string_spec. Qed.

(** ** A serialized response has exactly the lines it should *)

(** How a client reads the head of a response: LF terminated lines, a CR
    before the LF dropped, up to the first empty line. *)
Definition strip_cr (line : bytes) : bytes :=
  match last line with
  | Some c => if decide (c = CR) then take (length line - 1) line else line
  | None => line
  end.

Fixpoint read_head (fuel : nat) (s : bytes) : option (list bytes * bytes) :=
  match fuel with
  | O => None
  | S fuel' =>
      match find_char LF s with
      | None => None
      | Some k =>
          let line := strip_cr (take k s) in
          let rest := drop (S k) s in
          if decide (line = []) then Some ([], rest)
          else '(lines, body) ← read_head fuel' rest; Some (line :: lines, body)
      end
  end.

(** A line of the head: not empty, and without CR or LF in it. *)
Definition head_line (l : bytes) : Prop := (l <> []) /\ (CR ∉ l) /\ (LF ∉ l).

Definition terminated (ls : list bytes) : bytes := concat ((fun l => l ++ crlf_string) <$> ls).

Lemma terminated_app ls ls' : terminated (ls ++ ls') = terminated ls ++ terminated ls'.
Proof. unfold terminated. by rewrite fmap_app, concat_app. Qed.

Lemma read_line l rest :
  CR ∉ l -> LF ∉ l ->
  find_char LF (l ++ crlf_string ++ rest) = Some (S (length l)) /\
  strip_cr (take (S (length l)) (l ++ crlf_string ++ rest)) = l /\
  drop (S (S (length l))) (l ++ crlf_string ++ rest) = rest.
Proof.
  intros Hcr Hlf.
  replace (l ++ crlf_string ++ rest) with ((l ++ [CR]) ++ LF :: rest)
    by (by rewrite <- app_assoc).
  replace (S (length l)) with (length (l ++ [CR])) by (rewrite length_app; simpl; lia).
  split_and!.
  - apply find_char_first. set_solver.
  - rewrite take_app_length. unfold strip_cr. rewrite last_snoc, decide_True by done.
    rewrite length_app. simpl. replace (length l + 1 - 1)%nat with (length l) by lia.
    apply take_app_length.
  - replace (S (length (l ++ [CR]))) with (length (l ++ [CR]) + 1)%nat by lia.
    by rewrite <- drop_drop, drop_app_length.
Qed.

Lemma read_head_lines fuel ls body :
  Forall head_line ls -> (length ls < fuel)%nat ->
  read_head fuel (terminated ls ++ crlf_string ++ body) = Some (ls, body).
Proof.
  intros Hall. revert fuel. induction Hall as [|l ls (Hne & Hcr & Hlf) _ IH]; intros fuel Hf;
    (destruct fuel as [|fuel]; [simpl in Hf; lia|]).
  - cbn [read_head]. change (terminated []) with (@nil ascii). rewrite app_nil_l.
    destruct (read_line [] body ltac:(set_solver) ltac:(set_solver)) as (H1 & H2 & H3).
    change ([] ++ ?x) with x in *. change (S (length [])) with 1%nat in *.
    by rewrite H1, H2, H3, decide_True.
  - cbn [read_head]. change (terminated (l :: ls)) with ((l ++ crlf_string) ++ terminated ls).
    rewrite <- !app_assoc.
    destruct (read_line l (terminated ls ++ crlf_string ++ body) Hcr Hlf) as (H1 & H2 & H3).
    rewrite H1, H2, H3, decide_False by done. rewrite IH by (simpl in Hf; lia). done.
Qed.

Definition header_line (kv : bytes * bytes) : bytes :=
  (clean_char <$> kv.1) ++ bs ": " ++ (clean_char <$> kv.2).

Abbreviation kept := (filter (fun kv : bytes * bytes => computed_name kv.1 = false)).

Definition status_text (r : response) : bytes :=
  match assoc status_codes (effective_status r) with
  | Some line => take (length line - 2) line
  | None => bs "500 Internal Server Error"
  end.

(** The header lines [to_string] computes from the body and the connection. *)
Definition computed_lines (r : response) (keep_alive_override : Z) : list bytes :=
  let keep_alive :=
    if keep_alive_override =? -1 then m_response_keep_alive r else keep_alive_override in
  (if body_less r then []
   else if m_content_length r =? chunked_data then [bs "Transfer-Encoding: chunked"]
   else [bs "Content-Length: " ++ to_chars 10 (m_content_length r)]) ++
  (if informational r then []
   else if 0 <? keep_alive then
     [bs "Keep-Alive: timeout=" ++ to_chars 10 (u64 keep_alive); bs "Connection: keep-alive"]
   else [bs "Connection: close"]).

Definition response_lines (r : response) (keep_alive_override : Z) : list bytes :=
  (bs "HTTP/1.1 " ++ status_text r) ::
  (header_line <$> kept (r_fields r)) ++ computed_lines r keep_alive_override.

Lemma append_fields_app res f :
  append_fields res f = res ++ terminated (header_line <$> kept f).
Proof.
  revert res. induction f as [|[n v] f IH]; intros res; simpl; [by rewrite app_nil_r|].
  rewrite filter_cons. simpl. destruct (computed_name n) eqn:E.
  - by rewrite IH, decide_False by done.
  - rewrite IH, decide_True by done. unfold append_header_part, header_line. cbn.
    by rewrite <- !app_assoc.
Qed.

Lemma status_codes_lines :
  Forall (fun kl : Z * bytes =>
    exists t, kl.2 = t ++ crlf_string /\ take (length kl.2 - 2) kl.2 = t /\ head_line t)
    status_codes.
Proof.
  assert (H : Forall (fun kl : Z * bytes =>
      (kl.2 = take (length kl.2 - 2) kl.2 ++ crlf_string) /\
      (take (length kl.2 - 2) kl.2 <> []) /\
      (CR ∉ take (length kl.2 - 2) kl.2) /\ (LF ∉ take (length kl.2 - 2) kl.2)) status_codes)
    by by_compute.
  eapply Forall_impl; [exact H|]. intros [k l] (H1 & H2). simpl in *.
  eexists. split_and!; [exact H1|done|exact H2].
Qed.

Lemma status_line_text r :
  status_code_string (effective_status r) = status_text r ++ crlf_string /\
  head_line (status_text r).
Proof.
  rewrite status_code_string_spec. unfold status_text.
  destruct (assoc status_codes (effective_status r)) as [l|] eqn:E; simpl.
  - assert (exists k, (k, l) ∈ status_codes) as [k Hk].
    { revert E. generalize status_codes. intros tbl. induction tbl as [|[k a] tbl IH]; [done|].
      simpl. case_decide; [intros [= ->]; exists k; set_solver|].
      intros [k' Hk']%IH. exists k'. set_solver. }
    pose proof status_codes_lines as H. rewrite Forall_forall in H.
    destruct (H _ Hk) as (t & H1 & H2 & H3). simpl in *. by rewrite H2.
  - split; [done|]. unfold head_line. by_compute.
Qed.

Lemma clean_char_ok c : clean_char c <> CR /\ clean_char c <> LF /\ clean_char c <> NUL.
Proof. unfold clean_char. case_decide; [done|]. naive_solver. Qed.

Lemma clean_no_ctl (s : bytes) : (CR ∉ clean_char <$> s) /\ (LF ∉ clean_char <$> s).
Proof.
  split; intros (c & Hc & _)%list_elem_of_fmap; pose proof (clean_char_ok c); naive_solver.
Qed.

Lemma header_line_ok kv : head_line (header_line kv).
Proof.
  unfold header_line. destruct (clean_no_ctl kv.1), (clean_no_ctl kv.2).
  split_and!; [by destruct (clean_char <$> kv.1)|..];
    rewrite !not_elem_of_app; split_and!; try done; by_compute.
Qed.

Lemma digits_head_line s t :
  s <> [] -> CR ∉ s -> LF ∉ s -> Forall (fun c => is_digit c = true) t -> head_line (s ++ t).
Proof.
  intros Hne Hcr Hlf Ht. rewrite Forall_forall in Ht.
  split_and!; [by destruct s|..]; rewrite not_elem_of_app; split; try done;
    intros Hc%Ht; by vm_compute in Hc.
Qed.

Lemma computed_lines_ok r ka :
  0 <= m_content_length r < 2 ^ 64 -> Forall head_line (computed_lines r ka).
Proof.
  intros Hcl. unfold computed_lines.
  assert (Hnum : forall s n, s <> [] -> CR ∉ s -> LF ∉ s -> 0 <= n < 2 ^ 64 ->
    head_line (s ++ to_chars 10 n)).
  { intros s n ? ? ? Hn. apply digits_head_line; try done. by apply to_chars_decimal. }
  assert (Hlit : Forall head_line [bs "Transfer-Encoding: chunked"; bs "Connection: keep-alive";
    bs "Connection: close"]) by (unfold head_line; by_compute).
  rewrite !Forall_cons in Hlit. destruct Hlit as (H1 & H2 & H3 & _).
  assert (bs "Content-Length: " <> [] /\ (CR ∉ bs "Content-Length: ") /\ (LF ∉ bs "Content-Length: "))
    as (?&?&?) by by_compute.
  assert (bs "Keep-Alive: timeout=" <> [] /\ (CR ∉ bs "Keep-Alive: timeout=") /\
    (LF ∉ bs "Keep-Alive: timeout=")) as (?&?&?) by by_compute.
  apply Forall_app; split.
  - destruct (body_less r); [by apply Forall_nil|].
    destruct (m_content_length r =? chunked_data); apply Forall_singleton; auto.
  - destruct (informational r); [by apply Forall_nil|].
    destruct (0 <? _); [|by apply Forall_singleton].
    apply Forall_cons. split; [auto using u64_range|by apply Forall_singleton].
Qed.

Lemma response_lines_ok r ka :
  0 <= m_content_length r < 2 ^ 64 -> Forall head_line (response_lines r ka).
Proof.
  intros Hcl. constructor.
  - destruct (status_line_text r) as (_ & Hne & Hcr & Hlf).
    assert ((CR ∉ bs "HTTP/1.1 ") /\ (LF ∉ bs "HTTP/1.1 ")) as [? ?] by by_compute.
    split_and!; [done|..]; rewrite not_elem_of_app; done.
  - apply Forall_app. split; [|by apply computed_lines_ok].
    apply Forall_fmap, Forall_true. intros kv. apply header_line_ok.
Qed.

Lemma to_string_lines r ka :
  to_string r ka =
    terminated (response_lines r ka) ++ crlf_string ++ (if body_less r then [] else m_body r).
Proof.
  destruct (status_line_text r) as [Hst _].
  unfold to_string, response_lines. rewrite Hst, append_fields_app.
  change (terminated (?x :: ?l)) with ((x ++ crlf_string) ++ terminated l).
  rewrite terminated_app. unfold computed_lines, append_number.
  unfold body_less. generalize (if ka =? -1 then m_response_keep_alive r else ka). intros k.
  destruct (informational r); cbn [orb];
    destruct (effective_status r =? 204); destruct (m_content_length r =? chunked_data);
    destruct (0 <? k); unfold terminated; cbn [fmap list_fmap concat app];
    rewrite ?app_nil_r, <- ?app_assoc; done.
Qed.

(** C20: The head of a response, other than a 204 and the statuses below 200 that
    the table does not have, as an RFC 9112 reader splits it into lines,
    is the status line, the session's own fields with line breaks blanked
    and the framing fields of the server's own, and nothing else: no
    header value can add a line or a body. *)
Theorem to_string_reads_back (r : response) (keep_alive_override : Z) :
  0 <= m_content_length r < 2 ^ 64 -> effective_status r <> 204 ->
  (informational r = true -> assoc status_codes (effective_status r) <> None) ->
  read_head (S (length (response_lines r keep_alive_override)))
    (to_string r keep_alive_override) =
  Some (response_lines r keep_alive_override, if body_less r then [] else m_body r).
Proof.
  intros Hcl _ _. rewrite to_string_lines. apply read_head_lines; [|lia].
  by apply response_lines_ok.
Qed.

Lemma to_string_reads_back_witness :
  let r := make_response 200 (bs "hi") [(bs "X", [CR; LF] ++ bs "Set-Cookie: a")] in
  0 <= m_content_length r < 2 ^ 64 /\
  read_head 6 (to_string r 0) = Some (response_lines r 0, bs "hi").
Proof.
  set (r := make_response 200 (bs "hi") [(bs "X", [CR; LF] ++ bs "Set-Cookie: a")]).
  assert (H : 0 <= m_content_length r < 2 ^ 64) by (vm_compute; intuition congruence).
  split; [exact H|]. apply (to_string_reads_back r 0 H); [discriminate|intros [=]].
Defined.

(** A 204 goes out with the connection headers the documentation says it goes
    without. *)
Theorem no_content_has_connection_headers :
  to_string (make_response 204 [] []) 10 =
    bs "HTTP/1.1 204 No Content" ++ crlf_string ++ bs "Keep-Alive: timeout=10" ++ crlf_string ++
    bs "Connection: keep-alive" ++ crlf_string ++ crlf_string.
Proof. vm_compute. reflexivity. Qed.

(** A status between 100 and 199 the table does not have goes out with the
    status line of a 500 but framed as an informational response: no
    Content-Length, no Connection header, no body. *)
Theorem unknown_informational_is_unframed_500 (r : response) (keep_alive_override : Z) :
  100 <= m_status_code r < 200 -> assoc status_codes (m_status_code r) = None ->
  to_string r keep_alive_override =
    bs "HTTP/1.1 500 Internal Server Error" ++ crlf_string ++
    terminated (header_line <$> kept (r_fields r)) ++ crlf_string.
Proof.
  intros Hr Ha.
  assert (He : effective_status r = m_status_code r)
    by (unfold effective_status; destruct (Z.eqb_spec (m_status_code r) 0); lia).
  assert (Hi : informational r = true) by (unfold informational; rewrite He; lia).
  assert (Hb : body_less r = true) by (unfold body_less; by rewrite Hi).
  rewrite to_string_lines. unfold response_lines, computed_lines, status_text.
  rewrite He, Ha, Hi, Hb. simpl. rewrite !app_nil_r. done.
Qed.

Lemma unknown_informational_is_unframed_500_witness :
  (100 <= 102 < 200) /\ assoc status_codes 102 = None /\
  to_string (make_response 102 (bs "body") []) 10 =
    bs "HTTP/1.1 500 Internal Server Error" ++ crlf_string ++ [] ++ crlf_string.
Proof.
  split; [lia|]. split; [reflexivity|].
  apply (unknown_informational_is_unframed_500 (make_response 102 (bs "body") []) 10);
    [simpl; lia|reflexivity].
Defined.
