(* ===== verification/HttpParser.v ===== *)
(** * The incremental request parser: src/server/http_parser.h

    [http_request_parser] as a state machine over the parser's members, the
    request it fills in and the variables the session's body callback works
    on.  A call receives the bytes available and returns how many it consumed;
    the theorems are in [HeadProofs] and [BodyProofs]. *)

From S2P Require Import Prelude Utils Charconv Http.

Local Open Scope Z_scope.

(** ** http_parser_detail: character classes *)

Definition token_char : Z := 1.
Definition TargetChar : Z := 2.
Definition value_char : Z := 4.
Definition hex_char : Z := 8.

Definition is_alpha (c : Z) : bool :=
  ((code "a" <=? c) && (c <=? code "z")) || ((code "A" <=? c) && (c <=? code "Z")).
Definition is_dec (c : Z) : bool := (code "0" <=? c) && (c <=? code "9").

(** One entry of [make_char_table()]. *)
Definition char_table_entry (c : Z) : Z :=
  let t := 0 in
  let t := if is_alpha c || is_dec c ||
              bool_decide (chr c ∈ bs "!#$%&'*+-.^_`|~")
           then Z.lor t token_char else t in
  let t := if (0x20 <? c) && (c <? 0x7f) then Z.lor t TargetChar else t in
  let t := if (c =? 9) || ((0x20 <=? c) && negb (c =? 0x7f)) then Z.lor t value_char else t in
  let t := if is_dec c || ((code "a" <=? c) && (c <=? code "f"))
              || ((code "A" <=? c) && (c <=? code "F"))
           then Z.lor t hex_char else t in
  t.

Definition char_table : list Z := char_table_entry <$> seqZ 0 256.

(** [char_table[c] & char_class] is not zero. *)
Definition has_class (c : ascii) (char_class : Z) : bool :=
  negb (Z.land (nth (Z.to_nat (code c)) char_table 0) char_class =? 0).

Definition all_chars (str : bytes) (char_class : Z) : bool :=
  forallb (fun c => has_class c char_class) str.

Definition to_lower_ascii (c : ascii) : ascii :=
  if (code "A" <=? code c) && (code c <=? code "Z") then chr (code c + 32) else c.
Definition to_upper_ascii (c : ascii) : ascii :=
  if (code "a" <=? code c) && (code c <=? code "z") then chr (code c - 32) else c.
Definition hex_value (c : ascii) : Z :=
  if code c <=? code "9" then code c - code "0" else code (to_lower_ascii c) - code "a" + 10.

Fixpoint iequals (a b : bytes) : bool :=
  match a, b with
  | [], [] => true
  | x :: a', y :: b' => bool_decide (to_lower_ascii x = to_lower_ascii y) && iequals a' b'
  | _, _ => false
  end.

Definition is_ows (c : ascii) : bool := bool_decide (c = SP) || bool_decide (c = HTAB).

Fixpoint trim_left (s : bytes) : bytes :=
  match s with
  | c :: s' => if is_ows c then trim_left s' else s
  | [] => []
  end.
Definition trim_ows (s : bytes) : bytes := reverse (trim_left (reverse (trim_left s))).

(** The tokens [for_each_token] hands to its callback, in order.  Each round
    drops a comma, so the length of the value bounds the rounds. *)
Fixpoint tokens_loop (fuel : nat) (value : bytes) : list bytes :=
  let emit (s : bytes) := let t := trim_ows s in if decide (t = []) then [] else [t] in
  match fuel with
  | O => []
  | S fuel' =>
      match find_char "," value with
      | None => emit value
      | Some comma => emit (take comma value) ++ tokens_loop fuel' (drop (comma + 1) value)
      end
  end.
Definition for_each_token (value : bytes) : list bytes := tokens_loop (S (length value)) value.

Fixpoint canonical_from (upper : bool) (name : bytes) : bytes :=
  match name with
  | [] => []
  | c :: name' =>
      (if upper then to_upper_ascii c else to_lower_ascii c)
        :: canonical_from (bool_decide (c = "-"%char)) name'
  end.
Definition canonical_name (name : bytes) : bytes := canonical_from true name.

(** ** Lines *)

Record line : Type := mk_line { text : bytes; next : nat }.

(** [next_line(data, pos, line)]: the LF or CRLF terminated line at [pos]. *)
Definition next_line (data : bytes) (pos : nat) : option line :=
  match find_from LF data pos with
  | None => None
  | Some lf =>
      let stop :=
        if bool_decide (pos < lf)%nat && bool_decide (data !! (lf - 1)%nat = Some CR)
        then (lf - 1)%nat else lf in
      Some (mk_line (substr data pos (stop - pos)) (lf + 1))
  end.

(** ** The parser's members *)

Inductive head : Type := head_request_line | head_headers | head_done.
Inductive body : Type := body_none | body_content_length | body_chunked.
Inductive chunk : Type := chunk_Size | chunk_Data | chunk_data_end | chunk_trailers.

Global Instance head_eq_dec : EqDecision head. Proof. solve_decision. Defined.
Global Instance body_eq_dec : EqDecision body. Proof. solve_decision. Defined.
Global Instance chunk_eq_dec : EqDecision chunk. Proof. solve_decision. Defined.

Definition max_head_size : Z := 8 * 1024.
Definition max_headers_count : Z := 100.
Definition max_chunk_line_size : Z := 1024.

Record parser : Type := mk_parser {
  m_head : head;
  m_parser_body : body;
  m_chunk : chunk;
  m_head_seen : Z;
  m_headers : Z;
  m_remaining : Z;
  m_received : Z;
  m_parsed_length : Z;
  m_http11 : bool;
  m_has_content_length : bool;
  m_chunked : bool;
  m_close : bool;
  m_keep_alive : bool;
}.

(** A parser just constructed. *)
Definition new_parser : parser :=
  mk_parser head_request_line body_none chunk_Size 0 0 0 0 0 false false false false false.

Definition with_head (h : head) (p : parser) : parser :=
  mk_parser h (m_parser_body p) (m_chunk p) (m_head_seen p) (m_headers p) (m_remaining p)
    (m_received p) (m_parsed_length p) (m_http11 p) (m_has_content_length p) (m_chunked p)
    (m_close p) (m_keep_alive p).
Definition with_body (b : body) (p : parser) : parser :=
  mk_parser (m_head p) b (m_chunk p) (m_head_seen p) (m_headers p) (m_remaining p)
    (m_received p) (m_parsed_length p) (m_http11 p) (m_has_content_length p) (m_chunked p)
    (m_close p) (m_keep_alive p).
Definition with_chunk (c : chunk) (p : parser) : parser :=
  mk_parser (m_head p) (m_parser_body p) c (m_head_seen p) (m_headers p) (m_remaining p)
    (m_received p) (m_parsed_length p) (m_http11 p) (m_has_content_length p) (m_chunked p)
    (m_close p) (m_keep_alive p).
Definition with_head_seen (n : Z) (p : parser) : parser :=
  mk_parser (m_head p) (m_parser_body p) (m_chunk p) n (m_headers p) (m_remaining p)
    (m_received p) (m_parsed_length p) (m_http11 p) (m_has_content_length p) (m_chunked p)
    (m_close p) (m_keep_alive p).
Definition with_headers (n : Z) (p : parser) : parser :=
  mk_parser (m_head p) (m_parser_body p) (m_chunk p) (m_head_seen p) n (m_remaining p)
    (m_received p) (m_parsed_length p) (m_http11 p) (m_has_content_length p) (m_chunked p)
    (m_close p) (m_keep_alive p).
Definition with_remaining (n : Z) (p : parser) : parser :=
  mk_parser (m_head p) (m_parser_body p) (m_chunk p) (m_head_seen p) (m_headers p) n
    (m_received p) (m_parsed_length p) (m_http11 p) (m_has_content_length p) (m_chunked p)
    (m_close p) (m_keep_alive p).
Definition with_received (n : Z) (p : parser) : parser :=
  mk_parser (m_head p) (m_parser_body p) (m_chunk p) (m_head_seen p) (m_headers p)
    (m_remaining p) n (m_parsed_length p) (m_http11 p) (m_has_content_length p) (m_chunked p)
    (m_close p) (m_keep_alive p).
Definition with_content_length (n : Z) (p : parser) : parser :=
  mk_parser (m_head p) (m_parser_body p) (m_chunk p) (m_head_seen p) (m_headers p)
    (m_remaining p) (m_received p) n (m_http11 p) true (m_chunked p)
    (m_close p) (m_keep_alive p).
Definition with_http11 (b : bool) (p : parser) : parser :=
  mk_parser (m_head p) (m_parser_body p) (m_chunk p) (m_head_seen p) (m_headers p)
    (m_remaining p) (m_received p) (m_parsed_length p) b (m_has_content_length p) (m_chunked p)
    (m_close p) (m_keep_alive p).
Definition with_chunked (b : bool) (p : parser) : parser :=
  mk_parser (m_head p) (m_parser_body p) (m_chunk p) (m_head_seen p) (m_headers p)
    (m_remaining p) (m_received p) (m_parsed_length p) (m_http11 p) (m_has_content_length p) b
    (m_close p) (m_keep_alive p).
Definition with_close (b : bool) (p : parser) : parser :=
  mk_parser (m_head p) (m_parser_body p) (m_chunk p) (m_head_seen p) (m_headers p)
    (m_remaining p) (m_received p) (m_parsed_length p) (m_http11 p) (m_has_content_length p)
    (m_chunked p) b (m_keep_alive p).
Definition with_keep_alive (b : bool) (p : parser) : parser :=
  mk_parser (m_head p) (m_parser_body p) (m_chunk p) (m_head_seen p) (m_headers p)
    (m_remaining p) (m_received p) (m_parsed_length p) (m_http11 p) (m_has_content_length p)
    (m_chunked p) (m_close p) b.

(** [fail(status, reason)] *)
Definition failure (status : Z) (reason : bytes) : exn :=
  ExResponse (make_response status reason []).

Definition char_at (s : bytes) (i : nat) : ascii := nth i s NUL.

Section parser_operations.
Context {B : Type}.

(** What a call of the parser works on: its members, the request, and the
    variables the body callback of the session captured. *)
Record pstate : Type := mk_pstate {
  ps_parser : parser;
  ps_req : request B;
  ps_env : B;
}.

Abbreviation PM := (M pstate exn).

Definition on_parser (f : parser -> parser) : PM unit :=
  modify (fun s => mk_pstate (f (ps_parser s)) (ps_req s) (ps_env s)).
Definition on_req (f : request B -> request B) : PM unit :=
  modify (fun s => mk_pstate (ps_parser s) (f (ps_req s)) (ps_env s)).
Definition fail {A} (status : Z) (reason : bytes) : PM A := throw (failure status reason).
Definition fail_if (b : bool) (status : Z) (reason : bytes) : PM unit :=
  throw_if b (failure status reason).

(** [begin_request] *)
Definition begin_request : PM unit :=
  on_parser (fun _ => new_parser);;
  on_req (fun q => set_state q processing_url).

Definition bad_version (version : bytes) : bool :=
  negb (length version =? 8)%nat || negb (starts_with version (bs "HTTP/")) ||
  negb (bool_decide (char_at version 6 = "."%char)) ||
  negb (has_class (char_at version 5) hex_char) || (code "9" <? code (char_at version 5)) ||
  negb (has_class (char_at version 7) hex_char) || (code "9" <? code (char_at version 7)).

(** [parse_request_line] *)
Definition parse_request_line (request_line : bytes) : PM unit :=
  match find_char SP request_line with
  | None | Some O => fail 400 (bs "Invalid request line")
  | Some sp1 =>
      match find_from SP request_line (sp1 + 1) with
      | None => fail 400 (bs "Invalid request line")
      | Some sp2 =>
          if decide (sp2 = sp1 + 1)%nat then fail 400 (bs "Invalid request line")
          else
            let method := substr request_line 0 sp1 in
            let target := substr request_line (sp1 + 1) (sp2 - sp1 - 1) in
            let version := drop (sp2 + 1) request_line in
            fail_if (negb (all_chars method token_char)) 400 (bs "Invalid method");;
            fail_if (negb (all_chars target TargetChar)) 400 (bs "Invalid request target");;
            fail_if (bad_version version) 400 (bs "Invalid HTTP version");;
            fail_if (negb (bool_decide (char_at version 5 = "1"%char))) 505
              (bs "HTTP version not supported");;
            on_parser (with_http11 (negb (bool_decide (char_at version 7 = "0"%char))));;
            on_req (fun q => set_method q method);;
            on_req (fun q => set_url q target)
      end
  end.

(** The three special headers of [parse_header_field]; the result says
    whether the field is to be stored. *)
Definition content_length_field (value : bytes) : PM bool :=
  p ← gets ps_parser;
  let '(ptr, ec, length_) := from_chars value in
  fail_if (bool_decide (value = []) || (match ec with conv_ok => false | _ => true end) ||
           negb (ptr =? length value)%nat || (chunked_data <=? length_))
    400 (bs "Invalid Content-Length");;
  if m_has_content_length p then
    fail_if (negb (length_ =? m_parsed_length p)) 400 (bs "Conflicting Content-Length");;
    mret false
  else on_parser (with_content_length length_);; mret true.

Definition transfer_encoding_field (value : bytes) : PM bool :=
  p ← gets ps_parser;
  let tokens := for_each_token value in
  let codings := (if m_chunked p then 1 else 0) + len tokens in
  let last_coding := default [] (last tokens) in
  fail_if (negb (iequals last_coding (bs "chunked"))) 400 (bs "Invalid Transfer-Encoding");;
  fail_if (negb (codings =? 1)) 501 (bs "Unsupported transfer coding");;
  on_parser (with_chunked true);; mret true.

Definition connection_option (p : parser) (option_ : bytes) : parser :=
  if iequals option_ (bs "close") then with_close true p
  else if iequals option_ (bs "keep-alive") then with_keep_alive true p
  else p.

Definition connection_field (value : bytes) : PM bool :=
  on_parser (fun p => fold_left connection_option (for_each_token value) p);; mret true.

(** [try_emplace(key, value)], or the combination of repeated fields. *)
Definition store_field (key value : bytes) (f : fields) : fields :=
  let '(f', inserted) := fields_try_emplace f key value in
  if inserted then f' else fields_update f' key (fun old => old ++ bs ", " ++ value).

(** [parse_header_field] *)
Definition parse_header_field (txt : bytes) : PM unit :=
  on_parser (fun p => with_headers (u64 (m_headers p + 1)) p);;
  p ← gets ps_parser;
  fail_if (max_headers_count <? m_headers p) 431 (bs "Too many header fields");;
  fail_if (is_ows (char_at txt 0)) 400 (bs "Obsolete line folding is not supported");;
  match find_char ":" txt with
  | None | Some O => fail 400 (bs "Invalid header field")
  | Some colon =>
      let name := substr txt 0 colon in
      fail_if (negb (all_chars name token_char)) 400 (bs "Invalid header field name");;
      let value := trim_ows (drop (colon + 1) txt) in
      fail_if (negb (all_chars value value_char)) 400 (bs "Invalid header field value");;
      let key := canonical_name name in
      store ←
        (if decide (key = bs "Content-Length") then content_length_field value
         else if decide (key = bs "Transfer-Encoding") then transfer_encoding_field value
         else if decide (key = bs "Connection") then connection_field value
         else mret true);
      if (store : bool) then on_req (fun q => set_fields q (store_field key value (q_fields q)))
      else mret tt
  end.

(** [finalize_head] *)
Definition finalize_head : PM unit :=
  p ← gets ps_parser;
  fail_if (m_has_content_length p && m_chunked p) 400
    (bs "Content-Length and Transfer-Encoding are mutually exclusive");;
  on_req (fun q => set_req_keep_alive q
    (if m_http11 p then negb (m_close p) else m_keep_alive p && negb (m_close p)));;
  on_parser (with_received 0);;
  on_parser (with_chunk chunk_Size);;
  if m_chunked p then
    on_parser (with_body body_chunked);;
    on_parser (with_remaining 0);;
    on_req (fun q => set_state q headers_completed)
  else if negb (m_parsed_length p =? 0) then
    on_parser (with_body body_content_length);;
    on_parser (with_remaining (m_parsed_length p));;
    on_req (fun q => set_state q headers_completed)
  else
    on_parser (with_body body_none);;
    on_req (fun q => set_state q completed).

(** The loop of [parse_head] over the empty lines before the request line:
    where the data ends, or the first line with something in it. *)
Fixpoint skip_empty_lines (fuel : nat) (data : bytes) (pos : nat) : PM (nat + line) :=
  match fuel with
  | O => diverge
  | S fuel' =>
      match next_line data pos with
      | None =>
          p ← gets ps_parser;
          fail_if (max_head_size <? u64 (m_head_seen p + len data)) 431
            (bs "Request header fields too large");;
          on_parser (fun p => with_head_seen (u64 (m_head_seen p + Z.of_nat pos)) p);;
          mret (inl pos)
      | Some l =>
          if decide (text l = []) then skip_empty_lines fuel' data (next l)
          else mret (inr l)
      end
  end.

(** The loop of [parse_head] over the header lines. *)
Fixpoint headers_loop (fuel : nat) (data : bytes) (pos : nat) : PM nat :=
  match fuel with
  | O => diverge
  | S fuel' =>
      p ← gets ps_parser;
      if decide (m_head p = head_headers) then
        match next_line data pos with
        | None =>
            fail_if (max_head_size <? u64 (m_head_seen p + len data)) 431
              (bs "Request header fields too large");;
            mret pos
        | Some l =>
            let pos := next l in
            fail_if (max_head_size <? u64 (m_head_seen p + Z.of_nat pos)) 431
              (bs "Request header fields too large");;
            if decide (text l = []) then
              finalize_head;; on_parser (with_head head_done);; mret pos
            else parse_header_field (text l);; headers_loop fuel' data pos
        end
      else mret pos
  end.

(** The part of [parse_head] from the header lines on. *)
Definition parse_headers (data : bytes) (pos : nat) : PM nat :=
  pos ← headers_loop (S (length data)) data pos;
  on_parser (fun p => with_head_seen (u64 (m_head_seen p + Z.of_nat pos)) p);;
  mret pos.

(** [parse_head(data, req)] *)
Definition parse_head (data : bytes) : PM nat :=
  q ← gets ps_req;
  (if decide (m_state q = uninitialized) then begin_request else mret tt);;
  p ← gets ps_parser;
  if decide (m_head p = head_done) then mret 0%nat
  else if decide (m_head p = head_request_line) then
    found ← skip_empty_lines (S (length data)) data 0;
    match found with
    | inl pos => mret pos
    | inr l =>
        parse_request_line (text l);;
        p ← gets ps_parser;
        fail_if (max_head_size <? u64 (m_head_seen p + Z.of_nat (next l))) 431
          (bs "Request header fields too large");;
        on_parser (with_head head_headers);;
        on_req (fun q => set_state q processing_header);;
        parse_headers data (next l)
    end
  else parse_headers data 0.

(** ** The body *)

(** A step of the session's callback: only the captured variables change. *)
Definition on_env {A} (m : M B exn A) : PM A := fun s =>
  let '(o, env) := m (ps_env s) in (o, mk_pstate (ps_parser s) (ps_req s) env).

(** [deliver(data, req)] *)
Definition deliver (data : bytes) : PM unit :=
  on_parser (fun p => with_received (u64 (m_received p + len data)) p);;
  s ← get;
  fail_if (negb (m_max_body_size (ps_req s) =? 0) &&
           (m_max_body_size (ps_req s) <? m_received (ps_parser s))) 413
    (bs "Request entity too large");;
  on_env (append_body (ps_req s) data).

(** The digits of a chunk-size line: how many there are, and their value. *)
Fixpoint chunk_digits (digits : nat) (size : Z) (txt : bytes) : PM (nat * Z) :=
  match txt with
  | [] => mret (digits, size)
  | c :: txt' =>
      if has_class c hex_char then
        fail_if (digits =? 16)%nat 400 (bs "Chunk size too large");;
        chunk_digits (S digits) (Z.lor (u64 (Z.shiftl size 4)) (hex_value c)) txt'
      else mret (digits, size)
  end.

(** [case chunk::Size], once its line is complete. *)
Definition chunk_size_line (txt : bytes) : PM unit :=
  '(digits, size) ← chunk_digits 0 0 txt;
  fail_if (digits =? 0)%nat 400 (bs "Invalid chunk size");;
  let ext := trim_ows (drop digits txt) in
  fail_if (negb (bool_decide (ext = [])) &&
           (negb (bool_decide (char_at ext 0 = ";"%char)) || negb (all_chars ext value_char)))
    400 (bs "Invalid chunk extension");;
  on_parser (with_remaining size);;
  on_parser (with_chunk (if negb (size =? 0) then chunk_Data else chunk_trailers)).

(** The loop of [parse_chunked].  [inl pos] is a [return pos] inside it. *)
Definition chunked_step (data : bytes) (pos : nat) : PM (nat + nat) :=
  p ← gets ps_parser;
  match m_chunk p with
  | chunk_Size =>
      match next_line data pos with
      | None =>
          fail_if (max_chunk_line_size <? len data - Z.of_nat pos) 400
            (bs "Invalid chunk size");;
          mret (inl pos)
      | Some l => chunk_size_line (text l);; mret (inr (next l))
      end
  | chunk_Data =>
      let size := Z.min (m_remaining p) (len data - Z.of_nat pos) in
      deliver (substr data pos (Z.to_nat size));;
      on_parser (fun p => with_remaining (u64 (m_remaining p - size)) p);;
      p ← gets ps_parser;
      (if m_remaining p =? 0 then on_parser (with_chunk chunk_data_end) else mret tt);;
      mret (inr (pos + Z.to_nat size)%nat)
  | chunk_data_end =>
      if decide (char_at data pos = LF) then
        on_parser (with_chunk chunk_Size);; mret (inr (pos + 1)%nat)
      else if decide (char_at data pos = CR) then
        if decide (pos + 1 = length data)%nat then mret (inl pos)
        else
          fail_if (negb (bool_decide (char_at data (pos + 1) = LF))) 400 (bs "Invalid chunk");;
          on_parser (with_chunk chunk_Size);; mret (inr (pos + 2)%nat)
      else fail 400 (bs "Invalid chunk")
  | chunk_trailers =>
      match next_line data pos with
      | None =>
          fail_if (max_head_size <? len data - Z.of_nat pos) 431
            (bs "Trailer fields too large");;
          mret (inl pos)
      | Some l =>
          if decide (text l = []) then
            on_req (fun q => set_state q completed);; mret (inl (next l))
          else
            on_parser (fun p => with_headers (u64 (m_headers p + 1)) p);;
            p ← gets ps_parser;
            fail_if (max_headers_count <? m_headers p) 431 (bs "Too many trailer fields");;
            fail_if (negb (all_chars (text l) value_char)) 400 (bs "Invalid trailer field");;
            mret (inr (next l))
      end
  end.

Fixpoint chunked_loop (fuel : nat) (data : bytes) (pos : nat) : PM nat :=
  match fuel with
  | O => diverge
  | S fuel' =>
      if decide (pos < length data)%nat then
        r ← chunked_step data pos;
        match r with
        | inl pos => mret pos
        | inr pos => chunked_loop fuel' data pos
        end
      else mret pos
  end.

(** [parse_chunked]: a round consumes a byte or leaves [chunk_Data]. *)
Definition parse_chunked (data : bytes) : PM nat :=
  chunked_loop (2 * length data + 2) data 0.

(** [parse_body(data, req)] *)
Definition parse_body (data : bytes) : PM nat :=
  s ← get;
  if bool_decide (m_state (ps_req s) = completed) ||
     bool_decide (m_parser_body (ps_parser s) = body_none) then mret 0%nat
  else
    on_req (fun q => set_state q processing_body);;
    if decide (m_parser_body (ps_parser s) = body_chunked) then parse_chunked data
    else
      let max := m_max_body_size (ps_req s) in
      let p := ps_parser s in
      fail_if (negb (max =? 0) && (u64 (max - m_received p) <? m_remaining p)) 413
        (bs "Request entity too large");;
      let size := Z.min (m_remaining p) (len data) in
      (if negb (size =? 0) then
         deliver (substr data 0 (Z.to_nat size));;
         on_parser (fun p => with_remaining (u64 (m_remaining p - size)) p)
       else mret tt);;
      p ← gets ps_parser;
      (if m_remaining p =? 0 then on_req (fun q => set_state q completed) else mret tt);;
      mret (Z.to_nat size).
End parser_operations.
Arguments pstate : clear implicits.
