(* ===== verification/HeadProofs.v ===== *)
(** * parse_head: termination, limits, and independence of segmentation

    How the bytes of a request head are cut into reads does not change what
    the parser makes of them: parsing a prefix and then the rest is parsing
    the whole.  The proof goes through two facts about each loop of
    [parse_head]: it does not look at the bytes it has consumed (the [_shift]
    lemmas), and on a longer input it runs in lockstep until the shorter one
    ends (the [_app] lemmas). *)

From S2P Require Import Prelude Utils Charconv Http HttpParser.

Local Open Scope Z_scope.

(** ** Lines *)

Lemma find_from_shift ch s k pos :
  find_from ch s (k + pos) = Nat.add k <$> find_from ch (drop k s) pos.
Proof.
  unfold find_from. rewrite drop_drop.
  destruct (find_char ch (drop (k + pos) s)); simpl; [f_equal; lia|done].
Qed.

Lemma find_from_app_Some ch s t pos k :
  find_from ch s pos = Some k -> find_from ch (s ++ t) pos = Some k.
Proof.
  intros H. pose proof (find_from_Some _ _ _ _ H) as (Hk & _).
  unfold find_from in *. rewrite drop_app_le by lia.
  apply fmap_Some in H as (j & Hj & ->). by rewrite (find_char_app_Some _ _ _ _ Hj).
Qed.

Definition shift_line (k : nat) (l : line) : line := mk_line (text l) (k + next l).

Lemma next_line_shift data k pos :
  next_line data (k + pos) = shift_line k <$> next_line (drop k data) pos.
Proof.
  unfold next_line. rewrite find_from_shift.
  destruct (find_from LF (drop k data) pos) as [lf|] eqn:E; [|done].
  cbn [fmap option_fmap option_map]. unfold shift_line. cbn [text next].
  apply find_from_Some in E as ([Hlf _] & _).
  rewrite lookup_drop. do 2 f_equal; [|lia].
  unfold substr. rewrite drop_drop.
  destruct (decide (pos < lf)%nat) as [Hlt|Hge].
  - rewrite !(bool_decide_eq_true_2 (_ < _)%nat) by lia.
    replace (k + (lf - 1))%nat with (k + lf - 1)%nat by lia.
    destruct (bool_decide _); f_equal; cbn; lia.
  - rewrite !(bool_decide_eq_false_2 (_ < _)%nat) by lia. cbn. f_equal. lia.
Qed.

Lemma next_line_bounds data pos l :
  next_line data pos = Some l -> (pos < next l <= length data)%nat.
Proof.
  unfold next_line. destruct (find_from LF data pos) as [lf|] eqn:E; [|done].
  intros [= <-]. simpl. apply find_from_Some in E as ([? ?] & _). lia.
Qed.

Lemma next_line_app d e pos l : next_line d pos = Some l -> next_line (d ++ e) pos = Some l.
Proof.
  unfold next_line. destruct (find_from LF d pos) as [lf|] eqn:E; [|done].
  intros [= <-]. rewrite (find_from_app_Some _ _ _ _ _ E).
  apply find_from_Some in E as ([Hp Hl] & _).
  rewrite lookup_app_l by lia. do 2 f_equal.
  unfold substr. rewrite drop_app_le by lia.
  rewrite take_app_le; [done|]. rewrite length_drop. destruct (_ && _); lia.
Qed.

(** A line that was not complete ends past the data that was there. *)
Lemma next_line_app_None d e pos l :
  next_line d pos = None -> (pos <= length d)%nat -> next_line (d ++ e) pos = Some l ->
  (length d < next l)%nat.
Proof.
  unfold next_line. destruct (find_from LF d pos) as [lf|] eqn:E; [done|]. intros _ Hp.
  destruct (find_from LF (d ++ e) pos) as [lf|] eqn:E'; [|done]. intros [= <-]. simpl.
  unfold find_from in *. apply fmap_None in E. rewrite drop_app_le in E' by lia.
  rewrite find_char_app_None in E' by done. rewrite length_drop in E'.
  destruct (find_char LF e); [|done]. injection E' as <-. lia.
Qed.

Lemma next_line_None_end data pos : (length data <= pos)%nat -> next_line data pos = None.
Proof. intros H. unfold next_line, find_from. by rewrite drop_ge. Qed.

Section head.
Context {B : Type}.
Implicit Types s : pstate B.
Abbreviation PM := (M (pstate B) exn).

(** ** Two small program logics

    [keeps f m]: the observation [f] of the state is the same after [m] as
    before.  [blind m]: [m] neither reads nor writes [m_head_seen], the only
    member that tells where in the head the parser is. *)

Definition keeps {A X} (f : pstate B -> X) (m : PM A) : Prop := forall s, f (m s).2 = f s.

Definition set_seen (n : Z) s : pstate B :=
  mk_pstate (with_head_seen n (ps_parser s)) (ps_req s) (ps_env s).

Definition blind {A} (m : PM A) : Prop :=
  forall n s, m (set_seen n s) = ((m s).1, set_seen n (m s).2).

Definition seen s : Z := m_head_seen (ps_parser s).

Lemma set_seen_seen s : set_seen (seen s) s = s.
Proof. by destruct s as [[] ? ?]. Qed.

Lemma set_seen_twice n m s : set_seen n (set_seen m s) = set_seen n s.
Proof. done. Qed.

Lemma set_seen_back n m s : seen s = n -> set_seen n (set_seen m s) = s.
Proof. intros <-. exact (set_seen_seen s). Qed.

Lemma blind_keeps {A} (m : PM A) s : blind m -> seen (m s).2 = seen s.
Proof. intros H. by rewrite <- (set_seen_seen s) at 1; rewrite H. Qed.

Lemma blind_ret {A} (a : A) : blind (mret a).
Proof. done. Qed.

Lemma blind_fail {A} st r : blind (A:=A) (fail st r).
Proof. done. Qed.

Lemma blind_fail_if b st r : blind (fail_if b st r).
Proof. by destruct b. Qed.

Lemma blind_on_req f : blind (on_req f).
Proof. done. Qed.

Lemma blind_on_parser f :
  (forall p n, f (with_head_seen n p) = with_head_seen n (f p)) -> blind (on_parser f).
Proof.
  intros H n s. unfold on_parser, modify, set_seen. cbn. by rewrite H.
Qed.

Lemma blind_bind {A C} (m : PM A) (k : A -> PM C) :
  blind m -> (forall a, blind (k a)) -> blind (m ≫= k).
Proof.
  intros Hm Hk n s. unfold mbind, M_bind. rewrite Hm.
  destruct (m s) as [[a|e|] s']; cbn; [|done|done]. by rewrite Hk.
Qed.

Lemma blind_gets {A} (k : parser -> PM A) :
  (forall p n, k (with_head_seen n p) = k p) -> (forall p, blind (k p)) ->
  blind (gets ps_parser ≫= k).
Proof.
  intros H Hk n s. unfold mbind, M_bind, gets. cbn. rewrite H. apply Hk.
Qed.

Lemma keeps_ret {A X} (f : pstate B -> X) (a : A) : keeps f (mret a).
Proof. done. Qed.

Lemma keeps_fail {A X} (f : pstate B -> X) st r : keeps (A:=A) f (fail st r).
Proof. done. Qed.

Lemma keeps_fail_if {X} (f : pstate B -> X) b st r : keeps f (fail_if b st r).
Proof. by destruct b. Qed.

Lemma keeps_bind {A C X} (f : pstate B -> X) (m : PM A) (k : A -> PM C) :
  keeps f m -> (forall a, keeps f (k a)) -> keeps f (m ≫= k).
Proof.
  intros Hm Hk s. specialize (Hm s). unfold mbind, M_bind.
  destruct (m s) as [[a|e|] s']; cbn in *; [|done|done]. by rewrite Hk.
Qed.

Lemma keeps_gets {A X Y} (f : pstate B -> X) (g : pstate B -> Y) (k : Y -> PM A) :
  (forall y, keeps f (k y)) -> keeps f (gets g ≫= k).
Proof. intros Hk s. apply Hk. Qed.

Lemma keeps_modify {X} (f : pstate B -> X) (g : pstate B -> pstate B) :
  (forall s, f (g s) = f s) -> keeps f (modify g).
Proof. intros H s. apply H. Qed.

(** [raises sts m]: [m] returns, or throws a response whose status is one of
    [sts]; it never runs out of fuel. *)
Definition raises {A} (sts : list Z) (m : PM A) : Prop :=
  forall s, match (m s).1 with
            | Ok _ => True
            | Throw e => exists st reason, st ∈ sts /\ e = failure st reason
            | Diverge => False
            end.

Lemma raises_ret {A} sts (a : A) : raises sts (mret a).
Proof. done. Qed.

Lemma raises_fail {A} sts st r : st ∈ sts -> raises (A:=A) sts (fail st r).
Proof. intros H s. cbn. eauto. Qed.

Lemma raises_fail_if sts b st r : st ∈ sts -> raises sts (fail_if b st r).
Proof. intros H s. destruct b; cbn; eauto. Qed.

Lemma raises_modify sts g : raises sts (modify g).
Proof. done. Qed.

Lemma raises_bind {A C} sts (m : PM A) (k : A -> PM C) :
  raises sts m -> (forall a, raises sts (k a)) -> raises sts (m ≫= k).
Proof.
  intros Hm Hk s. specialize (Hm s). unfold mbind, M_bind.
  destruct (m s) as [[a|e|] s']; cbn in *; [|done|done]. apply Hk.
Qed.

Lemma raises_gets {A Y} sts (g : pstate B -> Y) (k : Y -> PM A) :
  (forall y, raises sts (k y)) -> raises sts (gets g ≫= k).
Proof. intros Hk s. apply Hk. Qed.

Lemma raises_weaken {A} sts sts' (m : PM A) :
  (forall st, st ∈ sts -> st ∈ sts') -> raises sts m -> raises sts' m.
Proof.
  intros Hsub Hm s. specialize (Hm s). destruct (m s).1; [done| |done].
  destruct Hm as (st & r & ? & ?). eauto.
Qed.
End head.

#[export] Hint Resolve blind_ret blind_fail blind_fail_if blind_on_req blind_on_parser
  blind_bind blind_gets keeps_ret keeps_fail keeps_fail_if keeps_bind keeps_gets
  keeps_modify raises_ret raises_modify raises_bind raises_gets : dracon.

(** Walk a monadic program with the rules of one of the two logics. *)
Ltac walk :=
  repeat (intros;
    match goal with
    | |- blind (gets ps_parser ≫= _) => apply blind_gets; [done|]
    | |- blind (mbind _ _) => apply blind_bind
    | |- blind (on_parser _) => apply blind_on_parser; try done
    | |- keeps _ (gets _ ≫= _) => apply keeps_gets
    | |- keeps _ (mbind _ _) => apply keeps_bind
    | |- keeps _ (on_parser _) => apply keeps_modify; try done
    | |- keeps _ (on_req _) => apply keeps_modify; try done
    | |- raises _ (gets _ ≫= _) => apply raises_gets
    | |- raises _ (mbind _ _) => apply raises_bind
    | |- raises _ (on_parser _) => apply raises_modify
    | |- raises _ (on_req _) => apply raises_modify
    | |- raises _ (fail _ _) => apply raises_fail; by_compute
    | |- raises _ (fail_if _ _ _) => apply raises_fail_if; by_compute
    | |- context [match ?x with _ => _ end] =>
        lazymatch goal with
        | |- blind _ => destruct x
        | |- keeps _ _ => destruct x
        | |- raises _ _ => destruct x
        end
    | _ => solve [auto with dracon nocore]
    end).

Section head_ops.
Context {B : Type}.
Implicit Types s : pstate B.
Abbreviation PM := (M (pstate B) exn).

Lemma connection_option_seen p o n :
  connection_option (with_head_seen n p) o = with_head_seen n (connection_option p o).
Proof. unfold connection_option. by repeat case_match. Qed.

Lemma connection_options_seen os p n :
  fold_left connection_option os (with_head_seen n p)
  = with_head_seen n (fold_left connection_option os p).
Proof.
  revert p. induction os as [|o os IH]; intros p; simpl; [done|].
  by rewrite connection_option_seen, IH.
Qed.

Lemma connection_options_head os p : m_head (fold_left connection_option os p) = m_head p.
Proof.
  revert p. induction os as [|o os IH]; intros p; simpl; [done|].
  rewrite IH. unfold connection_option. by repeat case_match.
Qed.

Lemma parse_request_line_blind l : blind (B:=B) (parse_request_line l).
Proof. unfold parse_request_line. walk. Qed.

Lemma parse_header_field_blind l : blind (B:=B) (parse_header_field l).
Proof.
  unfold parse_header_field, content_length_field, transfer_encoding_field, connection_field.
  walk. apply connection_options_seen.
Qed.

Lemma finalize_head_blind : blind (B:=B) finalize_head.
Proof. unfold finalize_head. walk. Qed.

Definition head_of s : head := m_head (ps_parser s).
Definition req_state s : parse_state := m_state (ps_req s).

Lemma parse_request_line_head l : keeps (B:=B) head_of (parse_request_line l).
Proof. unfold parse_request_line. walk. Qed.

Lemma parse_header_field_head l : keeps (B:=B) head_of (parse_header_field l).
Proof.
  unfold parse_header_field, content_length_field, transfer_encoding_field, connection_field.
  walk. intros s. apply connection_options_head.
Qed.

Lemma parse_header_field_state l : keeps (B:=B) req_state (parse_header_field l).
Proof.
  unfold parse_header_field, content_length_field, transfer_encoding_field, connection_field.
  walk.
Qed.

(** The statuses of the errors the head of a request can be answered with. *)
Definition head_errors : list Z := [400; 431; 501; 505].

Lemma parse_request_line_raises l : raises (B:=B) head_errors (parse_request_line l).
Proof. unfold parse_request_line. walk. Qed.

Lemma parse_header_field_raises l : raises (B:=B) head_errors (parse_header_field l).
Proof.
  unfold parse_header_field, content_length_field, transfer_encoding_field, connection_field.
  walk.
Qed.

Lemma finalize_head_raises : raises (B:=B) head_errors finalize_head.
Proof. unfold finalize_head. walk. Qed.
End head_ops.

Definition too_large : exn := failure 431 (bs "Request header fields too large").

Section loops.
Context {B : Type}.
Implicit Types s : pstate B.
Abbreviation PM := (M (pstate B) exn).

(** ** The loop over the header lines *)

Lemma headers_loop_S fuel data pos s :
  head_of s = head_headers ->
  headers_loop (S fuel) data pos s =
  match next_line data pos with
  | None =>
      if max_head_size <? u64 (seen s + len data) then (Throw too_large, s) else (Ok pos, s)
  | Some l =>
      if max_head_size <? u64 (seen s + Z.of_nat (next l)) then (Throw too_large, s)
      else if decide (text l = []) then
        (finalize_head;; on_parser (with_head head_done);; mret (next l)) s
      else
        match parse_header_field (text l) s with
        | (Ok _, s') => headers_loop fuel data (next l) s'
        | (Throw e, s') => (Throw e, s')
        | (Diverge, s') => (Diverge, s')
        end
  end.
Proof.
  unfold head_of. intros Hh. cbn [headers_loop]. unfold mbind at 1, M_bind at 1, gets.
  rewrite decide_True by done. destruct (next_line data pos) as [l|].
  - unfold fail_if, throw_if, seen. destruct (_ <? _); [done|].
    unfold mbind at 1, M_bind at 1, mret, M_ret. by case_decide.
  - unfold fail_if, throw_if, seen. by destruct (_ <? _).
Qed.

Lemma headers_loop_not_headers fuel data pos s :
  head_of s <> head_headers -> headers_loop (S fuel) data pos s = (Ok pos, s).
Proof.
  unfold head_of. intros Hh. cbn [headers_loop]. unfold mbind, M_bind, gets.
  by rewrite decide_False.
Qed.

Lemma headers_loop_enough f1 f2 data pos s :
  (length data - pos < f1)%nat -> (length data - pos < f2)%nat ->
  headers_loop f1 data pos s = headers_loop f2 data pos s.
Proof.
  revert f2 pos s. induction f1 as [|f1 IH]; intros [|f2] pos s H1 H2; try lia.
  destruct (decide (head_of s = head_headers)) as [Hh|Hh];
    [|by rewrite !headers_loop_not_headers].
  rewrite !headers_loop_S by done. destruct (next_line data pos) as [l|] eqn:El; [|done].
  apply next_line_bounds in El.
  destruct (_ <? _); [done|]. case_decide; [done|].
  destruct (parse_header_field (text l) s) as [[[]|e|] s']; try done.
  apply IH; lia.
Qed.

(** Dropping the bytes already consumed, and counting them in [m_head_seen],
    changes nothing but the positions. *)
Lemma headers_loop_shift fuel data k pos s :
  (k <= length data)%nat -> 0 <= seen s -> seen s + len data < 2 ^ 64 ->
  headers_loop fuel data (k + pos) s =
  let '(o, s') := headers_loop fuel (drop k data) pos (set_seen (seen s + Z.of_nat k) s) in
  (Nat.add k <$> o, set_seen (seen s) s').
Proof.
  intros Hk. revert pos s. induction fuel as [|fuel IH]; intros pos s H0 Hlt.
  { cbn. f_equal. symmetry. exact (set_seen_seen s). }
  set (s2 := set_seen (seen s + Z.of_nat k) s).
  assert (Hback : set_seen (seen s) s2 = s) by exact (set_seen_seen s).
  destruct (decide (head_of s = head_headers)) as [Hh|Hh].
  2:{ rewrite !headers_loop_not_headers by done. by rewrite Hback. }
  rewrite !headers_loop_S by done. rewrite next_line_shift.
  assert (Hseen : seen s2 = seen s + Z.of_nat k) by done. rewrite Hseen.
  destruct (next_line (drop k data) pos) as [l|] eqn:El; cbn [fmap option_fmap option_map].
  - apply next_line_bounds in El. rewrite length_drop in El. cbn [next text shift_line].
    replace (seen s + Z.of_nat k + Z.of_nat (next l))
      with (seen s + Z.of_nat (k + next l)) by lia.
    destruct (_ <? _); [by rewrite Hback|].
    case_decide.
    + unfold s2. rewrite (blind_bind _ _ finalize_head_blind) by walk.
      unfold mbind, M_bind. destruct (finalize_head s) as [[[]|e|] s'] eqn:Ef; cbn;
        (pose proof (blind_keeps _ s finalize_head_blind) as Hs; rewrite Ef in Hs; cbn in Hs;
         unfold set_seen; rewrite <- Hs; by destruct s' as [[] ? ?]).
    + unfold s2. rewrite (parse_header_field_blind (text l)).
      pose proof (blind_keeps _ s (parse_header_field_blind (text l))) as Hs.
      destruct (parse_header_field (text l) s) as [[[]|e|] s']; cbn in Hs |- *;
        [|by rewrite set_seen_back..].
      rewrite IH by lia. by rewrite Hs.
  - rewrite length_drop. replace (seen s + Z.of_nat k + Z.of_nat (length data - k))
      with (seen s + len data) by lia.
    destruct (_ <? _); by rewrite Hback.
Qed.

Lemma finalize_done_cases s (n : nat) :
  (exists s', (finalize_head;; on_parser (with_head head_done);; mret n) s = (Ok n, s') /\
     head_of s' = head_done /\ seen s' = seen s /\ req_state s' <> uninitialized) \/
  (exists e, (finalize_head;; on_parser (with_head head_done);; mret n) s = (Throw e, s)).
Proof.
  unfold finalize_head, mbind, M_bind, gets, fail_if, throw_if, on_req, on_parser, modify.
  destruct (_ && _); [right; by eexists|left]. cbn.
  unfold head_of, seen, req_state.
  destruct (m_chunked (ps_parser s)); [|destruct (negb _)];
    cbn; eexists; (split; [reflexivity|]); cbn; done.
Qed.

(** On a longer input the loop runs in lockstep: it ends the head at the same
    place, or it goes on from where the shorter input left off. *)
Lemma headers_loop_app f1 f2 f3 d e pos s n s' :
  head_of s = head_headers -> 0 <= seen s -> seen s + len d < 2 ^ 64 ->
  (pos <= length d)%nat -> (length (d ++ e) - pos < f2)%nat -> (length (d ++ e) < f3)%nat ->
  headers_loop f1 d pos s = (Ok n, s') ->
  (pos <= n <= length d)%nat /\ seen s' = seen s /\
  ((head_of s' = head_done /\ req_state s' <> uninitialized /\
     headers_loop f2 (d ++ e) pos s = (Ok n, s')) \/
   (head_of s' = head_headers /\ req_state s' = req_state s /\
     seen s + len d <= max_head_size /\
     headers_loop f2 (d ++ e) pos s = headers_loop f3 (d ++ e) n s')).
Proof.
  revert f2 pos s. induction f1 as [|f1 IH]; intros f2 pos s Hh H0 H64 Hp H2 H3 Hrun; [done|].
  pose proof (length_app d e) as Happ.
  destruct f2 as [|f2]; [lia|].
  rewrite headers_loop_S in Hrun by done.
  destruct (next_line d pos) as [l|] eqn:El.
  - pose proof (next_line_bounds _ _ _ El) as Hl.
    rewrite (headers_loop_S f2) by done. rewrite (next_line_app _ e _ _ El).
    destruct (_ <? _); [done|]. case_decide as Ht.
    + destruct (finalize_done_cases s (next l)) as [(s1 & E & ? & ? & ?)|[ex E]];
        rewrite E in *; [|done]. injection Hrun as <- <-.
      split_and!; [lia|lia|done|]. left. done.
    + destruct (parse_header_field (text l) s) as [[[]|ex|] s1] eqn:Ep; [|done..].
      pose proof (parse_header_field_head (text l) s) as Hk. rewrite Ep in Hk. cbn in Hk.
      pose proof (parse_header_field_state (text l) s) as Hq. rewrite Ep in Hq. cbn in Hq.
      pose proof (blind_keeps _ s (parse_header_field_blind (text l))) as Hs.
      rewrite Ep in Hs. cbn in Hs.
      destruct (IH f2 (next l) s1) as (Hn & Hseen & Hcase); [congruence|lia..|done|].
      split_and!; [lia|lia|congruence|]. rewrite Hs in *.
      destruct Hcase as [Hc|Hc]; [by left|right].
      destruct Hc as (? & ? & ? & ?). split_and!; try done. congruence.
  - destruct (_ <? _) eqn:Elim; [done|]. injection Hrun as <- <-.
    split_and!; [lia|lia|done|]. right. split_and!; try done.
    + apply Z.ltb_ge in Elim. by rewrite u64_small in Elim by lia.
    + apply headers_loop_enough; lia.
Qed.

(** An error found in a prefix is the same error with more bytes after it: an
    unfinished line that is too long stays too long once it is finished. *)
Lemma headers_loop_throw f1 f2 d e pos s ex s' :
  head_of s = head_headers -> 0 <= seen s -> seen s + len (d ++ e) < 2 ^ 64 ->
  (pos <= length d)%nat -> (length (d ++ e) - pos < f2)%nat ->
  headers_loop f1 d pos s = (Throw ex, s') -> (headers_loop f2 (d ++ e) pos s).1 = Throw ex.
Proof.
  rewrite length_app. revert f2 pos s.
  induction f1 as [|f1 IH]; intros f2 pos s Hh H0 H64 Hp H2 Hrun; [done|].
  destruct f2 as [|f2]; [lia|].
  rewrite headers_loop_S in Hrun by done. rewrite (headers_loop_S f2) by done.
  destruct (next_line d pos) as [l|] eqn:El.
  - pose proof (next_line_bounds _ _ _ El) as Hl. rewrite (next_line_app _ e _ _ El).
    destruct (_ <? _); [by injection Hrun as <-|]. case_decide.
    + by rewrite Hrun.
    + destruct (parse_header_field (text l) s) as [[[]|ex'|] s1] eqn:Ep;
        [|by injection Hrun as -> _|done].
      pose proof (parse_header_field_head (text l) s) as Hk. rewrite Ep in Hk. cbn in Hk.
      pose proof (blind_keeps _ s (parse_header_field_blind (text l))) as Hs.
      rewrite Ep in Hs. cbn in Hs.
      eapply IH; [congruence|lia..|exact Hrun].
  - destruct (Z.ltb_spec max_head_size (u64 (seen s + len d))) as [Hbig|]; [|done].
    injection Hrun as <- <-. rewrite u64_small in Hbig by lia.
    destruct (next_line (d ++ e) pos) as [l|] eqn:El'.
    + pose proof (next_line_app_None _ _ _ _ El Hp El') as Hl.
      apply next_line_bounds in El'. rewrite length_app in El'.
      destruct (Z.ltb_spec max_head_size (u64 (seen s + Z.of_nat (next l)))) as [|Hsmall];
        [done|]. rewrite u64_small in Hsmall by lia. lia.
    + rewrite length_app.
      destruct (Z.ltb_spec max_head_size (u64 (seen s + Z.of_nat (length d + length e))))
        as [|Hsmall]; [done|]. rewrite u64_small in Hsmall by lia. lia.
Qed.

(** A result of the parser on [data]: at most all of it consumed, or a
    response with one of the statuses [sts] thrown. *)
Definition consumes (sts : list Z) (data : bytes) (o : outcome exn nat) : Prop :=
  match o with
  | Ok n => (n <= length data)%nat
  | Throw e => exists st reason, st ∈ sts /\ e = failure st reason
  | Diverge => False
  end.

Lemma headers_loop_total fuel data pos s :
  (length data - pos < fuel)%nat -> (pos <= length data)%nat ->
  consumes head_errors data (headers_loop fuel data pos s).1.
Proof.
  revert pos s. induction fuel as [|fuel IH]; intros pos s Hf Hp; [lia|].
  destruct (decide (head_of s = head_headers)) as [Hh|Hh];
    [|by rewrite headers_loop_not_headers].
  rewrite headers_loop_S by done.
  assert (Hlarge : exists st reason, st ∈ head_errors /\ too_large = failure st reason).
  { exists 431. eexists. split; [by_compute|reflexivity]. }
  destruct (next_line data pos) as [l|] eqn:El; [|by destruct (_ <? _)].
  apply next_line_bounds in El. destruct (_ <? _); [done|]. case_decide.
  - assert (Hfin : raises (B:=B) head_errors
      (finalize_head;; on_parser (with_head head_done);; mret (next l)))
      by (apply raises_bind; [apply finalize_head_raises|walk]).
    specialize (Hfin s). destruct (finalize_done_cases s (next l)) as [(s' & E & _)|[e E]];
      rewrite E in *; [cbn; lia|done].
  - pose proof (parse_header_field_raises (text l) s) as Hr.
    destruct (parse_header_field (text l) s) as [[[]|e|] s']; [|done..].
    apply IH; lia.
Qed.

(** ** The loop over the empty lines before the request line *)

Lemma skip_S fuel data pos s :
  skip_empty_lines (S fuel) data pos s =
  match next_line data pos with
  | None =>
      if max_head_size <? u64 (seen s + len data) then (Throw too_large, s)
      else (Ok (inl pos), set_seen (u64 (seen s + Z.of_nat pos)) s)
  | Some l =>
      if decide (text l = []) then skip_empty_lines fuel data (next l) s else (Ok (inr l), s)
  end.
Proof.
  cbn [skip_empty_lines]. destruct (next_line data pos) as [l|]; [by case_decide|].
  unfold mbind, M_bind, gets, fail_if, throw_if, seen. by destruct (_ <? _).
Qed.

Lemma skip_enough f1 f2 data pos s :
  (length data - pos < f1)%nat -> (length data - pos < f2)%nat ->
  skip_empty_lines f1 data pos s = skip_empty_lines f2 data pos s.
Proof.
  revert f2 pos. induction f1 as [|f1 IH]; intros [|f2] pos H1 H2; try lia.
  rewrite !skip_S. destruct (next_line data pos) as [l|] eqn:El; [|done].
  apply next_line_bounds in El. case_decide; [|done]. apply IH; lia.
Qed.

Lemma skip_shift fuel data k pos s :
  (k <= length data)%nat -> 0 <= seen s -> seen s + len data < 2 ^ 64 ->
  skip_empty_lines fuel data (k + pos) s =
  match skip_empty_lines fuel (drop k data) pos (set_seen (seen s + Z.of_nat k) s) with
  | (Ok (inl n), s') => (Ok (inl (k + n)%nat), s')
  | (Ok (inr l), s') => (Ok (inr (shift_line k l)), set_seen (seen s) s')
  | (Throw e, s') => (Throw e, set_seen (seen s) s')
  | (Diverge, s') => (Diverge, set_seen (seen s) s')
  end.
Proof.
  intros Hk H0 H64. revert pos. induction fuel as [|fuel IH]; intros pos.
  { cbn. f_equal. symmetry. exact (set_seen_seen s). }
  rewrite !skip_S, next_line_shift.
  change (seen (set_seen ?n ?x)) with n.
  destruct (next_line (drop k data) pos) as [l|] eqn:El; cbn [fmap option_fmap option_map].
  - cbn [text next shift_line]. case_decide; [apply IH|]. by rewrite set_seen_back.
  - rewrite length_drop. replace (seen s + Z.of_nat k + Z.of_nat (length data - k))
      with (seen s + len data) by lia.
    destruct (_ <? _); [by rewrite set_seen_back|].
    f_equal. rewrite set_seen_twice. f_equal. f_equal. lia.
Qed.

Lemma skip_app f1 f2 f3 d e pos s r s' :
  0 <= seen s -> seen s + len d < 2 ^ 64 ->
  (pos <= length d)%nat -> (length (d ++ e) - pos < f2)%nat -> (length (d ++ e) < f3)%nat ->
  skip_empty_lines f1 d pos s = (Ok r, s') ->
  match r with
  | inr l => s' = s /\ (next l <= length d)%nat /\
      skip_empty_lines f2 (d ++ e) pos s = (Ok (inr l), s)
  | inl n => s' = set_seen (seen s + Z.of_nat n) s /\ (pos <= n <= length d)%nat /\
      seen s + len d <= max_head_size /\
      skip_empty_lines f2 (d ++ e) pos s = skip_empty_lines f3 (d ++ e) n s
  end.
Proof.
  intros H0 H64. rewrite length_app. revert f2 pos.
  induction f1 as [|f1 IH]; intros f2 pos Hp H2 H3 Hrun; [done|].
  destruct f2 as [|f2]; [lia|]. rewrite skip_S in Hrun.
  destruct (next_line d pos) as [l|] eqn:El.
  - pose proof (next_line_bounds _ _ _ El) as Hl.
    rewrite (skip_S f2), (next_line_app _ e _ _ El). case_decide.
    + pose proof (IH f2 (next l) ltac:(lia) ltac:(lia) H3 Hrun) as Hc.
      destruct r; [|done]. destruct Hc as (? & ? & ? & ?). split_and!; [done|lia|lia|done|done].
    + injection Hrun as <- <-. split_and!; [done|lia|done].
  - destruct (Z.ltb_spec max_head_size (u64 (seen s + len d))) as [|Hle]; [done|].
    rewrite u64_small in Hle by lia. injection Hrun as <- <-.
    rewrite u64_small by lia. split_and!; [done|lia|lia|lia|].
    apply skip_enough; rewrite length_app; lia.
Qed.

Lemma skip_throw f1 d pos s ex s' :
  0 <= seen s -> seen s + len d < 2 ^ 64 -> (pos <= length d)%nat ->
  skip_empty_lines f1 d pos s = (Throw ex, s') ->
  ex = too_large /\ max_head_size < seen s + len d.
Proof.
  intros H0 H64. revert pos. induction f1 as [|f1 IH]; intros pos Hp; [done|].
  rewrite skip_S. destruct (next_line d pos) as [l|] eqn:El.
  - apply next_line_bounds in El. case_decide; [apply IH; lia|done].
  - destruct (Z.ltb_spec max_head_size (u64 (seen s + len d))) as [Hbig|]; [|done].
    rewrite u64_small in Hbig by lia. by intros [= <- <-].
Qed.

(** The outcomes of skipping empty lines: the line found, if any, ends past
    everything an earlier and shorter input had. *)
Lemma skip_cases fuel d pos s :
  0 <= seen s -> seen s + len d < 2 ^ 64 -> (pos <= length d)%nat ->
  (length d - pos < fuel)%nat ->
  (exists n, skip_empty_lines fuel d pos s = (Ok (inl n), set_seen (seen s + Z.of_nat n) s) /\
     (n <= length d)%nat /\ seen s + len d <= max_head_size) \/
  (exists l, skip_empty_lines fuel d pos s = (Ok (inr l), s) /\ (pos < next l <= length d)%nat) \/
  skip_empty_lines fuel d pos s = (Throw too_large, s).
Proof.
  intros H0 H64. revert pos. induction fuel as [|fuel IH]; intros pos Hp Hf; [lia|].
  rewrite skip_S. destruct (next_line d pos) as [l|] eqn:El.
  - apply next_line_bounds in El. case_decide.
    + destruct (IH (next l)) as [(n & ?)|[(l' & ? & ?)|?]]; [lia|lia|left; by exists n| |];
        right; [left; exists l'; split; [done|lia]|by right].
    + right. left. exists l. done.
  - destruct (Z.ltb_spec max_head_size (u64 (seen s + len d))) as [|Hle]; [by do 2 right|].
    rewrite u64_small in Hle by lia. left. exists pos. rewrite u64_small by lia. done.
Qed.

Lemma headers_loop_keeps_seen fuel data pos s : seen (headers_loop fuel data pos s).2 = seen s.
Proof.
  revert pos s. induction fuel as [|fuel IH]; intros pos s; [done|].
  destruct (decide (head_of s = head_headers)) as [Hh|Hh];
    [|by rewrite headers_loop_not_headers].
  rewrite headers_loop_S by done. destruct (next_line data pos) as [l|]; [|by destruct (_ <? _)].
  destruct (_ <? _); [done|]. case_decide.
  - destruct (finalize_done_cases s (next l)) as [(s' & -> & _ & ? & _)|[e ->]]; done.
  - pose proof (blind_keeps _ s (parse_header_field_blind (text l))) as Hs.
    destruct (parse_header_field (text l) s) as [[[]|e|] s']; [|done..].
    rewrite IH. done.
Qed.

(** ** parse_head *)

Lemma parse_headers_eq data pos s :
  parse_headers data pos s =
  match headers_loop (S (length data)) data pos s with
  | (Ok n, s') => (Ok n, set_seen (u64 (seen s + Z.of_nat n)) s')
  | (Throw e, s') => (Throw e, s')
  | (Diverge, s') => (Diverge, s')
  end.
Proof.
  unfold parse_headers. unfold mbind at 1, M_bind at 1.
  pose proof (headers_loop_keeps_seen (S (length data)) data pos s) as Hs.
  destruct (headers_loop _ data pos s) as [[n|e|] s']; [|done..].
  cbn in Hs. rewrite <- Hs. reflexivity.
Qed.

(** What it means that a prefix was consumed and the rest can follow: [w] is
    the run on everything, [r] the run on the rest. *)
Definition continues (n : nat) (w r : outcome exn nat * pstate B) : Prop :=
  w.1 = Nat.add n <$> r.1 /\ (forall n', r.1 = Ok n' -> w.2 = r.2).

Lemma parse_headers_shift data k pos s :
  (k <= length data)%nat -> 0 <= seen s -> seen s + len data < 2 ^ 64 ->
  continues k (parse_headers data (k + pos) s)
    (parse_headers (drop k data) pos (set_seen (seen s + Z.of_nat k) s)).
Proof.
  intros Hk H0 H64. rewrite !parse_headers_eq, headers_loop_shift by done.
  set (s2 := set_seen (seen s + Z.of_nat k) s).
  pose proof (headers_loop_keeps_seen (S (length (drop k data))) (drop k data) pos s2) as Hs.
  rewrite (headers_loop_enough _ (S (length (drop k data)))) by (rewrite length_drop; lia).
  destruct (headers_loop _ (drop k data) pos s2) as [[n|e|] s'']; [|done..].
  split; [done|]. intros n' _. cbn -[u64]. rewrite set_seen_twice. f_equal. f_equal.
  change (seen s2) with (seen s + Z.of_nat k). lia.
Qed.

Lemma parse_headers_incremental d e pos s n s1 :
  head_of s = head_headers -> 0 <= seen s -> seen s + len (d ++ e) < 2 ^ 64 ->
  (pos <= length d)%nat -> parse_headers d pos s = (Ok n, s1) ->
  (pos <= n <= length d)%nat /\ seen s1 = seen s + Z.of_nat n /\
  ((head_of s1 = head_done /\ req_state s1 <> uninitialized /\
      parse_headers (d ++ e) pos s = (Ok n, s1)) \/
   (head_of s1 = head_headers /\ req_state s1 = req_state s /\
      seen s + len d <= max_head_size /\
      continues n (parse_headers (d ++ e) pos s) (parse_headers (drop n d ++ e) 0 s1))).
Proof.
  rewrite length_app. intros Hh H0 H64 Hp.
  rewrite (parse_headers_eq d), (parse_headers_eq (d ++ e)).
  destruct (headers_loop _ d pos s) as [[n0|ex|] s'] eqn:E; [|done..].
  intros [= -> <-].
  destruct (headers_loop_app _ (S (length (d ++ e))) (S (length (d ++ e))) d e _ _ _ _
    Hh H0 ltac:(lia) Hp ltac:(lia) ltac:(lia) E) as (Hn & Hseen & Hcase).
  rewrite u64_small by lia. split_and!; [lia|lia|done|].
  destruct Hcase as [(? & ? & Hw)|(? & ? & ? & Hw)]; rewrite Hw.
  - left. rewrite u64_small by lia. done.
  - right. split_and!; [done|done|done|].
    pose proof (parse_headers_shift (d ++ e) n 0 s' ltac:(rewrite length_app; lia)
      ltac:(lia) ltac:(rewrite length_app; lia)) as Hsh.
    rewrite Nat.add_0_r, parse_headers_eq, Hseen, drop_app_le in Hsh by lia. exact Hsh.
Qed.

(** [parse_head] after its first test. *)
Definition start s : pstate B :=
  if decide (req_state s = uninitialized)
  then mk_pstate new_parser (set_state (ps_req s) processing_url) (ps_env s) else s.

Definition after_request_line (data : bytes) (l : line) : PM nat :=
  parse_request_line (text l);;
  p ← gets ps_parser;
  fail_if (max_head_size <? u64 (m_head_seen p + Z.of_nat (next l))) 431
    (bs "Request header fields too large");;
  on_parser (with_head head_headers);;
  on_req (fun q => set_state q processing_header);;
  parse_headers data (next l).

Definition resume (data : bytes) s : outcome exn nat * pstate B :=
  match head_of s with
  | head_done => (Ok 0%nat, s)
  | head_headers => parse_headers data 0 s
  | head_request_line =>
      match skip_empty_lines (S (length data)) data 0 s with
      | (Ok (inl pos), s') => (Ok pos, s')
      | (Ok (inr l), s') => after_request_line data l s'
      | (Throw e, s') => (Throw e, s')
      | (Diverge, s') => (Diverge, s')
      end
  end.

Lemma parse_head_resume data s : parse_head data s = resume data (start s).
Proof.
  transitivity ((p ← gets ps_parser;
    if decide (m_head p = head_done) then mret 0%nat
    else if decide (m_head p = head_request_line) then
      found ← skip_empty_lines (S (length data)) data 0;
      match found with
      | inl pos => mret pos
      | inr l => after_request_line data l
      end
    else parse_headers data 0) (start s)).
  - unfold parse_head, start, req_state. unfold mbind at 1, M_bind at 1, gets at 1.
    by case_decide.
  - generalize (start s). clear s. intros s. unfold resume, head_of.
    unfold mbind at 1, M_bind at 1, gets at 1.
    destruct (m_head (ps_parser s)); cbn [decide decide_rel head_eq_dec]; try done.
    rewrite decide_False, decide_True by done. unfold mbind at 1, M_bind at 1.
    by destruct (skip_empty_lines _ _ _ _) as [[[]|?|] ?].
Qed.

Lemma start_id s : req_state s <> uninitialized -> start s = s.
Proof. intros H. unfold start. by rewrite decide_False. Qed.

Lemma start_state s : req_state (start s) <> uninitialized.
Proof. unfold start. by case_decide. Qed.

(** The state after the request line, or the error it was answered with. *)
Lemma after_request_line_eq data l s :
  after_request_line data l s =
  match parse_request_line (text l) s with
  | (Ok _, s') =>
      if max_head_size <? u64 (seen s + Z.of_nat (next l)) then (Throw too_large, s')
      else parse_headers data (next l)
             (mk_pstate (with_head head_headers (ps_parser s'))
                (set_state (ps_req s') processing_header) (ps_env s'))
  | (Throw e, s') => (Throw e, s')
  | (Diverge, s') => (Diverge, s')
  end.
Proof.
  unfold after_request_line. unfold mbind at 1, M_bind at 1.
  pose proof (blind_keeps _ s (parse_request_line_blind (text l))) as Hs.
  destruct (parse_request_line (text l) s) as [[[]|e|] s']; [|done..]. cbn in Hs.
  unfold mbind at 1 2, M_bind at 1 2, gets, fail_if, throw_if. rewrite <- Hs. unfold seen.
  by destruct (_ <? _).
Qed.

Lemma after_request_line_shift data k l s :
  (k <= length data)%nat -> 0 <= seen s -> seen s + len data < 2 ^ 64 ->
  continues k (after_request_line data (shift_line k l) s)
    (after_request_line (drop k data) l (set_seen (seen s + Z.of_nat k) s)).
Proof.
  intros Hk H0 H64. rewrite !after_request_line_eq. cbn [text next shift_line].
  rewrite (parse_request_line_blind (text l)).
  change (seen (set_seen ?n ?x)) with n.
  replace (seen s + Z.of_nat k + Z.of_nat (next l))
    with (seen s + Z.of_nat (k + next l)) by lia.
  pose proof (blind_keeps _ s (parse_request_line_blind (text l))) as Hs.
  destruct (parse_request_line (text l) s) as [[[]|e|] s']; [|done..]. cbn in Hs |- *.
  destruct (_ <? _); [done|]. rewrite <- Hs in *.
  exact (parse_headers_shift data k (next l)
    (mk_pstate (with_head head_headers (ps_parser s'))
       (set_state (ps_req s') processing_header) (ps_env s')) Hk H0 H64).
Qed.

(** The same for the states in which headers are read. *)
Lemma headers_then_resume d e pos s n s1 :
  head_of s = head_headers -> req_state s <> uninitialized -> 0 <= seen s ->
  seen s + len (d ++ e) < 2 ^ 64 -> (pos <= length d)%nat ->
  parse_headers d pos s = (Ok n, s1) ->
  (n <= length d)%nat /\ req_state s1 <> uninitialized /\
  (head_of s1 <> head_done ->
     seen s1 = seen s + Z.of_nat n /\ seen s + len d <= max_head_size) /\
  continues n (parse_headers (d ++ e) pos s) (resume (drop n d ++ e) s1).
Proof.
  intros Hh Hq H0 H64 Hp Hrun.
  destruct (parse_headers_incremental d e pos s n s1 Hh H0 H64 Hp Hrun)
    as (Hn & Hs & [(Hd & Hq' & Hw)|(Hd & Hq' & Hlim & Hc)]); unfold resume; rewrite Hd.
  - rewrite Hw. split_and!; [lia|done|done|]. split; [cbn; f_equal; lia|done].
  - split_and!; [lia|congruence|done|done].
Qed.

Lemma resume_incremental d e s n s1 :
  req_state s <> uninitialized -> 0 <= seen s -> seen s + len (d ++ e) < 2 ^ 64 ->
  resume d s = (Ok n, s1) ->
  (n <= length d)%nat /\ req_state s1 <> uninitialized /\
  (head_of s1 <> head_done ->
     seen s1 = seen s + Z.of_nat n /\ seen s + len d <= max_head_size) /\
  continues n (resume (d ++ e) s) (resume (drop n d ++ e) s1).
Proof.
  pose proof (length_app d e) as Happ. intros Hq H0 H64. unfold resume at 1 2.
  destruct (head_of s) eqn:Hh.
  - destruct (skip_empty_lines (S (length d)) d 0 s) as [[[pos|l]|ex|] s'] eqn:Esk; try done;
      pose proof (skip_app _ (S (length (d ++ e))) (S (length (d ++ e))) d e 0 s _ _
        H0 ltac:(lia) ltac:(lia) ltac:(lia) ltac:(lia) Esk) as Hc; cbn -[skip_empty_lines] in Hc.
    + intros [= <- <-]. destruct Hc as (-> & Hpos & Hlim & Hw). rewrite Hw.
      split_and!; [lia|done|intros _; split; [done|lia]|].
      pose proof (skip_shift (S (length (d ++ e))) (d ++ e) pos 0 s
        ltac:(lia) H0 ltac:(lia)) as Hsh.
      rewrite Nat.add_0_r in Hsh. rewrite Hsh. clear Hsh Hw Esk.
      pose proof (after_request_line_shift (d ++ e) pos) as Hal.
      rewrite drop_app_le in * by lia.
      set (s2 := set_seen (seen s + Z.of_nat pos) s) in *. unfold resume.
      replace (head_of s2) with head_request_line by done.
      assert (Hlen : length (drop pos d ++ e) = (length d + length e - pos)%nat)
        by (rewrite length_app, length_drop; lia).
      rewrite (skip_enough _ (S (length (drop pos d ++ e)))) by lia.
      pose proof (skip_cases (S (length (drop pos d ++ e))) (drop pos d ++ e) 0 s2) as Hsk.
      change (seen s2) with (seen s + Z.of_nat pos) in Hsk.
      destruct Hsk as [(k & -> & ? & ?)|[(l & -> & Hl)| ->]]; [lia..| | |done].
      * split; [done|]. intros k' _. done.
      * unfold s2. rewrite set_seen_back by done. apply Hal; lia.
    + destruct Hc as (-> & Hl & Hw). rewrite Hw, !after_request_line_eq.
      pose proof (blind_keeps _ s (parse_request_line_blind (text l))) as Hs.
      destruct (parse_request_line (text l) s) as [[[]|ex|] s']; [|done..]. cbn in Hs.
      destruct (_ <? _); [done|]. intros Hrun. rewrite <- Hs in *.
      apply (headers_then_resume d e (next l)
        (mk_pstate (with_head head_headers (ps_parser s'))
           (set_state (ps_req s') processing_header) (ps_env s')) n s1); done.
  - intros Hrun. exact (headers_then_resume d e 0 s n s1 Hh Hq H0 H64 ltac:(lia) Hrun).
  - intros [= <- <-]. unfold resume. rewrite Hh. split_and!; [lia|done|done|done].
Qed.

(** ** Segmentation *)

(** Parsing a prefix that is accepted and then the rest, in front of which
    what the prefix left unconsumed stays, is parsing everything at once. *)
Lemma parse_head_continues (d e : bytes) s (n : nat) s1 :
  0 <= seen s -> seen s + len (d ++ e) < 2 ^ 64 ->
  parse_head d s = (Ok n, s1) ->
  let whole := parse_head (d ++ e) s in
  let rest := parse_head (drop n d ++ e) s1 in
  whole.1 = Nat.add n <$> rest.1 /\ (forall n', rest.1 = Ok n' -> whole.2 = rest.2).
Proof.
  intros H0 H64 Hrun. rewrite parse_head_resume in Hrun.
  assert (0 <= seen (start s) /\ seen (start s) <= seen s) as [? ?]
    by (unfold start; case_decide; cbn; lia).
  destruct (resume_incremental d e (start s) n s1) as (Hn & Hq & _ & Hc);
    [apply start_state|lia|lia|done|].
  cbn zeta. rewrite !parse_head_resume, (start_id s1) by done. exact Hc.
Qed.

(** C3: Parsing the head of a request does not depend on how the network cut it:
    when parse_head consumed n bytes of a first read, feeding it what was
    left with the next read gives the result, the consumed count and the
    state of one call on everything at once. *)
Theorem parse_head_incremental (d e : bytes) s (n : nat) s1 :
  0 <= seen s -> seen s + len (d ++ e) < 2 ^ 64 ->
  parse_head d s = (Ok n, s1) ->
  let whole := parse_head (d ++ e) s in
  let rest := parse_head (drop n d ++ e) s1 in
  whole.1 = Nat.add n <$> rest.1 /\ (forall n', rest.1 = Ok n' -> whole.2 = rest.2).
Proof. apply parse_head_continues. Qed.

Lemma skip_past_end f1 f2 d e pos s ex s' l s2 :
  (pos <= length d)%nat -> skip_empty_lines f1 d pos s = (Throw ex, s') ->
  skip_empty_lines f2 (d ++ e) pos s = (Ok (inr l), s2) -> (length d < next l)%nat.
Proof.
  revert f2 pos. induction f1 as [|f1 IH]; intros [|f2] pos Hp; try done.
  rewrite !skip_S. destruct (next_line d pos) as [l0|] eqn:El.
  - pose proof (next_line_bounds _ _ _ El). rewrite (next_line_app _ e _ _ El).
    case_decide; [|done]. apply IH. lia.
  - intros _. destruct (next_line (d ++ e) pos) as [l0|] eqn:El'; [|by destruct (_ <? _)].
    pose proof (next_line_app_None _ _ _ _ El Hp El') as Hlt. clear -Hlt.
    case_decide; [|by intros [= <- <-]].
    intros Hrun. enough (next l0 < next l)%nat by lia. clear Hlt H.
    revert Hrun. generalize (next l0) as q. induction f2 as [|f2 IH]; intros q; [done|].
    rewrite skip_S. destruct (next_line (d ++ e) q) as [l1|] eqn:El1; [|by destruct (_ <? _)].
    apply next_line_bounds in El1. case_decide; [intros ?%IH; lia|intros [= <- <-]; lia].
Qed.

Lemma resume_throw d e s ex s' :
  0 <= seen s -> seen s + len (d ++ e) < 2 ^ 64 ->
  resume d s = (Throw ex, s') -> exists ex', (resume (d ++ e) s).1 = Throw ex'.
Proof.
  pose proof (length_app d e) as Happ. intros H0 H64. unfold resume.
  assert (Hph : forall pos (st : pstate B), head_of st = head_headers -> seen st = seen s ->
    (pos <= length d)%nat -> (parse_headers d pos st).1 = Throw ex ->
    (parse_headers (d ++ e) pos st).1 = Throw ex).
  { intros pos st Hh Hs Hp. rewrite !parse_headers_eq.
    destruct (headers_loop _ d pos st) as [[]] eqn:E; try done. cbn [fst]. intros [= ->].
    pose proof (headers_loop_throw _ (S (length (d ++ e))) d e pos st ex _ Hh ltac:(lia)
      ltac:(lia) Hp ltac:(lia) E) as Ht.
    destruct (headers_loop _ (d ++ e) pos st) as [[]]; cbn [fst] in *; congruence. }
  destruct (head_of s) eqn:Hh; [|intros Hrun; exists ex; apply Hph; try done; [lia|by rewrite Hrun]|done].
  destruct (skip_empty_lines (S (length d)) d 0 s) as [[[pos|l]|ex0|] s0] eqn:Esk; try done.
  - pose proof (skip_app _ (S (length (d ++ e))) (S (length (d ++ e))) d e 0 s _ _
      H0 ltac:(lia) ltac:(lia) ltac:(lia) ltac:(lia) Esk) as (-> & Hl & ->).
    rewrite !after_request_line_eq.
    pose proof (blind_keeps _ s (parse_request_line_blind (text l))) as Hs.
    destruct (parse_request_line (text l) s) as [[[]|ex1|] s1]; [|by eexists|done]. cbn in Hs.
    destruct (_ <? _); [by eexists|]. intros Hrun. exists ex.
    apply Hph; [done|done|done|by rewrite Hrun].
  - destruct (skip_throw _ d 0 s _ _ H0 ltac:(lia) ltac:(lia) Esk) as [-> Hbig].
    destruct (skip_cases (S (length (d ++ e))) (d ++ e) 0 s H0 H64)
      as [(k & Ek & ? & ?)|[(l & Ek & Hl)| Ek]]; [lia..| | |]; rewrite Ek; [lia| |by eexists].
    pose proof (skip_past_end _ _ d e 0 _ _ _ _ _ ltac:(lia) Esk Ek) as Hpast.
    intros _. rewrite after_request_line_eq.
    pose proof (parse_request_line_raises (text l) s) as Hr.
    destruct (parse_request_line (text l) s) as [[[]|ex1|] s1]; [|by eexists|done].
    destruct (Z.ltb_spec max_head_size (u64 (seen s + Z.of_nat (next l)))) as [|Hsm];
      [by eexists|]. rewrite u64_small in Hsm by lia. lia.
Qed.

(** A head that was refused stays refused: whatever arrives after the bytes
    parse_head threw on, parsing all of them throws too. *)
Theorem parse_head_error_persists (d e : bytes) s ex s' :
  0 <= seen s -> seen s + len (d ++ e) < 2 ^ 64 ->
  parse_head d s = (Throw ex, s') -> exists ex', (parse_head (d ++ e) s).1 = Throw ex'.
Proof.
  rewrite !parse_head_resume. intros H0 H64.
  assert (0 <= seen (start s) /\ seen (start s) <= seen s) as [? ?]
    by (unfold start; case_decide; cbn; lia).
  apply resume_throw; lia.
Qed.

Lemma parse_headers_total data pos s :
  (pos <= length data)%nat -> consumes head_errors data (parse_headers data pos s).1.
Proof.
  intros Hp. rewrite parse_headers_eq.
  pose proof (headers_loop_total (S (length data)) data pos s ltac:(lia) Hp) as H.
  by destruct (headers_loop _ data pos s) as [[]].
Qed.

Lemma skip_total fuel data pos s :
  (length data - pos < fuel)%nat -> (pos <= length data)%nat ->
  match (skip_empty_lines fuel data pos s).1 with
  | Ok (inl n) => (n <= length data)%nat
  | Ok (inr l) => (next l <= length data)%nat
  | Throw e => e = too_large
  | Diverge => False
  end.
Proof.
  revert pos. induction fuel as [|fuel IH]; intros pos Hf Hp; [lia|]. rewrite skip_S.
  destruct (next_line data pos) as [l|] eqn:El; [|by destruct (_ <? _)].
  apply next_line_bounds in El. case_decide; [apply IH; lia|cbn; lia].
Qed.

Lemma parse_head_consumes data s : consumes head_errors data (parse_head data s).1.
Proof.
  rewrite parse_head_resume. generalize (start s). clear s. intros s. unfold resume.
  assert (Hlarge : consumes head_errors data (Throw too_large)).
  { exists 431. eexists. split; [by_compute|reflexivity]. }
  destruct (head_of s); [|apply parse_headers_total; lia|cbn; lia].
  pose proof (skip_total (S (length data)) data 0 s ltac:(lia) ltac:(lia)) as Hsk.
  destruct (skip_empty_lines _ data 0 s) as [[[pos|l]|e|] s']; cbn [fst] in Hsk;
    [done| |by subst|done].
  rewrite after_request_line_eq. pose proof (parse_request_line_raises (text l) s') as Hr.
  destruct (parse_request_line (text l) s') as [[[]|e|] s1]; [|done..].
  destruct (_ <? _); [done|]. by apply parse_headers_total.
Qed.

(** C15: parse_head always returns, never consumes more than it was given, and
    throws nothing but the responses 400, 431, 501 and 505. *)
Theorem parse_head_total (data : bytes) s :
  consumes [400; 431; 501; 505] data (parse_head data s).1.
Proof. apply parse_head_consumes. Qed.

(** C17: As long as parse_head waits for more of a head, what it consumed of it and
    what is left unconsumed stay within max_head_size: a client cannot
    make a session buffer an endless head. *)
Theorem parse_head_bounded (data : bytes) s (n : nat) s1 :
  0 <= seen s -> seen s + len data < 2 ^ 64 ->
  parse_head data s = (Ok n, s1) -> head_of s1 <> head_done ->
  0 <= seen s1 /\ seen s1 + len (drop n data) <= max_head_size.
Proof.
  intros H0 H64 Hrun Hh. rewrite parse_head_resume in Hrun.
  assert (0 <= seen (start s) /\ seen (start s) <= seen s) as [? ?]
    by (unfold start; case_decide; cbn; lia).
  destruct (resume_incremental data [] (start s) n s1) as (Hn & Hq & Hlim & _);
    [apply start_state|done|rewrite app_nil_r; lia|done|].
  destruct (Hlim Hh) as [-> ?]. rewrite length_drop. lia.
Qed.

(** ** Phases

    How far the parser got and what the request says of it agree. *)

Definition phase_ok s : Prop :=
  match head_of s with
  | head_request_line => req_state s = processing_url
  | head_headers => req_state s = processing_header
  | head_done => req_state s = headers_completed \/ req_state s = completed
  end.

Lemma finalize_phase s (n m : nat) s' :
  (finalize_head;; on_parser (with_head head_done);; mret n) s = (Ok m, s') -> phase_ok s'.
Proof.
  unfold finalize_head, mbind, M_bind, gets, fail_if, throw_if, on_req, on_parser, modify.
  destruct (_ && _); [done|]. cbn.
  destruct (m_chunked (ps_parser s)); [|destruct (negb _)]; cbn; intros [= _ <-];
    unfold phase_ok, req_state; cbn; auto.
Qed.

Lemma headers_loop_phase fuel data pos s n s' :
  head_of s = head_headers -> req_state s = processing_header ->
  headers_loop fuel data pos s = (Ok n, s') -> phase_ok s'.
Proof.
  revert pos s. induction fuel as [|fuel IH]; intros pos s Hh Hq; [done|].
  rewrite headers_loop_S by done. destruct (next_line data pos) as [l|].
  - destruct (_ <? _); [done|]. case_decide; [apply finalize_phase|].
    pose proof (parse_header_field_head (text l) s) as Hkh.
    pose proof (parse_header_field_state (text l) s) as Hkq.
    destruct (parse_header_field (text l) s) as [[[]|e|] s1]; [|done..]. cbn in Hkh, Hkq.
    apply IH; congruence.
  - destruct (_ <? _); [done|]. intros [= _ <-]. unfold phase_ok. by rewrite Hh.
Qed.

Lemma parse_headers_phase data pos s n s' :
  head_of s = head_headers -> req_state s = processing_header ->
  parse_headers data pos s = (Ok n, s') -> phase_ok s'.
Proof.
  intros Hh Hq. rewrite parse_headers_eq.
  destruct (headers_loop _ data pos s) as [[m|e|] s1] eqn:E; [|done..].
  intros [= _ <-]. exact (headers_loop_phase _ _ _ _ _ _ Hh Hq E).
Qed.

Lemma skip_keeps fuel data pos s r s' :
  skip_empty_lines fuel data pos s = (Ok r, s') ->
  head_of s' = head_of s /\ req_state s' = req_state s /\ ps_env s' = ps_env s.
Proof.
  revert pos. induction fuel as [|fuel IH]; intros pos; [done|]. rewrite skip_S.
  destruct (next_line data pos) as [l|]; [case_decide; [apply IH|by intros [= _ <-]]|].
  destruct (_ <? _); [done|]. by intros [= _ <-].
Qed.

Lemma parse_head_phase data s n s' :
  phase_ok (start s) -> parse_head data s = (Ok n, s') -> phase_ok s'.
Proof.
  rewrite parse_head_resume. generalize (start s) as s0. clear s. intros s Hph. unfold resume.
  destruct (head_of s) eqn:Hh.
  - destruct (skip_empty_lines _ data 0 s) as [[[pos|l]|e|] s1] eqn:E; [|..|done|done].
    + apply skip_keeps in E as (Hh1 & Hq1 & _). intros [= _ <-]. unfold phase_ok in *.
      rewrite Hh1, Hh, Hq1 in *. done.
    + rewrite after_request_line_eq.
      destruct (parse_request_line (text l) s1) as [[[]|e|] s2]; [|done..].
      destruct (_ <? _); [done|]. by apply parse_headers_phase.
  - apply parse_headers_phase; [done|]. unfold phase_ok in Hph. by rewrite Hh in Hph.
  - by intros [= _ <-].
Qed.

Lemma parse_head_done data s : head_of s = head_done -> req_state s <> uninitialized ->
  parse_head data s = (Ok 0%nat, s).
Proof. intros Hh Hq. rewrite parse_head_resume, start_id by done. unfold resume. by rewrite Hh. Qed.
End loops.


(** ** Concrete requests *)

Definition fresh_request : pstate unit := mk_pstate new_parser new_request tt.
Definition first_read : bytes := bs "GET /index.html HTTP/1.1" ++ crlf_string ++ bs "Ho".
Definition second_read : bytes := bs "st: localhost" ++ crlf_string ++ crlf_string.

(** The second read completes what the first one left of the head. *)
Lemma parse_head_incremental_witness :
  let s1 := (parse_head first_read fresh_request).2 in
  (parse_head (first_read ++ second_read) fresh_request).1 =
    Nat.add 26 <$> (parse_head (drop 26 first_read ++ second_read) s1).1 /\
  (parse_head (drop 26 first_read ++ second_read) s1).1 = Ok 19%nat.
Proof.
  split; [|vm_compute; reflexivity].
  apply (parse_head_incremental first_read second_read fresh_request 26 (parse_head first_read fresh_request).2);
    vm_compute; done.
Defined.

Lemma parse_head_error_persists_witness :
  exists ex, (parse_head (bs "GET" ++ crlf_string ++ second_read) fresh_request).1 = Throw ex.
Proof.
  destruct (parse_head_error_persists (bs "GET" ++ crlf_string) second_read fresh_request
    (failure 400 (bs "Invalid request line")) (parse_head (bs "GET" ++ crlf_string) fresh_request).2)
    as [ex Hex]; [vm_compute; done..|]. exists ex. exact Hex.
Defined.

Lemma parse_head_bounded_witness :
  let s1 := (parse_head first_read fresh_request).2 in
  0 <= seen s1 /\ seen s1 + len (drop 26 first_read) <= max_head_size.
Proof.
  apply (parse_head_bounded first_read fresh_request 26 (parse_head first_read fresh_request).2);
    vm_compute; done.
Defined.
