(* ===== verification/BodyProofs.v ===== *)
(** * parse_body: termination, limits, and independence of segmentation *)

From S2P Require Import Prelude Utils Charconv Http HttpParser HeadProofs.

Local Open Scope Z_scope.

Lemma char_at_drop data k pos : char_at (drop k data) pos = char_at data (k + pos).
Proof.
  unfold char_at. rewrite !nth_lookup, lookup_drop. done.
Qed.

Lemma char_at_app_l d e pos : (pos < length d)%nat -> char_at (d ++ e) pos = char_at d pos.
Proof. intros H. unfold char_at. rewrite !nth_lookup. by rewrite lookup_app_l. Qed.

(** A fact about every character is checked character by character. *)
Lemma all_ascii (P : ascii -> bool) :
  forallb (fun n => P (ascii_of_nat n)) (seq 0 256) = true -> forall c, P c = true.
Proof.
  intros H c. rewrite <- (ascii_nat_embedding c).
  rewrite forallb_forall in H. apply H, in_seq. pose proof (nat_ascii_bounded c). lia.
Qed.

Lemma hex_value_range c : has_class c hex_char = true -> 0 <= hex_value c < 16.
Proof.
  intros Hc.
  assert (implb (has_class c hex_char) ((0 <=? hex_value c) && (hex_value c <? 16)) = true) as H.
  { revert c Hc. intros c _. revert c. apply all_ascii. vm_compute. reflexivity. }
  rewrite Hc in H. cbn in H. lia.
Qed.

(** One more hexadecimal digit, as long as the number has room for it. *)
Definition push_digit (size : Z) (c : ascii) : Z := Z.lor (u64 (Z.shiftl size 4)) (hex_value c).

Lemma push_digit_range size c :
  has_class c hex_char = true -> 0 <= push_digit size c < 2 ^ 64.
Proof.
  intros Hc%hex_value_range. unfold push_digit, u64.
  rewrite Z.shiftl_mul_pow2 by lia.
  replace (2 ^ 64) with (2 ^ 60 * 2 ^ 4) at 1 2 by done. rewrite Zmult_mod_distr_r.
  pose proof (Z.mod_pos_bound size (2 ^ 60) ltac:(lia)).
  rewrite <- Z.shiftl_mul_pow2 by lia. rewrite lor_shiftl_add by lia. lia.
Qed.

Lemma push_digit_small size c :
  0 <= size < 2 ^ 60 -> has_class c hex_char = true -> push_digit size c = size * 16 + hex_value c.
Proof.
  intros Hs Hc%hex_value_range. unfold push_digit.
  rewrite u64_small by (rewrite Z.shiftl_mul_pow2 by lia; lia).
  by rewrite lor_shiftl_add by lia.
Qed.

Section body.
Context {B : Type}.
Implicit Types s : pstate B.
Abbreviation PM := (M (pstate B) exn).

Definition chunk_of s : chunk := m_chunk (ps_parser s).
Definition remaining s : Z := m_remaining (ps_parser s).

(** ** One round of the loop *)

Definition shift_round (k : nat) (r : nat + nat) : nat + nat :=
  match r with inl n => inl (k + n)%nat | inr n => inr (k + n)%nat end.

Definition map_result {A C} (f : A -> C) (w : outcome exn A * pstate B)
    : outcome exn C * pstate B := (f <$> w.1, w.2).

Lemma map_result_bind {A C D} (f : C -> D) (m : PM A) (k : A -> PM C) s :
  map_result f ((m ≫= k) s) = (m ≫= (fun a => fun s => map_result f (k a s))) s.
Proof. unfold mbind, M_bind, map_result. by destruct (m s) as [[]]. Qed.

Lemma bind_ext_ok {A C} (m : PM A) (k k' : A -> PM C) s :
  (forall a s', m s = (Ok a, s') -> k a s' = k' a s') -> (m ≫= k) s = (m ≫= k') s.
Proof. intros H. unfold mbind, M_bind. destruct (m s) as [[] ?]; auto. Qed.

Lemma chunked_step_shift data k pos s :
  (k + pos < length data)%nat ->
  chunked_step data (k + pos) s = map_result (shift_round k) (chunked_step (drop k data) pos s).
Proof.
  intros Hlt. unfold chunked_step. rewrite map_result_bind. apply bind_ext. intros p s1.
  rewrite !next_line_shift, !char_at_drop, !length_drop.
  replace (Z.of_nat (length data - k) - Z.of_nat pos)
    with (len data - Z.of_nat (k + pos)) by lia.
  destruct (m_chunk p).
  - destruct (next_line (drop k data) pos) as [l|]; cbn [fmap option_fmap option_map];
      rewrite map_result_bind; by apply bind_ext.
  - unfold substr. rewrite drop_drop. rewrite map_result_bind. apply bind_ext. intros _ s2.
    rewrite map_result_bind. apply bind_ext. intros _ s3.
    rewrite map_result_bind. apply bind_ext. intros p' s4.
    rewrite map_result_bind. apply bind_ext. intros _ s5.
    unfold mret, M_ret, map_result. cbn [fst snd fmap outcome_fmap shift_round]. do 3 f_equal. lia.
  - case_decide; [|case_decide; [|done]].
    + rewrite map_result_bind. apply bind_ext. intros _ s2.
      unfold mret, M_ret, map_result. cbn [fst snd fmap outcome_fmap shift_round]. do 3 f_equal. lia.
    + destruct (decide (pos + 1 = length data - k)%nat) as [He|He];
        [by rewrite decide_True by lia|]. rewrite decide_False by lia.
      replace (k + pos + 1)%nat with (k + (pos + 1))%nat by lia.
      rewrite map_result_bind. apply bind_ext. intros _ s2.
      rewrite map_result_bind. apply bind_ext. intros _ s3.
      unfold mret, M_ret, map_result. cbn [fst snd fmap outcome_fmap shift_round]. do 3 f_equal. lia.
  - destruct (next_line (drop k data) pos) as [l|]; cbn [fmap option_fmap option_map].
    + cbn [text shift_line]. case_decide; rewrite map_result_bind; [by apply bind_ext|].
      apply bind_ext. intros _ s2. rewrite map_result_bind. apply bind_ext. intros p' s3.
      rewrite map_result_bind. apply bind_ext. intros _ s4.
      rewrite map_result_bind. by apply bind_ext.
    + rewrite map_result_bind. by apply bind_ext.
Qed.

Lemma chunked_loop_shift fuel data k pos s :
  (k <= length data)%nat ->
  chunked_loop fuel data (k + pos) s = map_result (Nat.add k) (chunked_loop fuel (drop k data) pos s).
Proof.
  intros Hk. revert pos s. induction fuel as [|fuel IH]; intros pos s; [done|].
  cbn [chunked_loop]. rewrite length_drop.
  destruct (decide (k + pos < length data)%nat) as [Hlt|Hge].
  - rewrite (decide_True (P := (pos < length data - k)%nat)) by lia.
    unfold mbind at 1 2, M_bind at 1 2. rewrite chunked_step_shift by lia.
    destruct (chunked_step (drop k data) pos s) as [[[n|n]|e|] s']; cbn; auto.
  - rewrite decide_False by lia. done.
Qed.

(** ** The rounds, one equation per state *)

Definition bad_size_line : exn := failure 400 (bs "Invalid chunk size").
Definition trailers_too_large : exn := failure 431 (bs "Trailer fields too large").

Definition set_chunk (c : chunk) s : pstate B :=
  mk_pstate (with_chunk c (ps_parser s)) (ps_req s) (ps_env s).
Definition set_remaining (n : Z) s : pstate B :=
  mk_pstate (with_remaining n (ps_parser s)) (ps_req s) (ps_env s).
Definition set_req_state (st : parse_state) s : pstate B :=
  mk_pstate (ps_parser s) (set_state (ps_req s) st) (ps_env s).

Lemma step_size data pos s :
  chunk_of s = chunk_Size ->
  chunked_step data pos s =
  match next_line data pos with
  | None => if max_chunk_line_size <? len data - Z.of_nat pos
            then (Throw bad_size_line, s) else (Ok (inl pos), s)
  | Some l => map_result (fun _ => inr (next l)) (chunk_size_line (text l) s)
  end.
Proof.
  unfold chunk_of. intros Hc. unfold chunked_step, mbind at 1, M_bind at 1, gets. rewrite Hc.
  destruct (next_line data pos) as [l|].
  - unfold mbind, M_bind, map_result. by destruct (chunk_size_line (text l) s) as [[]].
  - unfold fail_if, throw_if. by destruct (_ <? _).
Qed.

(** What [case chunk::Data] does with the bytes it hands over. *)
Definition take_data (size : Z) (data : bytes) : PM unit :=
  deliver data;;
  on_parser (fun p => with_remaining (u64 (m_remaining p - size)) p);;
  p ← gets ps_parser;
  if m_remaining p =? 0 then on_parser (with_chunk chunk_data_end) else mret tt.

Lemma step_data data pos s :
  chunk_of s = chunk_Data ->
  let size := Z.min (remaining s) (len data - Z.of_nat pos) in
  chunked_step data pos s =
  map_result (fun _ => inr (pos + Z.to_nat size)%nat)
    (take_data size (substr data pos (Z.to_nat size)) s).
Proof.
  unfold chunk_of. intros Hc. unfold chunked_step, mbind at 1, M_bind at 1, gets. rewrite Hc.
  cbn zeta. unfold take_data, remaining. rewrite !map_result_bind. apply bind_ext. intros _ s2.
  rewrite !map_result_bind. apply bind_ext. intros _ s3.
  rewrite !map_result_bind. apply bind_ext. intros p s4.
  by destruct (m_remaining p =? 0).
Qed.

Definition bad_chunk : exn := failure 400 (bs "Invalid chunk").

Lemma step_data_end data pos s :
  chunk_of s = chunk_data_end ->
  chunked_step data pos s =
  if decide (char_at data pos = LF) then (Ok (inr (pos + 1)%nat), set_chunk chunk_Size s)
  else if decide (char_at data pos = CR) then
    if decide (pos + 1 = length data)%nat then (Ok (inl pos), s)
    else if bool_decide (char_at data (pos + 1) = LF)
    then (Ok (inr (pos + 2)%nat), set_chunk chunk_Size s) else (Throw bad_chunk, s)
  else (Throw bad_chunk, s).
Proof.
  unfold chunk_of. intros Hc. unfold chunked_step, mbind at 1, M_bind at 1, gets. rewrite Hc.
  repeat case_decide; try done.
Qed.

(** A trailer field: it counts as a header, and is otherwise ignored. *)
Definition trailer_field (txt : bytes) : PM unit :=
  on_parser (fun p => with_headers (u64 (m_headers p + 1)) p);;
  p ← gets ps_parser;
  fail_if (max_headers_count <? m_headers p) 431 (bs "Too many trailer fields");;
  fail_if (negb (all_chars txt value_char)) 400 (bs "Invalid trailer field").

Lemma step_trailers data pos s :
  chunk_of s = chunk_trailers ->
  chunked_step data pos s =
  match next_line data pos with
  | None => if max_head_size <? len data - Z.of_nat pos
            then (Throw trailers_too_large, s) else (Ok (inl pos), s)
  | Some l =>
      if decide (text l = []) then (Ok (inl (next l)), set_req_state completed s)
      else map_result (fun _ => inr (next l)) (trailer_field (text l) s)
  end.
Proof.
  unfold chunk_of. intros Hc. unfold chunked_step, mbind at 1, M_bind at 1, gets. rewrite Hc.
  destruct (next_line data pos) as [l|].
  - case_decide; [done|]. unfold trailer_field.
    rewrite map_result_bind. apply bind_ext. intros _ s2.
    rewrite map_result_bind. apply bind_ext. intros p s3.
    rewrite map_result_bind. apply bind_ext. intros _ s4.
    unfold fail_if, throw_if. by destruct (negb _).
  - unfold fail_if, throw_if. by destruct (_ <? _).
Qed.

(** ** The lines of a chunked body *)

(** A chunk-size line either gives a 64-bit size, or is answered with a 400;
    nothing but [m_remaining] and [m_chunk] changes. *)
Lemma chunk_digits_spec digits size txt s :
  0 <= size < 2 ^ 64 ->
  match chunk_digits digits size txt s with
  | (Ok (_, v), s') => s' = s /\ 0 <= v < 2 ^ 64
  | (Throw e, s') => s' = s /\ exists reason, e = failure 400 reason
  | (Diverge, _) => False
  end.
Proof.
  revert digits size. induction txt as [|c txt IH]; intros digits size Hs; [done|].
  cbn [chunk_digits]. destruct (has_class c hex_char) eqn:Hc; [|done].
  unfold mbind, M_bind, fail_if, throw_if. destruct (digits =? 16)%nat; [by split; [|eexists]|].
  apply IH, (push_digit_range size c Hc).
Qed.

Definition next_chunk (size : Z) : chunk := if negb (size =? 0) then chunk_Data else chunk_trailers.

Lemma chunk_size_line_spec txt s :
  match chunk_size_line txt s with
  | (Ok _, s') => exists size, 0 <= size < 2 ^ 64 /\
                    s' = set_chunk (next_chunk size) (set_remaining size s)
  | (Throw e, s') => s' = s /\ exists reason, e = failure 400 reason
  | (Diverge, _) => False
  end.
Proof.
  unfold chunk_size_line. unfold mbind at 1, M_bind at 1.
  pose proof (chunk_digits_spec 0 0 txt s ltac:(lia)) as H.
  destruct (chunk_digits 0 0 txt s) as [[[digits size]|e|] s']; [|done..].
  destruct H as [-> Hv]. unfold mbind, M_bind, fail_if, throw_if.
  destruct (digits =? 0)%nat; [by split; [|eexists]|]. cbn [fst snd].
  destruct (_ && _); [by split; [|eexists]|]. exists size. by split.
Qed.

Lemma trailer_field_spec txt s :
  match trailer_field txt s with
  | (Ok _, s') => chunk_of s' = chunk_of s /\ remaining s' = remaining s /\
                  ps_req s' = ps_req s /\ ps_env s' = ps_env s /\
                  m_received (ps_parser s') = m_received (ps_parser s)
  | (Throw e, s') => exists st reason, st ∈ [400; 431] /\ e = failure st reason
  | (Diverge, _) => False
  end.
Proof.
  unfold trailer_field, mbind, M_bind, fail_if, throw_if, on_parser, modify, gets. cbn -[u64].
  destruct (_ <? _); [by cbn; exists 431; eexists; split; [by_compute|]|].
  cbn -[u64]. destruct (negb _); [by cbn; exists 400; eexists; split; [by_compute|]|done].
Qed.

(** Handing a piece of the body over: the members it changes, and what can go
    wrong on the way. *)
Definition with_delivered (n : Z) (env : B) s : pstate B :=
  mk_pstate (with_received (u64 (m_received (ps_parser s) + n)) (ps_parser s)) (ps_req s) env.

Definition over_limit (q : request B) (received : Z) : bool :=
  negb (m_max_body_size q =? 0) && (m_max_body_size q <? received).

Definition entity_too_large : exn := failure 413 (bs "Request entity too large").

Lemma deliver_eq data s :
  deliver data s =
  if over_limit (ps_req s) (u64 (m_received (ps_parser s) + len data))
  then (Throw entity_too_large, with_delivered (len data) (ps_env s) s)
  else let '(o, env) := append_body (ps_req s) data (ps_env s) in
       (o, with_delivered (len data) env s).
Proof.
  unfold deliver, mbind, M_bind, fail_if, throw_if, on_parser, modify, get, over_limit, on_env.
  cbn -[u64]. by destruct (_ && _).
Qed.

Definition after_data (size : Z) s : pstate B :=
  let r := u64 (remaining s - size) in
  if r =? 0 then set_chunk chunk_data_end (set_remaining r s) else set_remaining r s.

Lemma take_data_eq size data s :
  take_data size data s =
  let '(o, s') := deliver data s in
  match o with
  | Ok _ => (Ok tt, after_data size s')
  | Throw e => (Throw e, s')
  | Diverge => (Diverge, s')
  end.
Proof.
  unfold take_data, mbind, M_bind. destruct (deliver data s) as [[]]; [|done..].
  unfold after_data, on_parser, modify, gets. cbn -[u64]. by destruct (_ =? 0).
Qed.

(** ** Progress

    A round consumes a byte, or it leaves [chunk::Data]: the loop takes at most
    two rounds per byte. *)

Definition callback_of s := m_callback (ps_req s).

Lemma append_body_callback_of (q q' : request B) data env :
  m_callback q = m_callback q' -> append_body q data env = append_body q' data env.
Proof. unfold append_body. by intros ->. Qed.

(** The errors of a body: a response of the parser's own, or whatever the
    session's callback threw at a piece of the body. *)
Definition body_errors : list Z := [400; 413; 431].

Definition body_error (q : request B) (e : exn) : Prop :=
  (exists st reason, st ∈ body_errors /\ e = failure st reason) \/
  exists piece env, (append_body q piece env).1 = Throw e.

Lemma body_error_status (q : request B) st reason : st ∈ body_errors -> body_error q (failure st reason).
Proof. left. eauto. Qed.

Definition callback_diverges (q : request B) : Prop :=
  exists piece env, (append_body q piece env).1 = Diverge.

Lemma deliver_spec data s :
  match deliver data s with
  | (Ok _, s') => exists env,
      s' = with_delivered (len data) env s /\ append_body (ps_req s) data (ps_env s) = (Ok tt, env) /\
      over_limit (ps_req s) (u64 (m_received (ps_parser s) + len data)) = false
  | (Throw e, _) => body_error (ps_req s) e
  | (Diverge, _) => callback_diverges (ps_req s)
  end.
Proof.
  rewrite deliver_eq. destruct (over_limit _ _); [apply body_error_status; by_compute|].
  destruct (append_body (ps_req s) data (ps_env s)) as [[[]|e|] env] eqn:E; [eauto|right|];
    exists data, (ps_env s); by rewrite E.
Qed.

Lemma chunked_step_spec data pos s :
  (pos < length data)%nat ->
  match chunked_step data pos s with
  | (Ok (inl n), s') => (pos <= n <= length data)%nat /\ callback_of s' = callback_of s
  | (Ok (inr n), s') =>
      callback_of s' = callback_of s /\
      ((pos < n <= length data)%nat \/
       n = pos /\ chunk_of s = chunk_Data /\ chunk_of s' <> chunk_Data)
  | (Throw e, _) => body_error (ps_req s) e
  | (Diverge, _) => callback_diverges (ps_req s)
  end.
Proof.
  intros Hp. destruct (chunk_of s) eqn:Hc.
  - rewrite step_size by done. destruct (next_line data pos) as [l|] eqn:El.
    + apply next_line_bounds in El. pose proof (chunk_size_line_spec (text l) s) as H.
      destruct (chunk_size_line (text l) s) as [[[]|e|] s']; cbn; [|by destruct H as (_&?&->); apply body_error_status; by_compute|done].
      destruct H as (size & _ & ->). split; [done|lia].
    + destruct (_ <? _); [apply body_error_status; by_compute|split; [lia|done]].
  - rewrite step_data by done. rewrite take_data_eq. pose proof (deliver_spec
      (substr data pos (Z.to_nat (Z.min (remaining s) (len data - Z.of_nat pos)))) s) as H.
    destruct (deliver _ s) as [[[]|e|] s']; [|done..]. destruct H as (env & -> & _).
    cbn -[u64 Z.min after_data]. split; [unfold after_data; by destruct (_ =? 0)|].
    destruct (decide (0 < remaining s)); [left; lia|right].
    split_and!; [lia|done|]. unfold after_data.
    change (remaining (with_delivered ?a ?b s)) with (remaining s).
    rewrite Z.min_l, Z.sub_diag by lia. done.
  - rewrite step_data_end by done. repeat case_decide; try case_bool_decide;
      try (apply body_error_status; by_compute); split; try done; lia.
  - rewrite step_trailers by done. destruct (next_line data pos) as [l|] eqn:El.
    + apply next_line_bounds in El. case_decide as Ht; [split; [lia|done]|].
      pose proof (trailer_field_spec (text l) s) as H.
      destruct (trailer_field (text l) s) as [[[]|e|] s']; cbn; [| |done].
      * destruct H as (_ & _ & Hq & _). unfold callback_of. rewrite Hq. split; [done|lia].
      * destruct H as (st & r & Hst & ->). apply body_error_status. set_solver.
    + destruct (_ <? _); [apply body_error_status; by_compute|split; [lia|done]].
Qed.

Definition rounds (data : bytes) (pos : nat) s : nat :=
  (2 * (length data - pos) + if decide (chunk_of s = chunk_Data) then 1 else 0)%nat.

Lemma chunked_step_rounds data pos s n s' :
  (pos < length data)%nat -> chunked_step data pos s = (Ok (inr n), s') ->
  (n <= length data)%nat /\ (rounds data n s' < rounds data pos s)%nat.
Proof.
  intros Hp H. pose proof (chunked_step_spec data pos s Hp) as Hs. rewrite H in Hs.
  destruct Hs as (_ & [?|(-> & Hd & Hnd)]); unfold rounds; repeat case_decide; try done; lia.
Qed.

Lemma chunked_loop_S fuel data pos s :
  chunked_loop (S fuel) data pos s =
  if decide (pos < length data)%nat then
    match chunked_step data pos s with
    | (Ok (inl n), s') => (Ok n, s')
    | (Ok (inr n), s') => chunked_loop fuel data n s'
    | (Throw e, s') => (Throw e, s')
    | (Diverge, s') => (Diverge, s')
    end
  else (Ok pos, s).
Proof.
  cbn [chunked_loop]. case_decide; [|done]. unfold mbind, M_bind.
  by destruct (chunked_step data pos s) as [[[]| |] ?].
Qed.

Lemma chunked_loop_enough f1 f2 data pos s :
  (rounds data pos s < f1)%nat -> (rounds data pos s < f2)%nat ->
  chunked_loop f1 data pos s = chunked_loop f2 data pos s.
Proof.
  revert f2 pos s. induction f1 as [|f1 IH]; intros [|f2] pos s H1 H2; try lia.
  rewrite !chunked_loop_S. case_decide as Hp; [|done].
  destruct (chunked_step data pos s) as [[[n|n]|e|] s'] eqn:E; try done.
  apply chunked_step_rounds in E as [_ ?]; [|done]. apply IH; lia.
Qed.

Lemma chunked_loop_total fuel data pos s :
  (rounds data pos s < fuel)%nat -> (pos <= length data)%nat ->
  match (chunked_loop fuel data pos s).1 with
  | Ok n => (n <= length data)%nat
  | Throw e => body_error (ps_req s) e
  | Diverge => callback_diverges (ps_req s)
  end.
Proof.
  revert pos s. induction fuel as [|fuel IH]; intros pos s Hf Hp; [lia|].
  rewrite chunked_loop_S. case_decide as Hlt; [|done].
  pose proof (chunked_step_spec data pos s Hlt) as Hs.
  destruct (chunked_step data pos s) as [[[n|n]|e|] s'] eqn:E; [cbn; lia| |done..].
  apply chunked_step_rounds in E as [Hn ?]; [|done]. destruct Hs as [Hcb _].
  specialize (IH n s' ltac:(lia) Hn). unfold body_error, callback_diverges in *.
  destruct (chunked_loop fuel data n s').1; [done| |].
  - destruct IH as [?|(a & env & Ha)]; [by left|right]. exists a, env.
    by rewrite <- Ha; f_equal; apply append_body_callback_of.
  - destruct IH as (a & env & Ha). exists a, env.
    by rewrite <- Ha; f_equal; apply append_body_callback_of.
Qed.

(** ** Lockstep on a longer input *)

(** Two runs agree: the same result, and the same state when they return. *)
Definition agree {S A} (w r : outcome exn A * S) : Prop :=
  w.1 = r.1 /\ forall a, r.1 = Ok a -> w.2 = r.2.

Lemma agree_refl {S A} (w : outcome exn A * S) : agree w w.
Proof. done. Qed.

(** A callback that does not care how the body is cut into pieces, as one that
    appends them to a string or writes them to a file does not. *)
Definition streaming (callback : option (body_callback B)) : Prop :=
  match callback with
  | None => True
  | Some cb => forall a b env, agree (cb (a ++ b) env) ((cb a;; cb b) env)
  end.

Lemma append_body_app (q : request B) a b env env1 :
  streaming (m_callback q) -> append_body q a env = (Ok tt, env1) ->
  agree (append_body q (a ++ b) env) (append_body q b env1).
Proof.
  unfold append_body, streaming. destruct (m_callback q) as [cb|]; [|done].
  intros H Ha. specialize (H a b env). unfold mbind, M_bind in H. by rewrite Ha in H.
Qed.

Lemma u64_add_twice r a b : u64 (u64 (r + a) + b) = u64 (r + (a + b)).
Proof. unfold u64. rewrite Zplus_mod_idemp_l. f_equal. lia. Qed.

Lemma u64_sub_twice r a b : u64 (u64 (r - a) - b) = u64 (r - (a + b)).
Proof. unfold u64. rewrite Zminus_mod_idemp_l. f_equal. lia. Qed.

Lemma deliver_app a b s s1 :
  streaming (callback_of s) -> deliver a s = (Ok tt, s1) ->
  agree (deliver (a ++ b) s) (deliver b s1).
Proof.
  intros Hcb Ha. pose proof (deliver_spec a s) as H. rewrite Ha in H.
  destruct H as (env & -> & Happ & _). rewrite !deliver_eq. cbn [ps_req ps_env ps_parser with_delivered].
  cbn [m_received with_received]. rewrite u64_add_twice, length_app, Nat2Z.inj_add.
  destruct (over_limit _ _); [done|].
  destruct (append_body_app (ps_req s) a b (ps_env s) env Hcb Happ) as [H1 H2].
  destruct (append_body (ps_req s) (a ++ b) (ps_env s)) as [o1 e1],
    (append_body (ps_req s) b env) as [o2 e2]. cbn in H1, H2. subst o2.
  split; [done|]. cbn [snd fst]. intros u Hu. rewrite (H2 u Hu). unfold with_delivered.
  cbn [ps_req ps_env ps_parser m_received with_received]. by rewrite u64_add_twice.
Qed.

Lemma deliver_remaining data s n :
  deliver data (set_remaining n s)
  = let '(o, s') := deliver data s in (o, set_remaining n s').
Proof.
  rewrite !deliver_eq. cbn [ps_req ps_env ps_parser set_remaining m_received with_remaining].
  destruct (over_limit _ _); [done|].
  by destruct (append_body (ps_req s) data (ps_env s)).
Qed.

Lemma deliver_keeps_remaining data s : remaining (deliver data s).2 = remaining s.
Proof.
  rewrite deliver_eq. destruct (over_limit _ _); [done|].
  by destruct (append_body (ps_req s) data (ps_env s)).
Qed.

Lemma take_data_app sa sb a b s s' :
  streaming (callback_of s) -> u64 (remaining s - sa) <> 0 ->
  take_data sa a s = (Ok tt, s') ->
  agree (take_data (sa + sb) (a ++ b) s) (take_data sb b s').
Proof.
  intros Hcb Hr. rewrite !take_data_eq.
  pose proof (deliver_keeps_remaining a s) as Hk.
  destruct (deliver a s) as [[[]|e|] s1] eqn:Ed; [|done..]. cbn in Hk.
  pose proof (deliver_app a b s s1 Hcb Ed) as [H1 H2].
  intros [= <-]. unfold after_data at 2 3. rewrite Hk, (proj2 (Z.eqb_neq _ _) Hr).
  rewrite deliver_remaining. pose proof (deliver_keeps_remaining b s1) as Hk2.
  destruct (deliver (a ++ b) s) as [o1 t1], (deliver b s1) as [o2 t2]. cbn in H1, H2, Hk2. subst o2.
  destruct o1 as [[]|e|]; [|done..]. split; [done|]. cbn [fst snd]. intros _ _.
  rewrite (H2 tt) by done. unfold after_data.
  change (remaining (set_remaining ?n t2)) with n. rewrite Hk2, Hk, u64_sub_twice.
  by destruct (_ =? 0).
Qed.

Definition range_ok s : Prop := 0 <= remaining s < 2 ^ 64.

(** A round on [d] is the same round on [d ++ e], unless the round had to wait
    for the end of a line, or ran out of bytes inside a chunk. *)
Lemma chunked_step_app d e pos s r s' :
  (pos < length d)%nat -> range_ok s -> chunked_step d pos s = (Ok r, s') ->
  range_ok s' /\ callback_of s' = callback_of s /\
  match r with
  | inl n =>
      (req_state s' = completed /\ chunked_step (d ++ e) pos s = (Ok (inl n), s')) \/
      (n = pos /\ s' = s)
  | inr n =>
      req_state s' = req_state s /\
      (chunked_step (d ++ e) pos s = (Ok (inr n), s') \/
       (n = length d /\ chunk_of s = chunk_Data /\ len d - Z.of_nat pos < remaining s /\
        take_data (len d - Z.of_nat pos) (drop pos d) s = (Ok tt, s')))
  end.
Proof.
  intros Hp Hr. pose proof (length_app d e) as Happ. destruct (chunk_of s) eqn:Hc.
  - rewrite !step_size by done. destruct (next_line d pos) as [l|] eqn:El.
    + rewrite (next_line_app _ e _ _ El). pose proof (chunk_size_line_spec (text l) s) as H.
      destruct (chunk_size_line (text l) s) as [[[]|ex|] s1]; [|done..].
      destruct H as (size & Hs & ->). intros [= <- <-]. split_and!; [done|done|done|by left].
    + destruct (_ <? _); [done|]. intros [= <- <-]. auto.
  - rewrite !step_data by done. rewrite take_data_eq.
    set (size := Z.min (remaining s) (len d - Z.of_nat pos)).
    pose proof (deliver_spec (substr d pos (Z.to_nat size)) s) as H.
    destruct (deliver _ s) as [[[]|ex|] s1] eqn:Ed; [|done..].
    destruct H as (env & -> & _). intros [= <- <-].
    assert (Hra : range_ok (after_data size (with_delivered (len (substr d pos (Z.to_nat size))) env s))).
    { unfold after_data, range_ok. destruct (_ =? 0); apply u64_range. }
    split_and!; [done|unfold after_data; by destruct (_ =? 0)..|].
    destruct (decide (remaining s <= len d - Z.of_nat pos)) as [Hle|Hgt].
    + left. rewrite (Z.min_l (remaining s) (len (d ++ e) - _)) by lia.
      replace (remaining s) with size by (unfold size; lia).
      replace (substr (d ++ e) pos (Z.to_nat size)) with (substr d pos (Z.to_nat size)).
      2:{ unfold substr. rewrite drop_app_le by lia. rewrite take_app_le; [done|].
          rewrite length_drop. lia. }
      by rewrite take_data_eq, Ed.
    + right. assert (size = len d - Z.of_nat pos) as Hsz by (unfold size; lia).
      split_and!; [lia|done|lia|]. rewrite <- Hsz, take_data_eq.
      replace (drop pos d) with (substr d pos (Z.to_nat size)); [by rewrite Ed|].
      unfold substr. rewrite take_ge; [done|]. rewrite length_drop. lia.
  - rewrite !step_data_end by done. rewrite char_at_app_l by done.
    destruct (decide (char_at d pos = LF)); [intros [= <- <-]; auto|].
    destruct (decide (char_at d pos = CR)); [|done].
    destruct (decide (pos + 1 = length d)%nat); [intros [= <- <-]; auto|].
    rewrite decide_False by lia. rewrite char_at_app_l by lia.
    destruct (bool_decide _); [|done]. intros [= <- <-]. auto.
  - rewrite !step_trailers by done. destruct (next_line d pos) as [l|] eqn:El.
    + rewrite (next_line_app _ e _ _ El). case_decide as Ht.
      { intros [= <- <-]. split_and!; [done|done|by left]. }
      pose proof (trailer_field_spec (text l) s) as H.
      destruct (trailer_field (text l) s) as [[[]|ex|] s1]; [|done..].
      destruct H as (H1 & H2 & H3 & _). intros [= <- <-].
      split; [unfold range_ok; by rewrite H2|].
      unfold callback_of, req_state. rewrite H3. split_and!; [done..|by left].
    + destruct (_ <? _); [done|]. intros [= <- <-]. auto.
Qed.

(** Two rounds that agree are followed by runs that agree. *)
Lemma chunked_loop_agree f2 f3 data pos pos' s s' :
  (rounds data pos s < S f2)%nat -> (rounds data pos' s' < S f3)%nat ->
  (pos < length data)%nat -> (pos' < length data)%nat ->
  agree (chunked_step data pos s) (chunked_step data pos' s') ->
  agree (chunked_loop (S f2) data pos s) (chunked_loop (S f3) data pos' s').
Proof.
  intros H2 H3 Hp Hp' [Ho Hs]. rewrite !chunked_loop_S, !decide_True by done.
  pose proof (chunked_step_rounds data pos s) as R2.
  pose proof (chunked_step_rounds data pos' s') as R3.
  destruct (chunked_step data pos s) as [o1 t1], (chunked_step data pos' s') as [o2 t2].
  cbn in Ho, Hs. subst o2. destruct o1 as [[m|m]|ex|]; [|..|done|done].
  - rewrite (Hs (inl m)) by done. done.
  - rewrite (Hs (inr m)) in * by done. destruct (R2 m t2 Hp eq_refl), (R3 m t2 Hp' eq_refl).
    rewrite (chunked_loop_enough f2 f3) by lia. done.
Qed.

(** The round that a read cut in two inside a chunk. *)
Lemma chunked_loop_split f2 f3 d e pos s s' :
  streaming (callback_of s) -> range_ok s -> (pos < length d)%nat ->
  chunk_of s = chunk_Data -> len d - Z.of_nat pos < remaining s ->
  take_data (len d - Z.of_nat pos) (drop pos d) s = (Ok tt, s') ->
  (rounds (d ++ e) pos s < S f2)%nat -> (rounds (d ++ e) (length d) s' < S f3)%nat ->
  agree (chunked_loop (S f2) (d ++ e) pos s) (chunked_loop (S f3) (d ++ e) (length d) s').
Proof.
  intros Hcb Hr Hp Hd Hrem Htd H2 H3. pose proof (length_app d e) as Happ.
  assert (Hu : u64 (remaining s - (len d - Z.of_nat pos)) = remaining s - (len d - Z.of_nat pos)).
  { apply u64_small. unfold range_ok in Hr. lia. }
  assert (chunk_of s' = chunk_Data /\ remaining s' = remaining s - (len d - Z.of_nat pos)) as [Hd' Hrem'].
  { rewrite take_data_eq in Htd. pose proof (deliver_spec (drop pos d) s) as Hs.
    destruct (deliver (drop pos d) s) as [[[]|ex|] s1]; [|done..].
    destruct Hs as (env & -> & _). injection Htd as <-. unfold after_data.
    change (remaining (with_delivered ?a ?b s)) with (remaining s).
    rewrite Hu, (proj2 (Z.eqb_neq _ _)) by lia. done. }
  destruct (decide (e = [])) as [->|He].
  { rewrite app_nil_r in *. rewrite !chunked_loop_S, decide_True, (decide_False (P := (length d < _)%nat)) by lia.
    rewrite step_data by done. rewrite Z.min_r by lia.
    replace (substr d pos _) with (drop pos d).
    2:{ unfold substr. rewrite take_ge; [done|]. rewrite length_drop. lia. }
    rewrite Htd. cbn [map_result fst snd fmap outcome_fmap].
    replace (pos + _)%nat with (length d) by lia.
    destruct f2 as [|f2]; [unfold rounds in H2; lia|]. by rewrite chunked_loop_S, decide_False by lia. }
  assert (0 < length e)%nat by (destruct e; [done|cbn; lia]).
  apply chunked_loop_agree; [done|done|lia|lia|].
  rewrite !step_data by done. rewrite Hrem', Happ.
  set (sa := len d - Z.of_nat pos) in *.
  set (sb := Z.min (remaining s - sa) (Z.of_nat (length d + length e) - len d)).
  replace (Z.min (remaining s) _) with (sa + sb) by (unfold sa, sb; lia).
  replace (substr (d ++ e) pos _) with (drop pos d ++ take (Z.to_nat sb) e).
  2:{ unfold substr. rewrite drop_app_le by lia. rewrite take_app.
      rewrite length_drop. rewrite (take_ge (drop pos d)) by (rewrite length_drop; lia).
      do 2 f_equal. lia. }
  replace (substr (d ++ e) (length d) (Z.to_nat sb)) with (take (Z.to_nat sb) e).
  2:{ unfold substr. by rewrite drop_app_length. }
  replace (pos + Z.to_nat (sa + sb))%nat with (length d + Z.to_nat sb)%nat by lia.
  destruct (take_data_app sa sb (drop pos d) (take (Z.to_nat sb) e) s s') as [T1 T2];
    [done|lia|done|].
  unfold map_result. destruct (take_data (sa + sb) _ s) as [o1 t1],
    (take_data sb _ s') as [o2 t2]. cbn in T1, T2. subst o2.
  split; [done|]. destruct o1 as [[]|ex|]; try done. intros r _. by rewrite (T2 tt).
Qed.

Lemma chunked_loop_app f1 f2 f3 d e pos s n s' :
  streaming (callback_of s) -> range_ok s -> (pos <= length d)%nat ->
  chunked_loop f1 d pos s = (Ok n, s') ->
  (rounds (d ++ e) pos s < f2)%nat -> (rounds (d ++ e) n s' < f3)%nat ->
  (n <= length d)%nat /\ range_ok s' /\ callback_of s' = callback_of s /\
  ((req_state s' = completed /\ chunked_loop f2 (d ++ e) pos s = (Ok n, s')) \/
   (req_state s' = req_state s /\
    agree (chunked_loop f2 (d ++ e) pos s) (chunked_loop f3 (d ++ e) n s'))).
Proof.
  pose proof (length_app d e) as Happ. revert f2 pos s.
  induction f1 as [|f1 IH]; intros f2 pos s Hcb Hr Hp Hrun H2 H3; [done|].
  destruct f2 as [|f2]; [lia|]. rewrite chunked_loop_S in Hrun.
  case_decide as Hlt.
  2:{ injection Hrun as <- <-. split_and!; [done|done|done|right].
      split; [done|]. by rewrite (chunked_loop_enough (S f2) f3). }
  destruct (chunked_step d pos s) as [[r|ex|] s1] eqn:E; [|done..].
  pose proof (chunked_step_spec d pos s Hlt) as Hsp. rewrite E in Hsp.
  apply (chunked_step_app d e) in E as (Hr1 & Hcb1 & Hcase); [|done..]. destruct r as [m|m].
  - injection Hrun as <- <-. split_and!; [lia|done|done|].
    destruct Hcase as [[Hq Hw]|[-> ->]].
    + left. split; [done|]. rewrite chunked_loop_S, decide_True by lia. by rewrite Hw.
    + right. split; [done|]. by rewrite (chunked_loop_enough (S f2) f3).
  - destruct Hcase as [Hq [Hw|(-> & Hd & Hrem & Htd)]].
    + assert (Hf2 : (rounds (d ++ e) m s1 < f2)%nat).
      { apply chunked_step_rounds in Hw; lia. }
      destruct (IH f2 m s1) as (Hn & Hr' & Hcb' & Hfin);
        [by rewrite Hcb1|done|lia|done|done|done|].
      split_and!; [done|done|congruence|].
      rewrite chunked_loop_S, decide_True by lia. rewrite Hw, <- Hq. done.
    + destruct f1 as [|f1]; [done|]. rewrite chunked_loop_S, decide_False in Hrun by lia.
      injection Hrun as <- <-. split_and!; [lia|done|done|right]. split; [done|].
      destruct f3 as [|f3]; [lia|]. apply chunked_loop_split; done.
Qed.

(** ** A body with a Content-Length *)

Definition received s : Z := m_received (ps_parser s).
Definition max_size s : Z := m_max_body_size (ps_req s).
Definition framing_of s : body := m_parser_body (ps_parser s).

(** What is handed over of such a body. *)
Definition consume (size : Z) (data : bytes) : PM unit :=
  deliver data;; on_parser (fun p => with_remaining (u64 (m_remaining p - size)) p).

(** The end of [parse_body]: was that all of it? *)
Definition finish s : pstate B :=
  if remaining s =? 0 then set_req_state completed s else s.

Definition content_body (data : bytes) s : outcome exn nat * pstate B :=
  let size := Z.min (remaining s) (len data) in
  if negb (max_size s =? 0) && (u64 (max_size s - received s) <? remaining s)
  then (Throw entity_too_large, s)
  else if size =? 0 then (Ok 0%nat, finish s)
  else match consume size (take (Z.to_nat size) data) s with
       | (Ok _, s') => (Ok (Z.to_nat size), finish s')
       | (Throw e, s') => (Throw e, s')
       | (Diverge, s') => (Diverge, s')
       end.

Lemma parse_body_eq data s :
  parse_body data s =
  if bool_decide (req_state s = completed) || bool_decide (framing_of s = body_none)
  then (Ok 0%nat, s)
  else let s0 := set_req_state processing_body s in
       if decide (framing_of s = body_chunked) then parse_chunked data s0
       else content_body data s0.
Proof.
  unfold parse_body, mbind at 1, M_bind at 1, get, req_state, framing_of.
  destruct (_ || _); [done|]. unfold mbind at 1, M_bind at 1, on_req, modify. cbn zeta.
  case_decide; [done|]. unfold content_body, fail_if, throw_if, received, remaining, max_size.
  cbn [set_req_state ps_parser ps_req set_state m_max_body_size]. destruct (_ && _); [done|].
  destruct (Z.eqb_spec (Z.min (m_remaining (ps_parser s)) (len data)) 0) as [->|Hne].
  - cbn [negb]. unfold mbind, M_bind, mret, M_ret, gets, finish, remaining. cbn [ps_parser].
    by destruct (_ =? 0).
  - cbn [negb]. unfold consume, substr. rewrite drop_0.
    unfold mbind, M_bind, mret, M_ret, gets, finish, remaining, on_parser, modify.
    unfold set_req_state.
    destruct (deliver _ _) as [[]]; [|done..]. cbn -[u64 Z.min]. by destruct (_ =? 0).
Qed.

Lemma consume_eq size data s :
  consume size data s =
  let '(o, s') := deliver data s in
  match o with
  | Ok _ => (Ok tt, set_remaining (u64 (remaining s' - size)) s')
  | Throw e => (Throw e, s')
  | Diverge => (Diverge, s')
  end.
Proof. unfold consume, mbind, M_bind. by destruct (deliver data s) as [[]]. Qed.

Lemma consume_app sa sb a b s s' :
  streaming (callback_of s) -> consume sa a s = (Ok tt, s') ->
  agree (consume (sa + sb) (a ++ b) s) (consume sb b s').
Proof.
  intros Hcb. rewrite !consume_eq. pose proof (deliver_keeps_remaining a s) as Hk.
  destruct (deliver a s) as [[[]|e|] s1] eqn:Ed; [|done..]. cbn in Hk.
  pose proof (deliver_app a b s s1 Hcb Ed) as [H1 H2]. intros [= <-].
  rewrite deliver_remaining. pose proof (deliver_keeps_remaining b s1) as Hk2.
  destruct (deliver (a ++ b) s) as [o1 t1], (deliver b s1) as [o2 t2]. cbn in H1, H2, Hk2. subst o2.
  destruct o1 as [[]|e|]; [|done..]. split; [done|]. cbn [fst snd]. intros _ _.
  rewrite (H2 tt) by done. change (remaining (set_remaining ?n t2)) with n.
  by rewrite Hk2, Hk, u64_sub_twice.
Qed.

(** The members a body is read with are in range, and what was received is
    within the limit of the request. *)
Definition body_wf s : Prop :=
  range_ok s /\ 0 <= received s < 2 ^ 64 /\ 0 <= max_size s < 2 ^ 64 /\
  (max_size s = 0 \/ received s <= max_size s).

Lemma deliver_wf data s s' :
  body_wf s -> deliver data s = (Ok tt, s') ->
  body_wf s' /\ remaining s' = remaining s /\ max_size s' = max_size s /\
  callback_of s' = callback_of s /\ framing_of s' = framing_of s /\ req_state s' = req_state s /\
  received s' = u64 (received s + len data).
Proof.
  intros (Hr & Hrec & Hmax & Hlim) Hd. pose proof (deliver_spec data s) as H. rewrite Hd in H.
  destruct H as (env & -> & _ & Hov). set (s' := with_delivered (len data) env s).
  assert (max_size s = 0 \/ received s' <= max_size s) as Hlim'.
  { unfold over_limit in Hov. fold (max_size s) in Hov.
    destruct (Z.eqb_spec (max_size s) 0); [by left|right]. cbn -[u64] in Hov.
    unfold s', received. cbn -[u64]. lia. }
  split; [|done]. split; [exact Hr|]. split; [apply u64_range|]. by split.
Qed.

Lemma set_remaining_wf n s : 0 <= n < 2 ^ 64 -> body_wf s -> body_wf (set_remaining n s).
Proof. intros Hn (_ & ?). by split. Qed.

Lemma content_body_spec data s n s' :
  body_wf s -> content_body data s = (Ok n, s') ->
  let size := Z.min (remaining s) (len data) in
  n = Z.to_nat size /\ 0 <= size /\
  (max_size s = 0 \/ remaining s <= max_size s - received s) /\
  exists s1, s' = finish s1 /\ body_wf s1 /\ remaining s1 = remaining s - size /\
    max_size s1 = max_size s /\ callback_of s1 = callback_of s /\
    framing_of s1 = framing_of s /\ req_state s1 = req_state s /\
    (max_size s = 0 \/ received s1 = received s + size) /\
    (size = 0 /\ s1 = s \/
     size <> 0 /\ consume size (take (Z.to_nat size) data) s = (Ok tt, s1)).
Proof.
  intros Hwf. pose proof Hwf as ((Hr0 & Hr1) & Hrec & Hmax & Hlim). unfold content_body. cbn zeta.
  destruct (negb (max_size s =? 0) && _) eqn:Hov; [done|].
  assert (Hroom : max_size s = 0 \/ remaining s <= max_size s - received s).
  { destruct (Z.eqb_spec (max_size s) 0); [by left|right]. cbn -[u64] in Hov.
    rewrite u64_small in Hov by lia. lia. }
  destruct (Z.eqb_spec (Z.min (remaining s) (len data)) 0) as [Hz|Hnz].
  - intros [= <- <-]. rewrite Hz. split_and!; [done|done|done|]. exists s.
    split_and!; try done; try lia; by left.
  - rewrite consume_eq. set (size := Z.min (remaining s) (len data)) in *.
    destruct (deliver (take (Z.to_nat size) data) s) as [[[]|e|] s1] eqn:Ed; [|done..].
    intros [= <- <-]. destruct (deliver_wf _ _ _ Hwf Ed) as (Hwf1 & Hr' & Hm' & Hc' & Hf' & Hq' & Hrc).
    assert (Hu : u64 (remaining s1 - size) = remaining s - size).
    { rewrite Hr'. apply u64_small. lia. }
    split_and!; [done|lia|done|]. eexists. rewrite Hu. split_and!; [done|..].
    + apply set_remaining_wf; [lia|done].
    + done.
    + done.
    + done.
    + done.
    + done.
    + destruct Hroom as [?|Hroom]; [by left|right]. change (received s1 = received s + size).
      rewrite Hrc, u64_small; rewrite length_take; lia.
    + right. done.
Qed.

Lemma parse_body_finished data s :
  req_state s = completed -> parse_body data s = (Ok 0%nat, s).
Proof. intros H. by rewrite parse_body_eq, bool_decide_eq_true_2. Qed.

Lemma set_req_state_id st s : req_state s = st -> set_req_state st s = s.
Proof. intros <-. by destruct s as [p [] env]. Qed.

Lemma content_body_incremental d e s n s1 :
  streaming (callback_of s) -> body_wf s -> req_state s = processing_body ->
  framing_of s = body_content_length -> content_body d s = (Ok n, s1) ->
  (n <= length d)%nat /\ continues n (content_body (d ++ e) s) (parse_body (drop n d ++ e) s1).
Proof.
  intros Hcb Hwf Hq Hf Hrun. pose proof (length_app d e) as Happ.
  destruct (content_body_spec d s n s1 Hwf Hrun)
    as (-> & Hsz & Hroom & t & -> & Hwf1 & Hrem & Hmax & Hcb1 & Hf1 & Hq1 & Hrc & Hrun1).
  pose proof Hwf as ((Hr0 & Hr1) & _). split; [lia|].
  set (size := Z.min (remaining s) (len d)) in *.
  assert (Hgate : forall x, max_size x = max_size s -> body_wf x ->
    (max_size s = 0 \/ remaining x <= max_size x - received x) ->
    negb (max_size x =? 0) && (u64 (max_size x - received x) <? remaining x) = false).
  { intros x Hm Hx Hroomx. destruct (Z.eqb_spec (max_size x) 0); [done|]. cbn -[u64].
    pose proof Hx as (_ & ? & ? & ?). rewrite u64_small by lia. lia. }
  destruct (decide (remaining s <= len d)) as [Hall|Hmore].
  - (* all of it is in [d] *)
    assert (remaining t = 0) as Ht by lia. unfold finish at 1. rewrite Ht.
    rewrite parse_body_finished by done. unfold content_body.
    rewrite (Hgate s) by (done || lia).
    rewrite (Z.min_l (remaining s) (len (d ++ e))) by lia.
    replace (remaining s) with size by lia.
    rewrite take_app_le by lia.
    destruct Hrun1 as [[-> ->]|[Hnz Hc]].
    + rewrite Z.eqb_refl. split; [done|]. intros _ _. unfold finish. by rewrite Ht.
    + rewrite (proj2 (Z.eqb_neq _ _) Hnz), Hc. unfold finish. rewrite Ht.
      split; [cbn; f_equal; lia|done].
  - assert (size = len d) as Hd by lia. assert (remaining t <> 0) as Ht by lia.
    unfold finish at 1. rewrite (proj2 (Z.eqb_neq _ _) Ht). rewrite Hd, Nat2Z.id in *.
    rewrite take_ge, drop_ge in * by done. cbn [app].
    rewrite parse_body_eq, Hq1, Hq, Hf1, Hf. rewrite !bool_decide_eq_false_2, decide_False by done.
    cbn [orb].
    rewrite (set_req_state_id processing_body t) by congruence.
    unfold content_body. rewrite (Hgate s), (Hgate t) by (try done; lia).
    set (sb := Z.min (remaining t) (len e)).
    replace (Z.min (remaining s) (len (d ++ e))) with (len d + sb) by lia.
    destruct (Z.eqb_spec sb 0) as [Hsb|Hsb].
    + assert (e = []) as -> by (destruct e; [done|cbn in *; lia]).
      rewrite app_nil_r, Hsb, Z.add_0_r.
      destruct Hrun1 as [[Hz ->]|[Hnz Hc]].
      * rewrite Hz. split; [cbn; f_equal; lia|]. done.
      * rewrite (proj2 (Z.eqb_neq _ _) Hnz). rewrite Nat2Z.id, take_ge by done. rewrite Hc.
        split; [cbn; f_equal; lia|done].
    + rewrite (proj2 (Z.eqb_neq (len d + sb) 0)) by lia.
      replace (take (Z.to_nat (len d + sb)) (d ++ e)) with (d ++ take (Z.to_nat sb) e).
      2:{ rewrite take_app. rewrite (take_ge d) by lia. do 2 f_equal. lia. }
      assert (Hag : agree (consume (len d + sb) (d ++ take (Z.to_nat sb) e) s)
                      (consume sb (take (Z.to_nat sb) e) t)).
      { destruct Hrun1 as [[Hz ->]|[Hnz Hc]].
        - assert (d = []) as -> by (destruct d; [done|cbn in *; lia]). done.
        - by apply (consume_app (len d) sb d). }
      destruct Hag as [H1 H2]. destruct (consume (len d + sb) _ s) as [o1 t1],
        (consume sb _ t) as [o2 t2]. cbn in H1, H2. subst o2.
      destruct o1 as [[]|ex|]; [|done..]. rewrite (H2 tt) by done.
      split; [cbn; f_equal; lia|done].
Qed.

Lemma chunked_step_framing data pos s : framing_of (chunked_step data pos s).2 = framing_of s.
Proof.
  destruct (chunk_of s) eqn:Hc.
  - rewrite step_size by done. destruct (next_line data pos) as [l|]; [|by destruct (_ <? _)].
    pose proof (chunk_size_line_spec (text l) s) as H.
    destruct (chunk_size_line (text l) s) as [[[]|e|] s']; [|by destruct H as [-> _]|done].
    by destruct H as (size & _ & ->).
  - rewrite step_data by done. rewrite take_data_eq, deliver_eq.
    destruct (over_limit _ _); [done|]. destruct (append_body _ _ _) as [[[]|e|] env]; [|done..].
    cbn -[after_data]. unfold after_data. by destruct (_ =? 0).
  - rewrite step_data_end by done. by repeat case_decide.
  - rewrite step_trailers by done. destruct (next_line data pos) as [l|]; [|by destruct (_ <? _)].
    case_decide; [done|]. unfold trailer_field, mbind, M_bind, fail_if, throw_if, gets, on_parser, modify.
    cbn -[u64]. destruct (_ <? _); [done|]. cbn -[u64]. by destruct (negb _).
Qed.

Lemma chunked_loop_framing fuel data pos s :
  framing_of (chunked_loop fuel data pos s).2 = framing_of s.
Proof.
  revert pos s. induction fuel as [|fuel IH]; intros pos s; [done|].
  rewrite chunked_loop_S. case_decide as Hp; [|done].
  pose proof (chunked_step_framing data pos s) as H.
  destruct (chunked_step data pos s) as [[[]|e|] s']; cbn in H; [done| |done..]. by rewrite IH.
Qed.

Lemma parse_body_continues (d e : bytes) s (n : nat) s1 :
  streaming (callback_of s) -> body_wf s -> parse_body d s = (Ok n, s1) ->
  let whole := parse_body (d ++ e) s in
  let rest := parse_body (drop n d ++ e) s1 in
  (n <= length d)%nat /\
  whole.1 = Nat.add n <$> rest.1 /\ (forall n', rest.1 = Ok n' -> whole.2 = rest.2).
Proof.
  intros Hcb Hwf. rewrite (parse_body_eq d s). cbn zeta. rewrite (parse_body_eq (d ++ e) s).
  destruct (_ || _) eqn:Hdone.
  { intros [= <- <-]. cbn [drop]. split; [lia|]. rewrite parse_body_eq, Hdone. done. }
  apply orb_false_iff in Hdone as [Hnc%bool_decide_eq_false Hnn%bool_decide_eq_false].
  cbn zeta. set (s0 := set_req_state processing_body s).
  destruct (decide (framing_of s = body_chunked)) as [Hch|Hch].
  2:{ apply content_body_incremental; try done.
      change (framing_of s = body_content_length). by destruct (framing_of s). }
  intros Hrun. unfold parse_chunked in *. pose proof (length_app d e) as Happ.
  assert (Hrd : forall x data, (rounds data 0 x < 2 * length data + 2)%nat)
    by (intros; unfold rounds; case_decide; lia).
  destruct (chunked_loop_app (2 * length d + 2) (2 * length (d ++ e) + 2)
    (rounds (d ++ e) n s1 + 1) d e 0 s0 n s1) as (Hn & Hr1 & Hcb1 & Hcase);
    [done|apply Hwf|lia|done|apply Hrd|lia|].
  split; [done|]. destruct Hcase as [[Hq Hw]|[Hq [Hw1 Hw2]]].
  - rewrite Hw, (parse_body_finished _ _ Hq). split; [cbn; f_equal; lia|done].
  - pose proof (chunked_loop_framing (2 * length d + 2) d 0 s0) as Hfr. rewrite Hrun in Hfr. cbn [snd] in Hfr.
    rewrite parse_body_eq, Hq, Hfr. change (req_state s0) with processing_body.
    change (framing_of s0) with (framing_of s). rewrite Hch.
    rewrite !bool_decide_eq_false_2, decide_True by done. cbn [orb].
    rewrite set_req_state_id by done. unfold parse_chunked.
    assert (Hsh : chunked_loop (rounds (d ++ e) n s1 + 1) (d ++ e) n s1
      = map_result (Nat.add n) (chunked_loop (2 * length (drop n d ++ e) + 2) (drop n d ++ e) 0 s1)).
    { rewrite <- drop_app_le, <- chunked_loop_shift, Nat.add_0_r by lia.
      apply chunked_loop_enough; [lia|]. rewrite length_drop. unfold rounds. case_decide; lia. }
    rewrite Hsh in Hw1, Hw2.
    destruct (chunked_loop _ (drop n d ++ e) 0 s1) as [o t]. cbn in Hw1, Hw2.
    split; [done|]. cbn. intros n' ->. by eapply Hw2.
Qed.


Lemma parse_body_consumes (data : bytes) s :
  match (parse_body data s).1 with
  | Ok n => (n <= length data)%nat
  | Throw e =>
      (exists st reason, st ∈ [400; 413; 431] /\ e = failure st reason) \/
      (exists piece env, (append_body (ps_req s) piece env).1 = Throw e)
  | Diverge => exists piece env, (append_body (ps_req s) piece env).1 = Diverge
  end.
Proof.
  rewrite parse_body_eq. destruct (_ || _); [cbn; lia|]. cbn zeta.
  set (s0 := set_req_state processing_body s).
  change (exists piece env, (append_body (ps_req s) piece env).1 = Diverge)
    with (callback_diverges (ps_req s0)).
  case_decide.
  - assert (rounds data 0 s0 < 2 * length data + 2)%nat by (unfold rounds; case_decide; lia).
    exact (chunked_loop_total (2 * length data + 2) data 0 s0 ltac:(lia) ltac:(lia)).
  - unfold content_body. destruct (_ && _); [exact (body_error_status (ps_req s0) 413 _ ltac:(by_compute))|].
    destruct (_ =? 0); [cbn; lia|]. rewrite consume_eq.
    pose proof (deliver_spec (take (Z.to_nat (Z.min (remaining s0) (len data))) data) s0) as Hd.
    destruct (deliver _ s0) as [[[]|e|] s']; [cbn; lia|exact Hd|exact Hd].
Qed.

(** C16: parse_body always returns, never consumes more than it was given, and
    throws nothing but the responses 400, 413 and 431 or what the
    session's callback throws: the fuel of the chunk loop is always
    enough. *)
Theorem parse_body_total (data : bytes) s :
  match (parse_body data s).1 with
  | Ok n => (n <= length data)%nat
  | Throw e =>
      (exists st reason, st ∈ [400; 413; 431] /\ e = failure st reason) \/
      (exists piece env, (append_body (ps_req s) piece env).1 = Throw e)
  | Diverge => exists piece env, (append_body (ps_req s) piece env).1 = Diverge
  end.
Proof. apply parse_body_consumes. Qed.

Lemma chunked_step_wf data pos s r s' :
  (pos < length data)%nat -> body_wf s -> chunked_step data pos s = (Ok r, s') ->
  body_wf s' /\ max_size s' = max_size s.
Proof.
  intros Hp Hwf. pose proof Hwf as (Hr & Hrest). destruct (chunk_of s) eqn:Hc.
  - rewrite step_size by done. destruct (next_line data pos) as [l|].
    + pose proof (chunk_size_line_spec (text l) s) as H.
      destruct (chunk_size_line (text l) s) as [[[]|e|] s1]; [|done..].
      destruct H as (size & Hs & ->). intros [= <- <-]. split; [by apply set_remaining_wf|done].
    + destruct (_ <? _); [done|]. by intros [= <- <-].
  - rewrite step_data by done. rewrite take_data_eq.
    destruct (deliver _ s) as [[[]|e|] s1] eqn:Ed; [|done..].
    destruct (deliver_wf _ _ _ Hwf Ed) as (Hwf1 & _ & Hm & _). intros [= <- <-].
    unfold after_data. destruct (_ =? 0);
      (split; [refine (set_remaining_wf _ _ (u64_range _) Hwf1)|exact Hm]).
  - rewrite step_data_end by done. repeat case_decide; try done; by intros [= <- <-].
  - rewrite step_trailers by done. destruct (next_line data pos) as [l|].
    + case_decide as Ht; [by intros [= <- <-]|].
      pose proof (trailer_field_spec (text l) s) as H.
      destruct (trailer_field (text l) s) as [[[]|e|] s1]; [|done..].
      destruct H as (_ & H2 & H3 & _ & H5). intros [= <- <-].
      unfold body_wf, range_ok, max_size, received in *. by rewrite H2, H3, H5.
    + destruct (_ <? _); [done|]. by intros [= <- <-].
Qed.

Lemma chunked_loop_wf fuel data pos s n s' :
  body_wf s -> chunked_loop fuel data pos s = (Ok n, s') ->
  body_wf s' /\ max_size s' = max_size s.
Proof.
  revert pos s. induction fuel as [|fuel IH]; intros pos s Hwf; [done|].
  rewrite chunked_loop_S. case_decide as Hp; [|by intros [= <- <-]].
  destruct (chunked_step data pos s) as [[r|e|] s1] eqn:E; [|done..].
  apply chunked_step_wf in E as [Hwf1 Hm]; [|done..].
  destruct r as [m|m]; [by intros [= <- <-]|]. intros [? ?]%IH; [|done]. split; congruence.
Qed.

Theorem parse_body_keeps_wf (data : bytes) s n s' :
  body_wf s -> parse_body data s = (Ok n, s') -> body_wf s' /\ max_size s' = max_size s.
Proof.
  intros Hwf. rewrite parse_body_eq. destruct (_ || _); [by intros [= <- <-]|]. cbn zeta.
  case_decide;
    [intros Hrun; exact (chunked_loop_wf _ _ _ _ _ _ (Hwf : body_wf (set_req_state processing_body s)) Hrun)|].
  intros Hrun. apply content_body_spec in Hrun as (_ & _ & _ & s1 & -> & Hwf1 & _ & Hm & _); [|done].
  unfold finish. by destruct (_ =? 0).
Qed.
End body.


(** ** Concrete bodies *)

(** A request in the middle of a chunked body, with a callback that counts. *)
Definition count_bytes : body_callback Z := fun data total => (Ok tt, total + len data).
Definition in_chunked_body : pstate Z :=
  mk_pstate (with_body body_chunked (with_head head_done new_parser))
    (append_body_callback (set_state new_request headers_completed) count_bytes 100) 0.

