(* ===== verification/BodyContent.v ===== *)
(** * What a session gets of a request body

    The callback here appends to a string, as a session that wants the whole
    body does.  It never gets more than [m_max_body_size] bytes; a body with a
    Content-Length is the bytes after the head; a chunked body is what the
    chunks of the wire format carry. *)

From S2P Require Import Prelude Utils Charconv Http HttpParser HeadProofs BodyProofs.

Local Open Scope Z_scope.

(** [[&](auto data) { body.append(data); }] *)
Definition collect : body_callback bytes := fun data body => (Ok tt, body ++ data).

Lemma collect_streaming : streaming (Some collect).
Proof.
  intros a b env. unfold collect, mbind, M_bind. cbn. rewrite app_assoc. done.
Qed.

Section content.
Implicit Types s : pstate bytes.

Lemma deliver_collect data s :
  callback_of s = Some collect ->
  deliver data s =
  if over_limit (ps_req s) (u64 (received s + len data))
  then (Throw entity_too_large, with_delivered (len data) (ps_env s) s)
  else (Ok tt, with_delivered (len data) (ps_env s ++ data) s).
Proof.
  intros Hcb. rewrite deliver_eq. unfold received. destruct (over_limit _ _); [done|].
  unfold append_body. unfold callback_of in Hcb. rewrite Hcb. done.
Qed.

(** ** The limit on the size of a body *)

(** What was counted is what was handed over. *)
Definition counted s : Prop := received s = len (ps_env s).

(** What only the delivery of a piece changes. *)
Definition account s : bytes * Z * Z * option (body_callback bytes) :=
  (ps_env s, received s, max_size s, callback_of s).

Lemma chunked_step_account data pos s :
  chunk_of s <> chunk_Data -> account (chunked_step data pos s).2 = account s.
Proof.
  intros Hd. destruct (chunk_of s) eqn:Hc; [|done|..].
  - rewrite step_size by done. destruct (next_line data pos) as [l|]; [|by destruct (_ <? _)].
    pose proof (chunk_size_line_spec (text l) s) as H.
    destruct (chunk_size_line (text l) s) as [[[]|e|] s']; [|by destruct H as [-> _]|done].
    by destruct H as (size & _ & ->).
  - rewrite step_data_end by done. by repeat case_decide.
  - rewrite step_trailers by done. destruct (next_line data pos) as [l|]; [|by destruct (_ <? _)].
    case_decide; [done|]. unfold trailer_field, mbind, M_bind, fail_if, throw_if, gets, on_parser, modify.
    cbn -[u64]. destruct (_ <? _); [done|]. cbn -[u64]. by destruct (negb _).
Qed.

(** [room] more bytes can come without the counter of them overflowing. *)
Definition collecting (room : Z) s : Prop :=
  callback_of s = Some collect /\ counted s /\ (max_size s = 0 \/ len (ps_env s) <= max_size s) /\
  len (ps_env s) + room < 2 ^ 64.

Lemma collecting_account room s s' :
  account s' = account s -> collecting room s -> collecting room s'.
Proof. unfold account, collecting, counted. intros [= -> -> -> ->]. done. Qed.

Lemma collecting_weaken room room' s : room' <= room -> collecting room s -> collecting room' s.
Proof. intros ? (?&?&?&?). split_and!; [done..|lia]. Qed.

(** Whatever comes of handing a piece over, the session has been given no more
    than the limit. *)
Lemma deliver_collecting data room s :
  collecting room s -> len data <= room ->
  (max_size s = 0 \/ len (ps_env (deliver data s).2) <= max_size s) /\
  max_size (deliver data s).2 = max_size s /\
  ((deliver data s).1 = Ok tt -> collecting (room - len data) (deliver data s).2 /\
     ps_env (deliver data s).2 = ps_env s ++ data).
Proof.
  intros (Hcb & Hc & Hlim & Hroom) Hd. rewrite deliver_collect by done.
  unfold counted in Hc. unfold over_limit. fold (max_size s). rewrite Hc, u64_small by lia.
  destruct (Z.eqb_spec (max_size s) 0) as [Hz|Hnz]; cbn [negb andb];
    [|destruct (Z.ltb_spec (max_size s) (len (ps_env s) + len data)) as [Hov|Hok]].
  2:{ split_and!; [tauto|done|done]. }
  all: assert (Hnew : collecting (room - len data) (with_delivered (len data) (ps_env s ++ data) s)).
  1,3: unfold collecting, counted; change (received (with_delivered ?a ?b s))
      with (u64 (received s + len data)); rewrite Hc, u64_small by lia;
      cbn [ps_env with_delivered]; rewrite length_app, Nat2Z.inj_add;
      split_and!; [exact Hcb|lia| |lia]; tauto || (right; lia).
  all: split_and!; [|done|intros _; split; [exact Hnew|done]]; [tauto || idtac].
  cbn [snd with_delivered ps_env]. rewrite length_app. lia.
Qed.

Lemma chunked_step_collecting data pos s :
  (pos < length data)%nat -> collecting (len data - Z.of_nat pos) s ->
  let w := chunked_step data pos s in
  (max_size s = 0 \/ len (ps_env w.2) <= max_size s) /\ max_size w.2 = max_size s /\
  match w.1 with
  | Ok (inl n) => collecting (len data - Z.of_nat n) w.2
  | Ok (inr n) => (n <= length data)%nat /\ collecting (len data - Z.of_nat n) w.2
  | _ => True
  end.
Proof.
  intros Hp Hcol. cbn zeta. pose proof (chunked_step_spec data pos s Hp) as Hsp.
  destruct (decide (chunk_of s = chunk_Data)) as [Hd|Hd].
  - rewrite step_data by done. rewrite take_data_eq.
    set (size := Z.min (remaining s) (len data - Z.of_nat pos)).
    set (piece := substr data pos (Z.to_nat size)).
    assert (len piece = Z.of_nat (Z.to_nat size)) as Hlen.
    { unfold piece, substr. rewrite length_take, length_drop. lia. }
    destruct (deliver_collecting piece (len data - Z.of_nat pos) s Hcol ltac:(lia))
      as (H1 & H2 & H3).
    destruct (deliver piece s) as [[[]|e|] s1]; cbn [fst snd] in *; [|done..].
    destruct (H3 eq_refl) as [Hcol1 _].
    assert (account (after_data size s1) = account s1) as Hacc
      by (unfold after_data; by destruct (_ =? 0)).
    cbn [map_result fst snd fmap outcome_fmap]. injection Hacc as He _ Hm _.
    rewrite He, Hm. split_and!; [done|done|lia|].
    apply (collecting_account _ s1); [unfold after_data; by destruct (_ =? 0)|].
    revert Hcol1. apply collecting_weaken. lia.
  - pose proof (chunked_step_account data pos s Hd) as Hacc.
    destruct (chunked_step data pos s) as [o s']. cbn [fst snd] in *.
    pose proof Hacc as [= He _ Hm _]. rewrite He, Hm.
    split_and!; [by apply Hcol|done|].
    destruct o as [[n|n]|e|]; [|split|done|done].
    + apply (collecting_account _ s); [done|]. revert Hcol. apply collecting_weaken. lia.
    + lia.
    + apply (collecting_account _ s); [done|]. revert Hcol. apply collecting_weaken. lia.
Qed.

Lemma chunked_loop_collecting fuel data pos s :
  (pos <= length data)%nat -> collecting (len data - Z.of_nat pos) s ->
  let w := chunked_loop fuel data pos s in
  (max_size s = 0 \/ len (ps_env w.2) <= max_size s) /\
  (forall n, w.1 = Ok n -> collecting (len data - Z.of_nat n) w.2).
Proof.
  revert pos s. induction fuel as [|fuel IH]; intros pos s Hp Hcol.
  { cbn. split; [apply Hcol|done]. }
  cbn zeta. rewrite chunked_loop_S. case_decide as Hlt.
  2:{ cbn [fst snd]. split; [apply Hcol|]. by intros n [= <-]. }
  destruct (chunked_step_collecting data pos s Hlt Hcol) as (H1 & H2 & H3).
  destruct (chunked_step data pos s) as [[[n|n]|e|] s']; cbn [fst snd] in *; [|..|done|done].
  - split; [done|]. by intros m [= <-].
  - destruct H3 as [Hn Hcol']. destruct (IH n s' Hn Hcol') as [H4 H5]. rewrite <- H2. done.
Qed.

(** What a session was handed is within its limit, when it has one. *)
Lemma parse_body_limit (data : bytes) s :
  collecting (len data) s ->
  max_size s = 0 \/ len (ps_env (parse_body data s).2) <= max_size s.
Proof.
  intros Hcol. rewrite parse_body_eq. destruct (_ || _); [apply Hcol|]. cbn zeta.
  set (s0 := set_req_state processing_body s).
  assert (Hcol0 : collecting (len data - 0) s0) by (rewrite Z.sub_0_r; exact Hcol).
  case_decide; [exact (proj1 (chunked_loop_collecting _ data 0 s0 ltac:(lia) Hcol0))|].
  rewrite Z.sub_0_r in Hcol0. unfold content_body. destruct (_ && _); [apply Hcol|].
  destruct (_ =? 0); [unfold finish; destruct (_ =? 0); apply Hcol|]. rewrite consume_eq.
  set (piece := take _ data).
  assert (len piece <= len data) by (unfold piece; rewrite length_take; lia).
  destruct (deliver_collecting piece (len data) s0 Hcol0 ltac:(lia)) as (H1 & _ & _).
  destruct (deliver piece s0) as [[[]|e|] s']; cbn [fst snd] in *; [|done..].
  unfold finish. by destruct (_ =? 0).
Qed.

(** C19: Whatever the framing and however parsing ends, a session that collects its
    body and set a limit other than 0 is never handed more bytes of it
    than that limit. *)
Theorem body_within_limit (data : bytes) s :
  max_size s <> 0 -> collecting (len data) s ->
  len (ps_env (parse_body data s).2) <= max_size s.
Proof. intros Hl Hcol. by destruct (parse_body_limit data s Hcol). Qed.

(** ** A body with a Content-Length *)

(** Within the limit, the part of the body that is there is taken. *)
Lemma content_body_returns (data : bytes) s o s' :
  body_wf s -> collecting (len data) s ->
  ~ (max_size s <> 0 /\ max_size s < received s + remaining s) ->
  content_body data s = (o, s') -> exists n, o = Ok n.
Proof.
  intros ((Hr0 & Hr1) & Hrec & Hmax & Hlim) Hcol Hov. unfold content_body.
  destruct (negb (max_size s =? 0) && _) eqn:Hg.
  { destruct (Z.eqb_spec (max_size s) 0); cbn -[u64] in Hg; [done|].
    rewrite u64_small in Hg by lia. lia. }
  destruct (Z.eqb_spec (Z.min (remaining s) (len data)) 0); [inversion 1; eauto|].
  rewrite consume_eq, deliver_collect by apply Hcol. set (piece := take _ data).
  assert (len piece <= len data /\ len piece <= remaining s) as [Hp1 Hp2]
    by (unfold piece; rewrite length_take; lia).
  replace (over_limit _ _) with false; [inversion 1; eauto|].
  destruct Hcol as (_ & Hc & _ & Hroom). unfold counted in Hc. unfold over_limit.
  change (m_max_body_size (ps_req s)) with (max_size s).
  rewrite u64_small by lia. destruct (Z.eqb_spec (max_size s) 0); cbn; lia.
Qed.

Lemma consume_collects (size : Z) (data : bytes) s s' :
  collecting (len data) s -> consume size (take (Z.to_nat size) data) s = (Ok tt, s') ->
  ps_env s' = ps_env s ++ take (Z.to_nat size) data.
Proof.
  intros Hcol Hc. rewrite consume_eq in Hc.
  destruct (deliver_collecting (take (Z.to_nat size) data) (len data) s Hcol
    ltac:(rewrite length_take; lia)) as (_ & _ & H3).
  destruct (deliver _ s) as [[[]|e|] s1]; [|done..]. injection Hc as <-.
  apply (H3 eq_refl).
Qed.

Lemma take_min (n : Z) (data : bytes) :
  0 <= n -> take (Z.to_nat (Z.min n (len data))) data = take (Z.to_nat n) data.
Proof.
  intros Hn. destruct (decide (n <= len data)); [f_equal; lia|]. rewrite !take_ge by lia. done.
Qed.

(** C18: A body with a Content-Length, for a session that collects its body and set
    a limit other than 0: refused with 413 before a byte of it is
    delivered when it exceeds the limit, otherwise exactly the announced
    bytes are delivered and consumed, and the request completes with the
    last one. *)
Theorem content_length_body (data : bytes) s :
  framing_of s = body_content_length -> req_state s <> completed ->
  body_wf s -> max_size s <> 0 -> collecting (len data) s ->
  let '(o, s') := parse_body data s in
  if decide (max_size s < received s + remaining s)
  then o = Throw (failure 413 (bs "Request entity too large")) /\ ps_env s' = ps_env s
  else o = Ok (Nat.min (Z.to_nat (remaining s)) (length data)) /\
       ps_env s' = ps_env s ++ take (Z.to_nat (remaining s)) data /\
       remaining s' = Z.max 0 (remaining s - len data) /\
       (req_state s' = completed <-> remaining s <= len data).
Proof.
  intros Hf Hq Hwf Hz Hcol. rewrite parse_body_eq, Hf.
  rewrite (bool_decide_eq_false_2 (req_state s = completed)) by done.
  rewrite (bool_decide_eq_false_2 (_ = body_none)), decide_False by done. cbn [orb].
  set (s0 := set_req_state processing_body s).
  destruct (content_body data s0) as [o s'] eqn:Hrun.
  pose proof Hwf as ((Hr0 & Hr1) & Hrec & Hmax & Hlim). case_decide as Hov.
  - unfold content_body in Hrun. change (max_size s0) with (max_size s) in Hrun.
    change (received s0) with (received s) in Hrun. change (remaining s0) with (remaining s) in Hrun.
    rewrite u64_small in Hrun by lia. rewrite (proj2 (Z.eqb_neq _ _)) in Hrun by lia.
    rewrite (proj2 (Z.ltb_lt _ _)) in Hrun by lia. by injection Hrun as <- <-.
  - destruct (content_body_returns data s0 o s' Hwf Hcol (fun H => Hov (proj2 H)) Hrun) as [n ->].
    destruct (content_body_spec data s0 n s' Hwf Hrun)
      as (-> & Hsz & _ & t & -> & _ & Hrem & _ & _ & _ & Hqt & _ & Hcase).
    change (remaining s0) with (remaining s) in *. split; [f_equal; lia|].
    assert (He : ps_env t = ps_env s ++ take (Z.to_nat (remaining s)) data).
    { rewrite <- take_min by lia.
      destruct Hcase as [[Hmin ->]|[_ Hc]]; [rewrite Hmin; cbn; by rewrite app_nil_r|].
      exact (consume_collects _ data s0 t Hcol Hc). }
    unfold finish. destruct (Z.eqb_spec (remaining t) 0) as [Hr|Hnz].
    + split_and!; [done|cbn; change (remaining (set_req_state completed t)) with (remaining t); lia|].
      split; [lia|done].
    + split_and!; [done|lia|]. rewrite Hqt. split; [done|lia].
Qed.
End content.


(** ** Concrete bodies *)

(** A request of [length_] bytes whose session takes a body of at most
    [limit]. *)
Definition announced (length_ limit : Z) : pstate bytes :=
  mk_pstate (with_remaining length_ (with_body body_content_length
      (with_content_length length_ (with_head head_done new_parser))))
    (append_body_callback (set_state new_request headers_completed) collect limit) [].

Lemma body_within_limit_witness :
  len (ps_env (parse_body (bs "hello world") (announced 11 20)).2) <= 20.
Proof.
  apply (body_within_limit (bs "hello world") (announced 11 20)); [done|].
  unfold collecting, counted. vm_compute. naive_solver.
Defined.

(** The bytes of the next request are left where they are. *)
Lemma content_length_body_witness :
  (parse_body (bs "hello worldGET /") (announced 11 20)).1 = Ok 11%nat /\
  ps_env (parse_body (bs "hello worldGET /") (announced 11 20)).2 = bs "hello world" /\
  (parse_body (bs "hello world") (announced 11 10)).1 =
    Throw (failure 413 (bs "Request entity too large")).
Proof.
  assert (Hwf : forall limit, limit = 20 \/ limit = 10 ->
    body_wf (announced 11 limit) /\ collecting 16 (announced 11 limit) /\
    collecting 11 (announced 11 limit)).
  { intros ? [->| ->]; unfold body_wf, collecting, counted; vm_compute; naive_solver. }
  pose proof (content_length_body (bs "hello worldGET /") (announced 11 20) eq_refl
    ltac:(done) (proj1 (Hwf 20 ltac:(auto))) ltac:(done) (proj1 (proj2 (Hwf 20 ltac:(auto))))) as H1.
  pose proof (content_length_body (bs "hello world") (announced 11 10) eq_refl
    ltac:(done) (proj1 (Hwf 10 ltac:(auto))) ltac:(done) (proj2 (proj2 (Hwf 10 ltac:(auto))))) as H2.
  destruct (parse_body (bs "hello worldGET /") (announced 11 20)) as [o1 s1].
  destruct (parse_body (bs "hello world") (announced 11 10)) as [o2 s2].
  rewrite decide_False in H1 by (vm_compute; naive_solver).
  rewrite decide_True in H2 by (vm_compute; naive_solver).
  destruct H1 as (H1 & H1' & _). destruct H2 as (H2 & _).
  split; [exact H1|]. split; [exact H1'|exact H2].
Defined.

(** A limit of 0 is none: the body is delivered, where http.h and the
    documentation promise a 413 for any body over the limit. *)
Theorem limit_zero_takes_everything :
  (parse_body (bs "hello world") (announced 11 0)).1 = Ok 11%nat /\
  ps_env (parse_body (bs "hello world") (announced 11 0)).2 = bs "hello world".
Proof. split; vm_compute; reflexivity. Qed.
