(* ===== verification/ChunkedWire.v ===== *)
(** * The wire format of a chunked body, and that [parse_chunked] decodes it

    [chunked_wire w payload n] is the format of RFC 9112: [w] carries [payload]
    in chunks of any size, with chunk extensions, [n] trailer fields, and lines
    ended by CRLF or LF alone; the lines are within the limits of the parser. *)

From S2P Require Import Prelude Utils Charconv Http HttpParser HeadProofs BodyProofs BodyContent.

Local Open Scope Z_scope.

(** ** The format *)

Definition hex_number (hs : bytes) : Z := fold_left (fun v c => v * 16 + hex_value c) hs 0.

Definition line_end (eol : bytes) : Prop := eol = crlf_string \/ eol = [LF].

(** A chunk extension: blanks, then nothing or [;] and visible characters. *)
Definition chunk_ext (ext : bytes) : Prop :=
  exists ows tail, ext = ows ++ tail /\ forallb is_ows ows = true /\
    all_chars tail value_char = true /\ (tail = [] \/ exists r, tail = ";"%char :: r).

Definition size_line (txt : bytes) (size : Z) : Prop :=
  exists hs ext, txt = hs ++ ext /\ (1 <= length hs <= 16)%nat /\
    all_chars hs hex_char = true /\ size = hex_number hs /\ chunk_ext ext /\ len txt <= max_chunk_line_size.

Definition trailer (t : bytes * bytes) : Prop :=
  t.1 <> [] /\ all_chars t.1 value_char = true /\ line_end t.2 /\ len t.1 <= max_head_size.

Inductive chunked_wire : bytes -> bytes -> nat -> Prop :=
  | wire_last txt eol (trailers : list (bytes * bytes)) eol2 :
      size_line txt 0 -> line_end eol -> Forall trailer trailers -> line_end eol2 ->
      chunked_wire (txt ++ eol ++ concat ((fun t => t.1 ++ t.2) <$> trailers) ++ eol2) []
        (length trailers)
  | wire_chunk txt eol data eol2 w payload n :
      size_line txt (len data) -> line_end eol -> data <> [] -> line_end eol2 ->
      chunked_wire w payload n ->
      chunked_wire (txt ++ eol ++ data ++ eol2 ++ w) (data ++ payload) n.

(** ** Lines *)

Lemma all_chars_app a b c : all_chars (a ++ b) c = all_chars a c && all_chars b c.
Proof. apply forallb_app. Qed.

Lemma value_not_break c : has_class c value_char = true -> c <> LF /\ c <> CR.
Proof.
  intros Hc.
  assert (implb (has_class c value_char)
            (negb (bool_decide (c = LF)) && negb (bool_decide (c = CR))) = true) as H.
  { revert c Hc. intros c _. revert c. apply all_ascii. vm_compute. reflexivity. }
  rewrite Hc in H. cbn [implb] in H. apply andb_true_iff in H as [H1 H2].
  apply negb_true_iff, bool_decide_eq_false in H1. apply negb_true_iff, bool_decide_eq_false in H2.
  done.
Qed.

Lemma value_text_no_break txt ch :
  all_chars txt value_char = true -> ch = LF \/ ch = CR -> ch ∉ txt.
Proof.
  intros Ht Hch Hin. unfold all_chars in Ht. rewrite forallb_forall in Ht.
  apply list_elem_of_In in Hin. apply Ht, value_not_break in Hin. naive_solver.
Qed.

(** A line of visible characters ends where its line end says. *)
Lemma next_line_eol txt eol rest :
  all_chars txt value_char = true -> line_end eol ->
  next_line (txt ++ eol ++ rest) 0 = Some (mk_line txt (length (txt ++ eol))).
Proof.
  intros Ht Heol. unfold next_line, find_from. rewrite drop_0. unfold substr. rewrite drop_0.
  pose proof (value_text_no_break txt LF Ht ltac:(auto)) as HLF.
  pose proof (value_text_no_break txt CR Ht ltac:(auto)) as HCR.
  destruct Heol as [->| ->].
  - replace (txt ++ crlf_string ++ rest) with ((txt ++ [CR]) ++ LF :: rest)
      by (by rewrite <- app_assoc).
    rewrite find_char_first by (rewrite elem_of_app, list_elem_of_singleton; intros [?|[=]]; done).
    cbn [fmap option_fmap option_map]. rewrite length_app. cbn [length].
    rewrite bool_decide_eq_true_2 by lia.
    replace (0 + (length txt + 1) - 1)%nat with (length txt) by lia.
    rewrite <- app_assoc. cbn [app]. rewrite list_lookup_middle by done.
    rewrite bool_decide_eq_true_2 by done.
    cbn [andb]. rewrite Nat.sub_0_r, take_app_length. rewrite length_app. cbn.
    do 2 f_equal. lia.
  - cbn [app]. rewrite find_char_first by done. cbn [fmap option_fmap option_map].
    rewrite !Nat.add_0_l.
    replace (bool_decide _ && _) with false.
    + rewrite Nat.sub_0_r, take_app_length, length_app. done.
    + symmetry. apply andb_false_iff. destruct (decide (0 < length txt)%nat); [right|left].
      * apply bool_decide_eq_false_2. rewrite lookup_app_l by lia.
        intros Hl%list_elem_of_lookup_2. done.
      * by apply bool_decide_eq_false_2.
Qed.

(** ** Blanks *)

Lemma trim_left_blank ows s : forallb is_ows ows = true -> trim_left (ows ++ s) = trim_left s.
Proof.
  induction ows as [|c ows IH]; [done|]. cbn. intros [-> H]%andb_true_iff. auto.
Qed.

Lemma trim_left_snoc x c : is_ows c = false -> trim_left (x ++ [c]) = trim_left x ++ [c].
Proof.
  intros Hc. induction x as [|d x IH]; cbn; [by rewrite Hc|]. by destruct (is_ows d).
Qed.

Lemma trim_left_suffix x : exists p, x = p ++ trim_left x.
Proof.
  induction x as [|d x [p IH]]; [by exists []|]. cbn.
  destruct (is_ows d); [exists (d :: p); cbn; by f_equal|by exists []].
Qed.

(** The end of a string that begins with something else than a blank loses its
    blanks and nothing more. *)
Lemma trim_ows_visible c r :
  is_ows c = false -> exists r', trim_ows (c :: r) = c :: r' /\ r' `prefix_of` r.
Proof.
  intros Hc. unfold trim_ows. cbn [trim_left]. rewrite Hc, reverse_cons, trim_left_snoc by done.
  rewrite reverse_app, reverse_singleton. cbn [app]. eexists. split; [done|].
  destruct (trim_left_suffix (reverse r)) as [p Hp]. exists (reverse p).
  rewrite <- reverse_app, <- Hp, reverse_involutive. done.
Qed.

Lemma trim_ows_blank ows s : forallb is_ows ows = true -> trim_ows (ows ++ s) = trim_ows s.
Proof. intros H. unfold trim_ows. by rewrite trim_left_blank. Qed.

Lemma ows_classes c : is_ows c = true -> has_class c hex_char = false /\ has_class c value_char = true.
Proof.
  unfold is_ows. intros [->%bool_decide_eq_true| ->%bool_decide_eq_true]%orb_true_iff;
    by vm_compute.
Qed.

Lemma hex_is_value c : has_class c hex_char = true -> has_class c value_char = true.
Proof.
  intros Hc. assert (implb (has_class c hex_char) (has_class c value_char) = true) as H.
  { revert c Hc. intros c _. revert c. apply all_ascii. vm_compute. reflexivity. }
  by rewrite Hc in H.
Qed.

Lemma all_chars_forall s c : all_chars s c = true <-> Forall (fun x => has_class x c = true) s.
Proof.
  unfold all_chars. rewrite forallb_forall, Forall_forall.
  by setoid_rewrite list_elem_of_In.
Qed.

Lemma chunk_ext_spec ext :
  chunk_ext ext ->
  all_chars ext value_char = true /\ (forall c r, ext = c :: r -> has_class c hex_char = false) /\
  (trim_ows ext = [] \/
   char_at (trim_ows ext) 0 = ";"%char /\ all_chars (trim_ows ext) value_char = true).
Proof.
  intros (ows & tail & -> & Hows & Htail & Hcase). split_and!.
  - rewrite all_chars_app, Htail, andb_true_r. apply all_chars_forall, Forall_forall.
    intros c Hc. rewrite forallb_forall in Hows. apply ows_classes, Hows. by apply list_elem_of_In.
  - intros c r. destruct ows as [|d ows]; cbn in *.
    + destruct Hcase as [->|[r' ->]]; [done|]. intros [= <- <-]. by vm_compute.
    + intros [= <- <-]. apply andb_true_iff in Hows as [Hd _]. by apply ows_classes.
  - rewrite trim_ows_blank by done. destruct Hcase as [->|[r ->]]; [by left|right].
    destruct (trim_ows_visible ";"%char r) as (r' & -> & Hpre); [by vm_compute|].
    split; [done|]. apply all_chars_forall. apply all_chars_forall in Htail.
    inversion Htail as [|? ? H1 H2]; subst. constructor; [done|].
    destruct Hpre as [q ->]. by apply Forall_app in H2 as [? _].
Qed.

(** ** The chunk-size line *)

Lemma chunk_digits_ok {B} hs ext digits size (s : pstate B) :
  all_chars hs hex_char = true -> (forall c r, ext = c :: r -> has_class c hex_char = false) ->
  (digits + length hs <= 16)%nat -> 0 <= size < 16 ^ Z.of_nat digits ->
  chunk_digits digits size (hs ++ ext) s
  = (Ok ((digits + length hs)%nat, fold_left (fun v c => v * 16 + hex_value c) hs size), s).
Proof.
  intros Hh Hext. revert digits size. induction hs as [|c hs IH]; intros digits size Hd Hs.
  - rewrite Nat.add_0_r. destruct ext as [|c r]; [done|]. cbn. by rewrite (Hext c r).
  - cbn in Hh. apply andb_true_iff in Hh as [Hc Hh]. cbn [app chunk_digits length] in *.
    rewrite Hc. unfold mbind, M_bind, fail_if, throw_if.
    destruct (Nat.eqb_spec digits 16); [lia|]. unfold mret, M_ret.
    fold (push_digit size c). pose proof (hex_value_range c Hc).
    assert (16 ^ Z.of_nat digits <= 16 ^ 15) by (apply Z.pow_le_mono_r; lia).
    change (16 ^ 15) with (2 ^ 60) in *.
    rewrite push_digit_small by (done || lia). cbn [fold_left].
    rewrite IH; [do 3 f_equal; lia|done|lia|].
    rewrite Nat2Z.inj_succ, Z.pow_succ_r by lia. lia.
Qed.

Lemma chunk_size_line_ok {B} txt size (s : pstate B) :
  size_line txt size ->
  chunk_size_line txt s = (Ok tt, set_chunk (next_chunk size) (set_remaining size s)).
Proof.
  intros (hs & ext & -> & Hlen & Hh & -> & Hext & _).
  destruct (chunk_ext_spec ext Hext) as (_ & Hhd & Htrim). unfold chunk_size_line.
  erewrite bind_ok by (apply chunk_digits_ok; [done|done|lia|cbn; lia]).
  rewrite !Nat.add_0_l. rewrite drop_app_length. fold (hex_number hs).
  unfold mbind, M_bind, fail_if, throw_if.
  destruct (Nat.eqb_spec (length hs) 0); [lia|]. unfold mret, M_ret.
  replace (negb (bool_decide (trim_ows ext = [])) && _) with false; [done|].
  symmetry. apply andb_false_iff.
  destruct Htrim as [Ht|[-> ->]]; [left; by rewrite bool_decide_eq_true_2|right].
  by rewrite bool_decide_eq_true_2.
Qed.

Lemma size_line_value txt size : size_line txt size -> all_chars txt value_char = true /\ txt <> [].
Proof.
  intros (hs & ext & -> & Hlen & Hh & _ & Hext & _). split.
  - rewrite all_chars_app. destruct (chunk_ext_spec ext Hext) as (-> & _). rewrite andb_true_r.
    apply all_chars_forall in Hh. apply all_chars_forall.
    eapply Forall_impl; [exact Hh|]. apply hex_is_value.
  - destruct hs; [cbn in Hlen; lia|done].
Qed.

(** ** Decoding *)

(** A round that took [a] off the front. *)
Lemma chunked_loop_front {B} fuel a rest (s s' : pstate B) :
  a <> [] -> chunked_step (a ++ rest) 0 s = (Ok (inr (length a)), s') ->
  chunked_loop (S fuel) (a ++ rest) 0 s = map_result (Nat.add (length a)) (chunked_loop fuel rest 0 s').
Proof.
  intros Ha Hstep. rewrite chunked_loop_S, decide_True, Hstep.
  2:{ rewrite length_app. destruct a; [done|cbn; lia]. }
  rewrite <- (Nat.add_0_r (length a)) at 1. rewrite chunked_loop_shift by (rewrite length_app; lia).
  by rewrite drop_app_length.
Qed.

Lemma line_end_cons eol : line_end eol -> eol <> [].
Proof. by intros [->| ->]. Qed.

Lemma step_size_wire {B} txt size eol rest (s : pstate B) :
  chunk_of s = chunk_Size -> size_line txt size -> line_end eol ->
  chunked_step ((txt ++ eol) ++ rest) 0 s
  = (Ok (inr (length (txt ++ eol))), set_chunk (next_chunk size) (set_remaining size s)).
Proof.
  intros Hc Hs Heol. rewrite step_size by done. rewrite <- app_assoc, next_line_eol;
    [|by eapply size_line_value|done].
  cbn [text next]. by rewrite (chunk_size_line_ok txt size s Hs).
Qed.

Lemma step_data_end_wire {B} eol rest (s : pstate B) :
  chunk_of s = chunk_data_end -> line_end eol ->
  chunked_step (eol ++ rest) 0 s = (Ok (inr (length eol)), set_chunk chunk_Size s).
Proof. intros Hc Heol. rewrite step_data_end by done. by destruct Heol as [->| ->]. Qed.

Definition headers_of {B} (s : pstate B) : Z := m_headers (ps_parser s).
Definition set_headers {B} (n : Z) (s : pstate B) : pstate B :=
  mk_pstate (with_headers n (ps_parser s)) (ps_req s) (ps_env s).

Lemma step_trailer_wire {B} t rest (s : pstate B) :
  chunk_of s = chunk_trailers -> trailer t -> 0 <= headers_of s < max_headers_count ->
  chunked_step ((t.1 ++ t.2) ++ rest) 0 s
  = (Ok (inr (length (t.1 ++ t.2))), set_headers (headers_of s + 1) s).
Proof.
  intros Hc (Hne & Hv & Heol & _) Hh. rewrite step_trailers by done.
  rewrite <- app_assoc, next_line_eol by done. cbn [text next]. rewrite decide_False by done.
  unfold max_headers_count in Hh. unfold headers_of in *.
  unfold trailer_field, mbind, M_bind, fail_if, throw_if, gets, on_parser, modify. cbn -[u64]. unfold max_headers_count.
  rewrite u64_small by lia. rewrite (proj2 (Z.ltb_ge _ _)) by lia. cbn. by rewrite Hv.
Qed.

Lemma trailers_wire {B} fuel trailers eol rest (s : pstate B) :
  let w := concat ((fun t => t.1 ++ t.2) <$> trailers) ++ eol in
  chunk_of s = chunk_trailers -> Forall trailer trailers -> line_end eol ->
  0 <= headers_of s -> headers_of s + len trailers <= max_headers_count ->
  (2 * length (w ++ rest) + 1 < fuel)%nat ->
  exists s', chunked_loop fuel (w ++ rest) 0 s = (Ok (length w), s') /\
    ps_env s' = ps_env s /\ req_state s' = completed.
Proof.
  cbn zeta. intros Hc Ht Heol. revert fuel s Hc.
  induction Ht as [|t trailers Ht _ IH]; intros [|fuel] s Hc H0 Hmax Hf; try lia; cbn [fmap list_fmap concat] in *.
  - rewrite chunked_loop_S, decide_True by (rewrite length_app; destruct Heol as [->| ->]; cbn; lia).
    rewrite step_trailers by done. pose proof (next_line_eol [] eol rest eq_refl Heol) as Hl.
    cbn [app] in Hl. cbn [app concat]. rewrite Hl. cbn [text next]. rewrite decide_True by done.
    by eexists.
  - rewrite <- !app_assoc in *. rewrite (app_assoc t.1 t.2) in *.
    assert (t.1 ++ t.2 <> []) as Hne by (destruct Ht as (? & _ & _); by destruct t.1).
    cbn [length] in Hmax. unfold max_headers_count in Hmax.
    erewrite chunked_loop_front; [|done|apply step_trailer_wire; [done|done|unfold max_headers_count; lia]].
    assert (1 <= length (t.1 ++ t.2))%nat by (destruct (t.1 ++ t.2); [done|cbn; lia]).
    rewrite (length_app (t.1 ++ t.2)) in Hf.
    destruct (IH fuel (set_headers (headers_of s + 1) s)) as (s' & Hrun & He & Hq);
      [done|change (0 <= headers_of s + 1); lia
      |change (headers_of s + 1 + len trailers <= 100); lia|lia|].
    rewrite Hrun. exists s'. split; [|done].
    unfold map_result. cbn. rewrite !length_app. do 2 f_equal. lia.
Qed.

Lemma step_data_wire data rest room (s : pstate bytes) :
  chunk_of s = chunk_Data -> remaining s = len data -> collecting room s -> len data <= room ->
  (max_size s = 0 \/ len (ps_env s) + len data <= max_size s) ->
  exists s', chunked_step (data ++ rest) 0 s = (Ok (inr (length data)), s') /\
    chunk_of s' = chunk_data_end /\ ps_env s' = ps_env s ++ data /\
    collecting (room - len data) s' /\ headers_of s' = headers_of s /\ max_size s' = max_size s.
Proof.
  intros Hc Hr Hcol Hroom Hlim. rewrite step_data by done. rewrite Hr, length_app.
  rewrite Z.min_l by lia. rewrite Nat2Z.id. unfold substr. rewrite drop_0, take_app_length.
  rewrite take_data_eq. pose proof (deliver_collecting data room s Hcol Hroom) as (_ & Hmax & Hok).
  pose proof (deliver_keeps_remaining data s) as Hrem.
  assert (deliver data s = (Ok tt, with_delivered (len data) (ps_env s ++ data) s)) as Hd.
  { destruct Hcol as (Hcb & Hcnt & _ & H64). rewrite deliver_collect by done.
    unfold counted in Hcnt. unfold over_limit. fold (max_size s). rewrite Hcnt, u64_small by lia.
    destruct (Z.eqb_spec (max_size s) 0); [done|]. cbn. rewrite (proj2 (Z.ltb_ge _ _)) by lia. done. }
  rewrite Hd in *. destruct (Hok eq_refl) as [Hcol' _]. cbn [fst snd] in *.
  unfold after_data. rewrite Hrem, Hr, Z.sub_diag. cbn [Z.eqb u64 Z.modulo Z.div_eucl].
  eexists. split; [done|]. split_and!; try done.
Qed.

(** Whatever follows it on the connection, a chunked body is consumed to its
    last byte, and the session has been given its payload. *)
Lemma chunked_wire_decodes w payload trailers rest fuel room (s : pstate bytes) :
  chunked_wire w payload trailers ->
  chunk_of s = chunk_Size -> collecting room s -> len payload <= room ->
  (max_size s = 0 \/ len (ps_env s) + len payload <= max_size s) ->
  0 <= headers_of s -> headers_of s + Z.of_nat trailers <= max_headers_count ->
  (2 * length (w ++ rest) + 1 < fuel)%nat ->
  exists s', chunked_loop fuel (w ++ rest) 0 s = (Ok (length w), s') /\
    ps_env s' = ps_env s ++ payload /\ req_state s' = completed.
Proof.
  intros Hw. revert fuel room s.
  induction Hw as [txt eol trs eol2 Hsz Heol Htr Heol2
                  |txt eol data eol2 w payload n Hsz Heol Hne Heol2 _ IH];
    intros fuel room s Hc Hcol Hroom Hlim H0 Hmax Hf; (destruct fuel as [|fuel]; [lia|]).
  - rewrite <- !app_assoc in *. rewrite (app_assoc txt eol) in *.
    assert (1 <= length (txt ++ eol))%nat as Hl
      by (rewrite length_app; destruct Heol as [->| ->]; cbn; lia).
    erewrite chunked_loop_front; [|by destruct (txt ++ eol); [cbn in Hl; lia|]|by apply step_size_wire].
    rewrite (length_app (txt ++ eol)) in Hf. rewrite app_assoc in *.
    destruct (trailers_wire fuel trs eol2 rest (set_chunk (next_chunk 0) (set_remaining 0 s)))
      as (s' & Hrun & He & Hq); [done|done|done|done|done|lia|].
    rewrite Hrun. exists s'. rewrite He, app_nil_r. split; [|done].
    unfold map_result. cbn. rewrite !length_app. do 2 f_equal. lia.
  - rewrite <- !app_assoc in *. rewrite (app_assoc txt eol) in *.
    assert (1 <= length (txt ++ eol))%nat as Hl
      by (rewrite length_app; destruct Heol as [->| ->]; cbn; lia).
    assert (1 <= length eol2)%nat as Hl2 by (destruct Heol2 as [->| ->]; cbn; lia).
    assert (0 < length data)%nat as Hl3 by (destruct data; [done|cbn; lia]).
    rewrite !(length_app (txt ++ eol)), !(length_app data), !(length_app eol2) in Hf.
    rewrite length_app in Hroom, Hlim.
    erewrite chunked_loop_front; [|by destruct (txt ++ eol); [cbn in Hl; lia|]|by apply step_size_wire].
    set (s1 := set_chunk _ _).
    destruct (step_data_wire data (eol2 ++ w ++ rest) room s1)
      as (s2 & Hst & Hc2 & He2 & Hcol2 & Hh2 & Hm2); [|done|done|lia|change (max_size s1) with (max_size s); change (ps_env s1) with (ps_env s); lia|].
    { unfold s1, next_chunk. cbn. by rewrite (proj2 (Z.eqb_neq _ _)) by lia. }
    destruct fuel as [|fuel]; [lia|]. erewrite chunked_loop_front; [|done|exact Hst].
    destruct fuel as [|fuel]; [lia|].
    erewrite chunked_loop_front; [|by apply line_end_cons|by apply step_data_end_wire].
    destruct (IH fuel (room - len data) (set_chunk chunk_Size s2)) as (s' & Hrun & He & Hq);
      [done|exact Hcol2|lia| | | | |].
    + change (max_size (set_chunk chunk_Size s2)) with (max_size s2).
      change (ps_env (set_chunk chunk_Size s2)) with (ps_env s2). rewrite Hm2, He2, length_app.
      change (max_size s1) with (max_size s). change (ps_env s1) with (ps_env s). lia.
    + change (0 <= headers_of s2). rewrite Hh2. exact H0.
    + change (headers_of s2 + Z.of_nat n <= max_headers_count). rewrite Hh2. exact Hmax.
    + lia.
    + rewrite Hrun. exists s'. split; [|split; [|done]].
      * unfold map_result. cbn. rewrite !length_app. do 2 f_equal. lia.
      * rewrite He. change (ps_env (set_chunk chunk_Size s2)) with (ps_env s2). rewrite He2.
        by rewrite <- app_assoc.
Qed.

Lemma chunked_body_decodes (w payload rest : bytes) (trailers : nat) (s : pstate bytes) :
  chunked_wire w payload trailers ->
  framing_of s = body_chunked -> req_state s <> completed -> chunk_of s = chunk_Size ->
  collecting (len payload) s ->
  (max_size s = 0 \/ len (ps_env s) + len payload <= max_size s) ->
  0 <= headers_of s -> headers_of s + Z.of_nat trailers <= 100 ->
  exists s', parse_body (w ++ rest) s = (Ok (length w), s') /\
    ps_env s' = ps_env s ++ payload /\ req_state s' = completed.
Proof.
  intros Hw Hf Hq Hc Hcol Hlim H0 Hmax. rewrite parse_body_eq, Hf.
  rewrite !bool_decide_eq_false_2, decide_True by done. cbn [orb].
  exact (chunked_wire_decodes w payload trailers rest (2 * length (w ++ rest) + 2) (len payload)
    (set_req_state processing_body s) Hw Hc Hcol (Z.le_refl _) Hlim H0 Hmax ltac:(lia)).
Qed.


(** Two chunks, one with an extension, and a trailer. *)
Definition wiki_wire : bytes :=
  (bs "4;name=value" ++ crlf_string ++ bs "Wiki" ++ crlf_string ++
   (bs "5" ++ [LF] ++ bs "pedia" ++ [LF] ++
    (bs "0" ++ crlf_string ++
     concat ((fun t => t.1 ++ t.2) <$> [(bs "Expires: never", crlf_string)]) ++ crlf_string))).

Definition before_chunks : pstate bytes :=
  mk_pstate (with_body body_chunked (with_head head_done new_parser))
    (append_body_callback (set_state new_request headers_completed) collect 100) [].

Lemma wiki_wire_carries : chunked_wire wiki_wire (bs "Wiki" ++ bs "pedia" ++ []) 1.
Proof.
  unfold wiki_wire. apply wire_chunk; [|by left|done|by left|].
  { exists (bs "4"), (bs ";name=value"). split_and!; [reflexivity|cbn; lia..|reflexivity|reflexivity| |done].
    exists [], (bs ";name=value"). split_and!; [reflexivity..|]. right. by eexists. }
  apply wire_chunk; [|by right|done|by right|].
  { exists (bs "5"), []. split_and!; [reflexivity|cbn; lia..|reflexivity|reflexivity| |done].
    exists [], []. split_and!; [reflexivity..|]. by left. }
  apply (wire_last (bs "0") crlf_string [(bs "Expires: never", crlf_string)] crlf_string);
    [|by left|repeat constructor; done|by left].
  exists (bs "0"), []. split_and!; [reflexivity|cbn; lia..|reflexivity|reflexivity| |done].
  exists [], []. split_and!; [reflexivity..|]. by left.
Qed.


(** The limit of a chunk line holds only for a line that is cut: the same body is
    read when it comes at once, and refused when its line comes in two pieces. *)
Definition long_extension : bytes :=
  bs "0;" ++ replicate 1100 "x"%char ++ crlf_string ++ crlf_string.

Theorem chunk_line_limit_depends_on_cut :
  (parse_body long_extension before_chunks).1 = Ok (length long_extension) /\
  (parse_body (take 1050 long_extension) before_chunks).1 = Throw (failure 400 (bs "Invalid chunk size")).
Proof. split; vm_compute; reflexivity. Qed.
