(* ===== verification/ParserTypes.v ===== *)
(** * The members of the parser stay in range

    [typed] is what the types and the comments of [http_request_parser] say of
    its members; every call of [parse_head] and [parse_body] keeps it, whether
    it returns or throws, for any data and any callback. *)

From S2P Require Import Prelude Utils Charconv Http HttpParser HeadProofs BodyProofs.

Local Open Scope Z_scope.

(** ** Triples over the parser's monad

    A computation keeps [I] on every path, and its result has [Q]. *)

Section triples.
Context {S E : Type} (I : S -> Prop).

Definition keeps {A} (m : M S E A) (Q : A -> Prop) : Prop :=
  forall s, I s -> match m s with
                   | (Ok a, s') => I s' /\ Q a
                   | (_, s') => I s'
                   end.

Lemma stays_ret {A} (a : A) (Q : A -> Prop) : Q a -> keeps (mret a) Q.
Proof. intros Ha s Hs. done. Qed.

Lemma stays_bind {A B} (m : M S E A) (f : A -> M S E B) (P : A -> Prop) (Q : B -> Prop) :
  keeps m P -> (forall a, P a -> keeps (f a) Q) -> keeps (m ≫= f) Q.
Proof.
  intros Hm Hf s Hs. unfold mbind, M_bind. specialize (Hm s Hs).
  destruct (m s) as [[a|e|] s']; [|done..]. destruct Hm as [Hs' Ha]. by apply Hf.
Qed.

Lemma stays_weaken {A} (m : M S E A) (P Q : A -> Prop) : keeps m P -> (forall a, P a -> Q a) -> keeps m Q.
Proof. intros Hm HPQ s Hs. specialize (Hm s Hs). destruct (m s) as [[] ?]; naive_solver. Qed.

Lemma stays_gets {A} (f : S -> A) : keeps (gets f) (fun a => exists s, I s /\ a = f s).
Proof. intros s Hs. split; [done|]. by exists s. Qed.

Lemma stays_get : keeps get I.
Proof. intros s Hs. done. Qed.

Lemma stays_modify f : (forall s, I s -> I (f s)) -> keeps (modify f) (fun _ => True).
Proof. intros Hf s Hs. split; [|done]. by apply Hf. Qed.

Lemma stays_throw {A} e (Q : A -> Prop) : keeps (throw e) Q.
Proof. by intros s Hs. Qed.

Lemma stays_throw_if b e : keeps (throw_if b e) (fun _ => b = false).
Proof. intros s Hs. by destruct b. Qed.

Lemma stays_if {A} (b : bool) (m1 m2 : M S E A) Q :
  (b = true -> keeps m1 Q) -> (b = false -> keeps m2 Q) -> keeps (if b then m1 else m2) Q.
Proof. destruct b; auto. Qed.

Lemma stays_diverge {A} (Q : A -> Prop) : keeps diverge Q.
Proof. by intros s Hs. Qed.
End triples.

Create HintDb keeps.
#[export] Hint Resolve stays_throw stays_diverge stays_gets stays_get stays_throw_if : keeps.

(** ** The type of the members *)

Definition in_u64 (z : Z) : Prop := 0 <= z < 2 ^ 64.

Record typed (p : parser) : Prop := {
  ty_seen : in_u64 (m_head_seen p);
  ty_headers : in_u64 (m_headers p);
  ty_remaining : in_u64 (m_remaining p);
  ty_received : in_u64 (m_received p);
  ty_length : 0 <= m_parsed_length p < chunked_data;
  ty_no_length : m_has_content_length p = false -> m_parsed_length p = 0;
  ty_content : m_parser_body p = body_content_length ->
    m_has_content_length p = true /\ m_chunked p = false /\ m_remaining p <= m_parsed_length p;
  ty_chunked : m_parser_body p = body_chunked -> m_chunked p = true /\ m_has_content_length p = false;
  ty_head : m_head p <> head_done -> m_parser_body p = body_none;
}.

Lemma new_parser_typed : typed new_parser.
Proof. split; done. Qed.

Section parser_types.
Context {B : Type}.
Abbreviation PM := (M (pstate B) exn).

Definition typed_state (s : pstate B) : Prop := typed (ps_parser s).
Definition in_head (s : pstate B) : Prop := typed (ps_parser s) /\ m_parser_body (ps_parser s) = body_none.
Definition in_chunked (s : pstate B) : Prop := typed (ps_parser s) /\ m_parser_body (ps_parser s) = body_chunked.

(** Invariants that only look at the parser's members. *)
Class parser_only (I : pstate B -> Prop) : Prop :=
  depends_on_parser : forall s s', ps_parser s' = ps_parser s -> I s -> I s'.
Global Instance in_head_only : parser_only in_head.
Proof. intros s s' Hp. unfold in_head. by rewrite Hp. Qed.
Global Instance in_chunked_only : parser_only in_chunked.
Proof. intros s s' Hp. unfold in_chunked. by rewrite Hp. Qed.
Global Instance typed_only : parser_only typed_state.
Proof. intros s s' Hp. unfold typed_state. by rewrite Hp. Qed.

Lemma stays_on_req I `{!parser_only I} f : keeps I (on_req f : PM unit) (fun _ => True).
Proof. apply stays_modify. intros s. by apply depends_on_parser. Qed.

Lemma stays_on_env I `{!parser_only I} {A} (m : M B exn A) : keeps I (on_env m : PM A) (fun _ => True).
Proof.
  intros s Hs. unfold on_env. destruct (m (ps_env s)) as [o env].
  assert (I (mk_pstate (ps_parser s) (ps_req s) env)) by by apply (depends_on_parser s).
  by destruct o.
Qed.

Lemma stays_on_parser I f :
  (forall s, I s -> I (mk_pstate (f (ps_parser s)) (ps_req s) (ps_env s))) ->
  keeps I (on_parser f : PM unit) (fun _ => True).
Proof. intros H. by apply stays_modify. Qed.
End parser_types.

(** Goes through a computation statement by statement. *)
Ltac keeps_step :=
  match goal with
  | |- keeps _ (_ ≫= _) _ => eapply stays_bind; [|intros ? ?]
  | |- keeps _ (mret _) _ => apply stays_ret
  | |- keeps _ (fail_if _ _ _) _ => apply stays_throw_if
  | |- keeps _ (fail _ _) _ => apply stays_throw
  | |- keeps _ (on_req _) _ => apply stays_on_req; try apply _
  | |- keeps _ (on_env _) _ => apply stays_on_env; try apply _
  | |- keeps _ (if decide _ then _ else _) _ => case_decide
  | |- keeps _ (if _ then _ else _) _ => apply stays_if; intros ?
  | |- keeps _ (match _ with _ => _ end) _ => case_match
  | |- keeps _ _ _ => solve [eauto with keeps]
  end.

(** A change of some members keeps what is said of the others. *)
Ltac typed_members :=
  repeat match goal with
  | H : in_head _ |- _ => destruct H as [H ?]
  | H : in_chunked _ |- _ => destruct H as [H ?]
  | H : typed_state _ |- _ => unfold typed_state in H
  | H : typed _ |- _ => destruct H
  end;
  unfold in_head, in_chunked, typed_state in *;
  cbn [ps_parser ps_req ps_env] in *;
  repeat match goal with |- _ /\ _ => split end;
  try (split; cbn [with_head with_body with_chunk with_head_seen with_headers with_remaining with_received
    with_content_length with_http11 with_chunked with_close with_keep_alive
    m_head m_parser_body m_chunk m_head_seen m_headers m_remaining m_received m_parsed_length m_http11
    m_has_content_length m_chunked m_close m_keep_alive] in *);
  try done; try apply u64_range; try congruence.

Section head_types.
Context {B : Type}.
Abbreviation PM := (M (pstate B) exn).
Abbreviation keeps_head m := (keeps in_head (m : PM _)).

Lemma parse_request_line_typed line : keeps_head (parse_request_line line) (fun _ => True).
Proof.
  unfold parse_request_line. repeat keeps_step; try done.
  apply stays_on_parser. intros s Hs. typed_members.
Qed.

Lemma content_length_field_typed value : keeps_head (content_length_field value) (fun _ => True).
Proof.
  unfold content_length_field. destruct (from_chars value) as [[ptr ec] n] eqn:Hf.
  apply from_chars_nonneg in Hf. repeat keeps_step; try done.
  apply stays_on_parser. intros s Hs. apply orb_false_iff in H0 as [_ Hlt]. apply Z.leb_gt in Hlt. typed_members.
Qed.

Lemma transfer_encoding_field_typed value : keeps_head (transfer_encoding_field value) (fun _ => True).
Proof.
  unfold transfer_encoding_field. repeat keeps_step; try done.
  apply stays_on_parser. intros s Hs. typed_members.
Qed.

Lemma connection_option_typed p o : typed p /\ m_parser_body p = body_none ->
  typed (connection_option p o) /\ m_parser_body (connection_option p o) = body_none.
Proof. intros [Hp Hb]. unfold connection_option. repeat case_match; typed_members. Qed.

Lemma connection_field_typed value : keeps_head (connection_field value) (fun _ => True).
Proof.
  unfold connection_field. repeat keeps_step; try done. apply stays_on_parser. intros s Hs.
  unfold in_head in *. cbn [ps_parser]. revert Hs. generalize (ps_parser s).
  induction (for_each_token value) as [|o os IH]; intros p Hp; [done|]. cbn [fold_left].
  by apply IH, connection_option_typed.
Qed.

Lemma parse_header_field_typed txt : keeps_head (parse_header_field txt) (fun _ => True).
Proof.
  pose proof content_length_field_typed. pose proof transfer_encoding_field_typed. pose proof connection_field_typed.
  unfold parse_header_field. repeat keeps_step; try done.
  apply stays_on_parser. intros s Hs. typed_members.
Qed.

(** What the end of the head settles. *)
Lemma finish_typed (pos : nat) (s : pstate B) :
  in_head s -> typed_state ((finalize_head;; on_parser (with_head head_done);; mret pos) s).2.
Proof.
  intros [Ht Hb]. unfold finalize_head, mbind, M_bind, gets, fail_if, throw_if, on_req, on_parser, modify.
  destruct (m_has_content_length (ps_parser s) && m_chunked (ps_parser s)) eqn:Hboth; [exact Ht|].
  cbn [mret M_ret ps_parser]. destruct (m_chunked (ps_parser s)) eqn:Hch; [|destruct (Z.eqb_spec (m_parsed_length (ps_parser s)) 0) as [Hz|Hz]].
  all: cbn [negb]; rewrite ?andb_true_r in Hboth; typed_members; unfold in_u64, chunked_data in *; try lia.
  - cbn. lia.
  - intros _. split_and!; [|done|cbn; lia]. cbn. destruct (m_has_content_length (ps_parser s)); [done|].
    by specialize (ty_no_length0 eq_refl).
Qed.

Lemma headers_loop_typed fuel data pos (s : pstate B) :
  in_head s -> typed_state (headers_loop fuel data pos s).2.
Proof.
  revert pos s. induction fuel as [|fuel IH]; intros pos s Hs; cbn [headers_loop]; [apply Hs|].
  unfold mbind at 1, M_bind at 1, gets. destruct (decide _); [|apply Hs].
  destruct (next_line data pos) as [l|].
  - unfold mbind at 1, M_bind at 1, fail_if, throw_if. destruct (max_head_size <? _); [apply Hs|].
    cbn [mret M_ret]. destruct (decide (text l = [])); [by apply finish_typed|].
    pose proof (parse_header_field_typed (text l) s Hs) as Hf. unfold mbind, M_bind.
    destruct (parse_header_field (text l) s) as [[u|ex|] s1]; [|apply Hf..]. apply IH, Hf.
  - unfold mbind, M_bind, fail_if, throw_if. destruct (max_head_size <? _); apply Hs.
Qed.

Lemma parse_headers_types data pos (s : pstate B) : in_head s -> typed_state (parse_headers data pos s).2.
Proof.
  intros Hs. unfold parse_headers, mbind, M_bind.
  pose proof (headers_loop_typed (S (length data)) data pos s Hs) as Hl.
  destruct (headers_loop _ _ _ _) as [[n|e|] s1]; [|exact Hl..]. cbn in *. typed_members.
Qed.

Lemma skip_typed fuel data pos : keeps_head (skip_empty_lines fuel data pos) (fun _ => True).
Proof.
  revert pos. induction fuel as [|fuel IH]; intros pos; cbn [skip_empty_lines]; repeat keeps_step; try done.
  apply stays_on_parser. intros s Hs. typed_members.
Qed.

Lemma parse_head_typed data (s : pstate B) : typed_state s -> typed_state (parse_head data s).2.
Proof.
  intros Hs. unfold parse_head. unfold mbind at 1, M_bind at 1, gets at 1.
  set (start := if decide (m_state (ps_req s) = uninitialized) then begin_request else mret tt).
  assert (Hstart : exists s1, start s = (Ok tt, s1) /\ typed_state s1).
  { unfold start. case_decide; [|by exists s]. eexists. split; [reflexivity|]. apply new_parser_typed. }
  clearbody start. destruct Hstart as (s1 & Hrun & Hs1). unfold mbind at 1, M_bind at 1. rewrite Hrun.
  unfold mbind at 1, M_bind at 1, gets at 1. destruct (decide (m_head (ps_parser s1) = head_done)) as [|Hh]; [exact Hs1|].
  assert (Hin : in_head s1) by (split; [exact Hs1|by apply (ty_head _ Hs1)]).
  destruct (decide _); [|by apply parse_headers_types].
  pose proof (skip_typed (S (length data)) data 0 s1 Hin) as Hk. unfold mbind at 1, M_bind at 1.
  destruct (skip_empty_lines _ _ _ _) as [[[pos|l]|ex|] s2]; [apply Hk| |apply Hk..]. destruct Hk as [Hk _].
  unfold mbind at 1, M_bind at 1. pose proof (parse_request_line_typed (text l) s2 Hk) as Hr.
  destruct (parse_request_line (text l) s2) as [[u|ex|] s3]; [destruct Hr as [Hr _]|apply Hr..].
  unfold mbind, M_bind, gets, fail_if, throw_if. destruct (max_head_size <? _); [apply Hr|].
  cbn [mret M_ret on_parser on_req modify]. apply parse_headers_types. typed_members.
Qed.
End head_types.

Section body_types.
Context {B : Type}.
Abbreviation PM := (M (pstate B) exn).

(** Delivering data leaves what remains alone. *)
Definition with_rest (r : Z) (I : pstate B -> Prop) (s : pstate B) : Prop := I s /\ m_remaining (ps_parser s) = r.

Lemma deliver_typed r data (s : pstate B) :
  with_rest r typed_state s -> with_rest r typed_state (deliver data s).2 /\
    m_parser_body (ps_parser (deliver data s).2) = m_parser_body (ps_parser s).
Proof.
  intros [Hs Hr]. unfold deliver, mbind, M_bind, on_parser, modify, get, fail_if, throw_if, on_env.
  assert (H1 : typed (with_received (u64 (m_received (ps_parser s) + len data)) (ps_parser s))) by typed_members.
  destruct (_ && _); [done|]. cbn [mret M_ret]. destruct (append_body _ _ _) as [o env]. done.
Qed.

Lemma chunk_size_line_typed txt : keeps in_chunked (chunk_size_line txt : PM unit) (fun _ => True).
Proof.
  unfold chunk_size_line. eapply stays_bind with (P := fun ds => in_u64 ds.2).
  - intros s Hs. pose proof (chunk_digits_spec 0 0 txt s ltac:(lia)) as H.
    destruct (chunk_digits 0 0 txt s) as [[[d v]|ex|] s']; [|by destruct H as [-> _]|done]. by destruct H as [-> H].
  - intros [digits size] Hsize. repeat keeps_step; try done;
      apply stays_on_parser; intros s Hs; typed_members.
Qed.

Lemma chunked_step_typed data pos : keeps in_chunked (chunked_step data pos : PM (nat + nat)) (fun _ => True).
Proof.
  unfold chunked_step. eapply stays_bind; [apply stays_gets|]. intros p (s0 & Hs0 & ->).
  destruct (m_chunk (ps_parser s0)).
  - pose proof chunk_size_line_typed. repeat keeps_step; done.
  - eapply stays_bind with (P := fun _ => True).
    + intros s [Hs Hb]. destruct (deliver_typed _ (substr data pos
        (Z.to_nat (Z.min (m_remaining (ps_parser s0)) (len data - Z.of_nat pos)))) s (conj Hs eq_refl)) as [[H1 _] H2].
      destruct (deliver _ s) as [[u|ex|] s1]; cbn [snd] in *; unfold in_chunked; rewrite H2; done.
    + intros _ _. repeat keeps_step.
    all: try (apply stays_on_parser; intros s Hs; typed_members). all: done.
  - repeat keeps_step.
    all: try (apply stays_on_parser; intros s Hs; typed_members). all: done.
  - repeat keeps_step.
    all: try (apply stays_on_parser; intros s Hs; typed_members). all: done.
Qed.

Lemma chunked_loop_typed fuel data pos : keeps in_chunked (chunked_loop fuel data pos : PM nat) (fun _ => True).
Proof.
  pose proof chunked_step_typed. revert pos.
  induction fuel as [|fuel IH]; intros pos; cbn [chunked_loop]; repeat keeps_step; done.
Qed.

Lemma content_length_typed data (s : pstate B) :
  typed_state s -> m_parser_body (ps_parser s) = body_content_length ->
  let size := Z.min (m_remaining (ps_parser s)) (len data) in
  let s1 := (deliver (substr data 0 (Z.to_nat size)) s).2 in
  typed_state (mk_pstate (with_remaining (u64 (m_remaining (ps_parser s1) - size)) (ps_parser s1)) (ps_req s1) (ps_env s1)).
Proof.
  intros Hs Hb size s1. pose proof (ty_remaining _ Hs) as Hr. unfold in_u64 in Hr.
  destruct (deliver_typed _ (substr data 0 (Z.to_nat size)) s (conj Hs eq_refl)) as [[H1 H2] H3]. fold s1 in H1, H2, H3.
  rewrite H2, u64_small by lia. rewrite Hb in H3. typed_members; [unfold in_u64; lia|].
  intros _. destruct (ty_content0 H3) as (? & ? & ?). split_and!; [done|done|lia].
Qed.

Lemma parse_body_typed data (s : pstate B) : typed_state s -> typed_state (parse_body data s).2.
Proof.
  intros Hs. unfold parse_body. unfold mbind at 1, M_bind at 1, get.
  destruct (bool_decide (m_state (ps_req s) = completed) || bool_decide (m_parser_body (ps_parser s) = body_none)) eqn:E; [exact Hs|].
  unfold mbind at 1, M_bind at 1, on_req at 1, modify. cbn [ps_parser].
  set (s1 := mk_pstate (ps_parser s) (set_state (ps_req s) processing_body) (ps_env s)).
  destruct (decide (m_parser_body (ps_parser s) = body_chunked)) as [Hc|Hc].
  - unfold parse_chunked. pose proof (chunked_loop_typed (2 * length data + 2) data 0 s1 (conj Hs Hc)) as H.
    destruct (chunked_loop _ _ _ _) as [[n|e|] s2]; apply H.
  - apply orb_false_iff in E as [_ E]. apply bool_decide_eq_false in E.
    assert (Hb : m_parser_body (ps_parser s1) = body_content_length) by (cbn; by destruct (m_parser_body (ps_parser s))).
    pose proof (content_length_typed data s1 Hs Hb) as Hd. cbn zeta in Hd. cbn [ps_parser s1] in Hd.
    destruct (deliver_typed (m_remaining (ps_parser s)) (substr data 0 (Z.to_nat (Z.min (m_remaining (ps_parser s)) (len data)))) s1 (conj Hs eq_refl)) as [[Hd1 _] _].
    unfold mbind, M_bind, fail_if, throw_if. destruct (_ && _); [exact Hs|]. cbn [mret M_ret].
    match goal with |- context [negb (?x =? 0)] => destruct (negb (x =? 0)) end.
    + destruct (deliver _ s1) as [[u|e|] s2]; cbn [snd] in *; [|exact Hd1..].
      unfold on_parser, on_req, modify, gets, mret, M_ret. by destruct (m_remaining _ =? 0).
    + unfold on_req, modify, gets, mret, M_ret. by destruct (m_remaining _ =? 0).
Qed.

(** C35: The members of the parser keep their types: on every path of parse_head
    and parse_body, exceptions included, each size stays a 64-bit value, a
    Content-Length stays below the marker of a chunked body, the body is
    framed one way only with no more remaining than was announced, and
    there is no body before the head is done. *)
Theorem parser_members_typed (data : bytes) (s : pstate B) :
  typed (ps_parser s) ->
  typed (ps_parser (parse_head data s).2) /\ typed (ps_parser (parse_body data s).2).
Proof. intros Hs. split; [by apply parse_head_typed|by apply parse_body_typed]. Qed.
End body_types.

(** ** What the callback keeps

    Reading a body changes what the callback works on only by calling it. *)

Section callback_kept.
Context {B : Type} (K : B -> Prop) (cb : option (body_callback B)).
Context (Hcb : forall f, cb = Some f -> forall data env, K env -> K (f data env).2).
Abbreviation PM := (M (pstate B) exn).

Definition kept (s : pstate B) : Prop := K (ps_env s) /\ m_callback (ps_req s) = cb.

Lemma kept_on_req f : (forall q, m_callback (f q) = m_callback q) -> keeps kept (on_req f : PM unit) (fun _ => True).
Proof. intros Hf. apply stays_modify. intros s [HK Hc]. split; [done|]. cbn. by rewrite Hf. Qed.
Lemma kept_on_parser f : keeps kept (on_parser f : PM unit) (fun _ => True).
Proof. by apply stays_on_parser. Qed.

Lemma kept_append_body q data : m_callback q = cb -> keeps kept (on_env (append_body q data) : PM unit) (fun _ => True).
Proof.
  intros Hq s [HK Hc]. unfold on_env, append_body. destruct (m_callback q) as [f|]; [|done].
  specialize (Hcb f (eq_sym Hq) data (ps_env s) HK). by destruct (f data (ps_env s)) as [[] env].
Qed.

Lemma kept_deliver data : keeps kept (deliver data : PM unit) (fun _ => True).
Proof.
  unfold deliver. eapply stays_bind; [apply kept_on_parser|]. intros _ _.
  eapply stays_bind; [apply stays_get|]. intros s Hs. eapply stays_bind; [apply stays_throw_if|]. intros _ _.
  apply kept_append_body, Hs.
Qed.

Ltac kept_step :=
  match goal with
  | |- keeps _ (on_req _) _ => by apply kept_on_req
  | |- keeps _ (on_parser _) _ => apply kept_on_parser
  | |- keeps _ (deliver _) _ => apply kept_deliver
  | |- _ => keeps_step
  end.

Lemma kept_chunk_digits digits size txt : keeps kept (chunk_digits digits size txt : PM (nat * Z)) (fun _ => True).
Proof. revert digits size. induction txt as [|c txt IH]; intros digits size; cbn [chunk_digits]; repeat kept_step; done. Qed.

Lemma kept_chunked_loop fuel data pos : keeps kept (chunked_loop fuel data pos : PM nat) (fun _ => True).
Proof.
  assert (Hline : forall txt, keeps kept (chunk_size_line txt : PM unit) (fun _ => True)).
  { intros txt. unfold chunk_size_line. eapply stays_bind; [apply kept_chunk_digits|]. intros [] _. repeat kept_step; done. }
  assert (Hstep : forall pos, keeps kept (chunked_step data pos : PM (nat + nat)) (fun _ => True)).
  { intros ps. unfold chunked_step. eapply stays_bind; [apply stays_gets|]. intros p _.
    destruct (m_chunk p); repeat kept_step; done. }
  revert pos. induction fuel as [|fuel IH]; intros pos; cbn [chunked_loop]; repeat kept_step; done.
Qed.

Lemma parse_body_kept data (s : pstate B) : kept s -> kept (parse_body data s).2.
Proof.
  intros Hs. assert (Hp : keeps kept (parse_body data : PM nat) (fun _ => True)).
  { pose proof kept_chunked_loop. unfold parse_body, parse_chunked. repeat kept_step; done. }
  specialize (Hp s Hs). destruct (parse_body data s) as [[] s']; cbn in *; [by destruct Hp|done..].
Qed.
End callback_kept.

(** A parser in the middle of a chunked body. *)
Definition mid_chunk : parser :=
  mk_parser head_done body_chunked chunk_Data 40 2 3 9 0 true false true false false.

Lemma parser_members_typed_witness :
  typed mid_chunk /\
  typed (ps_parser (parse_body (bs "abcde") (mk_pstate mid_chunk (set_state (@new_request unit) headers_completed) tt)).2).
Proof.
  assert (Ht : typed mid_chunk) by (split; unfold in_u64, chunked_data; cbn; done || lia).
  split; [exact Ht|].
  apply (parser_members_typed (bs "abcde") (mk_pstate mid_chunk (set_state (@new_request unit) headers_completed) tt)).
  exact Ht.
Defined.
