(* ===== verification/HeadFraming.v ===== *)
(** * How a head frames its body, and that two readers of it agree

    A request is framed by its Content-Length or by its Transfer-Encoding.  The
    parser decides while it reads the head; sessions ask the request later, and
    it reads the stored field again with [strtoull].  [head_frames_body] shows
    that the two never disagree and that no accepted head has both framings. *)

From S2P Require Import Prelude Utils Charconv Http HttpParser HeadProofs BodyProofs.

Local Open Scope Z_scope.

Abbreviation CL := (bs "Content-Length").
Abbreviation TE := (bs "Transfer-Encoding").

(** ** Fields *)

Lemma fields_find_app f k v key :
  fields_find (f ++ [(k, v)]) key =
  match fields_find f key with
  | Some w => Some w
  | None => if decide (k = key) then Some v else None
  end.
Proof. induction f as [|[k' v'] f IH]; cbn; [done|]. by destruct (decide (k' = key)). Qed.

Lemma fields_find_update f k g key :
  fields_find (fields_update f k g) key =
  if decide (k = key) then g <$> fields_find f key else fields_find f key.
Proof.
  induction f as [|[k' v'] f IH]; cbn; [by destruct (decide (k = key))|].
  destruct (decide (k' = k)) as [->|Hk]; cbn.
  - by destruct (decide (k = key)).
  - destruct (decide (k' = key)) as [->|Hk']; [|exact IH]. by rewrite decide_False.
Qed.

(** A stored field is found, combined with what was there; the others are as
    they were. *)
Lemma fields_find_store k v f key :
  fields_find (store_field k v f) key =
  if decide (k = key) then
    Some (match fields_find f k with None => v | Some old => old ++ bs ", " ++ v end)
  else fields_find f key.
Proof.
  unfold store_field, fields_try_emplace. destruct (fields_find f k) as [old|] eqn:E.
  - rewrite fields_find_update. case_decide as Hk; [|done]. subst. by rewrite E.
  - rewrite fields_find_app. case_decide as Hk; [subst; by rewrite E|].
    by destruct (fields_find f key).
Qed.

Lemma from_chars_range v n : from_chars v = (length v, conv_ok, n) -> 0 <= n < 2 ^ 64.
Proof.
  intros Hv. split; [by eapply from_chars_nonneg|]. revert Hv. unfold from_chars. case_decide; [done|].
  destruct (Z.leb_spec (2 ^ 64) (decimal (digits_prefix v))); [done|]. by intros [= _ <-].
Qed.

(** ** A Hoare logic for what the parser returns *)

Section framing.
Context {B : Type}.
Implicit Types s : pstate B.
Abbreviation PM := (M (pstate B) exn).

Definition ensures {A} (P : pstate B -> Prop) (m : PM A) (Q : A -> pstate B -> Prop) : Prop :=
  forall s a s', P s -> m s = (Ok a, s') -> Q a s'.

Lemma ensures_bind {A C} P Q R (m : PM A) (k : A -> PM C) :
  ensures P m Q -> (forall a, ensures (Q a) (k a) R) -> ensures P (m ≫= k) R.
Proof. intros Hm Hk s c s' HP (a & s1 & H1 & H2)%bind_inv_ok. exact (Hk a s1 c s' (Hm s a s1 HP H1) H2). Qed.

Lemma ensures_fail_if P b st r : ensures P (fail_if b st r) (fun _ s => P s /\ b = false).
Proof. intros s a s' HP. destruct b; [done|]. by intros [= _ <-]. Qed.

Lemma ensures_gets {A X} P (f : pstate B -> X) (k : X -> PM A) Q :
  (forall x, ensures (fun s => P s /\ f s = x) (k x) Q) -> ensures P (gets f ≫= k) Q.
Proof. intros Hk s a s' HP Hrun. exact (Hk (f s) s a s' (conj HP eq_refl) Hrun). Qed.

(** ** The invariant of the header lines *)

Definition flags (p : parser) : bool * Z * bool := (m_has_content_length p, m_parsed_length p, m_chunked p).

Definition framing_inv s : Prop :=
  let '(has, n, chunked) := flags (ps_parser s) in
  let f := q_fields (ps_req s) in
  (if (has : bool)
   then exists v, fields_find f CL = Some v /\ from_chars v = (length v, conv_ok, n) /\ n < chunked_data
   else fields_find f CL = None /\ n = 0) /\
  (chunked = true <-> is_Some (fields_find f TE)) /\
  remaining s = 0 /\ max_size s = 0.

(** What a field that is none of the three special ones leaves alone. *)
Lemma framing_inv_same s s' :
  flags (ps_parser s') = flags (ps_parser s) ->
  fields_find (q_fields (ps_req s')) CL = fields_find (q_fields (ps_req s)) CL ->
  fields_find (q_fields (ps_req s')) TE = fields_find (q_fields (ps_req s)) TE ->
  remaining s' = remaining s -> max_size s' = max_size s -> framing_inv s -> framing_inv s'.
Proof. unfold framing_inv. by intros -> -> -> -> ->. Qed.

Lemma connection_flags os p :
  flags (fold_left connection_option os p) = flags p /\
  m_remaining (fold_left connection_option os p) = m_remaining p.
Proof.
  revert p. induction os as [|o os IH]; intros p; cbn; [done|].
  destruct (IH (connection_option p o)) as [-> ->]. unfold connection_option. by repeat case_match.
Qed.

(** The state of [parse_header_field] between its test of the special names and
    the storing of the field. *)
Definition storing (key value : bytes) (store : bool) s : Prop :=
  if store then framing_inv (mk_pstate (ps_parser s)
                 (set_fields (ps_req s) (store_field key value (q_fields (ps_req s)))) (ps_env s))
  else framing_inv s.

Lemma store_other key value s :
  key <> CL -> key <> TE -> framing_inv s -> storing key value true s.
Proof.
  intros H1 H2. apply framing_inv_same; try done; cbn -[String.list_ascii_of_string]; rewrite fields_find_store; by rewrite decide_False.
Qed.

Lemma content_length_field_framing value :
  ensures framing_inv (content_length_field value) (storing CL value).
Proof.
  intros s store s' Hinv. unfold content_length_field, mbind, M_bind, gets.
  destruct (from_chars value) as [[ptr ec] n] eqn:Ef. unfold fail_if, throw_if.
  destruct (_ || _) eqn:Hbad; [done|]. apply orb_false_iff in Hbad as [Hbad Hlt].
  apply orb_false_iff in Hbad as [Hbad Hptr]. apply orb_false_iff in Hbad as [Hne Hec].
  apply negb_false_iff, Nat.eqb_eq in Hptr as ->. destruct ec; try done.
  apply Z.leb_gt in Hlt. pose proof Hinv as (Hcl & Hte & Hrem & Hmax).
  cbn [flags] in Hinv. unfold mret, M_ret. destruct (m_has_content_length (ps_parser s)) eqn:Hhas.
  - destruct (negb _); [done|]. by intros [= <- <-].
  - unfold on_parser, modify. intros [= <- <-]. unfold storing, framing_inv. cbn -[remaining max_size String.list_ascii_of_string].
    rewrite !fields_find_store, decide_True, decide_False by done.
    destruct Hcl as [Hcl _]. rewrite Hcl. split_and!; [|done|done|done]. by exists value.
Qed.

Lemma transfer_encoding_field_framing value :
  ensures framing_inv (transfer_encoding_field value) (storing TE value).
Proof.
  intros s store s' Hinv. unfold transfer_encoding_field, mbind, M_bind, gets, fail_if, throw_if.
  destruct (negb _); [done|]. destruct (negb _); [done|]. unfold on_parser, modify.
  intros [= <- <-]. destruct Hinv as (Hcl & Hte & Hrem & Hmax).
  unfold storing, framing_inv. cbn -[remaining max_size String.list_ascii_of_string].
  rewrite !fields_find_store, decide_False, decide_True by done.
  split_and!; [done| |done|done]. split; [by eexists|done].
Qed.

Lemma connection_field_framing value :
  ensures framing_inv (connection_field value) (storing (bs "Connection") value).
Proof.
  intros s store s' Hinv [= <- <-]. apply store_other; [done..|].
  destruct (connection_flags (for_each_token value) (ps_parser s)) as [Hf Hr].
  by apply (framing_inv_same s).
Qed.

Lemma parse_header_field_framing txt :
  ensures framing_inv (parse_header_field txt) (fun _ => framing_inv).
Proof.
  unfold parse_header_field.
  apply (ensures_bind _ (fun _ => framing_inv)). { by intros s [] s' Hinv [= <-]. }
  intros []. apply ensures_gets. intros p.
  eapply ensures_bind; [apply ensures_fail_if|]. intros [].
  eapply ensures_bind; [apply ensures_fail_if|]. intros [].
  destruct (find_char ":" txt) as [[|colon]|]; [by intros ??? _ [=]| |by intros ??? _ [=]].
  eapply ensures_bind; [apply ensures_fail_if|]. intros [].
  set (value := trim_ows _). eapply ensures_bind; [apply ensures_fail_if|]. intros [].
  set (key := canonical_name _). clearbody key value. apply (ensures_bind _ (storing key value)).
  - intros s store s' (((((Hinv & _) & _) & _) & _) & _).
    destruct (decide (key = bs "Content-Length")) as [->|H1]; [by apply content_length_field_framing|].
    destruct (decide (key = bs "Transfer-Encoding")) as [->|H2]; [by apply transfer_encoding_field_framing|].
    destruct (decide (key = bs "Connection")) as [->|H3]; [by apply connection_field_framing|].
    intros [= <- <-]. by apply store_other.
  - intros [] s [] s' Hst; [|by intros [= <-]]. by intros [= <-].
Qed.

(** ** The end of the head *)

(** What the head says of the body, in the parser and in the request. *)
Definition framed s : Prop :=
  let f := q_fields (ps_req s) in
  received s = 0 /\ chunk_of s = chunk_Size /\ max_size s = 0 /\
  match framing_of s with
  | body_chunked =>
      req_state s = headers_completed /\ is_Some (fields_find f TE) /\
      fields_find f CL = None /\ content_length (ps_req s) = chunked_data /\ remaining s = 0
  | body_content_length =>
      req_state s = headers_completed /\ fields_find f TE = None /\
      0 < remaining s < chunked_data /\ content_length (ps_req s) = remaining s
  | body_none =>
      req_state s = completed /\ fields_find f TE = None /\ remaining s = 0 /\
      (fields_find f CL = None \/ content_length (ps_req s) = 0)
  end.

Definition head_inv s : Prop :=
  match head_of s with
  | head_request_line => framing_inv s
  | head_headers => framing_inv s
  | head_done => framed s
  end.

Lemma stored_content_length (q : request B) v n :
  fields_find (q_fields q) CL = Some v -> from_chars v = (length v, conv_ok, n) -> content_length q = n.
Proof.
  intros Hf Hv. unfold content_length. rewrite Hf. rewrite (strtoull_from_chars v n Hv).
  by rewrite decide_True.
Qed.

Lemma no_content_length (q : request B) : fields_find (q_fields q) CL = None -> content_length q = chunked_data.
Proof. intros Hf. unfold content_length. by rewrite Hf. Qed.

Lemma finalize_framed (n : nat) :
  ensures framing_inv (finalize_head;; on_parser (with_head head_done);; mret n)
    (fun _ s => head_of s = head_done /\ framed s).
Proof.
  intros s m s' (Hcl & Hte & Hrem & Hmax). cbn -[String.list_ascii_of_string remaining max_size] in Hcl, Hte.
  unfold finalize_head, mbind, M_bind, gets, fail_if, throw_if, on_req, on_parser, modify.
  destruct (m_has_content_length (ps_parser s)) eqn:Hhas, (m_chunked (ps_parser s)) eqn:Hch;
    cbn [andb]; [done|..].
  - destruct Hcl as (v & Hf & Hv & Hlt). pose proof (from_chars_range _ _ Hv).
    assert (Hnte : fields_find (q_fields (ps_req s)) TE = None).
    { destruct (fields_find _ TE) eqn:E; [|done]. by discriminate (proj2 Hte (mk_is_Some _ _ eq_refl)). }
    destruct (Z.eqb_spec (m_parsed_length (ps_parser s)) 0) as [Hz|Hnz]; cbn [negb]; intros [= _ <-].
    + split; [done|]. split_and!; [done..|]. cbn -[String.list_ascii_of_string content_length remaining].
      split_and!; [done|done|exact Hrem|]. right. rewrite <- Hz.
      exact (stored_content_length _ v _ (Hf : fields_find (q_fields _) CL = _) Hv).
    + split; [done|]. split_and!; [done..|]. cbn -[String.list_ascii_of_string content_length].
      split_and!; [done|done|lia|done|].
      exact (stored_content_length _ v _ (Hf : fields_find (q_fields _) CL = _) Hv).
  - destruct Hcl as [Hf _]. intros [= _ <-]. split; [done|]. split_and!; [done..|].
    cbn -[String.list_ascii_of_string content_length]. split_and!; [done|by apply Hte|done| |done].
    by apply no_content_length.
  - destruct Hcl as [Hf ->]. cbn [negb Z.eqb]. intros [= _ <-]. split; [done|]. split_and!; [done..|].
    cbn -[String.list_ascii_of_string content_length remaining].
    split_and!; [done| |exact Hrem|by left].
    destruct (fields_find _ TE) eqn:E; [|done]. by discriminate (proj2 Hte (mk_is_Some _ _ eq_refl)).
Qed.

Lemma headers_loop_framing fuel data pos :
  ensures (fun s => head_of s = head_headers /\ framing_inv s) (headers_loop fuel data pos)
    (fun _ => head_inv).
Proof.
  revert pos. induction fuel as [|fuel IH]; intros pos s n s' [Hh Hinv]; [done|].
  rewrite headers_loop_S by done. destruct (next_line data pos) as [l|].
  - destruct (_ <? _); [done|]. case_decide.
    + intros Hrun. unfold head_inv.
      destruct (finalize_framed (next l) s n s' Hinv Hrun) as [-> ?]. done.
    + pose proof (parse_header_field_head (text l) s) as Hkh.
      destruct (parse_header_field (text l) s) as [[[]|e|] s1] eqn:E; [|done..]. cbn in Hkh.
      intros Hrun. apply (IH (next l) s1 n s'); [|done]. split; [congruence|].
      exact (parse_header_field_framing (text l) s tt s1 Hinv E).
  - destruct (_ <? _); [done|]. intros [= _ <-]. unfold head_inv. by rewrite Hh.
Qed.

Lemma parse_headers_framing data pos :
  ensures (fun s => head_of s = head_headers /\ framing_inv s) (parse_headers data pos) (fun _ => head_inv).
Proof.
  intros s n s' Hs. rewrite parse_headers_eq.
  destruct (headers_loop _ data pos s) as [[m|e|] s1] eqn:E; [|done..]. intros [= _ <-].
  exact (headers_loop_framing _ _ _ s m s1 Hs E).
Qed.

Lemma parse_request_line_framing txt :
  ensures framing_inv (parse_request_line txt) (fun _ => framing_inv).
Proof.
  unfold parse_request_line. destruct (find_char SP txt) as [[|sp1]|]; [by intros ??? _ [=]| |by intros ??? _ [=]].
  destruct (find_from SP txt (S sp1 + 1)) as [sp2|]; [|by intros ??? _ [=]].
  case_decide; [by intros ??? _ [=]|].
  do 4 (eapply ensures_bind; [apply ensures_fail_if|]; intros []).
  by intros s [] s' ((((Hinv & _) & _) & _) & _) [= <-].
Qed.

Lemma parse_head_framing data s n s' :
  head_inv (start s) -> parse_head data s = (Ok n, s') -> head_inv s'.
Proof.
  rewrite parse_head_resume. generalize (start s) as s0. clear s. intros s Hinv. unfold resume.
  unfold head_inv in Hinv. destruct (head_of s) eqn:Hh.
  - destruct (skip_empty_lines _ data 0 s) as [[[pos|l]|e|] s1] eqn:E; [|..|done|done].
    + assert (exists k, s1 = set_seen k s) as [k ->].
      { clear -E. revert E. generalize 0%nat, (S (length data)). intros p fuel. revert p.
        induction fuel as [|fuel IH]; intros p; [done|]. rewrite skip_S.
        destruct (next_line data p); [case_decide; [apply IH|done]|].
        destruct (_ <? _); [done|]. intros [= _ <-]. by eexists. }
      intros [= _ <-]. unfold head_inv. change (head_of (set_seen k s)) with (head_of s). by rewrite Hh.
    + assert (s1 = s) as ->.
      { clear -E. revert E. generalize 0%nat, (S (length data)). intros p fuel. revert p.
        induction fuel as [|fuel IH]; intros p; [done|]. rewrite skip_S.
        destruct (next_line data p); [case_decide; [apply IH|by intros [= _ <-]]|].
        by destruct (_ <? _). }
      rewrite after_request_line_eq.
      destruct (parse_request_line (text l) s) as [[[]|e|] s2] eqn:Er; [|done..].
      destruct (_ <? _); [done|]. apply parse_headers_framing. split; [done|].
      pose proof (parse_request_line_framing (text l) s tt s2 Hinv Er) as H2. exact H2.
  - by apply parse_headers_framing.
  - intros [= _ <-]. unfold head_inv. by rewrite Hh.
Qed.

Lemma head_done_framed data p (env : B) n s :
  parse_head data (mk_pstate p new_request env) = (Ok n, s) -> head_of s = head_done -> framed s.
Proof.
  intros Hrun Hd. apply (parse_head_framing data _ n s) in Hrun.
  - unfold head_inv in Hrun. by rewrite Hd in Hrun.
  - cbn. split_and!; try done. split; [done|]. by intros [? ?].
Qed.

(** The parser may go on with any request that has a limit of its type. *)
Lemma framed_body_wf s (q : request B) env :
  framed s -> 0 <= m_max_body_size q < 2 ^ 64 -> body_wf (mk_pstate (ps_parser s) q env).
Proof.
  intros (Hrec & _ & _ & Hf) Hl.
  assert (0 <= remaining s < 2 ^ 64) as Hr.
  { unfold chunked_data in Hf. destruct (framing_of s); naive_solver lia. }
  set (s' := mk_pstate _ _ _). assert (received s' = 0) as Hr' by exact Hrec.
  unfold body_wf. rewrite Hr'. change (max_size s') with (m_max_body_size q). split_and!; [apply Hr|lia..].
Qed.

(** C7: No accepted head has two framings: whatever the head, once parse_head is
    done the body is chunked, or has the length that the request's own
    content_length() reports, or is empty, so the parser and the session
    agree where a request ends. *)
Theorem head_frames_body (data : bytes) (p : parser) (env : B) (n : nat) s :
  parse_head data (mk_pstate p new_request env) = (Ok n, s) -> head_of s = head_done ->
  let q := ps_req s in
  match framing_of s with
  | body_chunked =>
      req_state s = headers_completed /\ is_Some (fields_find (q_fields q) (bs "Transfer-Encoding")) /\
      content_length q = chunked_data /\ fields_find (q_fields q) (bs "Content-Length") = None
  | body_content_length =>
      req_state s = headers_completed /\ fields_find (q_fields q) (bs "Transfer-Encoding") = None /\
      0 < remaining s < chunked_data /\ content_length q = remaining s
  | body_none =>
      req_state s = completed /\ fields_find (q_fields q) (bs "Transfer-Encoding") = None /\
      (fields_find (q_fields q) (bs "Content-Length") = None \/ content_length q = 0)
  end /\
  forall (callback : body_callback B) (limit : Z), 0 <= limit < 2 ^ 64 ->
    body_wf (mk_pstate (ps_parser s) (append_body_callback q callback limit) (ps_env s)).
Proof.
  intros Hrun Hd. pose proof (head_done_framed _ _ _ _ _ Hrun Hd) as Hfr. split.
  - destruct Hfr as (_ & _ & _ & Hf). destruct (framing_of s); naive_solver.
  - intros callback limit Hl. by apply framed_body_wf.
Qed.
End framing.

(** A head with a Content-Length, as the client spelled it. *)
Definition post_head : bytes :=
  bs "POST / HTTP/1.1" ++ crlf_string ++ bs "content-length: 011" ++ crlf_string ++ crlf_string.

Lemma head_frames_body_witness :
  let s := (parse_head post_head (mk_pstate new_parser new_request tt)).2 in
  framing_of s = body_content_length /\ content_length (ps_req s) = remaining s /\
  fields_find (q_fields (ps_req s)) (bs "Transfer-Encoding") = None.
Proof.
  set (s := (parse_head post_head (mk_pstate new_parser new_request tt)).2).
  assert (Hrun : parse_head post_head (mk_pstate new_parser new_request tt) = (Ok (length post_head), s))
    by (vm_compute; reflexivity).
  assert (Hf : framing_of s = body_content_length) by (vm_compute; reflexivity).
  destruct (head_frames_body post_head new_parser tt (length post_head) s Hrun eq_refl) as [H _].
  rewrite Hf in H. destruct H as (_ & H1 & _ & H2).
  split; [exact Hf|]. split; [exact H2|exact H1].
Defined.
