(* ===== verification/HeadWire.v ===== *)
(** * The text of a request head, and that [parse_head] reads it

    [head_text] prints a request line and header fields with any blanks around
    the values and any line ends; [parse_head_reads_request] shows that the
    parser reads back what was printed: method, target, fields, keep alive and
    framing, and not a byte more. *)

From S2P Require Import Prelude Utils Charconv Http HttpParser HeadProofs BodyProofs BodyContent ChunkedWire HeadFraming.

Local Open Scope Z_scope.

(** ** The format *)

Record header : Type := mk_header {
  h_name : bytes;
  h_before : bytes;    (** blanks *)
  h_value : bytes;
  h_after : bytes;     (** blanks *)
  h_eol : bytes;
}.

Definition trimmed (v : bytes) : Prop :=
  v = [] \/ (exists c r, v = c :: r /\ is_ows c = false) /\ (exists c r, v = r ++ [c] /\ is_ows c = false).

Definition header_ok (h : header) : Prop :=
  h_name h <> [] /\ all_chars (h_name h) token_char = true /\
  forallb is_ows (h_before h) = true /\ forallb is_ows (h_after h) = true /\
  all_chars (h_value h) value_char = true /\ trimmed (h_value h) /\ line_end (h_eol h).

Definition header_body (h : header) : bytes :=
  h_name h ++ ":"%char :: h_before h ++ h_value h ++ h_after h.
Definition header_text (h : header) : bytes := header_body h ++ h_eol h.
Definition key_of (h : header) : bytes := canonical_name (h_name h).

Record request_line : Type := mk_request_line {
  r_method : bytes;
  r_target : bytes;
  r_minor : ascii;
  r_eol : bytes;
}.
Definition request_line_ok (r : request_line) : Prop :=
  r_method r <> [] /\ all_chars (r_method r) token_char = true /\
  r_target r <> [] /\ all_chars (r_target r) TargetChar = true /\
  is_dec (code (r_minor r)) = true /\ line_end (r_eol r).
Definition request_line_body (r : request_line) : bytes :=
  r_method r ++ SP :: r_target r ++ SP :: bs "HTTP/1." ++ [r_minor r].

Definition head_text (empties : list bytes) (r : request_line) (hs : list header) (eol : bytes) : bytes :=
  concat empties ++ (request_line_body r ++ r_eol r) ++ concat (header_text <$> hs) ++ eol.

(** ** What the fields mean *)

Inductive framing : Type := frame_none | frame_length (n : Z) | frame_chunked.

Definition plain (h : header) : Prop := key_of h <> bs "Content-Length" /\ key_of h <> bs "Transfer-Encoding".

(** The header that announces a body, if any. *)
Definition frames (f : framing) (hs : list header) : Prop :=
  match f with
  | frame_none => hs = []
  | frame_length n => exists h, hs = [h] /\ key_of h = bs "Content-Length" /\
      from_chars (h_value h) = (length (h_value h), conv_ok, n) /\ n < chunked_data
  | frame_chunked => exists h t, hs = [h] /\ key_of h = bs "Transfer-Encoding" /\
      for_each_token (h_value h) = [t] /\ iequals t (bs "chunked") = true
  end.

(** The two cases of the letters, and the spelling of a name under which a field
    is kept: a capital at the start and after each [-], small letters elsewhere. *)
Definition small_letters : bytes := bs "abcdefghijklmnopqrstuvwxyz".
Definition capital_letters : bytes := bs "ABCDEFGHIJKLMNOPQRSTUVWXYZ".
Definition capital (c : ascii) : ascii := match find_char c small_letters with Some n => char_at capital_letters n | None => c end.
Definition small (c : ascii) : ascii := match find_char c capital_letters with Some n => char_at small_letters n | None => c end.
Definition spelled (name key : bytes) : Prop :=
  length key = length name /\
  forall i c, name !! i = Some c ->
    key !! i = Some (if decide (i = O \/ name !! pred i = Some "-"%char) then capital c else small c).

(** No field is repeated, in whatever case. *)
Definition distinct (hs : list header) : Prop := NoDup (fmap small ∘ h_name <$> hs).

(** The fields are the headers, each with its value. *)
Definition carries (hs : list header) (f : fields) : Prop :=
  forall key v, fields_find f key = Some v <-> exists h, h ∈ hs /\ spelled (h_name h) key /\ h_value h = v.

Definition stored (hs : list header) : fields :=
  fold_left (fun f h => store_field (key_of h) (h_value h) f) hs [].

(** Some Connection field has this option. *)
Definition has_option (is_it : bytes -> bool) (hs : list header) : bool :=
  existsb (fun h => bool_decide (key_of h = bs "Connection") &&
                    existsb is_it (for_each_token (h_value h))) hs.
Definition says_close (o : bytes) : bool := iequals o (bs "close").
Definition says_keep_alive (o : bytes) : bool := negb (says_close o) && iequals o (bs "keep-alive").

(** HTTP/1.1 keeps a connection alive unless told otherwise, HTTP/1.0 only when
    told to. *)
Definition reusable (r : request_line) (hs : list header) : bool :=
  negb (has_option says_close hs) &&
  (negb (bool_decide (r_minor r = "0"%char)) || has_option says_keep_alive hs).

(** ** Characters *)

(** A fact about every character of a class, by trying all of them. *)
Lemma ascii_implies (P Q : ascii -> bool) :
  forallb (fun n => implb (P (ascii_of_nat n)) (Q (ascii_of_nat n))) (seq 0 256) = true ->
  forall c, P c = true -> Q c = true.
Proof.
  intros H c Hc. pose proof (all_ascii (fun c => implb (P c) (Q c)) H c) as Hi. cbn beta in Hi.
  by rewrite Hc in Hi.
Qed.

Lemma token_is_value c : has_class c token_char = true -> has_class c value_char = true.
Proof. apply (ascii_implies (fun c => has_class c token_char) (fun c => has_class c value_char)). vm_compute. reflexivity. Qed.

Lemma token_not_ows c : has_class c token_char = true -> negb (is_ows c) = true.
Proof.
  apply (ascii_implies (fun c => has_class c token_char) (fun c => negb (is_ows c))).
  vm_compute. reflexivity.
Qed.

Lemma target_is_value c : has_class c TargetChar = true -> has_class c value_char = true.
Proof. apply (ascii_implies (fun c => has_class c TargetChar) (fun c => has_class c value_char)). vm_compute. reflexivity. Qed.

Lemma dec_facts c : is_dec (code c) = true ->
  has_class c hex_char && negb (code "9" <? code c) && has_class c value_char = true.
Proof.
  apply (ascii_implies (fun c => is_dec (code c))
    (fun c => has_class c hex_char && negb (code "9" <? code c) && has_class c value_char)).
  vm_compute. reflexivity.
Qed.

(** Every character of a class is one of another, and none is [ch]. *)
Lemma class_weaken s a b : all_chars s a = true ->
  (forall c, has_class c a = true -> has_class c b = true) -> all_chars s b = true.
Proof. rewrite !all_chars_forall. intros H Hab. eapply Forall_impl; [exact H|]. exact Hab. Qed.

Lemma all_chars_cons c s k : all_chars (c :: s) k = has_class c k && all_chars s k.
Proof. done. Qed.

Lemma class_avoids s a ch : all_chars s a = true -> has_class ch a = false -> ch ∉ s.
Proof. rewrite all_chars_forall, Forall_forall. intros H Hn Hin. rewrite (H ch Hin) in Hn. done. Qed.

Lemma blanks_value ows : forallb is_ows ows = true -> all_chars ows value_char = true.
Proof.
  intros H. apply all_chars_forall, Forall_forall. intros c Hc. apply ows_classes.
  rewrite forallb_forall in H. apply H. by apply list_elem_of_In.
Qed.

(** ** The fields that are kept *)

Lemma ascii_decided (P : ascii -> Prop) `{Hdec : forall c, Decision (P c)} :
  forallb (fun n => bool_decide (P (ascii_of_nat n))) (seq 0 256) = true -> forall c, P c.
Proof. intros H c. pose proof (all_ascii (fun c => bool_decide (P c)) H c) as Hc. cbn beta in Hc. by apply bool_decide_eq_true in Hc. Qed.

Lemma capital_upper c : capital c = to_upper_ascii c.
Proof. revert c. apply ascii_decided with (Hdec := fun c => _). vm_compute. reflexivity. Qed.
Lemma small_lower c : small c = to_lower_ascii c.
Proof. revert c. apply ascii_decided with (Hdec := fun c => _). vm_compute. reflexivity. Qed.
Lemma small_recased c : small (to_upper_ascii c) = small c /\ small (to_lower_ascii c) = small c.
Proof. revert c. apply ascii_decided with (Hdec := fun c => _). vm_compute. reflexivity. Qed.

Lemma canonical_small up name : small <$> canonical_from up name = small <$> name.
Proof.
  revert up. induction name as [|c name IH]; intros up; [done|]. cbn. rewrite IH. f_equal.
  destruct up; apply small_recased.
Qed.

Lemma canonical_lookup up name i c :
  name !! i = Some c ->
  canonical_from up name !! i =
  Some (if (match i with O => up | S j => bool_decide (name !! j = Some "-"%char) end) then capital c else small c).
Proof.
  revert up i. induction name as [|d name IH]; intros up [|i]; cbn; [done..| |].
  - intros [= ->]. rewrite capital_upper, small_lower. by destruct up.
  - intros Hi. rewrite (IH _ _ Hi). destruct i as [|i]; [|done]. cbn.
    by rewrite (bool_decide_ext (d = "-"%char) (Some d = Some "-"%char)) by naive_solver.
Qed.
Lemma canonical_length up name : length (canonical_from up name) = length name.
Proof. revert up. induction name as [|c name IH]; intros up; cbn; [done|]. by rewrite IH. Qed.

Lemma canonical_spelled name key : spelled name key <-> key = canonical_name name.
Proof.
  assert (Hc : forall i c, name !! i = Some c -> canonical_name name !! i =
    Some (if decide (i = O \/ name !! pred i = Some "-"%char) then capital c else small c)).
  { intros i c Hi. unfold canonical_name. rewrite (canonical_lookup true name i c Hi). f_equal.
    destruct i as [|i]; cbn; [by rewrite decide_True by by left|].
    destruct (decide (name !! i = Some "-"%char)) as [Hd|Hd].
    - rewrite bool_decide_eq_true_2, decide_True by (done || by right). done.
    - rewrite bool_decide_eq_false_2, decide_False by (done || naive_solver). done. }
  split.
  - intros [Hlen Hk]. apply list_eq. intros i. destruct (name !! i) as [c|] eqn:Hi; [by rewrite (Hk _ _ Hi), (Hc _ _ Hi)|].
    apply lookup_ge_None in Hi. rewrite !lookup_ge_None_2; [done| |lia]. unfold canonical_name. rewrite canonical_length. lia.
  - intros ->. split; [apply canonical_length|exact Hc].
Qed.

Lemma store_all_find hs f key :
  NoDup (key_of <$> hs) -> (forall h, h ∈ hs -> fields_find f (key_of h) = None) ->
  forall v, fields_find (fold_left (fun f h => store_field (key_of h) (h_value h) f) hs f) key = Some v <->
    fields_find f key = Some v \/ exists h, h ∈ hs /\ key_of h = key /\ h_value h = v.
Proof.
  revert f. induction hs as [|h hs IH]; intros f Hnd Hf v; cbn [fold_left].
  { split; [by left|]. intros [?|(h & Hh & _)]; [done|by apply not_elem_of_nil in Hh]. }
  cbn in Hnd. apply NoDup_cons in Hnd as [Hnew Hnd].
  rewrite IH; [|done|].
  - rewrite fields_find_store, (Hf h (list_elem_of_here _ _)). setoid_rewrite elem_of_cons.
    destruct (decide (key_of h = key)) as [<-|Hne]; [|naive_solver].
    pose proof (Hf h (list_elem_of_here _ _)). split; [intros [[= <-]|(h2 & ? & ? & ?)]; right; eauto|].
    intros [?|(h2 & [->|Hin] & Hk & <-)]; [congruence|by left|]. right. eauto.
  - intros h2 Hin. rewrite fields_find_store, decide_False; [by apply Hf, list_elem_of_further|].
    intros Heq. apply Hnew. rewrite Heq. by apply list_elem_of_fmap_2.
Qed.

Lemma distinct_keys hs : distinct hs -> NoDup (key_of <$> hs).
Proof.
  intros Hd. apply (NoDup_fmap_1 (fmap small)). rewrite <- list_fmap_compose.
  erewrite list_fmap_ext; [exact Hd|]. intros i h _. apply canonical_small.
Qed.

Lemma stored_carries hs : distinct hs -> carries hs (stored hs).
Proof.
  intros Hd key v. unfold stored. rewrite store_all_find by (done || by apply distinct_keys). cbn.
  setoid_rewrite canonical_spelled. unfold key_of. naive_solver.
Qed.

(** ** Blanks around a value *)

Lemma trim_left_visible v : (exists c r, v = c :: r /\ is_ows c = false) -> trim_left v = v.
Proof. intros (c & r & -> & Hc). cbn. by rewrite Hc. Qed.

Lemma forallb_reverse {A} (f : A -> bool) l : forallb f (reverse l) = forallb f l.
Proof. induction l as [|x l IH]; [done|]. rewrite reverse_cons, forallb_app, IH. cbn. rewrite andb_true_r. apply andb_comm. Qed.

Lemma trim_ows_around before v after :
  forallb is_ows before = true -> forallb is_ows after = true -> trimmed v ->
  trim_ows (before ++ v ++ after) = v.
Proof.
  intros Hb Ha Hv. rewrite trim_ows_blank by done. unfold trim_ows.
  destruct Hv as [->|[Hfirst (c & r & Hlast & Hc)]].
  - cbn [app]. assert (trim_left after = []) as ->; [|done].
    rewrite <- (app_nil_r after). by rewrite trim_left_blank.
  - destruct Hfirst as (c0 & r0 & Hv0 & Hc0).
    rewrite (trim_left_visible (v ++ after)) by (exists c0, (r0 ++ after); by rewrite Hv0).
    rewrite reverse_app, trim_left_blank by (by rewrite forallb_reverse).
    rewrite trim_left_visible by (exists c, (reverse r); by rewrite Hlast, reverse_app).
    apply reverse_involutive.
Qed.

(** ** One field *)

Section head_wire.
Context {B : Type}.
Implicit Types s : pstate B.

(** What a field does to the members of the parser. *)
Definition special (h : header) (p : parser) : parser :=
  if decide (key_of h = bs "Content-Length") then with_content_length (from_chars (h_value h)).2 p
  else if decide (key_of h = bs "Transfer-Encoding") then with_chunked true p
  else if decide (key_of h = bs "Connection")
  then fold_left connection_option (for_each_token (h_value h)) p
  else p.
Definition apply_header (h : header) s : pstate B :=
  mk_pstate (special h (with_headers (m_headers (ps_parser s) + 1) (ps_parser s)))
    (set_fields (ps_req s) (store_field (key_of h) (h_value h) (q_fields (ps_req s)))) (ps_env s).

(** The field may come where the parser is. *)
Definition admits (h : header) (p : parser) : Prop :=
  (key_of h = bs "Content-Length" -> m_has_content_length p = false /\
     exists n, from_chars (h_value h) = (length (h_value h), conv_ok, n) /\ n < chunked_data) /\
  (key_of h = bs "Transfer-Encoding" -> m_chunked p = false /\
     exists t, for_each_token (h_value h) = [t] /\ iequals t (bs "chunked") = true).

Lemma header_body_value h : header_ok h -> all_chars (header_body h) value_char = true /\ header_body h <> [].
Proof.
  intros (Hn & Ht & Hb & Ha & Hv & _). split; [|unfold header_body; by destruct (h_name h)].
  unfold header_body. rewrite all_chars_app, (class_weaken _ token_char value_char Ht token_is_value).
  rewrite all_chars_cons.
  rewrite !all_chars_app, Hv, (blanks_value _ Hb), (blanks_value _ Ha). by vm_compute.
Qed.

Lemma header_colon h : header_ok h -> find_char ":" (header_body h) = Some (length (h_name h)).
Proof.
  intros (Hn & Ht & _). unfold header_body. apply find_char_first.
  apply (class_avoids _ token_char); [done|by vm_compute].
Qed.

Lemma special_value h : header_ok h -> trim_ows (drop (length (h_name h) + 1) (header_body h)) = h_value h.
Proof.
  intros (Hn & Ht & Hb & Ha & Hv & Htr & _). unfold header_body.
  rewrite <- drop_drop, drop_app_length. cbn [drop]. by apply trim_ows_around.
Qed.

(** The test of the special names, where it passes. *)
Lemma special_ok h s (value := h_value h) (key := key_of h) :
  admits h (ps_parser s) -> value = h_value h -> value <> [] \/ key <> bs "Content-Length" ->
  (if decide (key = bs "Content-Length") then content_length_field value
   else if decide (key = bs "Transfer-Encoding") then transfer_encoding_field value
   else if decide (key = bs "Connection") then connection_field value
   else mret true) s = (Ok true, mk_pstate (special h (ps_parser s)) (ps_req s) (ps_env s)).
Proof.
  intros [Hcl Hte] _ Hne. unfold special. fold key value.
  destruct (decide (key = bs "Content-Length")) as [Hk|_].
  { destruct (Hcl Hk) as (Hhas & n & Hf & Hlt). fold value in Hf.
    unfold content_length_field, mbind, M_bind, gets. rewrite Hf. unfold fail_if, throw_if.
    rewrite bool_decide_eq_false_2 by naive_solver. rewrite Nat.eqb_refl.
    destruct (Z.leb_spec chunked_data n); [lia|]. cbn [orb negb]. unfold mret, M_ret. by rewrite Hhas. }
  destruct (decide (key = bs "Transfer-Encoding")) as [Hk|_].
  { destruct (Hte Hk) as (Hch & t & Ht & Hi). fold value in Ht.
    unfold transfer_encoding_field, mbind, M_bind, gets. rewrite Hch, Ht.
    change (default [] (last [t])) with t. unfold fail_if, throw_if. by rewrite Hi. }
  destruct (decide (key = bs "Connection")); [done|by destruct s].
Qed.

Lemma from_chars_nonempty v n : from_chars v = (length v, conv_ok, n) -> v <> [].
Proof. by intros H ->. Qed.

Lemma parse_header_field_ok h s :
  header_ok h -> admits h (ps_parser s) -> 0 <= m_headers (ps_parser s) < 100 ->
  parse_header_field (header_body h) s = (Ok tt, apply_header h s).
Proof.
  intros Hok Hadm Hcount. unfold parse_header_field.
  unfold mbind at 1, M_bind at 1, on_parser at 1, modify. unfold mbind at 1, M_bind at 1, gets.
  cbn [ps_parser with_headers m_headers]. rewrite u64_small by lia.
  unfold fail_if, throw_if, max_headers_count.
  destruct (Z.ltb_spec 100 (m_headers (ps_parser s) + 1)); [lia|].
  unfold mbind at 1, M_bind at 1, mret at 1, M_ret at 1.
  assert (is_ows (char_at (header_body h) 0) = false) as ->.
  { destruct Hok as (Hn & Ht & _). unfold header_body. destruct (h_name h) as [|c n]; [done|].
    apply all_chars_forall in Ht. inversion Ht as [|? ? Hc _]; subst. apply token_not_ows in Hc.
    cbn. by apply negb_true_iff. }
  unfold mbind at 1, M_bind at 1, mret at 1, M_ret at 1.
  rewrite header_colon by done. destruct (length (h_name h)) as [|k] eqn:Hk.
  { destruct Hok as (Hn & _). by destruct (h_name h). }
  rewrite <- Hk. assert (substr (header_body h) 0 (length (h_name h)) = h_name h) as ->.
  { unfold substr, header_body. by rewrite drop_0, take_app_length. }
  rewrite special_value by done. destruct Hok as (Hn & Ht & _ & _ & Hv & _). rewrite Ht, Hv.
  cbn [negb]. unfold mbind at 1 2, M_bind at 1 2, mret at 1 2, M_ret at 1 2.
  fold (key_of h). set (s1 := mk_pstate _ _ _).
  rewrite (bind_ok _ _ _ _ _ (special_ok h s1 Hadm eq_refl ltac:(
    destruct (decide (h_value h = [])) as [He|]; [right|by left];
    intros Hcl; destruct Hadm as [Hadm _]; destruct (Hadm Hcl) as (_ & n & Hf & _);
    by apply from_chars_nonempty in Hf))).
  done.
Qed.

(** ** The request line *)

Definition http11_of (r : request_line) : bool := negb (bool_decide (r_minor r = "0"%char)).

Lemma version_ok c : is_dec (code c) = true ->
  bad_version (bs "HTTP/1." ++ [c]) = false /\ char_at (bs "HTTP/1." ++ [c]) 5 = "1"%char /\
  char_at (bs "HTTP/1." ++ [c]) 7 = c.
Proof.
  intros Hc. split_and!; [|done|done]. apply dec_facts in Hc.
  apply andb_true_iff in Hc as [Hc _]. apply andb_true_iff in Hc as [H1 H2]. apply negb_true_iff in H2.
  unfold bad_version. change (char_at (bs "HTTP/1." ++ [c]) 7) with c. rewrite H1, H2. by vm_compute.
Qed.

Lemma request_line_value r : request_line_ok r ->
  all_chars (request_line_body r) value_char = true /\ request_line_body r <> [].
Proof.
  intros (Hm & Hmt & Ht & Htt & Hd & _). split; [|unfold request_line_body; by destruct (r_method r)].
  apply dec_facts in Hd. apply andb_true_iff in Hd as [_ Hd]. unfold request_line_body.
  rewrite all_chars_app, (class_weaken _ _ value_char Hmt token_is_value).
  rewrite all_chars_cons, all_chars_app, (class_weaken _ _ value_char Htt target_is_value).
  rewrite all_chars_cons, all_chars_app, (all_chars_cons (r_minor r)), Hd. by vm_compute.
Qed.

Lemma parse_request_line_ok r s :
  request_line_ok r ->
  parse_request_line (request_line_body r) s =
  (Ok tt, mk_pstate (with_http11 (http11_of r) (ps_parser s))
            (set_url (set_method (ps_req s) (r_method r)) (r_target r)) (ps_env s)).
Proof.
  intros (Hm & Hmt & Ht & Htt & Hd & _). unfold parse_request_line.
  set (tail := r_target r ++ SP :: bs "HTTP/1." ++ [r_minor r]).
  change (request_line_body r) with (r_method r ++ SP :: tail).
  assert (find_char SP (r_method r ++ SP :: tail) = Some (length (r_method r))) as ->.
  { apply find_char_first, (class_avoids _ token_char); [done|by vm_compute]. }
  assert (drop (length (r_method r) + 1) (r_method r ++ SP :: tail) = tail) as Htail.
  { by rewrite <- drop_drop, drop_app_length. }
  assert (find_from SP (r_method r ++ SP :: tail) (length (r_method r) + 1)
    = Some (length (r_method r) + 1 + length (r_target r))%nat) as ->.
  { unfold find_from. rewrite Htail. unfold tail. rewrite find_char_first; [done|].
    apply (class_avoids _ TargetChar); [done|by vm_compute]. }
  destruct (length (r_method r)) as [|k] eqn:Hk; [by destruct (r_method r)|]. rewrite <- Hk in *.
  rewrite decide_False by (destruct (r_target r); [done|cbn; lia]).
  assert (substr (r_method r ++ SP :: tail) 0 (length (r_method r)) = r_method r) as ->
    by (unfold substr; by rewrite drop_0, take_app_length).
  replace (length (r_method r) + 1 + length (r_target r) - length (r_method r) - 1)%nat
    with (length (r_target r)) by lia.
  assert (substr (r_method r ++ SP :: tail) (length (r_method r) + 1) (length (r_target r)) = r_target r) as ->
    by (unfold substr; rewrite Htail; unfold tail; by rewrite take_app_length).
  assert (drop (length (r_method r) + 1 + length (r_target r) + 1) (r_method r ++ SP :: tail)
    = bs "HTTP/1." ++ [r_minor r]) as ->.
  { rewrite <- Nat.add_assoc, <- drop_drop, Htail. unfold tail. by rewrite <- drop_drop, drop_app_length. }
  destruct (version_ok (r_minor r) Hd) as (Hv & H5 & H7). rewrite Hmt, Htt, Hv, H5, H7. done.
Qed.

(** ** The header lines *)

Lemma apply_header_head h s : head_of (apply_header h s) = head_of s.
Proof.
  unfold head_of, apply_header, special. cbn [ps_parser]. repeat case_decide; try done.
  by rewrite connection_options_head.
Qed.

Lemma apply_header_seen n h s : apply_header h (set_seen n s) = set_seen n (apply_header h s).
Proof.
  unfold apply_header, special, set_seen. cbn [ps_parser ps_req ps_env]. f_equal.
  repeat case_decide; try done. by rewrite <- connection_options_seen.
Qed.

Lemma headers_loop_front fuel h rest s :
  header_ok h -> admits h (ps_parser s) -> 0 <= m_headers (ps_parser s) < 100 ->
  head_of s = head_headers -> 0 <= seen s -> seen s + len (header_text h) <= max_head_size ->
  seen s + len (header_text h ++ rest) < 2 ^ 64 ->
  headers_loop (S fuel) (header_text h ++ rest) 0 s =
  let '(o, s') := headers_loop fuel rest 0 (set_seen (seen s + len (header_text h)) (apply_header h s)) in
  (Nat.add (length (header_text h)) <$> o, set_seen (seen s) s').
Proof.
  intros Hok Hadm Hcount Hh H0 Hmax H64. rewrite headers_loop_S by done.
  pose proof (header_body_value h Hok) as [Hval Hne].
  assert (next_line (header_text h ++ rest) 0 = Some (mk_line (header_body h) (length (header_text h)))) as ->.
  { unfold header_text. rewrite <- app_assoc. apply next_line_eol; [done|apply Hok]. }
  cbn [text next]. rewrite u64_small by (unfold max_head_size in *; lia).
  destruct (Z.ltb_spec max_head_size (seen s + len (header_text h))); [lia|].
  rewrite decide_False by done. rewrite parse_header_field_ok by done.
  assert (Hs : seen (apply_header h s) = seen s).
  { rewrite <- (set_seen_seen s) at 1. by rewrite apply_header_seen. }
  pose proof (headers_loop_shift fuel (header_text h ++ rest) (length (header_text h)) 0 (apply_header h s)
    ltac:(rewrite length_app; lia) ltac:(lia) ltac:(lia)) as Hsh.
  rewrite Nat.add_0_r, Hs, drop_app_length in Hsh. exact Hsh.
Qed.

Definition apply_headers (hs : list header) s : pstate B := fold_left (fun s h => apply_header h s) hs s.

(** Every field may come where it comes. *)
Fixpoint all_admitted (hs : list header) s : Prop :=
  match hs with
  | [] => True
  | h :: hs' => admits h (ps_parser s) /\ all_admitted hs' (apply_header h s)
  end.

Lemma apply_headers_seen n hs s : apply_headers hs (set_seen n s) = set_seen n (apply_headers hs s).
Proof.
  revert s. induction hs as [|h hs IH]; intros s; cbn; [done|].
  by rewrite apply_header_seen, IH.
Qed.

Lemma admits_seen n h s : admits h (ps_parser (set_seen n s)) <-> admits h (ps_parser s).
Proof. done. Qed.

Lemma all_admitted_seen n hs s : all_admitted hs (set_seen n s) <-> all_admitted hs s.
Proof.
  revert s. induction hs as [|h hs IH]; intros s; cbn; [done|]. by rewrite apply_header_seen, IH.
Qed.

Lemma apply_header_count h s : m_headers (ps_parser (apply_header h s)) = m_headers (ps_parser s) + 1.
Proof.
  unfold apply_header, special. cbn [ps_parser]. repeat case_decide; try done.
  enough (forall os p, m_headers (fold_left connection_option os p) = m_headers p) as -> by done.
  induction os as [|o os IH]; intros p; cbn; [done|]. rewrite IH. unfold connection_option.
  by repeat case_match.
Qed.

Definition finish_head (n : nat) : M (pstate B) exn nat :=
  finalize_head;; on_parser (with_head head_done);; mret n.

Lemma finish_head_blind n : blind (finish_head n).
Proof. unfold finish_head. walk. apply finalize_head_blind. Qed.

Lemma apply_headers_keep_seen hs s : seen (apply_headers hs s) = seen s.
Proof. rewrite <- (set_seen_seen s) at 1. by rewrite apply_headers_seen. Qed.

Lemma headers_loop_reads fuel hs eol rest s s' (n : nat) :
  Forall header_ok hs -> all_admitted hs s -> line_end eol ->
  0 <= m_headers (ps_parser s) -> m_headers (ps_parser s) + Z.of_nat (length hs) <= 100 ->
  head_of s = head_headers -> 0 <= seen s ->
  let text := concat (header_text <$> hs) ++ eol in
  seen s + len text <= max_head_size -> seen s + len (text ++ rest) < 2 ^ 64 ->
  (length hs < fuel)%nat ->
  finish_head n (apply_headers hs s) = (Ok n, s') ->
  headers_loop fuel (text ++ rest) 0 s = (Ok (length text), s').
Proof.
  intros Hall. revert fuel s s' n. induction Hall as [|h hs Hh _ IH]; intros fuel s s' n Hadm Heol Hc0 Hc Hhd H0.
  - cbn zeta. cbn [concat fmap list_fmap app]. intros Hmax H64 Hf Hfin. destruct fuel as [|fuel]; [cbn in Hf; lia|].
    rewrite headers_loop_S by done.
    rewrite (next_line_eol [] eol rest eq_refl Heol : next_line (eol ++ rest) 0 = _).
    cbn [text next app]. rewrite u64_small by (unfold max_head_size in *; lia).
    destruct (Z.ltb_spec max_head_size (seen s + len eol)); [lia|]. rewrite decide_True by done.
    revert Hfin. cbn [apply_headers fold_left]. clear.
    unfold finish_head, finalize_head, mbind, M_bind, gets, fail_if, throw_if, on_req, on_parser, modify.
    destruct (_ && _); [done|]. destruct (m_chunked (ps_parser s)); [|destruct (negb _)];
      cbn; by intros [= <-].
  - cbn zeta. intros Hmax H64 Hf Hfin. destruct Hadm as [Ha Hadm].
    destruct fuel as [|fuel]; [cbn in Hf; lia|]. cbn [fmap list_fmap concat] in *.
    rewrite <- !app_assoc. rewrite <- app_assoc in Hmax. rewrite <- !app_assoc in H64. set (text' := concat (header_text <$> hs) ++ eol ++ rest) in *.
    assert (Hlen : len (concat (header_text <$> hs) ++ eol) = len text' - len rest)
      by (unfold text'; rewrite !length_app; lia).
    rewrite !length_app in Hmax. rewrite length_app in H64. cbn [length] in Hc, Hf.
    rewrite headers_loop_front; [|done|done|lia|done|done|lia|rewrite length_app; lia].
    set (s1 := set_seen _ (apply_header h s)).
    assert (Hs : seen s1 = seen s + len (header_text h)) by done.
    pose proof (apply_header_count h s) as Hcnt.
    specialize (IH fuel s1 (set_seen (seen s1) s') n). cbn zeta in IH.
    rewrite <- app_assoc in IH. fold text' in IH. rewrite IH.
    + cbn. f_equal; [f_equal; rewrite !length_app; lia|]. apply set_seen_back.
      pose proof (blind_keeps _ (apply_headers (h :: hs) s) (finish_head_blind n)) as Hk.
      rewrite Hfin, apply_headers_keep_seen in Hk. exact Hk.
    + by apply all_admitted_seen.
    + done.
    + change (m_headers (ps_parser s1)) with (m_headers (ps_parser (apply_header h s))). lia.
    + change (m_headers (ps_parser s1)) with (m_headers (ps_parser (apply_header h s))). lia.
    + change (head_of s1) with (head_of (apply_header h s)). by rewrite apply_header_head.
    + lia.
    + rewrite Hs, Hlen. unfold text'. rewrite !length_app. lia.
    + lia.
    + lia.
    + unfold s1. rewrite apply_headers_seen, finish_head_blind.
      change (apply_headers hs (apply_header h s)) with (apply_headers (h :: hs) s). by rewrite Hfin.
Qed.

(** ** What the fields leave behind *)

Lemma connection_options_say os p :
  let p' := fold_left connection_option os p in
  m_close p' = m_close p || existsb says_close os /\
  m_keep_alive p' = m_keep_alive p || existsb says_keep_alive os /\
  m_http11 p' = m_http11 p /\ m_has_content_length p' = m_has_content_length p /\
  m_parsed_length p' = m_parsed_length p /\ m_chunked p' = m_chunked p.
Proof.
  cbn zeta. revert p. induction os as [|o os IH]; intros p; cbn [fold_left existsb].
  - by rewrite !orb_false_r.
  - destruct (IH (connection_option p o)) as (-> & -> & -> & -> & -> & ->).
    unfold connection_option, says_keep_alive, says_close.
    destruct (iequals o (bs "close")); [cbn; by rewrite !orb_true_r|].
    destruct (iequals o (bs "keep-alive")); cbn; by rewrite ?orb_true_r.
Qed.

(** What all fields do. *)
Lemma apply_header_common h s :
  let s' := apply_header h s in
  m_close (ps_parser s') = m_close (ps_parser s) || has_option says_close [h] /\
  m_keep_alive (ps_parser s') = m_keep_alive (ps_parser s) || has_option says_keep_alive [h] /\
  m_http11 (ps_parser s') = m_http11 (ps_parser s) /\
  m_method (ps_req s') = m_method (ps_req s) /\ m_url (ps_req s') = m_url (ps_req s) /\
  q_fields (ps_req s') = store_field (key_of h) (h_value h) (q_fields (ps_req s)).
Proof.
  cbn zeta. unfold apply_header, special, has_option. cbn [ps_parser ps_req existsb].
  destruct (decide (key_of h = bs "Content-Length")) as [Hk|_].
  { rewrite Hk. cbn [m_close m_keep_alive m_http11 with_content_length with_headers].
    by rewrite bool_decide_eq_false_2, !orb_false_r. }
  destruct (decide (key_of h = bs "Transfer-Encoding")) as [Hk|_].
  { rewrite Hk. cbn [m_close m_keep_alive m_http11 with_chunked with_headers].
    by rewrite bool_decide_eq_false_2, !orb_false_r. }
  destruct (decide (key_of h = bs "Connection")) as [Hk|Hk].
  - destruct (connection_options_say (for_each_token (h_value h))
      (with_headers (m_headers (ps_parser s) + 1) (ps_parser s))) as (-> & -> & -> & _).
    rewrite bool_decide_eq_true_2 by done. cbn [andb]. by rewrite !orb_false_r.
  - rewrite bool_decide_eq_false_2 by done. by rewrite !orb_false_r.
Qed.

Lemma has_option_cons is_it h hs : has_option is_it (h :: hs) = has_option is_it [h] || has_option is_it hs.
Proof. unfold has_option. cbn. by rewrite orb_false_r. Qed.

Lemma apply_headers_common hs s :
  let s' := apply_headers hs s in
  m_close (ps_parser s') = m_close (ps_parser s) || has_option says_close hs /\
  m_keep_alive (ps_parser s') = m_keep_alive (ps_parser s) || has_option says_keep_alive hs /\
  m_http11 (ps_parser s') = m_http11 (ps_parser s) /\
  m_method (ps_req s') = m_method (ps_req s) /\ m_url (ps_req s') = m_url (ps_req s) /\
  q_fields (ps_req s') = fold_left (fun f h => store_field (key_of h) (h_value h) f) hs (q_fields (ps_req s)).
Proof.
  cbn zeta. revert s. induction hs as [|h hs IH]; intros s.
  - cbn. by rewrite !orb_false_r.
  - change (apply_headers (h :: hs) s) with (apply_headers hs (apply_header h s)). cbn [fold_left].
    destruct (IH (apply_header h s)) as (-> & -> & -> & -> & -> & ->).
    destruct (apply_header_common h s) as (-> & -> & -> & -> & -> & ->).
    by rewrite <- !orb_assoc, <- !has_option_cons.
Qed.

Definition framing_flags (p : parser) : bool * Z * bool := (m_has_content_length p, m_parsed_length p, m_chunked p).

Lemma plain_flags h s : plain h -> framing_flags (ps_parser (apply_header h s)) = framing_flags (ps_parser s).
Proof.
  intros [H1 H2]. unfold apply_header, special, framing_flags. cbn [ps_parser].
  rewrite !decide_False by done. case_decide; [|done].
  destruct (connection_options_say (for_each_token (h_value h))
    (with_headers (m_headers (ps_parser s) + 1) (ps_parser s))) as (_ & _ & _ & -> & -> & ->). done.
Qed.

Lemma plain_admitted hs s : Forall plain hs ->
  all_admitted hs s /\ framing_flags (ps_parser (apply_headers hs s)) = framing_flags (ps_parser s).
Proof.
  intros Hall. revert s. induction Hall as [|h hs Hh _ IH]; intros s; cbn; [done|].
  destruct (IH (apply_header h s)) as [Ha Hf]. rewrite (plain_flags h s Hh) in Hf.
  destruct Hh as [H1 H2]. split; [|done]. by split.
Qed.

Definition flags_of (f : framing) : bool * Z * bool :=
  match f with
  | frame_none => (false, 0, false)
  | frame_length n => (true, n, false)
  | frame_chunked => (false, 0, true)
  end.

Lemma frames_admitted f hs s :
  frames f hs -> framing_flags (ps_parser s) = flags_of frame_none ->
  all_admitted hs s /\ framing_flags (ps_parser (apply_headers hs s)) = flags_of f.
Proof.
  intros Hf Hs. injection Hs as H1 H2 H3. destruct f as [|n|]; cbn [frames] in Hf.
  - subst. unfold framing_flags. cbn. by rewrite H1, H2, H3.
  - destruct Hf as (h & -> & Hk & Hv & Hlt). cbn [all_admitted apply_headers fold_left]. split.
    + split; [|done]. split; [intros _; split; [done|]; by exists n|]. rewrite Hk. done.
    + unfold apply_header, special, framing_flags. cbn [ps_parser]. rewrite decide_True by done.
      rewrite Hv. cbn. by rewrite H3.
  - destruct Hf as (h & t & -> & Hk & Ht & Hi). cbn [all_admitted apply_headers fold_left]. split.
    + split; [|done]. split; [rewrite Hk; done|]. intros _. split; [done|]. by exists t.
    + unfold apply_header, special, framing_flags. cbn [ps_parser].
      rewrite decide_False, decide_True by (rewrite ?Hk; done). cbn. by rewrite H1, H2.
Qed.

Lemma all_admitted_app hs1 hs2 s :
  all_admitted hs1 s -> all_admitted hs2 (apply_headers hs1 s) -> all_admitted (hs1 ++ hs2) s.
Proof.
  revert s. induction hs1 as [|h hs1 IH]; intros s; cbn; [done|]. intros [Ha H1] H2. split; [done|].
  by apply IH.
Qed.

Lemma message_admitted pre fr post f s :
  Forall plain pre -> frames f fr -> Forall plain post -> framing_flags (ps_parser s) = flags_of frame_none ->
  all_admitted (pre ++ fr ++ post) s /\
  framing_flags (ps_parser (apply_headers (pre ++ fr ++ post) s)) = flags_of f.
Proof.
  intros Hpre Hfr Hpost Hs. unfold apply_headers. rewrite !fold_left_app.
  destruct (plain_admitted pre s Hpre) as [A1 F1]. rewrite Hs in F1.
  destruct (frames_admitted f fr _ Hfr F1) as [A2 F2].
  destruct (plain_admitted post (apply_headers fr (apply_headers pre s)) Hpost) as [A3 F3].
  rewrite F2 in F3. split; [|exact F3].
  apply all_admitted_app; [done|]. by apply all_admitted_app.
Qed.

(** ** The whole head *)

Lemma next_line_behind before txt eol rest :
  all_chars txt value_char = true -> line_end eol ->
  next_line (before ++ txt ++ eol ++ rest) (length before)
  = Some (mk_line txt (length (before ++ txt ++ eol))).
Proof.
  intros Ht Heol. rewrite <- (Nat.add_0_r (length before)) at 1.
  rewrite next_line_shift, drop_app_length, next_line_eol by done. cbn. unfold shift_line. cbn.
  by rewrite (length_app before).
Qed.

Lemma skip_reads fuel before empties txt eol rest s :
  Forall line_end empties -> all_chars txt value_char = true -> txt <> [] -> line_end eol ->
  (length empties < fuel)%nat ->
  skip_empty_lines fuel (before ++ concat empties ++ txt ++ eol ++ rest) (length before) s =
  (Ok (inr (mk_line txt (length (before ++ concat empties ++ txt ++ eol)))), s).
Proof.
  intros Hall Ht Hne Heol. revert fuel before. induction Hall as [|e empties He _ IH]; intros fuel before Hf;
    (destruct fuel as [|fuel]; [cbn in Hf; lia|]); cbn [concat app] in *; rewrite skip_S.
  - rewrite next_line_behind by done. cbn [text]. by rewrite decide_False.
  - rewrite <- !app_assoc. rewrite (next_line_behind before [] e (concat empties ++ txt ++ eol ++ rest) eq_refl He
      : next_line (before ++ e ++ _) _ = _). cbn [text next app].
    rewrite decide_True by done. rewrite !(app_assoc before e). apply IH. cbn in Hf. lia.
Qed.

(** The end of the head, for each framing. *)
Definition framed_as (f : framing) s : Prop :=
  match f with
  | frame_none => framing_of s = body_none /\ req_state s = completed
  | frame_length n =>
      if n =? 0 then framing_of s = body_none /\ req_state s = completed
      else framing_of s = body_content_length /\ remaining s = n /\ req_state s = headers_completed
  | frame_chunked => framing_of s = body_chunked /\ req_state s = headers_completed
  end.

Lemma finish_head_ok f n s :
  framing_flags (ps_parser s) = flags_of f ->
  exists s', finish_head n s = (Ok n, s') /\ head_of s' = head_done /\ framed_as f s' /\
    m_method (ps_req s') = m_method (ps_req s) /\ m_url (ps_req s') = m_url (ps_req s) /\
    q_fields (ps_req s') = q_fields (ps_req s) /\
    m_req_keep_alive (ps_req s') =
      (if m_http11 (ps_parser s) then negb (m_close (ps_parser s))
       else m_keep_alive (ps_parser s) && negb (m_close (ps_parser s))).
Proof.
  unfold framing_flags, finish_head, finalize_head, mbind, M_bind, gets, fail_if, throw_if, on_req, on_parser, modify.
  destruct f as [|m|]; cbn [flags_of]; intros [= H1 H2 H3]; rewrite H1, H2, H3; cbn [andb negb Z.eqb].
  - eexists. split; [reflexivity|]. done.
  - cbn [framed_as]. destruct (m =? 0) eqn:Hm; cbn [negb]; (eexists; split; [reflexivity|]); done.
  - eexists. split; [reflexivity|]. done.
Qed.

(** From the first header line on, wherever it begins. *)
Lemma parse_headers_reads before hs eol rest f s :
  Forall header_ok hs -> all_admitted hs s -> line_end eol ->
  framing_flags (ps_parser (apply_headers hs s)) = flags_of f ->
  m_headers (ps_parser s) = 0 -> (length hs <= 100)%nat -> head_of s = head_headers -> seen s = 0 ->
  let fields1 := concat (header_text <$> hs) ++ eol in
  len (before ++ fields1) <= max_head_size -> len (before ++ fields1 ++ rest) < 2 ^ 64 ->
  exists s2 n, parse_headers (before ++ fields1 ++ rest) (length before) s
      = (Ok (length (before ++ fields1)), set_seen n s2) /\
    finish_head 0 (apply_headers hs s) = (Ok 0%nat, s2).
Proof.
  intros Hhs Hadm Heol Hflags Hc0 Hcount Hh Hseen fields1 Hmax H64.
  destruct (finish_head_ok f 0%nat (apply_headers hs s) Hflags) as (s2 & Hfin & _).
  rewrite parse_headers_eq. set (data := before ++ fields1 ++ rest) in *.
  replace (headers_loop (S (length data)) data (length before) s)
    with (headers_loop (S (length data)) data (length before + 0) s) by (by rewrite Nat.add_0_r).
  rewrite headers_loop_shift; [|unfold data; rewrite length_app; lia|lia|lia].
  rewrite Hseen, Z.add_0_l. unfold data at 2. rewrite drop_app_length.
  rewrite !length_app in Hmax. unfold data in H64. rewrite length_app in H64.
  assert (Hlen : (length hs <= length (concat (header_text <$> hs)))%nat).
  { clear -Hhs. induction Hhs as [|h hs Hh _ IH]; [done|]. rewrite fmap_cons. cbn [concat].
    destruct (header_body_value h Hh) as [_ Hne]. unfold header_text at 1. rewrite !length_app.
    destruct (header_body h); [done|]. cbn [length]. lia. }
  pose proof (headers_loop_reads (S (length data)) hs eol rest (set_seen (len before) s)
    (set_seen (len before) s2) 0 Hhs) as Hl. cbn zeta in Hl. fold fields1 in Hl.
  rewrite Hl; clear Hl.
  - exists s2. eexists. split; [|exact Hfin]. cbn [fmap outcome_fmap]. by rewrite length_app.
  - by apply all_admitted_seen.
  - done.
  - change (0 <= m_headers (ps_parser s)). lia.
  - change (m_headers (ps_parser s) + Z.of_nat (length hs) <= 100). lia.
  - done.
  - change (0 <= len before). lia.
  - change (len before + len fields1 <= max_head_size). lia.
  - change (len before + len (fields1 ++ rest) < 2 ^ 64). lia.
  - unfold data. rewrite !length_app. unfold fields1. rewrite length_app. lia.
  - rewrite apply_headers_seen, finish_head_blind, Hfin. done.
Qed.

Lemma first_line_found empties r rest s :
  Forall line_end empties -> request_line_ok r ->
  let line1 := concat empties ++ request_line_body r ++ r_eol r in
  skip_empty_lines (S (length (line1 ++ rest))) (line1 ++ rest) 0 s
  = (Ok (inr (mk_line (request_line_body r) (length line1))), s).
Proof.
  intros Hemp Hr line1. pose proof (request_line_value r Hr) as [Hval Hne].
  pose proof Hr as (_ & _ & _ & _ & _ & Hreol).
  pose proof (skip_reads (S (length (line1 ++ rest))) [] empties (request_line_body r) (r_eol r)
    rest s Hemp Hval Hne Hreol) as Hs. cbn [app length] in Hs.
  unfold line1 in *. rewrite <- !app_assoc in *. apply Hs. rewrite length_app.
  enough (length empties <= length (concat empties))%nat by lia.
  clear -Hemp. induction Hemp as [|e es He _ IH]; [done|]. cbn. rewrite length_app.
  apply line_end_cons in He. destruct e; [done|cbn; lia].
Qed.

(** C6: parse_head reads back every request head that repeats no header name, in
    whatever case, has at most 100 fields and one framing at most and is
    within max_head_size, printed with any blanks around its values, any
    line ends and leading empty lines: method, target, keep alive and
    framing are those of the head, a field is found under a name exactly
    when that is the canonical spelling of the name of a header, with the
    value of that header, and exactly the bytes of the head are consumed. *)
Theorem parse_head_reads_request (empties : list bytes) (r : request_line)
    (pre fr post : list header) (f : framing) (eol rest : bytes) (p : parser) (env : B) :
  let hs := pre ++ fr ++ post in
  let text := head_text empties r hs eol in
  Forall line_end empties -> request_line_ok r -> Forall header_ok hs -> line_end eol ->
  Forall plain pre -> frames f fr -> Forall plain post -> distinct hs ->
  (length hs <= 100)%nat -> len text <= max_head_size -> len (text ++ rest) < 2 ^ 64 ->
  exists s, parse_head (text ++ rest) (mk_pstate p new_request env) = (Ok (length text), s) /\
    head_of s = head_done /\ framed_as f s /\
    m_method (ps_req s) = r_method r /\ m_url (ps_req s) = r_target r /\
    carries hs (q_fields (ps_req s)) /\ m_req_keep_alive (ps_req s) = reusable r hs.
Proof.
  intros hs text0 Hemp Hr Hhs Heol Hpre Hfr Hpost Hdist Hcount Hmax H64.
  pose proof (request_line_value r Hr) as [Hval Hne]. pose proof Hr as (_ & _ & _ & _ & _ & Hreol).
  set (line1 := concat empties ++ request_line_body r ++ r_eol r).
  set (fields1 := concat (header_text <$> hs) ++ eol).
  assert (Htext : text0 = line1 ++ fields1).
  { unfold text0, head_text, line1, fields1. by rewrite <- !app_assoc. }
  rewrite Htext in *. clear text0 Htext. rewrite <- app_assoc in *.
  set (s0 := mk_pstate new_parser (set_state (@new_request B) processing_url) env).
  rewrite parse_head_resume. change (start (mk_pstate p new_request env)) with s0.
  change (resume (line1 ++ fields1 ++ rest) s0) with
    (match skip_empty_lines (S (length (line1 ++ fields1 ++ rest))) (line1 ++ fields1 ++ rest) 0 s0 with
     | (Ok (inl pos), s') => (Ok pos, s')
     | (Ok (inr l), s') => after_request_line (line1 ++ fields1 ++ rest) l s'
     | (Throw e, s') => (Throw e, s')
     | (Diverge, s') => (Diverge, s')
     end).
  pose proof (first_line_found empties r (fields1 ++ rest) s0 Hemp Hr) as Hfirst.
  cbn zeta in Hfirst. fold line1 in Hfirst. rewrite Hfirst.
  rewrite after_request_line_eq. cbn [text next]. rewrite parse_request_line_ok by done.
  change (seen s0) with 0. fold line1. rewrite !length_app in Hmax. rewrite !length_app in H64.
  rewrite u64_small by (unfold max_head_size in *; lia).
  destruct (Z.ltb_spec max_head_size (0 + len line1)); [lia|].
  set (s1 := mk_pstate _ _ _).
  destruct (message_admitted pre fr post f s1 Hpre Hfr Hpost eq_refl) as [Hadm Hflags].
  destruct (parse_headers_reads line1 hs eol rest f s1 Hhs Hadm Heol Hflags eq_refl Hcount eq_refl eq_refl)
    as (s2 & n & Hrun & Hfin); fold fields1; [rewrite !length_app; lia..|].
  destruct (finish_head_ok f 0%nat (apply_headers hs s1) Hflags)
    as (s2' & Hfin' & Hdone & Hframed & Hm & Hu & Hq & Hka).
  rewrite Hfin in Hfin'. injection Hfin' as <-.
  destruct (apply_headers_common hs s1) as (Hc & Hk & H11 & Hm1 & Hu1 & Hq1).
  exists (set_seen n s2). split; [exact Hrun|]. split_and!; [done|done|..].
  { by etrans; [exact Hm|]. }
  { by etrans; [exact Hu|]. }
  { change (carries hs (q_fields (ps_req s2))). rewrite Hq, Hq1. by apply stored_carries. }
  change (m_req_keep_alive (ps_req s2) = reusable r hs). rewrite Hka, Hc, Hk, H11.
  cbn [s1 ps_parser m_http11 m_close m_keep_alive with_head with_http11 new_parser s0 orb].
  unfold reusable, http11_of. destruct (bool_decide _); cbn; [by rewrite andb_comm|by rewrite andb_true_r].
Qed.
End head_wire.

(** Two empty lines, then a HTTP/1.0 upload with blanks around its values and
    mixed line ends, and the first bytes of its body. *)
Definition sample_line : request_line := mk_request_line (bs "POST") (bs "/up?x=1") "0"%char [CR; LF].
Definition sample_pre : list header :=
  [mk_header (bs "host") [SP] (bs "a b") [SP; HTAB] [LF];
   mk_header (bs "CONNECTION") [] (bs "x, Keep-Alive") [] [CR; LF]].
Definition sample_length : list header := [mk_header (bs "content-length") [SP; SP] (bs "05") [] [CR; LF]].
Definition sample_head : bytes := head_text [[CR; LF]; [LF]] sample_line (sample_pre ++ sample_length ++ []) [CR; LF].

Lemma trimmed_ends c v d : is_ows c = false -> is_ows d = false -> trimmed (c :: v ++ [d]).
Proof. intros Hc Hd. right. split; [by exists c, (v ++ [d])|by exists d, (c :: v)]. Qed.

Lemma sample_ok : Forall header_ok (sample_pre ++ sample_length ++ []).
Proof.
  cbn [sample_pre sample_length app].
  repeat apply Forall_cons_2; [..|apply Forall_nil_2].
  all: split_and!; [discriminate|vm_compute; reflexivity..| |by (left + right)].
  - by apply (trimmed_ends "a" [SP] "b").
  - by apply (trimmed_ends "x" (bs ", Keep-Aliv") "e").
  - by apply (trimmed_ends "0" [] "5").
Qed.

Lemma parse_head_reads_request_witness :
  exists s, parse_head (sample_head ++ bs "hello") (mk_pstate new_parser new_request tt)
      = (Ok (length sample_head), s) /\
    head_of s = head_done /\ framed_as (frame_length 5) s /\
    m_method (ps_req s) = bs "POST" /\ m_url (ps_req s) = bs "/up?x=1" /\
    fields_find (q_fields (ps_req s)) (bs "Host") = Some (bs "a b") /\
    fields_find (q_fields (ps_req s)) (bs "Accept") = None /\
    m_req_keep_alive (ps_req s) = true.
Proof.
  assert (Hk : reusable sample_line (sample_pre ++ sample_length ++ []) = true) by (vm_compute; reflexivity).
  destruct (parse_head_reads_request [[CR; LF]; [LF]] sample_line sample_pre sample_length []
    (frame_length 5) [CR; LF] (bs "hello") new_parser tt) as (s & H1 & H2 & H3 & H4 & H5 & Hf & H6).
  - apply Forall_cons_2; [by left|]. apply Forall_cons_2; [by right|]. apply Forall_nil_2.
  - split_and!; [discriminate|vm_compute; reflexivity|discriminate|vm_compute; reflexivity..|by left].
  - apply sample_ok.
  - by left.
  - repeat apply Forall_cons_2; try apply Forall_nil_2; split; discriminate.
  - eexists. split; [reflexivity|]. vm_compute. split_and!; reflexivity.
  - apply Forall_nil_2.
  - apply (bool_decide_eq_true_1 (NoDup (fmap small ∘ h_name <$> sample_pre ++ sample_length ++ []))). vm_compute. reflexivity.
  - cbn. lia.
  - vm_compute. discriminate.
  - vm_compute. reflexivity.
  - exists s. split_and!; [exact H1|exact H2|exact H3|exact H4|exact H5| | |rewrite H6; exact Hk].
    + apply Hf. exists (mk_header (bs "host") [SP] (bs "a b") [SP; HTAB] [LF]).
      split; [left|]. split; [|reflexivity]. apply canonical_spelled. reflexivity.
    + destruct (fields_find (q_fields (ps_req s)) (bs "Accept")) as [v|] eqn:Hv; [|reflexivity]. apply Hf in Hv as (h & Hin & Hs & _).
      apply canonical_spelled in Hs. unfold sample_pre, sample_length in Hin. cbn [app] in Hin. rewrite !elem_of_cons in Hin.
      destruct Hin as [->|[->|[->|Hin]]]; [vm_compute in Hs; discriminate Hs..|]. exfalso. exact (not_elem_of_nil _ Hin).
Defined.

(** A repeated header: the values are joined, where http.h says that the last one
    is kept. *)
Theorem repeated_header_is_joined :
  let text := bs "GET / HTTP/1.1" ++ crlf_string ++ bs "X: 1" ++ crlf_string ++ bs "x: 2" ++ crlf_string ++ crlf_string in
  fields_find (q_fields (ps_req (parse_head text (mk_pstate new_parser new_request tt)).2)) (bs "X") = Some (bs "1, 2").
Proof. vm_compute. reflexivity. Qed.
