(* ===== verification/Unobserved.v ===== *)
(** * The variables of a session are not the parser's business

    A request without a body callback is parsed the same way whatever the
    variables of the session are, and parsing leaves them alone; so the answer to
    it is that of the handler, and the bytes it takes are those of the request. *)

From S2P Require Import Prelude Utils Charconv Http HttpParser HeadProofs.

Section unobserved.
Context {B : Type}.
Abbreviation PM := (M (pstate B) exn).
Implicit Types (s : pstate B) (e : B).

Definition swap_env e s : pstate B := mk_pstate (ps_parser s) (ps_req s) e.

(** [m] neither looks at the variables nor changes them. *)
Definition unobserved {A} (m : PM A) : Prop :=
  forall s, m_callback (ps_req s) = None ->
    m_callback (ps_req (m s).2) = None /\ ps_env (m s).2 = ps_env s /\
    forall e, m (swap_env e s) = ((m s).1, swap_env e (m s).2).

Lemma unobserved_ret {A} (a : A) : unobserved (mret a).
Proof. done. Qed.
Lemma unobserved_fail {A} st r : unobserved (A:=A) (fail st r).
Proof. done. Qed.
Lemma unobserved_fail_if b st r : unobserved (fail_if b st r).
Proof. by destruct b. Qed.
Lemma unobserved_on_parser f : unobserved (on_parser f).
Proof. done. Qed.
Lemma unobserved_on_req f : (forall q, m_callback (f q) = m_callback q) -> unobserved (on_req f).
Proof. intros Hf s Hs. split_and!; [|done|done]. cbn. by rewrite Hf. Qed.
Lemma unobserved_bind {A C} (m : PM A) (k : A -> PM C) :
  unobserved m -> (forall a, unobserved (k a)) -> unobserved (m ≫= k).
Proof.
  intros Hm Hk s Hs. destruct (Hm s Hs) as (H1 & H2 & H3). unfold mbind, M_bind.
  destruct (m s) as [[a|x|] s1]; cbn [fst snd] in *.
  - destruct (Hk a s1 H1) as (H4 & H5 & H6). split_and!; [done|congruence|]. intros e. by rewrite H3, H6.
  - split_and!; [done|done|]. intros e. by rewrite H3.
  - split_and!; [done|done|]. intros e. by rewrite H3.
Qed.
(** What is read of the state is not the variables. *)
Lemma unobserved_gets {A Y} (g : pstate B -> Y) (k : Y -> PM A) :
  (forall s e, g (swap_env e s) = g s) -> (forall y, unobserved (k y)) -> unobserved (gets g ≫= k).
Proof.
  intros Hg Hk s Hs. destruct (Hk (g s) s Hs) as (H1 & H2 & H3). split_and!; [done|done|]. intros e.
  unfold mbind, M_bind, gets. cbn. by rewrite Hg, H3.
Qed.
Lemma unobserved_get {A} (k : pstate B -> PM A) :
  (forall s e, k (swap_env e s) = k s) ->
  (forall s, m_callback (ps_req s) = None -> unobserved (k s)) -> unobserved (get ≫= k).
Proof.
  intros Hg Hk s Hs. destruct (Hk s Hs s Hs) as (H1 & H2 & H3). split_and!; [done|done|]. intros e.
  unfold mbind, M_bind, get. cbn. by rewrite Hg, H3.
Qed.

Create HintDb unobserved.
#[local] Hint Resolve unobserved_ret unobserved_fail unobserved_fail_if unobserved_on_parser : unobserved.
Ltac unseen :=
  repeat (intros;
    match goal with
    | |- unobserved (gets _ ≫= _) => apply unobserved_gets; [done|]
    | |- unobserved (get ≫= _) => apply unobserved_get; [done|]
    | |- unobserved (mbind _ _) => apply unobserved_bind
    | |- unobserved (on_req _) => apply unobserved_on_req; done
    | |- unobserved (if ?b then _ else _) => destruct b
    | |- unobserved (match ?x with _ => _ end) => destruct x
    | |- _ => solve [auto with unobserved nocore]
    end).

(** ** The head *)

Lemma parse_request_line_unobserved l : unobserved (parse_request_line l).
Proof. unfold parse_request_line. unseen. Qed.
Lemma parse_header_field_unobserved l : unobserved (parse_header_field l).
Proof.
  unfold parse_header_field, content_length_field, transfer_encoding_field, connection_field. unseen.
Qed.
Lemma finalize_head_unobserved : unobserved finalize_head.
Proof. unfold finalize_head. unseen. Qed.
#[local] Hint Resolve parse_request_line_unobserved parse_header_field_unobserved finalize_head_unobserved : unobserved.
Lemma headers_loop_unobserved fuel data pos : unobserved (headers_loop fuel data pos).
Proof. revert pos. induction fuel as [|fuel IH]; intros pos; [done|]. cbn [headers_loop]. unseen. Qed.
Lemma skip_unobserved fuel data pos : unobserved (skip_empty_lines fuel data pos).
Proof. revert pos. induction fuel as [|fuel IH]; intros pos; [done|]. cbn [skip_empty_lines]. unseen. Qed.
#[local] Hint Resolve headers_loop_unobserved skip_unobserved : unobserved.
Lemma parse_head_unobserved data : unobserved (parse_head data).
Proof. unfold parse_head, begin_request, parse_headers. unseen. Qed.

(** ** The body *)

Lemma deliver_unobserved data : unobserved (deliver data).
Proof.
  unfold deliver. unseen. intros s' Hs'. unfold on_env, append_body. rewrite H. done.
Qed.
Lemma chunk_digits_unobserved digits size txt : unobserved (chunk_digits digits size txt).
Proof. revert digits size. induction txt as [|c txt IH]; intros digits size; cbn [chunk_digits]; unseen. Qed.
#[local] Hint Resolve deliver_unobserved chunk_digits_unobserved : unobserved.
Lemma chunked_loop_unobserved fuel data pos : unobserved (chunked_loop fuel data pos).
Proof.
  revert pos. induction fuel as [|fuel IH]; intros pos; [done|].
  cbn [chunked_loop]. unfold chunked_step, chunk_size_line. unseen.
Qed.
#[local] Hint Resolve chunked_loop_unobserved : unobserved.
Lemma parse_body_unobserved data : unobserved (parse_body data).
Proof. unfold parse_body, parse_chunked. unseen. Qed.
End unobserved.
