(* ===== verification/Stream.v ===== *)
(** * Streams: include/dracon/stream.h, and the stream operators of include/dracon/http.h

    [abstract_stream] is a class of operations on the state of a stream; what a
    client may rely on is the separate class [sends].  [chunked_stream] and
    [ostream_buffer] are layers over any stream, and their theorems are proved
    against [sends] alone: the session of [Session] implements it. *)

From S2P Require Import Prelude Utils Charconv Http HttpParser HeadProofs BodyProofs BodyContent ChunkedWire.

Local Open Scope Z_scope.

(** ** abstract_stream

    A [const_buffer] is the bytes it points at.  [read] works on the stream,
    the request it was given by reference, and what the callback of the request
    captured.  The wakeupper is the identity of the shared object. *)

Class abstract_stream (S : Type) : Type := {
  stream_read : forall B : Type, M (S * (request B * B)) exn unit;
  stream_write : bytes -> M S exn unit;
  stream_writev : list bytes -> M S exn unit;
  stream_yield : S -> option errc * S;
  stream_wakeupper : S -> Z;
  stream_keep_alive : S -> Z;
  stream_set_keep_alive : Z -> S -> S;
  stream_peer_address : S -> bytes;
  stream_is_secured_connection : S -> bool;
  stream_socket_write_size : S -> Z * S;
  stream_set_socket_write_size : Z -> M S exn unit;
  stream_socket_read_size : S -> Z * S;
  stream_set_socket_read_size : Z -> M S exn unit;
  stream_session_timeout : S -> Z;
  stream_set_session_timeout : Z -> S -> S;
}.

(** What a stream promises: a write that returns has put its bytes, and no
    others, behind what was sent before; the buffers of a vectored write have a
    total length that a [size_t] can hold. *)
Class sends (S : Type) `{abstract_stream S} : Type := {
  sent : S -> bytes;
  write_sends : forall b s s', stream_write b s = (Ok tt, s') -> sent s' = sent s ++ b;
  writev_sends : forall bufs s s', len (concat bufs) < 2 ^ 64 ->
    stream_writev bufs s = (Ok tt, s') -> sent s' = sent s ++ concat bufs;
}.

(** ** next_layer_stream: every call but the writes goes to the next layer *)

Definition next_layer_stream {S} (next : abstract_stream S)
    (write : bytes -> M S exn unit) (writev : list bytes -> M S exn unit) : abstract_stream S := {|
  stream_read := @stream_read S next;
  stream_write := write;
  stream_writev := writev;
  stream_yield := @stream_yield S next;
  stream_wakeupper := @stream_wakeupper S next;
  stream_keep_alive := @stream_keep_alive S next;
  stream_set_keep_alive := @stream_set_keep_alive S next;
  stream_peer_address := @stream_peer_address S next;
  stream_is_secured_connection := @stream_is_secured_connection S next;
  stream_socket_write_size := @stream_socket_write_size S next;
  stream_set_socket_write_size := @stream_set_socket_write_size S next;
  stream_socket_read_size := @stream_socket_read_size S next;
  stream_set_socket_read_size := @stream_set_socket_read_size S next;
  stream_session_timeout := @stream_session_timeout S next;
  stream_set_session_timeout := @stream_set_session_timeout S next;
|}.

(** ** chunked_stream *)

Definition end_of_chunked_stream : bytes := bs "0" ++ crlf_string ++ crlf_string.

(** [chunk_header(buffer, size)]: at most sixteen digits, so the eighteen bytes
    given to [to_chars] are enough. *)
Definition chunk_header (size : Z) : bytes := to_chars 16 size ++ crlf_string.

(** The total length of a span of buffers, as a [size_t]. *)
Definition total_length (buffers : list bytes) : Z :=
  fold_left (fun size buffer => u64 (size + len buffer)) buffers 0.

Section chunked.
Context {S : Type} (next : abstract_stream S).

Definition chunked_write (buff : bytes) : M S exn unit :=
  if len buff =? 0 then mret tt
  else stream_writev [chunk_header (len buff); buff; crlf_string].

Definition chunked_writev (buffers : list bytes) : M S exn unit :=
  let size := total_length buffers in
  if size =? 0 then mret tt
  else stream_writev (chunk_header size :: buffers ++ [crlf_string]).

Definition chunked_stream : abstract_stream S :=
  next_layer_stream next chunked_write chunked_writev.

(** [~chunked_stream()]: the terminating chunk; an error is swallowed. *)
Definition chunked_stream_destroy : M S exn unit := fun s =>
  match stream_write end_of_chunked_stream s with
  | (Throw _, s') => (Ok tt, s')
  | w => w
  end.
End chunked.

(** ** ostream_buffer

    The members of the buffer, and the stream it refers to.  After
    [reserve_buffer()] the capacity of the string is what was reserved: a
    string that was just default constructed or swapped with an empty one has
    no larger storage of its own. *)

Record ostream_buffer (S : Type) : Type := mk_ostream_buffer {
  ob_buffer : bytes;
  ob_capacity : Z;
  ob_stream : S;
}.
Arguments mk_ostream_buffer {S} _ _ _.
Arguments ob_buffer {S} _.
Arguments ob_capacity {S} _.
Arguments ob_stream {S} _.

Section ostream_buffer.
Context {S : Type} `{abstract_stream S}.
Abbreviation OM := (M (ostream_buffer S) exn).

Definition new_ostream_buffer (s : S) : ostream_buffer S :=
  let '(size, s') := stream_socket_write_size s in
  mk_ostream_buffer [] (Z.max 4096 size) s'.

Definition on_stream {A} (m : M S exn A) : OM A := fun ob =>
  let '(o, s) := m (ob_stream ob) in (o, mk_ostream_buffer (ob_buffer ob) (ob_capacity ob) s).
Definition set_buffer (b : bytes) : OM unit :=
  modify (fun ob => mk_ostream_buffer b (ob_capacity ob) (ob_stream ob)).

(** [sync()] *)
Definition sync : OM Z :=
  buffer ← gets ob_buffer;
  (if decide (buffer = []) then mret tt
   else set_buffer [];; on_stream (stream_write buffer));;
  mret 0.

(** [overflow(c)]; [None] is [traits_type::eof()]. *)
Definition overflow (c : option ascii) : OM (option ascii) :=
  match c with
  | None => mret (Some NUL)
  | Some ch =>
      ob ← get;
      (if ob_capacity ob <=? len (ob_buffer ob) then sync;; mret tt else mret tt);;
      buffer ← gets ob_buffer;
      set_buffer (buffer ++ [ch]);;
      mret c
  end.

(** [xsputn(s, n)], on the [n] bytes at [s]; a round appends at least a byte,
    or ends the loop. *)
Fixpoint xsputn_loop (fuel : nat) (s : bytes) (n : Z) : OM Z :=
  match fuel with
  | O => diverge
  | Datatypes.S fuel' =>
      if decide (s = []) then mret n
      else
        ob ← get;
        if ob_capacity ob <? len s then
          (if decide (ob_buffer ob = []) then on_stream (stream_write s)
           else set_buffer [];; on_stream (stream_writev [ob_buffer ob; s]));;
          mret (len s)
        else
          (if ob_capacity ob <=? len (ob_buffer ob) then sync;; mret tt else mret tt);;
          ob ← get;
          let len_ := Z.min (len s) (ob_capacity ob - len (ob_buffer ob)) in
          set_buffer (ob_buffer ob ++ take (Z.to_nat len_) s);;
          xsputn_loop fuel' (drop (Z.to_nat len_) s) n
  end.

Definition xsputn (s : bytes) (n : Z) : OM Z :=
  if n <? 0 then mret n
  else xsputn_loop (length s + 1) (take (Z.to_nat n) s) n.

(** [~ostream_buffer()]: flush, and swallow the error. *)
Definition ostream_buffer_destroy : OM unit := fun ob =>
  match sync ob with
  | (Ok _, ob') => (Ok tt, ob')
  | (Throw _, ob') => (Ok tt, ob')
  | (Diverge, ob') => (Diverge, ob')
  end.
End ostream_buffer.

(** ** The operators of http.h *)

Section operators.
Context {S : Type} `{abstract_stream S}.

(** [stream << res] *)
Definition send_response (res : response) : M S exn unit :=
  (if negb (m_response_keep_alive res =? -1)
   then modify (stream_set_keep_alive (m_response_keep_alive res)) else mret tt);;
  (if negb (m_content_length res =? chunked_data)
   then modify (fun s => stream_set_session_timeout
          (Z.max (stream_session_timeout s) (10 + m_content_length res / (512 * 1024))) s)
   else mret tt);;
  ka ← gets stream_keep_alive;
  stream_write (to_string res ka).

(** Something that works on the stream alone, next to a request. *)
Definition with_request {B A} (m : M S exn A) : M (S * (request B * B)) exn A := fun x =>
  let '(o, s) := m x.1 in (o, (s, x.2)).

(** [stream >> req] *)
Definition receive_request {B} : M (S * (request B * B)) exn unit :=
  x ← get;
  let req := x.2.1 in
  (if decide (fields_find (q_fields req) (bs "Expect") = Some (bs "100-continue")) then
     if negb (content_length req =? chunked_data) && (m_max_body_size req <? content_length req)
     then throw (ExInt 417)
     else with_request (send_response (make_response 100 [] []))
   else mret tt);;
  stream_read B.
End operators.

(** ** Writing a chunked body *)

(** A write of a session that produces a body. *)
Inductive write_op : Type := op_write (b : bytes) | op_writev (buffers : list bytes).

Definition op_payload (op : write_op) : bytes :=
  match op with op_write b => b | op_writev buffers => concat buffers end.

Definition run_op {S} (stream : abstract_stream S) (op : write_op) : M S exn unit :=
  match op with
  | op_write b => stream_write b
  | op_writev buffers => stream_writev buffers
  end.

Fixpoint run_ops {S} (stream : abstract_stream S) (ops : list write_op) : M S exn unit :=
  match ops with
  | [] => mret tt
  | op :: ops' => run_op stream op;; run_ops stream ops'
  end.

Lemma hex_digit_char d :
  0 <= d < 16 -> has_class (digit_char d) hex_char = true /\ hex_value (digit_char d) = d.
Proof.
  intros Hd. assert (d ∈ seqZ 0 16) as Hin by (apply elem_of_seqZ; lia). revert d Hd Hin.
  assert (Forall (fun d => has_class (digit_char d) hex_char = true /\ hex_value (digit_char d) = d)
            (seqZ 0 16)) as H by by_compute.
  intros d _ Hin. exact (proj1 (Forall_forall _ _) H d Hin).
Qed.

Lemma chunk_header_line size : 0 <= size < 2 ^ 64 -> size_line (to_chars 16 size) size.
Proof.
  intros Hs. destruct (to_digits_spec 16 size ltac:(lia) Hs) as (Hev & Hne & Hall & Hlen).
  exists (to_chars 16 size), []. unfold to_chars. split_and!.
  - by rewrite app_nil_r.
  - rewrite length_fmap. by destruct (to_digits 16 size); [|cbn; lia].
  - rewrite length_fmap. apply Hlen; [lia|]. exact (proj2 Hs).
  - apply all_chars_forall, Forall_fmap. eapply Forall_impl; [done|]. intros d ?.
    by apply hex_digit_char.
  - rewrite <- Hev at 1. unfold hex_number, eval_digits. generalize 0 as v.
    clear Hev Hne Hlen. induction Hall as [|d ds Hd _ IH]; intros v; [done|]. cbn.
    rewrite IH. by rewrite (proj2 (hex_digit_char d Hd)).
  - exists [], []. by split_and!; [| | |left].
  - rewrite length_fmap. specialize (Hlen 16%nat ltac:(lia) (proj2 Hs)). unfold max_chunk_line_size. lia.
Qed.

(** The size and its line end fit the [char header[24]] of the caller. *)
Lemma chunk_header_length size : 0 <= size < 2 ^ 64 -> (length (chunk_header size) <= 18)%nat.
Proof.
  intros Hs. unfold chunk_header, to_chars. rewrite length_app, length_fmap.
  destruct (to_digits_spec 16 size ltac:(lia) Hs) as (_ & _ & _ & Hlen).
  specialize (Hlen 16%nat ltac:(lia) ltac:(exact (proj2 Hs))). cbn [length crlf_string]. lia.
Qed.

Lemma total_length_from (buffers : list bytes) size :
  0 <= size -> size + len (concat buffers) < 2 ^ 64 ->
  fold_left (fun size buffer => u64 (size + len buffer)) buffers size
  = size + len (concat buffers).
Proof.
  revert size. induction buffers as [|b buffers IH]; intros size H0 Hlt; cbn -[u64] in *; [lia|].
  rewrite length_app in *. rewrite u64_small by lia. rewrite IH; lia.
Qed.

(** A session that sends a message over the stream [next], whatever it is. *)
Section chunked_proofs.
Context {S : Type} `{Hsends : sends S}.

(** One write is one chunk, or nothing at all. *)
Lemma chunked_op_sends op s s' :
  len (op_payload op) < 2 ^ 63 -> run_op (chunked_stream _) op s = (Ok tt, s') ->
  sent s' = sent s ++ (if decide (op_payload op = []) then [] else
    chunk_header (len (op_payload op)) ++ op_payload op ++ crlf_string).
Proof.
  intros Hlt. destruct op as [b|bufs]; cbn [run_op op_payload] in *.
  - change (@stream_write _ (chunked_stream _) b) with (chunked_write _ b). unfold chunked_write.
    destruct (Z.eqb_spec (len b) 0) as [Hz|Hnz].
    + destruct b; [|done]. intros [= <-]. by rewrite app_nil_r.
    + rewrite decide_False by (by destruct b). pose proof (chunk_header_length (len b) ltac:(lia)).
      intros ->%writev_sends; cbn [concat]; rewrite app_nil_r; [done|].
      rewrite !length_app. cbn [length crlf_string]. lia.
  - change (@stream_writev _ (chunked_stream _) bufs) with (chunked_writev _ bufs).
    unfold chunked_writev, total_length. rewrite total_length_from, Z.add_0_l by lia.
    destruct (Z.eqb_spec (len (concat bufs)) 0) as [Hz|Hnz].
    + rewrite decide_True by (by destruct (concat bufs)). intros [= <-]. by rewrite app_nil_r.
    + rewrite decide_False by (by destruct (concat bufs)).
      pose proof (chunk_header_length (len (concat bufs)) ltac:(lia)).
      intros ->%writev_sends; cbn [concat]; rewrite concat_app; cbn [concat]; rewrite app_nil_r;
        [done|]. rewrite !length_app. cbn [length crlf_string]. lia.
Qed.

Lemma chunked_ops_sends ops s s1 tail payload n :
  Forall (fun op => len (op_payload op) < 2 ^ 63) ops ->
  run_ops (chunked_stream _) ops s = (Ok tt, s1) -> chunked_wire tail payload n ->
  exists w, sent s1 ++ tail = sent s ++ w /\
    chunked_wire w (concat (op_payload <$> ops) ++ payload) n.
Proof.
  intros Hall. revert s. induction Hall as [|op ops Hop _ IH]; intros s; cbn [run_ops].
  - intros [= <-] Hw. by exists tail.
  - intros Hrun Hw. apply bind_inv_ok in Hrun as ([] & sm & Hone & Hrest).
    destruct (IH sm Hrest Hw) as (w & He & Hww). apply chunked_op_sends in Hone; [|done].
    cbn [fmap list_fmap concat]. rewrite He, Hone. case_decide as Hemp.
    + exists w. rewrite Hemp, app_nil_r. done.
    + eexists. split; [by rewrite <- app_assoc|]. unfold chunk_header.
      rewrite <- !app_assoc. apply wire_chunk; [apply chunk_header_line; lia|by left|done|by left|done].
Qed.

Lemma end_of_chunked_wire : chunked_wire end_of_chunked_stream [] 0.
Proof.
  refine (wire_last (bs "0") crlf_string [] crlf_string _ _ _ _); [|by left|by constructor|by left].
  apply (chunk_header_line 0). lia.
Qed.

(** C8: What a handler writes through a chunked_stream, in any mix of single and
    vectored writes, and the terminating chunk of its destructor, is a
    chunked body that the server's own parser decodes back to the same
    bytes. *)
Theorem chunked_stream_roundtrip (ops : list write_op) (s s1 s2 : S) :
  Forall (fun op => len (op_payload op) < 2 ^ 63) ops ->
  run_ops (chunked_stream _) ops s = (Ok tt, s1) ->
  stream_write end_of_chunked_stream s1 = (Ok tt, s2) ->
  let payload := concat (op_payload <$> ops) in
  chunked_stream_destroy _ s1 = (Ok tt, s2) /\
  exists w, sent s2 = sent s ++ w /\
    forall (rest : bytes) (p : pstate bytes),
      framing_of p = body_chunked -> req_state p <> completed -> chunk_of p = chunk_Size ->
      collecting (len payload) p ->
      (max_size p = 0 \/ len (ps_env p) + len payload <= max_size p) ->
      0 <= headers_of p <= 100 ->
      exists p', parse_body (w ++ rest) p = (Ok (length w), p') /\
        ps_env p' = ps_env p ++ payload /\ req_state p' = completed.
Proof.
  intros Hall Hrun Hend. cbn zeta. split; [unfold chunked_stream_destroy; by rewrite Hend|].
  destruct (chunked_ops_sends ops s s1 _ _ _ Hall Hrun end_of_chunked_wire) as (w & He & Hw).
  rewrite app_nil_r in Hw. exists w. split; [by rewrite <- He; apply write_sends|].
  intros rest p Hf Hq Hc Hcol Hlim Hh.
  apply (chunked_body_decodes w (concat (op_payload <$> ops)) rest 0 p); try done; lia.
Qed.
End chunked_proofs.

(** ** Formatted output *)

Inductive put_op : Type := put_char (c : ascii) | put_chars (s : bytes) | put_flush.

Definition put_bytes (op : put_op) : bytes :=
  match op with put_char c => [c] | put_chars s => s | put_flush => [] end.

Definition run_put {S} `{abstract_stream S} (op : put_op) : M (ostream_buffer S) exn unit :=
  match op with
  | put_char c => overflow (Some c);; mret tt
  | put_chars s => xsputn s (len s);; mret tt
  | put_flush => sync;; mret tt
  end.

Fixpoint run_puts {S} `{abstract_stream S} (ops : list put_op) : M (ostream_buffer S) exn unit :=
  match ops with
  | [] => mret tt
  | op :: ops' => run_put op;; run_puts ops'
  end.

Section ostream_buffer_proofs.
Context {S : Type} `{Hsends : sends S}.
Implicit Types ob : ostream_buffer S.

(** What went in: what the stream was given, and what still waits. *)
Definition put_so_far ob : bytes := sent (ob_stream ob) ++ ob_buffer ob.

(** The buffer is within its capacity, which is far from the largest size. *)
Definition buffer_wf ob : Prop :=
  0 < ob_capacity ob < 2 ^ 62 /\ len (ob_buffer ob) <= ob_capacity ob.

(** [ob'] is [ob] after [data] was put. *)
Definition has_put (data : bytes) ob ob' : Prop :=
  put_so_far ob' = put_so_far ob ++ data /\ ob_capacity ob' = ob_capacity ob.

Lemma sync_spec ob r ob' :
  sync ob = (Ok r, ob') -> has_put [] ob ob' /\ ob_buffer ob' = [] /\ r = 0.
Proof.
  unfold sync, mbind, M_bind, gets. case_decide as Hb.
  - intros [= <- <-]. unfold has_put. by rewrite app_nil_r.
  - unfold set_buffer, on_stream, modify. cbn.
    destruct (stream_write (ob_buffer ob) (ob_stream ob)) as [[[]|e|] s'] eqn:E; [|done..].
    intros [= <- <-]. apply write_sends in E. unfold has_put, put_so_far. cbn.
    by rewrite E, !app_nil_r.
Qed.

Lemma has_put_trans a b ob1 ob2 ob3 :
  has_put a ob1 ob2 -> has_put b ob2 ob3 -> has_put (a ++ b) ob1 ob3.
Proof. unfold has_put. intros [-> ->] [-> ->]. by rewrite app_assoc. Qed.

(** Make room for another byte. *)
Lemma make_room_spec ob u ob' :
  buffer_wf ob ->
  (if ob_capacity ob <=? len (ob_buffer ob) then sync;; mret tt else mret tt) ob = (Ok u, ob') ->
  has_put [] ob ob' /\ len (ob_buffer ob') < ob_capacity ob'.
Proof.
  intros [Hc Hl]. destruct (Z.leb_spec (ob_capacity ob) (len (ob_buffer ob))).
  - intros (r & ob1 & (Hp & Hb & _)%sync_spec & [= _ <-])%bind_inv_ok.
    split; [done|]. rewrite Hb. destruct Hp as [_ ->]. cbn. lia.
  - intros [= <- <-]. split; [|lia]. unfold has_put. by rewrite app_nil_r.
Qed.

Lemma overflow_spec c ob r ob' :
  buffer_wf ob -> overflow (Some c) ob = (Ok r, ob') ->
  has_put [c] ob ob' /\ buffer_wf ob' /\ r = Some c.
Proof.
  intros Hwf. unfold overflow. unfold mbind at 1, M_bind at 1, get.
  intros (u & ob1 & Hroom & Hrest)%bind_inv_ok.
  destruct (make_room_spec ob u ob1 Hwf Hroom) as [Hp Hlt].
  unfold mbind, M_bind, gets, set_buffer, modify in Hrest. injection Hrest as <- <-.
  pose proof Hp as [_ Hcap]. pose proof Hwf as [Hc _].
  split_and!; [|unfold buffer_wf; cbn -[Z.pow]; rewrite length_app; cbn -[Z.pow]; lia..|done].
  refine (has_put_trans [] [c] _ _ _ Hp _). unfold has_put, put_so_far. cbn.
  by rewrite app_assoc.
Qed.

Lemma xsputn_loop_spec fuel s n ob :
  (length s < fuel)%nat -> len s < 2 ^ 63 -> buffer_wf ob ->
  (n = len s \/ len s <= ob_capacity ob) ->
  match xsputn_loop fuel s n ob with
  | (Ok r, ob') => has_put s ob ob' /\ buffer_wf ob' /\ r = n
  | (Throw _, _) => True
  | (Diverge, _) => exists b s, (stream_write b s).1 = Diverge \/
                      exists bufs, (stream_writev bufs s).1 = Diverge
  end.
Proof.
  revert s ob. induction fuel as [|fuel IH]; intros s ob Hf H63 Hwf Hn; [lia|]. cbn [xsputn_loop].
  case_decide as Hs.
  { subst s. split_and!; [|done..]. unfold has_put. by rewrite app_nil_r. }
  unfold mbind at 1, M_bind at 1, get.
  destruct (Z.ltb_spec (ob_capacity ob) (len s)) as [Hbig|Hsmall].
  - case_decide as Hb.
    + unfold mbind, M_bind, on_stream.
      destruct (stream_write s (ob_stream ob)) as [[[]|e|] s'] eqn:E; [|done|].
      * apply write_sends in E. split_and!; [|exact Hwf|lia].
        unfold has_put, put_so_far. cbn. by rewrite E, Hb, !app_nil_r.
      * exists s, (ob_stream ob). left. by rewrite E.
    + unfold mbind, M_bind, on_stream, set_buffer, modify. cbn [ob_stream ob_buffer ob_capacity].
      destruct (stream_writev [ob_buffer ob; s] (ob_stream ob)) as [[[]|e|] s'] eqn:E; [|done|].
      * pose proof Hwf as [Hc Hl]. apply writev_sends in E.
        2:{ cbn [concat]. rewrite app_nil_r, length_app. lia. } cbn in E.
        split_and!; [|split; [exact Hc|cbn; lia]|lia].
        unfold has_put, put_so_far. cbn. rewrite E, !app_nil_r. by rewrite app_assoc.
      * exists s, (ob_stream ob). right. exists [ob_buffer ob; s]. by rewrite E.
  - unfold mbind at 1, M_bind at 1.
    pose proof (make_room_spec ob tt) as Hroom.
    destruct ((if ob_capacity ob <=? len (ob_buffer ob) then sync;; mret tt else mret tt) ob)
      as [[[]|e|] ob1] eqn:E; [|done|].
    + destruct (Hroom ob1 Hwf eq_refl) as [Hp Hlt]. pose proof Hp as [_ Hcap].
      unfold mbind at 1 2, M_bind at 1 2, get, set_buffer, modify.
      set (k := Z.to_nat (Z.min (len s) (ob_capacity ob1 - len (ob_buffer ob1)))).
      set (ob2 := mk_ostream_buffer _ _ _).
      assert (0 < length s)%nat by (destruct s; [done|cbn; lia]).
      assert (Hp2 : has_put (take k s) ob1 ob2).
      { unfold has_put, put_so_far, ob2. cbn. by rewrite app_assoc. }
      assert (Hwf2 : buffer_wf ob2).
      { pose proof Hwf as [Hc _]. unfold buffer_wf, ob2. cbn -[Z.pow]. rewrite length_app, length_take. lia. }
      specialize (IH (drop k s) ob2). rewrite length_drop in IH.
      specialize (IH ltac:(lia) ltac:(lia) Hwf2 ltac:(right; cbn; lia)).
      destruct (xsputn_loop fuel (drop k s) n ob2) as [[r|e|] ob3]; [|done|done].
      destruct IH as (Hp3 & Hwf3 & ->). split_and!; [|done|done].
      pose proof (has_put_trans _ _ _ _ _ Hp (has_put_trans _ _ _ _ _ Hp2 Hp3)) as Hall.
      cbn [app] in Hall. by rewrite take_drop in Hall.
    + revert E. destruct (_ <=? _); [|done]. unfold sync, mbind, M_bind, gets.
      case_decide; [done|]. unfold set_buffer, on_stream, modify. cbn.
      destruct (stream_write (ob_buffer ob) (ob_stream ob)) as [[[]|?|] s'] eqn:E; [done..|].
      intros _. exists (ob_buffer ob), (ob_stream ob). left. by rewrite E.
Qed.

Lemma run_put_spec op ob ob' :
  len (put_bytes op) < 2 ^ 63 -> buffer_wf ob -> run_put op ob = (Ok tt, ob') -> has_put (put_bytes op) ob ob' /\ buffer_wf ob'.
Proof.
  intros H63 Hwf. destruct op as [c|s|]; cbn [run_put put_bytes] in *;
    intros (r & ob1 & Hrun & [= <-])%bind_inv_ok.
  - by apply overflow_spec in Hrun as (? & ? & _).
  - unfold xsputn in Hrun. rewrite (proj2 (Z.ltb_ge _ _)), Nat2Z.id, take_ge in Hrun by lia.
    pose proof (xsputn_loop_spec (length s + 1) s (len s) ob ltac:(lia) H63 Hwf ltac:(auto)) as Hsp.
    rewrite Hrun in Hsp. naive_solver.
  - apply sync_spec in Hrun as (Hp & Hb & _). split; [done|]. unfold buffer_wf. rewrite Hb.
    destruct Hp as [_ ->]. destruct Hwf as [? _]. cbn. lia.
Qed.

(** What is put into an ostream_buffer, character by character, in blocks of any
    size and with flushes in between, reaches the stream in order, and sync
    leaves nothing behind. *)
Theorem ostream_buffer_in_order (ops : list put_op) ob ob' :
  Forall (fun op => len (put_bytes op) < 2 ^ 63) ops ->
  buffer_wf ob -> run_puts ops ob = (Ok tt, ob') ->
  put_so_far ob' = put_so_far ob ++ concat (put_bytes <$> ops) /\
  (forall r ob2, sync ob' = (Ok r, ob2) -> sent (ob_stream ob2) = put_so_far ob').
Proof.
  intros H63 Hwf Hrun. split.
  - revert ob Hwf Hrun. induction H63 as [|op ops Hop _ IH]; intros ob Hwf; cbn [run_puts].
    + intros [= <-]. cbn. by rewrite app_nil_r.
    + intros ([] & ob1 & [[Hp _] Hwf1]%run_put_spec & Hrest)%bind_inv_ok; [|done..].
      rewrite (IH ob1 Hwf1 Hrest), Hp. cbn [fmap list_fmap concat]. by rewrite <- app_assoc.
  - intros r ob2 ([Hp _] & Hb & _)%sync_spec. unfold put_so_far in Hp at 1.
    by rewrite Hb, !app_nil_r in Hp.
Qed.

Theorem xsputn_total (s : bytes) ob :
  len s < 2 ^ 63 -> buffer_wf ob ->
  match xsputn s (len s) ob with
  | (Ok r, ob') => r = len s /\ put_so_far ob' = put_so_far ob ++ s
  | (Throw _, _) => True
  | (Diverge, _) => exists b s, (stream_write b s).1 = Diverge \/
                      exists bufs, (stream_writev bufs s).1 = Diverge
  end.
Proof.
  intros H63 Hwf. unfold xsputn. rewrite (proj2 (Z.ltb_ge _ _)), Nat2Z.id, take_ge by lia.
  pose proof (xsputn_loop_spec (length s + 1) s (len s) ob ltac:(lia) H63 Hwf ltac:(auto)) as Hsp.
  destruct (xsputn_loop _ s (len s) ob) as [[r|e|] ob']; [|done|done].
  by destruct Hsp as ([? _] & _ & ->).
Qed.
End ostream_buffer_proofs.
