(* ===== verification/Session.v ===== *)
(** * A connection: src/server/streams.h and src/server/streams.cpp

    [basic_http_session] and its two transports, [socket_session] and
    [ssl_socket_session].  The operating system, OpenSSL and the coroutine are
    parameters, gathered in [os]; what the theorems rely on of them is [os_laws].
    The loops of the source end only when the other side of the connection
    makes them end: they carry fuel, and run out of it as [Diverge]. *)

From S2P Require Import Prelude Utils Charconv Http HttpParser Stream.

Local Open Scope Z_scope.

(** ** The outside of a session *)

(** A system call on a non-blocking socket. *)
Inductive io (A : Type) : Type := io_ok (a : A) | io_again | io_errno (n : Z).
Arguments io_ok {A} a.
Arguments io_again {A}.
Arguments io_errno {A} n.

(** What [SSL_get_error] says of a call that failed. *)
Inductive ssl_error : Type :=
  | SSL_ERROR_WANT_READ | SSL_ERROR_WANT_WRITE | SSL_ERROR_ZERO_RETURN | SSL_ERROR_OTHER.

Class os (W : Type) : Type := {
  sys_read : nat -> W -> io bytes * W;             (** [::read] of at most n bytes *)
  sys_write : bytes -> W -> io nat * W;            (** [::write] *)
  sys_writev : list bytes -> W -> io nat * W;      (** [::writev] *)
  sys_shutdown : W -> W;                           (** [::shutdown(SHUT_RDWR)] *)
  sys_sndbuf : W -> Z;                             (** [getsockopt(SO_SNDBUF)] *)
  sys_rcvbuf : W -> Z;
  sys_set_sndbuf : Z -> W -> bool * W;             (** [setsockopt]: did it fail? *)
  sys_set_rcvbuf : Z -> W -> bool * W;
  ssl_read : nat -> W -> (bytes + ssl_error) * W;  (** [SSL_read], [SSL_get_error] *)
  ssl_write : bytes -> W -> (nat + ssl_error) * W;
  ssl_accept : W -> option ssl_error * W;          (** [None]: it returned 1 *)
  ssl_is_init_finished : W -> bool;
  ssl_shutdown : W -> Z * W;
  coroutine_yield : W -> option errc * W;          (** [m_yield().get()] *)
  coroutine_get : W -> option errc;                (** [m_yield.get()] *)
  clock_now : W -> Z;
  notify_deadline_of : Z -> W -> W;                (** [m_event_loop->notify_deadline] *)
  read_buffer_size : W -> nat;                     (** [shared_read_buffer.size()] *)
  write_buffer_size : Z -> W -> nat;               (** [shared_write_buffer(size)->size()] *)
  count_session_served : W -> W;                   (** [server::session_served()] *)
  error_message : errc -> bytes;                   (** [std::error_code::message()] *)
}.

Definition IOV_MAX : nat := 1024.
Definition INT_MAX : Z := 2 ^ 31 - 1.

(** ** The members of basic_http_session *)

Record session (W : Type) : Type := mk_session {
  world : W;
  m_keep_alive_s : Z;
  m_session_timeout : Z;
  m_session_timeout_time_point : option Z;
  m_parser : parser;
  m_socket_write_size : Z;
  m_socket_read_size : Z;
  m_can_write_errror : bool;
  m_wakeupper : Z;
  m_pending : bytes;
  m_peer_address : bytes;
}.
Arguments mk_session {W} _ _ _ _ _ _ _ _ _ _ _.
Arguments world {W} _.
Arguments m_keep_alive_s {W} _.
Arguments m_session_timeout {W} _.
Arguments m_session_timeout_time_point {W} _.
Arguments m_parser {W} _.
Arguments m_socket_write_size {W} _.
Arguments m_socket_read_size {W} _.
Arguments m_can_write_errror {W} _.
Arguments m_wakeupper {W} _.
Arguments m_pending {W} _.
Arguments m_peer_address {W} _.

Section setters.
Context {W : Type}.
Implicit Types s : session W.

Definition set_world (w : W) s : session W :=
  mk_session w (m_keep_alive_s s) (m_session_timeout s) (m_session_timeout_time_point s)
    (m_parser s) (m_socket_write_size s) (m_socket_read_size s) (m_can_write_errror s)
    (m_wakeupper s) (m_pending s) (m_peer_address s).
Definition set_keep_alive (seconds : Z) s : session W :=
  mk_session (world s) seconds (m_session_timeout s) (m_session_timeout_time_point s)
    (m_parser s) (m_socket_write_size s) (m_socket_read_size s) (m_can_write_errror s)
    (m_wakeupper s) (m_pending s) (m_peer_address s).
Definition set_timeout_members (seconds : Z) (tp : option Z) s : session W :=
  mk_session (world s) (m_keep_alive_s s) seconds tp
    (m_parser s) (m_socket_write_size s) (m_socket_read_size s) (m_can_write_errror s)
    (m_wakeupper s) (m_pending s) (m_peer_address s).
Definition set_parser (p : parser) s : session W :=
  mk_session (world s) (m_keep_alive_s s) (m_session_timeout s) (m_session_timeout_time_point s)
    p (m_socket_write_size s) (m_socket_read_size s) (m_can_write_errror s)
    (m_wakeupper s) (m_pending s) (m_peer_address s).
Definition set_write_size (n : Z) s : session W :=
  mk_session (world s) (m_keep_alive_s s) (m_session_timeout s) (m_session_timeout_time_point s)
    (m_parser s) n (m_socket_read_size s) (m_can_write_errror s)
    (m_wakeupper s) (m_pending s) (m_peer_address s).
Definition set_read_size (n : Z) s : session W :=
  mk_session (world s) (m_keep_alive_s s) (m_session_timeout s) (m_session_timeout_time_point s)
    (m_parser s) (m_socket_write_size s) n (m_can_write_errror s)
    (m_wakeupper s) (m_pending s) (m_peer_address s).
Definition set_can_write_error (b : bool) s : session W :=
  mk_session (world s) (m_keep_alive_s s) (m_session_timeout s) (m_session_timeout_time_point s)
    (m_parser s) (m_socket_write_size s) (m_socket_read_size s) b
    (m_wakeupper s) (m_pending s) (m_peer_address s).
Definition set_pending (b : bytes) s : session W :=
  mk_session (world s) (m_keep_alive_s s) (m_session_timeout s) (m_session_timeout_time_point s)
    (m_parser s) (m_socket_write_size s) (m_socket_read_size s) (m_can_write_errror s)
    (m_wakeupper s) b (m_peer_address s).
End setters.

Section session_operations.
Context {W : Type} `{os W}.
Abbreviation SM := (M (session W) exn).

Definition run_world {A} (f : W -> A * W) : SM A := fun s =>
  let '(a, w) := f (world s) in (Ok a, set_world w s).

(** [basic_http_session(event_loop, socket, yield, peer_address, wakeupper)] *)
Definition new_session (w : W) (peer_address : bytes) (wakeupper : Z) : session W :=
  mk_session w 0 0 None new_parser 0 0 false wakeupper [] peer_address.

(** [if ((ec = m_yield().get())) throw ec;] *)
Definition yield_or_throw : SM unit :=
  ec ← run_world coroutine_yield;
  match ec with None => mret tt | Some ec => throw (ExErrorCode ec) end.

(** [set_session_timeout(seconds)] *)
Definition set_session_timeout (seconds : Z) (s : session W) : session W :=
  if negb (seconds =? 0) then
    let tp := i64 (clock_now (world s) + i64 (seconds * ns_per_s)) in
    set_world (notify_deadline_of tp (world s)) (set_timeout_members seconds (Some tp) s)
  else set_timeout_members seconds None s.

Definition socket_write_size (s : session W) : Z * session W :=
  let s := if m_socket_write_size s =? 0
           then set_write_size (Z.quot (sys_sndbuf (world s)) 2) s else s in
  (m_socket_write_size s, s).
Definition set_socket_write_size (size : Z) : SM unit :=
  failed ← run_world (sys_set_sndbuf size);
  throw_if failed (ExErrorCode bad_argument);;
  modify (set_write_size 0).
Definition socket_read_size (s : session W) : Z * session W :=
  let s := if m_socket_read_size s =? 0
           then set_read_size (Z.quot (sys_rcvbuf (world s)) 2) s else s in
  (m_socket_read_size s, s).
Definition set_socket_read_size (size : Z) : SM unit :=
  failed ← run_world (sys_set_rcvbuf size);
  throw_if failed (ExErrorCode bad_argument);;
  modify (set_read_size 0).

(** ** The virtual functions of a transport

    An error code that was set is [Throw]; the length returned otherwise, with
    the bytes that were read. *)
Record transport : Type := mk_transport {
  read_some : nat -> SM bytes;
  write_some : bytes -> SM nat;
  write_some_span : list bytes -> SM nat;
  shutdown : SM unit;
  secured : bool;
}.

(** [ssize_t] and [errno] of a system call, as [socket_session] maps them. *)
Definition io_result {A} (zero : A) (r : io A) : SM A :=
  match r with
  | io_ok a => mret a
  | io_again => mret zero
  | io_errno n => throw (ExErrorCode (errno n))
  end.

Definition socket_read_some (length_ : nat) : SM bytes :=
  r ← run_world (sys_read length_); io_result [] r.

(** A write that succeeded leaves no way to answer with an error. *)
Definition wrote (r : io nat) : SM nat :=
  match r with
  | io_ok n => modify (set_can_write_error false);; mret n
  | _ => io_result 0%nat r
  end.
Definition socket_write_some (buff : bytes) : SM nat :=
  r ← run_world (sys_write buff); wrote r.
Definition socket_write_some_span (buffers : list bytes) : SM nat :=
  let count := Nat.min (length buffers) IOV_MAX in
  r ← run_world (sys_writev (take count buffers)); wrote r.
Definition socket_shutdown : SM unit := modify (fun s => set_world (sys_shutdown (world s)) s).

Definition socket_session : transport :=
  mk_transport socket_read_some socket_write_some socket_write_some_span socket_shutdown false.

Definition ssl_length (n : nat) : nat :=
  if Z.of_nat n <? INT_MAX then n else Z.to_nat INT_MAX.

Definition ssl_read_some (length_ : nat) : SM bytes :=
  r ← run_world (ssl_read (ssl_length length_));
  match r with
  | inl data => mret data
  | inr (SSL_ERROR_WANT_READ | SSL_ERROR_WANT_WRITE) => mret []
  | inr SSL_ERROR_ZERO_RETURN => throw (ExErrorCode connection_reset)
  | inr SSL_ERROR_OTHER => throw (ExErrorCode io_error)
  end.

Definition ssl_write_some (buff : bytes) : SM nat :=
  r ← run_world (ssl_write (take (ssl_length (length buff)) buff));
  match r with
  | inl n => modify (set_can_write_error false);; mret n
  | inr (SSL_ERROR_WANT_READ | SSL_ERROR_WANT_WRITE) => mret 0%nat
  | inr _ => throw (ExErrorCode io_error)
  end.

(** The loop that copies the buffers into [flat_buffer], of which [room]
    bytes are left. *)
Fixpoint flatten (room : nat) (buffers : list bytes) : bytes :=
  match buffers with
  | [] => []
  | b :: buffers' =>
      if decide (room = 0%nat) then []
      else let size := Nat.min (length b) room in
           take size b ++ flatten (room - size) buffers'
  end.

(** An [int] member function used as a [size_t]. *)
Definition as_size (f : session W -> Z * session W) : SM Z := fun s =>
  let '(n, s') := f s in (Ok (u64 n), s').

Definition ssl_write_some_span (buffers : list bytes) : SM nat :=
  match buffers with
  | [] => mret 0%nat
  | front :: _ =>
      socket_size ← as_size socket_write_size;
      if bool_decide (length buffers = 1%nat) || (socket_size <=? len front)
      then ssl_write_some front
      else
        flat_size ← gets (fun s => write_buffer_size socket_size (world s));
        let room := Nat.min flat_size (Z.to_nat socket_size) in
        ssl_write_some (flatten room buffers)
  end.

(** [while (count--)] of [ssl_socket_session::shutdown]. *)
Fixpoint ssl_shutdown_loop (count : nat) : SM unit :=
  match count with
  | O => mret tt
  | S count' =>
      res ← run_world ssl_shutdown;
      if negb (res =? 0) then mret tt
      else
        ec ← run_world coroutine_yield;
        match ec with
        | None => ssl_shutdown_loop count'
        | Some _ => mret tt
        end
  end.
Definition ssl_shutdown_ (ssl_shutdown_timeout : Z) : SM unit :=
  modify (set_session_timeout ssl_shutdown_timeout);;
  ready ← gets (fun s => ssl_is_init_finished (world s));
  (if (ready : bool) then ssl_shutdown_loop 5 else mret tt);;
  socket_shutdown.

Definition ssl_socket_session (ssl_shutdown_timeout : Z) : transport :=
  mk_transport ssl_read_some ssl_write_some ssl_write_some_span
    (ssl_shutdown_ ssl_shutdown_timeout) true.

(** The handshake in the constructor of [ssl_socket_session]. *)
Fixpoint ssl_accept_loop (fuel : nat) : SM unit :=
  match fuel with
  | O => diverge
  | S fuel' =>
      r ← run_world ssl_accept;
      match r with
      | None => mret tt
      | Some (SSL_ERROR_WANT_READ | SSL_ERROR_WANT_WRITE) =>
          yield_or_throw;; ssl_accept_loop fuel'
      | Some _ => throw (ExErrorCode io_error)
      end
  end.
Definition ssl_handshake (fuel : nat) (ssl_accept_timeout : Z) : SM unit :=
  modify (set_session_timeout ssl_accept_timeout);; ssl_accept_loop fuel.
End session_operations.
Arguments transport W : clear implicits.

Section basic_http_session.
Context {W : Type} `{os W} (tr : transport W).
Abbreviation SM := (M (session W) exn).

(** ** Writing *)

(** [write(buffer)] *)
Fixpoint session_write (fuel : nat) (buffer : bytes) : SM unit :=
  match fuel with
  | O => diverge
  | S fuel' =>
      if decide (buffer = []) then mret tt
      else
        written ← write_some tr buffer;
        if decide (written = 0%nat) then yield_or_throw;; session_write fuel' buffer
        else session_write fuel' (drop written buffer)
  end.

(** The buffers still pending after [written] bytes of them went out: drop
    whatever went out completely, and shorten the one which went out half
    way. *)
Fixpoint drop_written (written : nat) (pending : list bytes) : list bytes :=
  match pending with
  | [] => []
  | b :: pending' =>
      if (length b <=? written)%nat then drop_written (written - length b) pending'
      else drop written b :: pending'
  end.

Fixpoint writev_loop (fuel : nat) (pending : list bytes) : SM unit :=
  match fuel with
  | O => diverge
  | S fuel' =>
      if decide (pending = []) then mret tt
      else
        written ← write_some_span tr pending;
        if decide (written = 0%nat) then yield_or_throw;; writev_loop fuel' pending
        else writev_loop fuel' (drop_written written pending)
  end.

(** [write(buffers)] *)
Definition session_writev (fuel : nat) (buffers : list bytes) : SM unit :=
  if total_length buffers =? 0 then mret tt else writev_loop fuel buffers.

(** ** Reading

    A request and what its callback captured, next to the session. *)
Abbreviation RM B := (M (session W * (request B * B)) exn).

Definition on_session {B A} (m : SM A) : RM B A := fun x =>
  let '(o, s) := m x.1 in (o, (s, x.2)).

(** A call of the session's parser on the request. *)
Definition run_parser {B A} (m : M (pstate B) exn A) : RM B A := fun x =>
  let '(o, p) := m (mk_pstate (m_parser x.1) x.2.1 x.2.2) in
  (o, (set_parser (ps_parser p) x.1, (ps_req p, ps_env p))).

Definition state_of {B} (x : session W * (request B * B)) : parse_state := m_state x.2.1.
Definition head_parsed (st : parse_state) : bool :=
  bool_decide (st = headers_completed) || bool_decide (st = completed).

(** The body of the two reading loops: what is left over is parsed, and when
    that is not enough, more is read.  [stop] says when it is; [before] is
    what the loop does with a session that got data. *)
Definition reading_round {B} (parse : bytes -> M (pstate B) exn nat)
    (stop : parse_state -> bool) (before : session W -> session W) : RM B bool :=
  x ← get;
  stopped ←
    (if decide (m_pending x.1 = []) then mret false
     else
       n ← run_parser (parse (m_pending x.1));
       on_session (modify (fun s => set_pending (drop n (m_pending s)) s));;
       gets (fun x => stop (state_of x)));
  if (stopped : bool) then mret true
  else
    size ← gets (fun x => read_buffer_size (world x.1));
    data ← on_session (read_some tr size);
    if decide (data = []) then on_session yield_or_throw;; mret false
    else
      on_session (modify before);;
      x ← get;
      if decide (m_pending x.1 = []) then
        n ← run_parser (parse data);
        x ← get;
        if stop (state_of x) then
          on_session (modify (set_pending (drop n data)));; mret true
        else
          on_session (modify (fun s => set_pending (m_pending s ++ drop n data) s));; mret false
      else
        on_session (modify (fun s => set_pending (m_pending s ++ data) s));; mret false.

Fixpoint reading_loop {B} (fuel : nat) (round : RM B bool) : RM B unit :=
  match fuel with
  | O => diverge
  | S fuel' =>
      stopped ← round;
      if (stopped : bool) then mret tt else reading_loop fuel' round
  end.

(** [read_headers()]: into a request just constructed. *)
Definition read_headers {B} (fuel : nat) : RM B unit :=
  modify (fun x => (x.1, (new_request, x.2.2)));;
  reading_loop fuel (reading_round parse_head head_parsed (set_can_write_error true)).

(** [read(req)], with the guard that gives up the keep alive. *)
Definition session_read {B} (fuel : nat) : RM B unit := fun x =>
  if decide (state_of x = completed) then (Ok tt, x)
  else
    let x1 := (set_can_write_error true x.1, x.2) in
    let '(o, x2) := reading_loop fuel
      (reading_round parse_body (fun st => bool_decide (st = completed)) id) x1 in
    match o with
    | Ok _ => (o, x2)
    | Throw _ => (o, (set_keep_alive 0 x2.1, x2.2))
    | Diverge => (o, x2)
    end.

(** The session as a stream. *)
Definition session_stream (fuel : nat) : abstract_stream (session W) := {|
  stream_read := fun B => session_read fuel;
  stream_write := session_write fuel;
  stream_writev := session_writev fuel;
  stream_yield := fun s => let '(ec, w) := coroutine_yield (world s) in (ec, set_world w s);
  stream_wakeupper := m_wakeupper;
  stream_keep_alive := m_keep_alive_s;
  stream_set_keep_alive := set_keep_alive;
  stream_peer_address := m_peer_address;
  stream_is_secured_connection := fun _ => secured tr;
  stream_socket_write_size := socket_write_size;
  stream_set_socket_write_size := set_socket_write_size;
  stream_socket_read_size := socket_read_size;
  stream_set_socket_read_size := set_socket_read_size;
  stream_session_timeout := m_session_timeout;
  stream_set_session_timeout := set_session_timeout;
|}.

(** ** io_loop

    [create_session] is the server's, which asks the plugins; what it gives
    is the session handler of a plugin, run on the stream and the request. *)
Section io_loop.
Context {B : Type}
(headers_timeout keep_alive_timeout : Z)
(create_session : request B -> RM B (option (RM B unit))).

Definition b2z (b : bool) : Z := if b then 1 else 0.

(** One turn of [do ... while]: serve a request; [false] is the [break]. *)
Definition serve_request (fuel : nat) : RM B bool :=
read_headers fuel;;
x ← get;
let req := x.2.1 in
on_session (modify (set_keep_alive (b2z (m_req_keep_alive req) * keep_alive_timeout)));;
handler ← create_session req;
match handler with
| None =>
    on_session (session_write fuel (to_string (make_response 503 [] []) (-1)));; mret false
| Some run =>
    x ← get;
    let length_ := content_length x.2.1 in
    on_session (modify (set_session_timeout
      (if negb (length_ =? chunked_data)
       then keep_alive_timeout + length_ / (512 * 1024) else 300)));;
    run;;
    x ← get;
    (if decide (state_of x = completed) then mret tt
     else on_session (modify (set_keep_alive 0)));;
    on_session (modify (fun s => set_session_timeout (m_keep_alive_s s) s));;
    on_session (modify (fun s => set_world (count_session_served (world s)) s));;
    x ← get;
    mret (bool_decide (coroutine_get (world x.1) = None) && negb (m_keep_alive_s x.1 =? 0))
end.

Fixpoint serve_loop (fuel : nat) : RM B unit :=
match fuel with
| O => diverge
| S fuel' =>
    again ← serve_request fuel';
    if (again : bool) then serve_loop fuel' else mret tt
end.

(** What the handlers of [io_loop] answer an exception with. *)
Definition error_response (e : exn) : response :=
match e with
| ExInt error =>
    make_response (if (0 <? error) && (error <? 2 ^ 16 - 1) then error else 500) [] []
| ExResponse res => res
| ExStd e => make_response 500 (what e) []
| ExErrorCode ec => make_response 500 (error_message ec) []
| ExUnknown => make_response 500 [] []
end.

(** [io_loop()]: an exception of a handler's own write leaves it without
  the shutdown. *)
Definition io_loop (fuel : nat) : RM B unit := fun x =>
let '(o, x1) := (on_session (modify (set_session_timeout headers_timeout));;
                 serve_loop fuel) x in
match o with
| Ok _ => on_session (shutdown tr) x1
| Throw e =>
    ((if m_can_write_errror x1.1
      then on_session (session_write fuel (to_string (error_response e) (-1)))
      else mret tt);;
     on_session (shutdown tr)) x1
| Diverge => (Diverge, x1)
end.
End io_loop.
End basic_http_session.
