(* ===== verification/SessionProofs.v ===== *)
(** * Sessions: what is sent, what is received, and how errors are answered

    The theorems are proved for any transport that satisfies [transport_laws],
    which both transports do on any operating system with [os_laws]. *)

From S2P Require Import Prelude Utils Charconv Http HttpParser HeadProofs BodyProofs Stream Session.

Local Open Scope Z_scope.

(** ** The operating system

    [wire] is what has been sent on the connection, [incoming] what the peer
    sent and the server has not read yet.  A call that succeeds says how much
    of its buffer it took; one that fails, and every call that is not about
    data, changes neither. *)

Definition written {W} (wire : W -> bytes) (b : bytes) (w w' : W) (n : nat) : Prop :=
  (n <= length b)%nat /\ wire w' = wire w ++ take n b.

Class os_laws (W : Type) `{os W} : Type := {
  wire : W -> bytes;
  incoming : W -> bytes;
  quiet (w w' : W) : Prop := wire w' = wire w /\ incoming w' = incoming w;
  sys_write_law : forall b w, let '(r, w') := sys_write b w in
    incoming w' = incoming w /\
    match r with io_ok n => written wire b w w' n | _ => wire w' = wire w end;
  sys_writev_law : forall bufs w, let '(r, w') := sys_writev bufs w in
    incoming w' = incoming w /\
    match r with io_ok n => written wire (concat bufs) w w' n | _ => wire w' = wire w end;
  ssl_write_law : forall b w, let '(r, w') := ssl_write b w in
    incoming w' = incoming w /\
    match r with inl n => written wire b w w' n | inr _ => wire w' = wire w end;
  sys_read_law : forall n w, let '(r, w') := sys_read n w in
    wire w' = wire w /\
    match r with io_ok d => incoming w = d ++ incoming w' | _ => incoming w' = incoming w end;
  ssl_read_law : forall n w, let '(r, w') := ssl_read n w in
    wire w' = wire w /\
    match r with inl d => incoming w = d ++ incoming w' | inr _ => incoming w' = incoming w end;
  yield_law : forall w, quiet w (coroutine_yield w).2;
  notify_law : forall t w, quiet w (notify_deadline_of t w);
  shutdown_law : forall w, quiet w (sys_shutdown w);
  ssl_shutdown_law : forall w, quiet w (ssl_shutdown w).2;
  served_law : forall w, quiet w (count_session_served w);
}.

(** How long a session waits: when [patient k w], the coroutine is resumed at
    most [k] more times before it is resumed with an error, and reading or
    writing does not change that. *)
Class os_patience (W : Type) `{os W} : Type := {
  patient : nat -> W -> Prop;
  yield_patient : forall k w w', patient k w -> coroutine_yield w = (None, w') ->
    exists k', k = S k' /\ patient k' w';
  sys_read_patient : forall k n w, patient k w -> patient k (sys_read n w).2;
  sys_write_patient : forall k b w, patient k w -> patient k (sys_write b w).2;
  sys_writev_patient : forall k bufs w, patient k w -> patient k (sys_writev bufs w).2;
  ssl_read_patient : forall k n w, patient k w -> patient k (ssl_read n w).2;
  ssl_write_patient : forall k b w, patient k w -> patient k (ssl_write b w).2;
}.

Section proofs.
Context {W : Type} `{Hlaws : os_laws W}.
Implicit Types s : session W.
Abbreviation SM := (M (session W) exn).

(** ** Transports *)

(** What no transport touches. *)
Definition same_members s s' : Prop :=
  m_pending s' = m_pending s /\ m_parser s' = m_parser s /\ m_keep_alive_s s' = m_keep_alive_s s.

Lemma same_members_trans s s' s'' : same_members s s' -> same_members s' s'' -> same_members s s''.
Proof. unfold same_members. intros (-> & -> & ->) (-> & -> & ->). done. Qed.

(** The outcome of sending: some of [b] went out, and if so the session can no
    longer be answered with an error of its own. *)
Definition sends_some (b : bytes) s (w : outcome exn nat * session W) : Prop :=
  same_members s w.2 /\ incoming (world w.2) = incoming (world s) /\
  match w.1 with
  | Ok n => (n <= length b)%nat /\ wire (world w.2) = wire (world s) ++ take n b /\
            (n <> 0%nat -> m_can_write_errror w.2 = false) /\
            (n = 0%nat -> m_can_write_errror w.2 = true -> m_can_write_errror s = true)
  | _ => wire (world w.2) = wire (world s) /\ m_can_write_errror w.2 = m_can_write_errror s
  end.

Class transport_laws (tr : transport W) : Prop := {
  write_some_law : forall b s, sends_some b s (write_some tr b s);
  write_some_span_law : forall bufs s, sends_some (concat bufs) s (write_some_span tr bufs s);
  read_some_law : forall n s, let w := read_some tr n s in
    same_members s w.2 /\ m_can_write_errror w.2 = m_can_write_errror s /\
    wire (world w.2) = wire (world s) /\
    match w.1 with
    | Ok d => incoming (world s) = d ++ incoming (world w.2)
    | _ => incoming (world w.2) = incoming (world s)
    end;
  shutdown_quiet : forall s, wire (world (shutdown tr s).2) = wire (world s);
}.

(** What fails on a transport is reported as an error code. *)
Class reports_codes (tr : transport W) : Prop := {
  read_some_throws : forall n s e, (read_some tr n s).1 = Throw e -> exists ec, e = ExErrorCode ec;
  write_some_throws : forall b s e, (write_some tr b s).1 = Throw e -> exists ec, e = ExErrorCode ec;
}.
Global Instance socket_session_codes : reports_codes socket_session.
Proof.
  split; intros n s e; cbn; unfold socket_read_some, socket_write_some, mbind, M_bind, run_world.
  - destruct (sys_read n (world s)) as [[d| |k] w]; cbn; [done..|]. intros [= <-]. by eexists.
  - destruct (sys_write n (world s)) as [[d| |k] w]; cbn; [done..|]. intros [= <-]. by eexists.
Qed.
Global Instance ssl_socket_session_codes t : reports_codes (ssl_socket_session t).
Proof.
  split; intros n s e; cbn; unfold ssl_read_some, ssl_write_some, mbind, M_bind, run_world.
  - destruct (ssl_read _ (world s)) as [[d|[]] w]; cbn; try done; intros [= <-]; by eexists.
  - destruct (ssl_write _ (world s)) as [[d|[]] w]; cbn; try done; intros [= <-]; by eexists.
Qed.

Lemma take_written (n k : nat) (b : bytes) :
  (n <= length (take k b))%nat -> take n (take k b) = take n b.
Proof. rewrite length_take, take_take. intros. f_equal. lia. Qed.

Global Instance socket_session_laws : transport_laws socket_session.
Proof.
  split.
  - intros b s. unfold sends_some. cbn. unfold socket_write_some, mbind, M_bind, run_world.
    pose proof (sys_write_law b (world s)) as Hl.
    destruct (sys_write b (world s)) as [[n| |n] w]; cbn; destruct Hl as [Hi Hl];
      [destruct Hl as [Hn Hw]|..]; split_and!; try done; [lia|by rewrite take_0, app_nil_r].
  - intros bufs s. unfold sends_some. cbn. unfold socket_write_some_span, wrote, mbind, M_bind, run_world.
    set (some := take _ bufs). pose proof (sys_writev_law some (world s)) as Hl.
    assert (exists k, concat some = take k (concat bufs)) as [k Hk].
    { exists (length (concat some)).
      replace (concat bufs) with (concat some ++ concat (drop (Nat.min (length bufs) IOV_MAX) bufs)).
      - by rewrite take_app_length.
      - unfold some. by rewrite <- concat_app, take_drop. }
    destruct (sys_writev some (world s)) as [[n| |n] w]; cbn; destruct Hl as [Hi Hl];
      [destruct Hl as [Hn Hw]|..]; split_and!; try done.
    + rewrite Hk, length_take in Hn. lia.
    + rewrite Hw, Hk, take_written; [done|]. by rewrite <- Hk.
    + lia.
    + by rewrite take_0, app_nil_r.
  - intros n s. cbn. unfold socket_read_some, mbind, M_bind, run_world, io_result.
    pose proof (sys_read_law n (world s)) as Hl.
    destruct (sys_read n (world s)) as [[d| |m] w]; cbn; destruct Hl as [Hw Hi]; done.
  - intros s. cbn. apply shutdown_law.
Qed.

Lemma set_session_timeout_quiet t s :
  wire (world (set_session_timeout t s)) = wire (world s) /\
  incoming (world (set_session_timeout t s)) = incoming (world s) /\
  same_members s (set_session_timeout t s) /\
  m_can_write_errror (set_session_timeout t s) = m_can_write_errror s.
Proof.
  unfold set_session_timeout. destruct (negb _); [|done]. cbn -[i64].
  by destruct (notify_law (i64 (clock_now (world s) + i64 (t * ns_per_s))) (world s)) as [-> ->].
Qed.

Lemma ssl_shutdown_loop_quiet count s : wire (world (ssl_shutdown_loop count s).2) = wire (world s).
Proof.
  revert s. induction count as [|count IH]; intros s; cbn [ssl_shutdown_loop]; [done|].
  unfold mbind, M_bind, run_world. pose proof (ssl_shutdown_law (world s)) as [Hw _].
  destruct (ssl_shutdown (world s)) as [res w]. cbn in Hw.
  destruct (negb _); [done|]. cbn. pose proof (yield_law w) as [Hy _].
  destruct (coroutine_yield w) as [[ec|] w']; cbn in Hy; cbn -[ssl_shutdown_loop]; [etrans; [exact Hy|exact Hw]|].
  rewrite IH. cbn. by etrans.
Qed.

Lemma ssl_write_some_law b s : sends_some b s (ssl_write_some b s).
Proof.
  unfold sends_some, ssl_write_some, mbind, M_bind, run_world.
  pose proof (ssl_write_law (take (ssl_length (length b)) b) (world s)) as Hl.
  destruct (ssl_write _ (world s)) as [[n|[]] w]; cbn; destruct Hl as [Hi Hl];
    [destruct Hl as [Hn Hw]|..]; split_and!; try done.
  - rewrite length_take in Hn. lia.
  - by rewrite Hw, take_written.
  - lia.
  - by rewrite take_0, app_nil_r.
  - lia.
  - by rewrite take_0, app_nil_r.
Qed.

Lemma sends_some_prefix b k s w : sends_some (take k b) s w -> sends_some b s w.
Proof.
  intros (Hm & Hi & Hw). split_and!; [done..|]. destruct w.1 as [n| |]; [|done..].
  destruct Hw as (Hn & Hw & Hc). rewrite take_written in Hw by done.
  rewrite length_take in Hn. split; [lia|]. done.
Qed.

Lemma flatten_prefix room buffers : exists k, flatten room buffers = take k (concat buffers).
Proof.
  revert room. induction buffers as [|b buffers IH]; intros room; cbn.
  - by exists 0%nat.
  - case_decide as Hr; [by exists 0%nat|].
    destruct (IH (room - Nat.min (length b) room)%nat) as [k Hk].
    destruct (decide (length b <= room)%nat) as [Hle|Hgt].
    + exists (length b + k)%nat. rewrite Hk, take_app_add.
      rewrite Nat.min_l, take_ge by lia. done.
    + exists room. rewrite Nat.min_r, Nat.sub_diag by lia.
      rewrite take_app_le by lia. destruct buffers as [|b' buffers]; cbn; by rewrite ?decide_True, app_nil_r.
Qed.

Global Instance ssl_socket_session_laws t : transport_laws (ssl_socket_session t).
Proof.
  split.
  - intros b s. apply ssl_write_some_law.
  - intros [|front bufs] s.
    { cbn. unfold sends_some. cbn. by rewrite app_nil_r. }
    cbn -[concat flatten]. unfold mbind, M_bind, as_size, socket_write_size.
    cbn -[concat length flatten].
    set (s1 := if m_socket_write_size s =? 0 then _ else s).
    assert (Hs1 : same_members s s1 /\ world s1 = world s /\ m_can_write_errror s1 = m_can_write_errror s)
      by (unfold s1; by destruct (_ =? 0)).
    assert (Hback : forall w, sends_some (concat (front :: bufs)) s1 w -> sends_some (concat (front :: bufs)) s w).
    { intros w (Hm & Hi & Hw). destruct Hs1 as (Hm1 & Hw1 & Hc1). rewrite Hw1 in *.
      split_and!; [by eapply same_members_trans|done|]. by rewrite Hc1 in Hw. }
    destruct (_ || _).
    + apply Hback. pose proof (ssl_write_some_law front s1) as Hf.
      apply (sends_some_prefix _ (length front)). cbn [concat]. by rewrite take_app_length.
    + apply Hback. unfold gets.
      match goal with |- context [flatten ?room ?l] =>
        destruct (flatten_prefix room l) as [k Hk]; rewrite Hk end.
      apply (sends_some_prefix _ k), ssl_write_some_law.
  - intros n s. cbn. unfold ssl_read_some, mbind, M_bind, run_world.
    pose proof (ssl_read_law (ssl_length n) (world s)) as Hl.
    destruct (ssl_read _ (world s)) as [[d|[]] w]; cbn; destruct Hl as [Hw Hi]; done.
  - intros s. cbn. unfold ssl_shutdown_, mbind, M_bind, modify, gets.
    pose proof (proj1 (set_session_timeout_quiet t s)) as Ht.
    set (s1 := set_session_timeout t s) in *. destruct (ssl_is_init_finished (world s1)).
    + pose proof (ssl_shutdown_loop_quiet 5 s1) as Hl.
      destruct (ssl_shutdown_loop 5 s1) as [[[]|e|] s2]; cbn in Hl |- *; [|congruence..].
      destruct (shutdown_law (world s2)) as [-> _]. congruence.
    + cbn. destruct (shutdown_law (world s1)) as [-> _]. done.
Qed.

(** Both transports make one call each time, and return. *)
Class patient_transport `{!os_patience W} (tr : transport W) : Prop := {
  write_some_patient k b s : patient k (world s) ->
    patient k (world (write_some tr b s).2);
  write_some_returns b s : (write_some tr b s).1 <> Diverge;
  write_some_span_patient k bufs s : patient k (world s) ->
    patient k (world (write_some_span tr bufs s).2);
  write_some_span_returns bufs s : (write_some_span tr bufs s).1 <> Diverge;
  read_some_patient k n s : patient k (world s) ->
    patient k (world (read_some tr n s).2);
  read_some_returns n s : (read_some tr n s).1 <> Diverge;
}.

Global Instance socket_session_patient `{!os_patience W} : patient_transport socket_session.
Proof.
  split.
  - intros k b s Hk. cbn. unfold socket_write_some, mbind, M_bind, run_world.
    pose proof (sys_write_patient k b (world s) Hk) as Hl.
    by destruct (sys_write b (world s)) as [[n| |n] w].
  - intros b s. cbn. unfold socket_write_some, mbind, M_bind, run_world.
    by destruct (sys_write b (world s)) as [[n| |n] w].
  - intros k bufs s Hk. cbn. unfold socket_write_some_span, mbind, M_bind, run_world.
    set (some := take _ bufs). pose proof (sys_writev_patient k some (world s) Hk) as Hl.
    by destruct (sys_writev some (world s)) as [[n| |n] w].
  - intros bufs s. cbn. unfold socket_write_some_span, mbind, M_bind, run_world.
    by destruct (sys_writev _ (world s)) as [[n| |n] w].
  - intros k n s Hk. cbn. unfold socket_read_some, mbind, M_bind, run_world.
    pose proof (sys_read_patient k n (world s) Hk) as Hl.
    by destruct (sys_read n (world s)) as [[d| |m] w].
  - intros n s. cbn. unfold socket_read_some, mbind, M_bind, run_world.
    by destruct (sys_read n (world s)) as [[d| |m] w].
Qed.

Lemma ssl_write_some_patient `{!os_patience W} k b s :
  patient k (world s) -> patient k (world (ssl_write_some b s).2).
Proof.
  intros Hk. unfold ssl_write_some, mbind, M_bind, run_world. set (b' := take _ b).
  pose proof (ssl_write_patient k b' (world s) Hk) as Hl.
  by destruct (ssl_write b' (world s)) as [[n|[]] w].
Qed.

Lemma ssl_write_some_returns b s : (ssl_write_some b s).1 <> Diverge.
Proof.
  unfold ssl_write_some, mbind, M_bind, run_world.
  by destruct (ssl_write _ (world s)) as [[n|[]] w].
Qed.

Global Instance ssl_socket_session_patient `{!os_patience W} t :
  patient_transport (ssl_socket_session t).
Proof.
  split.
  - apply ssl_write_some_patient.
  - apply ssl_write_some_returns.
  - intros k [|front bufs] s Hk; [done|]. cbn -[flatten]. unfold mbind, M_bind, as_size, socket_write_size.
    cbn -[length flatten]. set (s1 := if m_socket_write_size s =? 0 then _ else s).
    assert (Hk1 : patient k (world s1)) by (unfold s1; by destruct (_ =? 0)).
    destruct (_ || _); by apply ssl_write_some_patient.
  - intros [|front bufs] s; [done|]. cbn -[flatten]. unfold mbind, M_bind, as_size.
    destruct (socket_write_size s) as [n s1]. destruct (_ || _); apply ssl_write_some_returns.
  - intros k n s Hk. cbn. unfold ssl_read_some, mbind, M_bind, run_world.
    pose proof (ssl_read_patient k (ssl_length n) (world s) Hk) as Hl.
    by destruct (ssl_read _ (world s)) as [[d|[]] w].
  - intros n s. cbn. unfold ssl_read_some, mbind, M_bind, run_world.
    by destruct (ssl_read _ (world s)) as [[d|[]] w].
Qed.

(** ** Writing *)

Lemma yield_or_throw_quiet s :
  let w := yield_or_throw s in
  same_members s w.2 /\ m_can_write_errror w.2 = m_can_write_errror s /\
  wire (world w.2) = wire (world s) /\ incoming (world w.2) = incoming (world s) /\
  w.1 <> Diverge.
Proof.
  cbn zeta. unfold yield_or_throw, mbind, M_bind, run_world.
  pose proof (yield_law (world s)) as [Hw Hi].
  destruct (coroutine_yield (world s)) as [[ec|] w]; cbn in *; done.
Qed.

Lemma yield_or_throw_throws s e : (yield_or_throw s).1 = Throw e -> exists ec, e = ExErrorCode ec.
Proof.
  unfold yield_or_throw, mbind, M_bind, run_world. destruct (coroutine_yield (world s)) as [[ec|] w]; [|done].
  intros [= <-]. by eexists.
Qed.

Context (tr : transport W) `{Htr : !transport_laws tr}.

Lemma session_write_throws `{!reports_codes tr} fuel b s e :
  (session_write tr fuel b s).1 = Throw e -> exists ec, e = ExErrorCode ec.
Proof.
  revert b s. induction fuel as [|fuel IH]; intros b s; [done|]. cbn [session_write]. case_decide; [done|].
  unfold mbind at 1, M_bind at 1. destruct (write_some tr b s) as [[n|e'|] s1] eqn:Ew; [| |done].
  - case_decide; [|apply IH]. unfold mbind, M_bind.
    destruct (yield_or_throw s1) as [[[]|e'|] s2] eqn:Ey; [apply IH| |done].
    intros [= <-]. apply (yield_or_throw_throws s1). by rewrite Ey.
  - intros [= <-]. apply (write_some_throws b s). by rewrite Ew.
Qed.

(** What became of a write of [b]: the first [k] bytes of it are on the wire,
    all of them when the call returned. *)
Definition sends_prefix (b : bytes) s (w : outcome exn unit * session W) : Prop :=
  same_members s w.2 /\ incoming (world w.2) = incoming (world s) /\
  exists k, (k <= length b)%nat /\ wire (world w.2) = wire (world s) ++ take k b /\
    (w.1 = Ok tt -> k = length b) /\
    (m_can_write_errror w.2 = true -> k = 0%nat /\ m_can_write_errror s = true).

Lemma sends_prefix_none b s w :
  same_members s w.2 -> incoming (world w.2) = incoming (world s) ->
  wire (world w.2) = wire (world s) -> m_can_write_errror w.2 = m_can_write_errror s ->
  (w.1 = Ok tt -> b = []) -> sends_prefix b s w.
Proof.
  intros Hm Hi Hw Hc Hok. split_and!; [done..|]. exists 0%nat.
  rewrite take_0, app_nil_r. split_and!; [lia|done| |by rewrite Hc]. intros ->%Hok. done.
Qed.

(** Nothing, or [n] bytes, and then the rest. *)
Lemma sends_prefix_after b n s s1 w :
  sends_some b s (Ok n, s1) -> sends_prefix (drop n b) s1 w -> sends_prefix b s w.
Proof.
  intros (Hm1 & Hi1 & Hn & Hw1 & Hc1 & Hc1') (Hm & Hi & k & Hk & Hw & Hall & Hc).
  cbn in *. rewrite length_drop in *.
  split_and!; [by eapply same_members_trans|congruence|]. exists (n + k)%nat.
  split_and!; [lia| | |].
  - rewrite Hw, Hw1, <- app_assoc. f_equal.
    rewrite <- (take_drop n b) at 3. rewrite take_app_add'; [done|]. rewrite length_take. lia.
  - intros Hok. specialize (Hall Hok). lia.
  - intros Ht. destruct (Hc Ht) as [-> Ht1].
    destruct (decide (n = 0%nat)) as [->|Hne]; [auto|]. rewrite Hc1 in Ht1 by done. done.
Qed.

Lemma sends_prefix_yield b s s1 s2 w :
  sends_some b s (Ok 0%nat, s1) -> yield_or_throw s1 = (Ok tt, s2) ->
  sends_prefix b s2 w -> sends_prefix b s w.
Proof.
  intros Hs Hy Hw. apply (sends_prefix_after b 0 s s1); [done|]. rewrite drop_0.
  pose proof (yield_or_throw_quiet s1) as (Hm & Hc & Hwi & Hi & _). rewrite Hy in *. cbn in *.
  destruct Hw as (Hm' & Hi' & k & Hk & Hw & Hall & Hc'). rewrite Hwi, Hi, Hc in *.
  split_and!; [by eapply same_members_trans|done|]. exists k. done.
Qed.

Lemma sends_prefix_failed b s s1 w n :
  sends_some b s (Ok 0%nat, s1) -> yield_or_throw s1 = w -> w.1 <> Ok tt ->
  n = 0%nat -> sends_prefix b s w.
Proof.
  intros Hs Hy Hne _. apply (sends_prefix_after b 0 s s1); [done|]. rewrite drop_0.
  pose proof (yield_or_throw_quiet s1) as (Hm & Hc & Hwi & Hi & _). rewrite Hy in *.
  by apply sends_prefix_none.
Qed.

Lemma sends_prefix_error b s s1 e :
  sends_some b s (Throw e, s1) -> sends_prefix b s (Throw e, s1).
Proof. intros (Hm & Hi & Hw & Hc). by apply sends_prefix_none. Qed.

Lemma session_write_spec fuel b s : sends_prefix b s (session_write tr fuel b s).
Proof.
  revert b s. induction fuel as [|fuel IH]; intros b s; cbn [session_write].
  { by apply sends_prefix_none. }
  case_decide as Hb; [by apply sends_prefix_none|].
  unfold mbind at 1, M_bind at 1. pose proof (write_some_law b s) as Hl.
  destruct (write_some tr b s) as [[n|e|] s1]; [|by apply sends_prefix_error|].
  2:{ destruct Hl as (? & ? & ? & ?). by apply sends_prefix_none. }
  case_decide as Hn; [subst n|by apply (sends_prefix_after b n s s1)].
  unfold mbind, M_bind. destruct (yield_or_throw s1) as [[[]|e|] s2] eqn:Hy.
  - by apply (sends_prefix_yield b s s1 s2).
  - by apply (sends_prefix_failed b s s1 _ 0).
  - by apply (sends_prefix_failed b s s1 _ 0).
Qed.

Lemma drop_written_concat n (bufs : list bytes) :
  (n <= length (concat bufs))%nat -> concat (drop_written n bufs) = drop n (concat bufs).
Proof.
  revert n. induction bufs as [|b bufs IH]; intros n Hn; cbn in *; [by rewrite drop_nil|].
  rewrite length_app in Hn. destruct (Nat.leb_spec (length b) n) as [Hle|Hgt].
  - rewrite IH by lia. by rewrite drop_app_ge.
  - cbn. by rewrite drop_app_le by lia.
Qed.

Lemma writev_loop_spec fuel bufs s : sends_prefix (concat bufs) s (writev_loop tr fuel bufs s).
Proof.
  revert bufs s. induction fuel as [|fuel IH]; intros bufs s; cbn [writev_loop].
  { by apply sends_prefix_none. }
  case_decide as Hb; [subst; by apply sends_prefix_none|].
  unfold mbind at 1, M_bind at 1. pose proof (write_some_span_law bufs s) as Hl.
  destruct (write_some_span tr bufs s) as [[n|e|] s1]; [|by apply sends_prefix_error|].
  2:{ destruct Hl as (? & ? & ? & ?). by apply sends_prefix_none. }
  case_decide as Hn; [subst n|].
  - unfold mbind, M_bind. destruct (yield_or_throw s1) as [[[]|e|] s2] eqn:Hy.
    + by apply (sends_prefix_yield _ s s1 s2).
    + by apply (sends_prefix_failed _ s s1 _ 0).
    + by apply (sends_prefix_failed _ s s1 _ 0).
  - apply (sends_prefix_after _ n s s1); [done|]. rewrite <- drop_written_concat; [done|].
    by destruct Hl as (_ & _ & ? & _).
Qed.

Lemma session_writev_spec fuel bufs s :
  len (concat bufs) < 2 ^ 64 -> sends_prefix (concat bufs) s (session_writev tr fuel bufs s).
Proof.
  intros H64. unfold session_writev, total_length. rewrite total_length_from, Z.add_0_l by lia.
  destruct (Z.eqb_spec (len (concat bufs)) 0) as [Hz|Hnz]; [|apply writev_loop_spec].
  apply sends_prefix_none; try done. intros _. by destruct (concat bufs).
Qed.

(** A session keeps the promise of a stream. *)
Global Program Instance session_sends fuel : @sends (session W) (session_stream tr fuel) := {|
  sent := fun s => wire (world s)
|}.
Next Obligation.
  intros fuel b s s' Hrun. destruct (session_write_spec fuel b s) as (_ & _ & k & Hk & Hw & Hall & _).
  change (session_write tr fuel b s = (Ok tt, s')) in Hrun.
  rewrite Hrun in *. rewrite (Hall eq_refl), take_ge in Hw by lia. done.
Qed.
Next Obligation.
  intros fuel bufs s s' H64 Hrun.
  destruct (session_writev_spec fuel bufs s H64) as (_ & _ & k & Hk & Hw & Hall & _).
  change (session_writev tr fuel bufs s = (Ok tt, s')) in Hrun.
  rewrite Hrun in *. rewrite (Hall eq_refl), take_ge in Hw by lia. done.
Qed.

(** ** Termination

    The event loop does not resume a session for ever: one that waits is handed
    an error when its deadline passes.  [patient k w] bounds what is left of
    that, and every loop of a session ends within as many rounds as there are
    bytes to move and waits to sit out. *)
Section termination.
Context `{Hpat : !os_patience W} `{Hptr : !patient_transport tr}.

Lemma yield_or_throw_patient k s s' :
  patient k (world s) -> yield_or_throw s = (Ok tt, s') -> exists k', k = S k' /\ patient k' (world s').
Proof.
  intros Hk. unfold yield_or_throw, mbind, M_bind, run_world.
  destruct (coroutine_yield (world s)) as [[ec|] w] eqn:E; [done|]. intros [= <-].
  exact (yield_patient k _ _ Hk E).
Qed.

Lemma session_write_returns fuel k b s :
  patient k (world s) -> (length b + k < fuel)%nat -> (session_write tr fuel b s).1 <> Diverge.
Proof.
  revert k b s. induction fuel as [|fuel IH]; intros k b s Hk Hf; [lia|]. cbn [session_write].
  case_decide as Hb; [done|]. unfold mbind at 1, M_bind at 1.
  pose proof (write_some_patient k b s Hk) as Hk1. pose proof (write_some_returns b s) as Hret. pose proof (write_some_law b s) as Hl.
  destruct (write_some tr b s) as [[n|e|] s1] eqn:Ew; [|done..]. case_decide as Hn.
  - subst n. unfold mbind, M_bind. pose proof (yield_or_throw_quiet s1) as (_ & _ & _ & _ & Hnd).
    destruct (yield_or_throw s1) as [[[]|e|] s2] eqn:Ey; [|done..].
    destruct (yield_or_throw_patient _ _ _ Hk1 Ey) as (k' & -> & Hk2). apply (IH k'); [done|lia].
  - destruct Hl as (_ & _ & Hlen & _). apply (IH k); [done|]. rewrite length_drop. lia.
Qed.

Lemma writev_loop_returns fuel k bufs s :
  patient k (world s) -> (length (concat bufs) + k < fuel)%nat -> (writev_loop tr fuel bufs s).1 <> Diverge.
Proof.
  revert k bufs s. induction fuel as [|fuel IH]; intros k bufs s Hk Hf; [lia|]. cbn [writev_loop].
  case_decide as Hb; [done|]. unfold mbind at 1, M_bind at 1.
  pose proof (write_some_span_patient k bufs s Hk) as Hk1. pose proof (write_some_span_returns bufs s) as Hret.
  pose proof (write_some_span_law bufs s) as Hl.
  destruct (write_some_span tr bufs s) as [[n|e|] s1] eqn:Ew; [|done..]. case_decide as Hn.
  - subst n. unfold mbind, M_bind. pose proof (yield_or_throw_quiet s1) as (_ & _ & _ & _ & Hnd).
    destruct (yield_or_throw s1) as [[[]|e|] s2] eqn:Ey; [|done..].
    destruct (yield_or_throw_patient _ _ _ Hk1 Ey) as (k' & -> & Hk2). apply (IH k'); [done|lia].
  - destruct Hl as (_ & _ & Hlen & _). cbn [fst snd] in *. apply (IH k); [done|].
    rewrite drop_written_concat, length_drop by done. lia.
Qed.

(** Both writes return or throw within as many rounds as there are bytes to send
    and waits before the deadline. *)
Theorem session_writes_terminate (fuel k : nat) (buffers : list bytes) s :
  patient k (world s) -> (length (concat buffers) + k < fuel)%nat ->
  (session_write tr fuel (concat buffers) s).1 <> Diverge /\
  (session_writev tr fuel buffers s).1 <> Diverge.
Proof.
  intros Hk Hf. split; [by apply (session_write_returns fuel k)|].
  unfold session_writev. destruct (_ =? 0); [done|]. by apply (writev_loop_returns fuel k).
Qed.
End termination.

(** C11: A session's write puts a prefix of the buffer on the wire, in order and
    without repeats however the socket splits it, the whole of it when it
    returns; as soon as one byte is out, the session can no longer be
    answered with an error of the server's own. *)
Theorem session_write_in_order (fuel : nat) (b : bytes) s :
  let '(o, s') := session_write tr fuel b s in
  incoming (world s') = incoming (world s) /\ m_pending s' = m_pending s /\
  exists k, (k <= length b)%nat /\ wire (world s') = wire (world s) ++ take k b /\
    (o = Ok tt -> k = length b) /\
    (m_can_write_errror s' = true -> k = 0%nat /\ m_can_write_errror s = true).
Proof.
  pose proof (session_write_spec fuel b s) as Hs.
  destruct (session_write tr fuel b s) as [o s']. destruct Hs as ((Hp & _) & Hi & Hs).
  split_and!; done.
Qed.

(** C12: A vectored write puts on the wire what a single write of the concatenated
    buffers would: a prefix of the concatenation, all of it when it
    returns, on both transports (writev, and the flattening of the TLS
    one). *)
Theorem session_writev_in_order (fuel : nat) (buffers : list bytes) s :
  len (concat buffers) < 2 ^ 64 ->
  let '(o, s') := session_writev tr fuel buffers s in
  incoming (world s') = incoming (world s) /\ m_pending s' = m_pending s /\
  exists k, (k <= length (concat buffers))%nat /\
    wire (world s') = wire (world s) ++ take k (concat buffers) /\
    (o = Ok tt -> k = length (concat buffers)) /\
    (m_can_write_errror s' = true -> k = 0%nat /\ m_can_write_errror s = true).
Proof.
  intros H64. pose proof (session_writev_spec fuel buffers s H64) as Hs.
  destruct (session_writev tr fuel buffers s) as [o s']. destruct Hs as ((Hp & _) & Hi & Hs).
  split_and!; done.
Qed.

(** ** Deadlines *)

(** A session timeout of up to 2^32 seconds sets the deadline exactly that far
    ahead. *)
Theorem session_deadline_exact (seconds : Z) s :
  0 <= clock_now (world s) < 2 ^ 62 -> 0 < seconds <= 2 ^ 32 ->
  m_session_timeout_time_point (set_session_timeout seconds s)
  = Some (clock_now (world s) + seconds * 10 ^ 9) /\
  m_session_timeout (set_session_timeout seconds s) = seconds.
Proof.
  intros Hn Hs. unfold set_session_timeout. rewrite (proj2 (Z.eqb_neq seconds 0)) by lia.
  cbn -[i64 Z.mul Z.pow]. unfold ns_per_s. rewrite (i64_small (seconds * 10 ^ 9)) by lia.
  by rewrite i64_small by lia.
Qed.

(** The allowance for the body overflows: a Content-Length of some petabytes gives
    a deadline in the past. *)
Theorem huge_content_length_is_expired (keep_alive_timeout length_ : Z) s :
  0 <= clock_now (world s) < 2 ^ 62 ->
  9223372037 <= keep_alive_timeout + length_ / (512 * 1024) <= 18446744073 ->
  exists tp,
    m_session_timeout_time_point
      (set_session_timeout (keep_alive_timeout + length_ / (512 * 1024)) s) = Some tp /\
    tp < clock_now (world s).
Proof.
  intros Hn. generalize (keep_alive_timeout + length_ / (512 * 1024)) as seconds. intros seconds Hs.
  unfold set_session_timeout. rewrite (proj2 (Z.eqb_neq seconds 0)) by lia.
  cbn -[i64 Z.mul Z.pow]. eexists. split; [done|]. unfold ns_per_s.
  assert (i64 (seconds * 10 ^ 9) = seconds * 10 ^ 9 - 2 ^ 64) as ->.
  { unfold i64. rewrite <- (Z_mod_plus_full _ (-1)), Z.mod_small by lia. lia. }
  rewrite i64_small by lia. lia.
Qed.

(** ** Serving requests *)

Section io_loop.
Context {B : Type} (headers_timeout keep_alive_timeout : Z)
  (create_session : request B ->
     M (session W * (request B * B)) exn (option (M (session W * (request B * B)) exn unit))).
Implicit Types x : session W * (request B * B).

(** C13: A connection is used for another request only when the one just served was
    read to its end, the keep alive is on and no error came with the last
    resume: an unread body is never taken for the next request. *)
Theorem serve_request_reuses_only_completed (fuel : nat) x x' :
  serve_request tr keep_alive_timeout create_session fuel x = (Ok true, x') ->
  m_state x'.2.1 = completed /\ m_keep_alive_s x'.1 <> 0 /\ coroutine_get (world x'.1) = None.
Proof.
  unfold serve_request. intros (u1 & x1 & _ & H1)%bind_inv_ok.
  apply bind_inv_ok in H1 as (x2 & x2' & _ & H2).
  apply bind_inv_ok in H2 as (u3 & x3 & _ & H3).
  apply bind_inv_ok in H3 as (handler & x4 & _ & H4). destruct handler as [run|].
  2:{ apply bind_inv_ok in H4 as (u5 & x5 & _ & [=]). }
  apply bind_inv_ok in H4 as (x5 & x5' & _ & H5).
  apply bind_inv_ok in H5 as (u6 & x6 & _ & H6).
  apply bind_inv_ok in H6 as (u7 & x7 & _ & H7).
  apply bind_inv_ok in H7 as (x8 & x8' & [= <- <-] & H8).
  apply bind_inv_ok in H8 as (u9 & x9 & H9 & H10).
  unfold mbind, M_bind, on_session, modify, get in H10. cbn in H10.
  pose proof (set_session_timeout_quiet (m_keep_alive_s x9.1) x9.1) as (_ & _ & (_ & _ & Hka) & _).
  injection H10 as Hcond <-. apply andb_true_iff in Hcond as [Hy Hk].
  apply bool_decide_eq_true in Hy. cbn in Hk |- *. rewrite Hka in *.
  apply negb_true_iff, Z.eqb_neq in Hk.
  case_decide as Hst; [injection H9 as _ <-; done|].
  unfold on_session, modify in H9. injection H9 as _ <-. cbn in Hk. done.
Qed.
End io_loop.
End proofs.
