(* ===== verification/ReadProofs.v ===== *)
(** * Reading a request: read_headers and read of src/server/streams.cpp

    Both loops feed the parser with what a read brought, keep what it did not
    consume, and read again.  [reading_loop_spec] shows, for any parser whose
    calls can be split, that this is one call of the parser on everything that
    was read; the head and the body of a request are the two instances. *)

From S2P Require Import Prelude Utils Charconv Http HttpParser HeadProofs BodyProofs Stream Session SessionProofs.

Local Open Scope Z_scope.

Section reading.
Context {W : Type} `{Hlaws : os_laws W} (tr : transport W) `{Htr : !transport_laws tr} {B : Type}.
Abbreviation X := (session W * (request B * B))%type.
Implicit Types x : X.

(** What a call of the parser works on. *)
Definition pst x : pstate B := mk_pstate (m_parser x.1) x.2.1 x.2.2.

(** The errors that come from the connection and not from the request. *)
Definition connection_error (e : exn) : Prop :=
  (exists n s, (read_some tr n s).1 = Throw e) \/ (exists s : session W, (yield_or_throw s).1 = Throw e).
Definition connection_hangs : Prop :=
  exists n s, (read_some tr n s).1 = Diverge.

Section loop.
Context (parse : bytes -> M (pstate B) exn nat) (stop : parse_state -> bool)
  (before : session W -> session W) (p0 : pstate B) (total : bytes).

(** The parser was given the bytes [t], consumed [n] of them, and is at [p]. *)
Definition fed (t : bytes) (n : nat) (p : pstate B) : Prop :=
  (t = [] /\ n = 0%nat /\ forall d, parse d p = parse d p0) \/ parse t p0 = (Ok n, p).

Context (Hbefore : forall s, before s = s \/ before s = set_can_write_error true s)
  (Hsplit : forall t u n p, parse t p0 = (Ok n, p) -> len (t ++ u) <= len total ->
     (n <= length t)%nat /\
     continues n (parse (t ++ u) p0) (parse (drop n t ++ u) p)).

Lemma feed t u n p :
  fed t n p -> len (t ++ u) <= len total ->
  (n <= length t)%nat /\
  match parse (drop n t ++ u) p with
  | (Ok m, p') => parse (t ++ u) p0 = (Ok (n + m)%nat, p')
  | (Throw e, _) => (parse (t ++ u) p0).1 = Throw e
  | (Diverge, _) => (parse (t ++ u) p0).1 = Diverge
  end.
Proof.
  intros [(-> & -> & Hp)|Hrun] Hlen.
  - split; [done|]. rewrite drop_0. cbn [app]. rewrite Hp.
    by destruct (parse u p0) as [[m|e|] p'].
  - destruct (Hsplit t u n p Hrun Hlen) as [Hn [H1 H2]]. split; [done|].
    destruct (parse (drop n t ++ u) p) as [[m|e|] p']; cbn in *; [|done..].
    specialize (H2 m eq_refl). destruct (parse (t ++ u) p0). cbn in *. congruence.
Qed.

(** Between two rounds: [u] was read and is not parsed yet. *)
Definition reading x : Prop :=
  exists t u n, fed t n (pst x) /\ m_pending x.1 = drop n t ++ u /\
    total = t ++ u ++ incoming (world x.1).

(** The end of the loop: one call on everything that was read. *)
Definition has_read x : Prop :=
  exists t n, parse t p0 = (Ok n, pst x) /\ m_pending x.1 = drop n t /\
    total = t ++ incoming (world x.1) /\ stop (state_of x) = true.

Definition fails_with (e : exn) : Prop :=
  (exists t rest, total = t ++ rest /\ (parse t p0).1 = Throw e) \/ connection_error e.
Definition hangs : Prop :=
  (exists t rest, total = t ++ rest /\ (parse t p0).1 = Diverge) \/ connection_hangs.

(** All that was read has been parsed. *)
Definition caught_up x : Prop :=
  exists t n, fed t n (pst x) /\ m_pending x.1 = drop n t /\ total = t ++ incoming (world x.1).

Definition round_post (w : outcome exn bool * X) : Prop :=
  match w.1 with
  | Ok true => has_read w.2
  | Ok false => reading w.2
  | Throw e => fails_with e
  | Diverge => hangs
  end.

Lemma run_parser_eq {A} (m : M (pstate B) exn A) x :
  run_parser m x = ((m (pst x)).1,
    (set_parser (ps_parser (m (pst x)).2) x.1, (ps_req (m (pst x)).2, ps_env (m (pst x)).2))).
Proof. unfold run_parser, pst. by destruct (m _). Qed.

Lemma caught_up_reading x : caught_up x -> reading x.
Proof.
  intros (t & n & Hf & Hp & Ht). exists t, [], n. by rewrite app_nil_r.
Qed.

(** The second half of a round: read some more. *)
Definition read_more : M X exn bool :=
  size ← gets (fun x => read_buffer_size (world x.1));
  data ← on_session (read_some tr size);
  if decide (data = []) then on_session yield_or_throw;; mret false
  else
    on_session (modify before);;
    x ← get;
    if decide (m_pending x.1 = []) then
      n ← run_parser (parse data);
      x ← get;
      if stop (state_of x) then
        on_session (modify (set_pending (drop n data)));; mret true
      else
        on_session (modify (fun s => set_pending (m_pending s ++ drop n data) s));; mret false
    else
      on_session (modify (fun s => set_pending (m_pending s ++ data) s));; mret false.

Lemma before_keeps s :
  world (before s) = world s /\ m_pending (before s) = m_pending s /\ m_parser (before s) = m_parser s.
Proof. by destruct (Hbefore s) as [->| ->]. Qed.

Lemma read_more_spec x : caught_up x -> round_post (read_more x).
Proof.
  intros (t & n & Hf & Hp & Ht). unfold read_more.
  unfold mbind at 1, M_bind at 1, gets. unfold mbind at 1, M_bind at 1, on_session at 1.
  pose proof (read_some_law (read_buffer_size (world x.1)) x.1) as Hl. cbn zeta in Hl.
  destruct (read_some tr _ x.1) as [[data|e|] s1] eqn:Er.
  2:{ right. left. do 2 eexists. by rewrite Er. }
  2:{ right. do 2 eexists. by rewrite Er. }
  cbn in Hl. destruct Hl as ((Hp1 & Hpa1 & _) & _ & _ & Hi1).
  case_decide as Hd.
  - (* nothing to read yet *)
    subst data. cbn in Hi1. unfold mbind, M_bind, on_session. cbn [fst].
    pose proof (yield_or_throw_quiet s1) as Hy. cbn zeta in Hy.
    destruct (yield_or_throw s1) as [[[]|e|] s2] eqn:Ey; cbn in Hy;
      destruct Hy as ((Hp2 & Hpa2 & _) & _ & _ & Hi2 & Hnd); [|right; right; eexists; by rewrite Ey|done].
    change (reading (s2, x.2)). apply caught_up_reading. exists t, n. unfold pst in *. cbn [fst snd].
    rewrite Hpa2, Hpa1, Hp2, Hp1, Hi2, <- Hi1. done.
  - unfold mbind at 1, M_bind at 1, on_session at 1, modify. cbn [fst snd].
    destruct (before_keeps s1) as (Hbw & Hbp & Hbq). set (s2 := before s1) in *.
    unfold mbind at 1, M_bind at 1, get. cbn [fst]. rewrite Hbp, Hp1.
    assert (Htot : total = (t ++ data) ++ incoming (world s2)) by (rewrite Hbw, Ht, Hi1; by rewrite app_assoc).
    assert (Hpst : pst (s2, x.2) = pst x) by (unfold pst; cbn; by rewrite Hbq, Hpa1).
    case_decide as Hempty.
    + destruct (feed t data n (pst x) Hf) as [Hn Hfeed].
      { rewrite Htot, (length_app (t ++ data)). lia. }
      rewrite <- Hp, Hempty in Hfeed. cbn [app] in Hfeed.
      unfold mbind at 1, M_bind at 1. rewrite run_parser_eq, Hpst.
      destruct (parse data (pst x)) as [[m|e|] p'].
      2:{ left. by exists (t ++ data), (incoming (world s2)). }
      2:{ left. by exists (t ++ data), (incoming (world s2)). }
      assert (Hdrop : drop (n + m) (t ++ data) = drop m data).
      { rewrite <- drop_drop, drop_app_le by lia. by rewrite <- Hp, Hempty. }
      cbn [fst snd]. unfold mbind at 1, M_bind at 1, get.
      set (x3 := (set_parser (ps_parser p') s2, (ps_req p', ps_env p'))) in *.
      destruct (stop (state_of x3)) eqn:Hst.
      * exists (t ++ data), (n + m)%nat. rewrite Hdrop.
        split_and!; [by destruct p'|done|done|done].
      * apply caught_up_reading. exists (t ++ data), (n + m)%nat. rewrite Hdrop.
        split_and!; [right; by destruct p'| |done].
        change (m_pending s2 ++ drop m data = drop m data). by rewrite Hbp, Hp1, Hempty.
    + exists t, data, n. split_and!; [|by rewrite <- Hp, <- Hp1, <- Hbp|by rewrite app_assoc].
      cbn [fst snd]. change (fed t n (pst (s2, x.2))). by rewrite Hpst.
Qed.

Lemma reading_round_spec x : reading x -> round_post (reading_round tr parse stop before x).
Proof.
  intros (t & u & n & Hf & Hp & Ht). unfold reading_round.
  unfold mbind at 1, M_bind at 1, get.
  assert (Hlen : len (t ++ u) <= len total).
  { rewrite Ht, app_assoc, (length_app (t ++ u)). lia. }
  destruct (feed t u n (pst x) Hf Hlen) as [Hn Hfeed]. rewrite <- Hp in Hfeed.
  assert (Htot : total = (t ++ u) ++ incoming (world x.1)) by (by rewrite <- app_assoc).
  case_decide as Hempty.
  - unfold mbind at 1, M_bind at 1, mret at 1, M_ret at 1. apply read_more_spec.
    rewrite Hp in Hempty. apply app_eq_nil in Hempty as [Hdrop ->].
    exists t, n. rewrite Hdrop, Hp, Hdrop. rewrite app_nil_r in Htot. done.
  - unfold mbind at 1, M_bind at 1. unfold mbind at 1, M_bind at 1. rewrite run_parser_eq.
    destruct (parse (m_pending x.1) (pst x)) as [[m|e|] p'].
    2:{ left. by exists (t ++ u), (incoming (world x.1)). }
    2:{ left. by exists (t ++ u), (incoming (world x.1)). }
    unfold mbind at 1, M_bind at 1, on_session at 1, modify, gets at 1. cbn [fst snd].
    change (m_pending (set_parser (ps_parser p') x.1)) with (m_pending x.1).
    set (x3 := (set_pending (drop m (m_pending x.1)) (set_parser (ps_parser p') x.1),
                (ps_req p', ps_env p'))).
    assert (Hpend : m_pending x3.1 = drop (n + m) (t ++ u)).
    { cbn. rewrite Hp, <- drop_drop. by rewrite (drop_app_le t u n) by lia. }
    assert (Hpst : pst x3 = p') by (by destruct p').
    destruct (stop (state_of x3)) eqn:Hst.
    + change (has_read x3). exists (t ++ u), (n + m)%nat. by rewrite Hpst.
    + change (round_post (read_more x3)). apply read_more_spec.
      exists (t ++ u), (n + m)%nat. rewrite Hpst.
      split_and!; [by right|done|done].
Qed.

(** [fuel] rounds of reading: the loop returned, or the request or the
    connection failed, or it has to go on reading. *)
Lemma reading_loop_spec fuel x :
  reading x ->
  let w := reading_loop fuel (reading_round tr parse stop before) x in
  match w.1 with
  | Ok _ => has_read w.2
  | Throw e => fails_with e
  | Diverge => hangs \/ reading w.2
  end.
Proof.
  revert x. induction fuel as [|fuel IH]; intros x Hx; cbn [reading_loop]; [by right|].
  unfold mbind, M_bind. pose proof (reading_round_spec x Hx) as Hr. unfold round_post in Hr.
  destruct (reading_round tr parse stop before x) as [[[|]|e|] x']; cbn in *; [done|by apply IH|done|by left].
Qed.
(** A round that has to go on reads a byte or waits. *)
Lemma reading_round_progress `{!os_patience W, !patient_transport tr} k x x' :
  patient k (world x.1) -> reading_round tr parse stop before x = (Ok false, x') ->
  exists k', patient k' (world x'.1) /\
    (length (incoming (world x'.1)) + k' < length (incoming (world x.1)) + k)%nat.
Proof.
  intros Hk. unfold reading_round. unfold mbind at 1, M_bind at 1, get.
  intros (stopped & x1 & H1 & H2)%bind_inv_ok.
  assert (world x1.1 = world x.1) as Hw1.
  { revert H1. case_decide; [by intros [= _ <-]|].
    intros (n & x2 & H1 & ([] & x3 & H3 & H4)%bind_inv_ok)%bind_inv_ok.
    rewrite run_parser_eq in H1. injection H1 as _ <-. injection H3 as <-. by injection H4 as _ <-. }
  rewrite <- Hw1 in *. clear H1 Hw1 x. destruct stopped; [done|]. change (read_more x1 = (Ok false, x')) in H2.
  revert H2. unfold read_more. unfold mbind at 1, M_bind at 1, gets.
  unfold mbind at 1, M_bind at 1, on_session at 1.
  pose proof (read_some_law (read_buffer_size (world x1.1)) x1.1) as Hl. cbn zeta in Hl.
  pose proof (read_some_patient k (read_buffer_size (world x1.1)) x1.1 Hk) as Hk1.
  destruct (read_some tr _ x1.1) as [[data|e|] s1]; [|done..]. cbn in Hl, Hk1.
  destruct Hl as (_ & _ & _ & Hi). rewrite Hi, length_app. case_decide as Hd.
  - intros ([] & x2 & Hy & [= <-])%bind_inv_ok. unfold on_session in Hy. cbn [fst] in Hy.
    pose proof (yield_or_throw_quiet s1) as (_ & _ & _ & Hi1 & _).
    destruct (yield_or_throw s1) as [[[]|e|] s2] eqn:Ey; [|done..]. injection Hy as <-.
    cbn [fst snd] in *. destruct (yield_or_throw_patient _ _ _ Hk1 Ey) as (k' & -> & Hk2).
    exists k'. split; [done|]. rewrite Hi1. lia.
  - intros ([] & x2 & [= <-] & H2)%bind_inv_ok. destruct (before_keeps s1) as (Hbw & _).
    exists k. assert (0 < length data)%nat by (destruct data; [done|cbn; lia]).
    enough (world x'.1 = world s1) as -> by (split; [done|lia]). rewrite <- Hbw.
    revert H2. unfold mbind at 1, M_bind at 1, get. case_decide.
    + intros (n & x3 & H3 & H4)%bind_inv_ok. rewrite run_parser_eq in H3. injection H3 as _ <-.
      revert H4. unfold mbind at 1, M_bind at 1, get.
      destruct (stop _); intros ([] & x4 & [= <-] & [= <-])%bind_inv_ok; done.
    + intros ([] & x4 & [= <-] & [= <-])%bind_inv_ok. done.
Qed.

Lemma reading_loop_returns `{!os_patience W, !patient_transport tr} fuel k x :
  (forall t rest, total = t ++ rest -> (parse t p0).1 <> Diverge) ->
  reading x -> patient k (world x.1) -> (length (incoming (world x.1)) + k < fuel)%nat ->
  (reading_loop fuel (reading_round tr parse stop before) x).1 <> Diverge.
Proof.
  intros Hparse. revert k x. induction fuel as [|fuel IH]; intros k x Hx Hk Hf; [lia|].
  cbn [reading_loop]. unfold mbind, M_bind.
  pose proof (reading_round_spec x Hx) as Hr. unfold round_post in Hr.
  pose proof (reading_round_progress k x) as Hp.
  destruct (reading_round tr parse stop before x) as [[[|]|e|] x']; cbn in *; [done| |done|].
  - destruct (Hp x' Hk eq_refl) as (k' & Hk' & Hlt). apply (IH k'); [done|done|lia].
  - destruct Hr as [(t & rest & Ht & Hd)|(n & s & Hd)]; [by destruct (Hparse t rest Ht)|].
    by destruct (read_some_returns n s).
Qed.
End loop.
End reading.

(** ** The head of a request *)

(** A request just constructed, and the parser at its beginning. *)
Definition fresh {B} (env : B) : pstate B :=
  mk_pstate new_parser (set_state new_request processing_url) env.

Lemma parse_head_fresh {B} (p : parser) (env : B) d :
  parse_head d (mk_pstate p new_request env) = parse_head d (fresh env).
Proof. by rewrite !parse_head_resume. Qed.

Lemma parse_head_split {B} (env : B) t u n p :
  parse_head t (fresh env) = (Ok n, p) -> len (t ++ u) < 2 ^ 64 ->
  (n <= length t)%nat /\
  continues n (parse_head (t ++ u) (fresh env)) (parse_head (drop n t ++ u) p).
Proof.
  intros Hrun Hlen. split.
  - rewrite parse_head_resume in Hrun.
    destruct (resume_incremental t u (start (fresh env)) n p) as (Hn & _); try done.
  - exact (parse_head_continues t u (fresh env) n p ltac:(done) Hlen Hrun).
Qed.

Lemma head_parsed_done {B} (p : pstate B) :
  phase_ok p -> head_parsed (req_state p) = true -> head_of p = head_done /\ req_state p <> uninitialized.
Proof.
  unfold phase_ok. destruct (head_of p); [intros ->; done|intros ->; done|].
  intros [->| ->]; done.
Qed.

(** Once the head is complete, what follows it does not matter. *)
Lemma parse_head_complete {B} (env : B) t u n p :
  parse_head t (fresh env) = (Ok n, p) -> head_parsed (req_state p) = true ->
  len (t ++ u) < 2 ^ 64 -> parse_head (t ++ u) (fresh env) = (Ok n, p).
Proof.
  intros Hrun Hst Hlen.
  assert (Hph : phase_ok p) by (refine (parse_head_phase t (fresh env) n p _ Hrun); done).
  destruct (head_parsed_done p Hph Hst) as [Hd Hq].
  destruct (parse_head_split env t u n p Hrun Hlen) as [_ [H1 H2]].
  rewrite (parse_head_done (drop n t ++ u) p Hd Hq) in H1, H2. cbn in H1, H2. rewrite Nat.add_0_r in H1.
  specialize (H2 0%nat eq_refl). destruct (parse_head (t ++ u) (fresh env)). cbn in *. congruence.
Qed.

Section requests.
Context {W : Type} `{Hlaws : os_laws W} {B : Type}.
Implicit Types s : session W.

(** What the peer has sent and the parser has not been given. *)
Definition unread s : bytes := m_pending s ++ incoming (world s).

Lemma fresh_reading s (env : B) :
  reading parse_head (fresh env) (unread s) (s, (new_request, env)).
Proof.
  exists [], (m_pending s), 0%nat. split_and!; [left|done|done].
  split_and!; [done..|]. intros d. apply parse_head_fresh.
Qed.

Lemma read_headers_spec (tr : transport W) `{!transport_laws tr} fuel s (q : request B) env :
  len (unread s) < 2 ^ 64 ->
  let w := read_headers tr fuel (s, (q, env)) in
  match w.1 with
  | Ok _ => has_read parse_head head_parsed (fresh env) (unread s) w.2
  | Throw e => fails_with tr parse_head (fresh env) (unread s) e
  | Diverge => True
  end.
Proof.
  intros Hlen. cbn zeta.
  change (read_headers tr fuel (s, (q, env))) with
    (reading_loop fuel (reading_round tr parse_head head_parsed (set_can_write_error true))
       (s, (@new_request B, env))).
  pose proof (reading_loop_spec tr parse_head head_parsed (set_can_write_error true)
    (fresh env) (unread s) ltac:(auto) ltac:(intros; apply parse_head_split; [done|lia]) fuel
    (s, (new_request, env))) as Hl. cbn zeta in Hl.
  specialize (Hl (fresh_reading s env)). by destruct (reading_loop _ _ _) as [[[]|e|] x'].
Qed.

(** C9: read_headers refines one call of parse_head: whatever the reads, waits and
    leftovers of earlier requests, the request it returns is what the
    parser makes of the bytes received in order, the leftover is exactly
    the unconsumed suffix, and an error is the parser's or the
    connection's. *)
Theorem read_headers_parses (tr : transport W) `{!transport_laws tr} (fuel : nat) s
    (q : request B) (env : B) :
  len (unread s) < 2 ^ 64 ->
  let '(o, (s', (q', env'))) := read_headers tr fuel (s, (q, env)) in
  match o with
  | Ok _ => exists t n, unread s = t ++ incoming (world s') /\
      parse_head t (fresh env) = (Ok n, mk_pstate (m_parser s') q' env') /\
      m_pending s' = drop n t /\ (m_state q' = headers_completed \/ m_state q' = completed)
  | Throw e =>
      (exists t rest, unread s = t ++ rest /\ (parse_head t (fresh env)).1 = Throw e) \/
      connection_error tr e
  | Diverge => True
  end.
Proof.
  intros Hlen. pose proof (read_headers_spec tr fuel s q env Hlen) as Hs. cbn zeta in Hs.
  destruct (read_headers tr fuel (s, (q, env))) as [[[]|e|] [s' [q' env']]]; [|done..].
  destruct Hs as (t & n & Hrun & Hp & Ht & Hst). exists t, n. split_and!; try done.
  revert Hst. unfold state_of. cbn. by destruct (m_state q'); auto.
Qed.

(** read_headers returns or throws within as many rounds as there are bytes to
    read and waits before the deadline: the loop cannot spin, on either
    transport. *)
Theorem read_headers_terminates (tr : transport W) `{!transport_laws tr, !os_patience W, !patient_transport tr}
    (fuel k : nat) s (q : request B) (env : B) :
  len (unread s) < 2 ^ 64 -> patient k (world s) -> (length (incoming (world s)) + k < fuel)%nat ->
  (read_headers tr fuel (s, (q, env))).1 <> Diverge.
Proof.
  intros Hlen Hk Hf.
  change (read_headers tr fuel (s, (q, env))) with
    (reading_loop fuel (reading_round tr parse_head head_parsed (set_can_write_error true))
       (s, (@new_request B, env))).
  apply (reading_loop_returns tr parse_head head_parsed (set_can_write_error true)
    (fresh env) (unread s) ltac:(auto) ltac:(intros; apply parse_head_split; [done|lia]) fuel k);
    [|apply fresh_reading|done|done].
  intros t rest _ Hd. pose proof (parse_head_consumes t (fresh env)) as Hc. by rewrite Hd in Hc.
Qed.

(** Two sessions, over TCP or TLS, that get the same bytes in different pieces and
    both read a request read the same request, leave their parsers in the same
    state and leave the same bytes for the body and the next request. *)
Theorem read_headers_segmentation (tr1 tr2 : transport W) `{!transport_laws tr1, !transport_laws tr2}
    (fuel1 fuel2 : nat) s1 s2 (q1 q2 : request B) (env : B) s1' s2' q1' q2' env1' env2' :
  unread s1 = unread s2 -> len (unread s1) < 2 ^ 64 ->
  read_headers tr1 fuel1 (s1, (q1, env)) = (Ok tt, (s1', (q1', env1'))) ->
  read_headers tr2 fuel2 (s2, (q2, env)) = (Ok tt, (s2', (q2', env2'))) ->
  q1' = q2' /\ m_parser s1' = m_parser s2' /\ unread s1' = unread s2'.
Proof.
  intros Heq Hlen Hr1 Hr2.
  pose proof (read_headers_spec tr1 fuel1 s1 q1 env Hlen) as H1. rewrite Hr1 in H1.
  pose proof (read_headers_spec tr2 fuel2 s2 q2 env ltac:(congruence)) as H2. rewrite Hr2 in H2.
  destruct H1 as (t1 & n1 & Hp1 & Hd1 & Ht1 & Hst1), H2 as (t2 & n2 & Hp2 & Hd2 & Ht2 & Hst2).
  cbn [fst snd] in *.
  assert (Hall : forall t n p i, parse_head t (fresh env) = (Ok n, p) -> head_parsed (req_state p) = true ->
    unread s1 = t ++ i -> parse_head (unread s1) (fresh env) = (Ok n, p) /\
      drop n t ++ i = drop n (unread s1)).
  { intros t n p i Hp Hst Ht. rewrite Ht in *. destruct (parse_head_split env t i n p Hp Hlen) as [Hn _].
    split; [by apply parse_head_complete|]. by rewrite drop_app_le. }
  destruct (Hall t1 n1 _ _ Hp1 Hst1 Ht1) as [E1 D1].
  destruct (Hall t2 n2 _ _ Hp2 Hst2 (eq_trans Heq Ht2)) as [E2 D2].
  rewrite E1 in E2. injection E2 as -> Hpar Hq _.
  split_and!; [done|done|]. unfold unread at 1 2. by rewrite Hd1, Hd2, D1, D2.
Qed.

(** ** The body of a request *)

Lemma session_read_spec (tr : transport W) `{!transport_laws tr} fuel s (q : request B) env :
  streaming (m_callback q) -> body_wf (pst (s, (q, env))) -> m_state q <> completed ->
  let w := session_read tr fuel (s, (q, env)) in
  match w.1 with
  | Ok _ => has_read parse_body (fun st => bool_decide (st = completed))
              (pst (s, (q, env))) (unread s) w.2
  | Throw e => fails_with tr parse_body (pst (s, (q, env))) (unread s) e /\
               m_keep_alive_s w.2.1 = 0
  | Diverge => True
  end.
Proof.
  intros Hcb Hwf Hq. cbn zeta. unfold session_read. rewrite decide_False by done. cbn [fst snd].
  pose proof (reading_loop_spec tr parse_body (fun st => bool_decide (st = completed)) id
    (pst (s, (q, env))) (unread s) ltac:(auto)) as Hl.
  specialize (Hl ltac:(intros t u n p Hrun _;
    destruct (parse_body_continues t u (pst (s, (q, env))) n p Hcb Hwf Hrun) as (? & ? & ?); done)).
  specialize (Hl fuel (set_can_write_error true s, (q, env))). cbn zeta in Hl.
  assert (reading parse_body (pst (s, (q, env))) (unread s) (set_can_write_error true s, (q, env))) as Hr.
  { exists [], (m_pending s), 0%nat. split_and!; [by left|done|done]. }
  specialize (Hl Hr). destruct (reading_loop _ _ _) as [[[]|e|] x']; done.
Qed.

(** C10: Reading a body through the session refines one call of parse_body on the
    bytes received in order: on success the request is completed and the
    leftover is the unconsumed suffix; on any error the keep alive was
    given up before the error leaves the function. *)
Theorem session_read_parses (tr : transport W) `{!transport_laws tr} (fuel : nat) s
    (q : request B) (env : B) :
  streaming (m_callback q) -> body_wf (mk_pstate (m_parser s) q env) -> m_state q <> completed ->
  let '(o, (s', (q', env'))) := session_read tr fuel (s, (q, env)) in
  match o with
  | Ok _ => exists t n, unread s = t ++ incoming (world s') /\
      parse_body t (mk_pstate (m_parser s) q env) = (Ok n, mk_pstate (m_parser s') q' env') /\
      m_pending s' = drop n t /\ m_state q' = completed
  | Throw e => m_keep_alive_s s' = 0 /\
      ((exists t rest, unread s = t ++ rest /\
          (parse_body t (mk_pstate (m_parser s) q env)).1 = Throw e) \/
       connection_error tr e)
  | Diverge => True
  end.
Proof.
  intros Hcb Hwf Hq. pose proof (session_read_spec tr fuel s q env Hcb Hwf Hq) as Hs. cbn zeta in Hs.
  destruct (session_read tr fuel (s, (q, env))) as [[[]|e|] [s' [q' env']]]; [| |done].
  - destruct Hs as (t & n & Hrun & Hp & Ht & Hst). exists t, n. split_and!; try done.
    by apply bool_decide_eq_true in Hst.
  - destruct Hs as [Hf Hk]. done.
Qed.

(** Reading a body returns or throws within as many rounds as there are bytes to
    read and waits before the deadline, provided the session's callback
    returns. *)
Theorem session_read_terminates (tr : transport W) `{!transport_laws tr, !os_patience W, !patient_transport tr}
    (fuel k : nat) s (q : request B) (env : B) :
  streaming (m_callback q) -> body_wf (mk_pstate (m_parser s) q env) ->
  (forall piece env, (append_body q piece env).1 <> Diverge) ->
  patient k (world s) -> (length (incoming (world s)) + k < fuel)%nat ->
  (session_read tr fuel (s, (q, env))).1 <> Diverge.
Proof.
  intros Hcb Hwf Hret Hk Hf. unfold session_read. case_decide; [done|]. cbn [fst snd].
  pose proof (reading_loop_returns tr parse_body (fun st => bool_decide (st = completed)) id
    (pst (s, (q, env))) (unread s) ltac:(auto) ltac:(intros t u n p Hrun _;
    destruct (parse_body_continues t u (pst (s, (q, env))) n p Hcb Hwf Hrun) as (? & ? & ?); done)
    fuel k (set_can_write_error true s, (q, env))) as Hl.
  destruct (reading_loop _ _ _) as [[[]|e|] x'] eqn:E; [done..|]. exfalso. apply Hl; [|..|done].
  - intros t rest _ Hd. pose proof (parse_body_consumes t (pst (s, (q, env)))) as Hc. rewrite Hd in Hc.
    destruct Hc as (piece & env' & Hc). by apply (Hret piece env').
  - exists [], (m_pending s), 0%nat. split_and!; [by left|done|done].
  - done.
  - done.
Qed.
End requests.
