(* ===== verification/Pipeline.v ===== *)
(** * A whole connection: io_loop over plugins

    What a client receives on a connection, whatever the network does: the
    answers to its requests, each once and in their order, then at most a part
    of one more answer or the error the next request ends with.  A session of a
    plugin is any function in the source; here it has the shape the documentation
    of plugins asks for: it may say where the body goes, reads the request out
    and answers with a response and at most one more write. *)

From S2P Require Import Prelude Utils Charconv Http HttpParser ParserTypes HeadProofs BodyProofs HeadFraming Stream Session SessionProofs ReadProofs.

Local Open Scope Z_scope.

(** ** What parsing a head leaves alone *)

Section untouched.
Context {B : Type}.

(** The members of a request that belong to the session. *)
Definition session_part (s : pstate B) : option (body_callback B) * Z * B :=
  (m_callback (ps_req s), m_max_body_size (ps_req s), ps_env s).

Lemma parse_header_field_part l : keeps (B:=B) session_part (parse_header_field l).
Proof.
  unfold parse_header_field, content_length_field, transfer_encoding_field, connection_field. walk.
Qed.

Lemma finalize_head_part : keeps (B:=B) session_part finalize_head.
Proof. unfold finalize_head. walk. Qed.

Lemma headers_loop_part fuel data pos : keeps (B:=B) session_part (headers_loop fuel data pos).
Proof.
  revert pos. induction fuel as [|fuel IH]; intros pos; [done|]. cbn [headers_loop].
  pose proof parse_header_field_part. pose proof finalize_head_part. walk.
Qed.

Lemma parse_headers_part data pos : keeps (B:=B) session_part (parse_headers data pos).
Proof. unfold parse_headers. pose proof headers_loop_part. walk. Qed.

Lemma skip_part fuel data pos : keeps (B:=B) session_part (skip_empty_lines fuel data pos).
Proof.
  revert pos. induction fuel as [|fuel IH]; intros pos; [done|]. cbn [skip_empty_lines]. walk.
Qed.

Lemma parse_request_line_part l : keeps (B:=B) session_part (parse_request_line l).
Proof. unfold parse_request_line. walk. Qed.

Lemma parse_head_part data : keeps (B:=B) session_part (parse_head data).
Proof.
  unfold parse_head, begin_request. pose proof parse_headers_part. pose proof skip_part.
  pose proof parse_request_line_part. walk.
Qed.

End untouched.

(** ** What reading leaves alone *)

Section reading_quiet.
Context {W : Type} `{Hlaws : os_laws W} (tr : transport W) `{Htr : !transport_laws tr} {B : Type}.
Abbreviation X := (session W * (request B * B))%type.
Implicit Types (s : session W) (x : X).

(** What was sent, and the keep alive. *)
Definition sent_part s : bytes * Z := (wire (world s), m_keep_alive_s s).

Definition silent {A} (m : M X exn A) : Prop := forall x, sent_part (m x).2.1 = sent_part x.1.

Lemma silent_ret {A} (a : A) : silent (mret a).
Proof. done. Qed.
Lemma silent_bind {A C} (m : M X exn A) (k : A -> M X exn C) :
  silent m -> (forall a, silent (k a)) -> silent (m ≫= k).
Proof.
  intros Hm Hk x. specialize (Hm x). unfold mbind, M_bind.
  destruct (m x) as [[a|e|] x']; cbn in *; [|done..]. by rewrite Hk.
Qed.
Lemma silent_get : silent get.
Proof. done. Qed.
Lemma silent_gets {A} (f : X -> A) : silent (gets f).
Proof. done. Qed.
Lemma silent_parser {A} (m : M (pstate B) exn A) : silent (run_parser m).
Proof. intros x. by rewrite run_parser_eq. Qed.
Lemma silent_modify f : (forall s, sent_part (f s) = sent_part s) -> silent (on_session (modify f)).
Proof. intros Hf x. apply Hf. Qed.
Lemma silent_yield : silent (on_session yield_or_throw).
Proof.
  intros x. unfold on_session. pose proof (yield_or_throw_quiet x.1) as Hy. cbn zeta in Hy.
  destruct (yield_or_throw x.1) as [o s']. destruct Hy as ((_ & _ & Hk) & _ & Hw & _).
  unfold sent_part. cbn in *. congruence.
Qed.
Lemma silent_read n : silent (on_session (read_some tr n)).
Proof.
  intros x. unfold on_session. pose proof (read_some_law n x.1) as Hr. cbn zeta in Hr.
  destruct (read_some tr n x.1) as [o s']. destruct Hr as ((_ & _ & Hk) & _ & Hw & _).
  unfold sent_part. cbn in *. congruence.
Qed.

Create HintDb silent.
#[local] Hint Resolve silent_ret silent_get silent_gets silent_parser silent_yield silent_read : silent.
Ltac walk_silent :=
  repeat (intros; match goal with
    | |- silent (mbind _ _) => apply silent_bind
    | |- silent (on_session (modify _)) => apply silent_modify; try done
    | |- silent (if ?b then _ else _) => destruct b
    | |- _ => solve [auto with silent nocore]
    end).

Lemma silent_reading_loop fuel (parse : bytes -> M (pstate B) exn nat) stop before :
  (forall s, sent_part (before s) = sent_part s) ->
  silent (reading_loop fuel (reading_round tr parse stop before)).
Proof.
  intros Hb. assert (Hround : silent (reading_round tr parse stop before)).
  { unfold reading_round. walk_silent. }
  induction fuel as [|fuel IH]; [done|]. cbn [reading_loop]. walk_silent; done.
Qed.
End reading_quiet.

(** ** What the parser and the sessions keep of a request and its variables *)

Section minding.
Context {W : Type} `{!os W} (tr : transport W) {B : Type} (Q : request B * B -> Prop).
Abbreviation X := (session W * (request B * B))%type.

Definition minds {A} (m : M X exn A) : Prop := forall x, Q x.2 -> Q (m x).2.2.
Definition parser_minds {A} (m : M (pstate B) exn A) : Prop :=
  forall p, Q (ps_req p, ps_env p) -> Q (ps_req (m p).2, ps_env (m p).2).

Lemma minds_ret {A} (a : A) : minds (mret a).
Proof. by intros x. Qed.
Lemma minds_throw {A} e : minds (throw e : M X exn A).
Proof. by intros x. Qed.
Lemma minds_get : minds get.
Proof. by intros x. Qed.
Lemma minds_gets {A} (f : X -> A) : minds (gets f).
Proof. by intros x. Qed.
Lemma minds_bind {A C} (m : M X exn A) (k : A -> M X exn C) : minds m -> (forall a, minds (k a)) -> minds (m ≫= k).
Proof.
  intros Hm Hk x Hx. specialize (Hm x Hx). unfold mbind, M_bind. destruct (m x) as [[a|e|] x1]; [by apply Hk|done..].
Qed.
Lemma minds_on_session {A} (m : M (session W) exn A) : minds (on_session m).
Proof. intros x Hx. unfold on_session. by destruct (m x.1). Qed.
Lemma minds_with_request {A} (m : M (session W) exn A) : minds (with_request m).
Proof. intros x Hx. unfold with_request. by destruct (m x.1). Qed.
Lemma minds_parser {A} (m : M (pstate B) exn A) : parser_minds m -> minds (run_parser m).
Proof. intros Hm x Hx. rewrite run_parser_eq. apply (Hm (pst x)). by destruct x as [? []]. Qed.

Create HintDb minds.
#[local] Hint Resolve minds_ret minds_throw minds_get minds_gets minds_on_session minds_with_request minds_parser : minds.
Ltac walk_minds :=
  repeat (intros; match goal with
    | |- minds (mbind _ _) => apply minds_bind
    | |- minds (if ?b then _ else _) => destruct b
    | |- _ => solve [auto with minds nocore]
    end).

Lemma minds_reading_loop fuel (parse : bytes -> M (pstate B) exn nat) stop before :
  (forall d, parser_minds (parse d)) -> minds (reading_loop fuel (reading_round tr parse stop before)).
Proof.
  intros Hp. assert (Hround : minds (reading_round tr parse stop before)) by (unfold reading_round; walk_minds).
  induction fuel as [|fuel IH]; [by intros x|]. cbn [reading_loop]. walk_minds.
Qed.

Context (Hbody : forall d, parser_minds (parse_body d)).
Lemma minds_session_read fuel : minds (session_read tr fuel).
Proof.
  intros x Hx. unfold session_read. case_decide; [done|].
  pose proof (minds_reading_loop fuel parse_body (fun st => bool_decide (st = completed)) id Hbody
    (set_can_write_error true x.1, x.2) Hx) as H1.
  by destruct (reading_loop _ _ _) as [[[]|e|] x2].
Qed.
Lemma minds_receive_request fuel : minds (receive_request (H:=session_stream tr fuel)).
Proof.
  pose proof (minds_session_read fuel). unfold receive_request. walk_minds.
Qed.
End minding.

(** A view of the variables that a body callback leaves alone. *)
Section views.
Context {B V : Type} (view : B -> V).
Definition discreet_callback (cb : option (body_callback B)) : Prop :=
  forall f, cb = Some f -> forall data env, view (f data env).2 = view env.

Lemma parse_body_view cb v d :
  discreet_callback cb -> parser_minds (fun x : request B * B => view x.2 = v /\ m_callback x.1 = cb) (parse_body d).
Proof.
  intros Hcb p Hp. apply (parse_body_kept (fun e => view e = v) cb); [|done].
  intros f Hf data env He. by rewrite (Hcb f Hf data env).
Qed.
End views.

(** ** Handlers *)

Section handlers.
Context {B : Type}.

(** What a handler does before it reads the request out, and the answer it has
    then: a response and what it writes after it, if anything.  [B] are the variables it shares with its callback, and what plugins
    keep between requests. *)
Record handler : Type := mk_handler {
  h_before : request B -> B -> outcome exn (request B * B);
  h_after : request B -> B -> outcome exn (response * option bytes) * B;
}.

(** A handler that writes nothing after its response. *)
Definition only_response (w : outcome exn response * B) : outcome exn (response * option bytes) * B :=
  ((fun res => (res, None)) <$> w.1, w.2).
Definition plain_handler (before : request B -> B -> outcome exn (request B * B))
    (after : request B -> B -> outcome exn response * B) : handler :=
  mk_handler before (fun q env => only_response (after q env)).

(** Before it reads, a handler may only say where the body goes: to a callback
    that does not mind how the body is cut. *)
Definition prepared (q q' : request B) : Prop :=
  q' = q \/ exists cb limit, q' = append_body_callback q cb limit /\ 0 <= limit < 2 ^ 64 /\ streaming (Some cb).
Class polite (h : handler) : Prop :=
  before_prepares q env q' env' : h_before h q env = Ok (q', env') -> prepared q q'.

(** ** The answers to the bytes of a connection

    Everything from here to [interim] is a function of the bytes the client
    sends: there is no network in it. *)

Definition expects (q : request B) : bool :=
  bool_decide (fields_find (q_fields q) (bs "Expect") = Some (bs "100-continue")).
Definition refuses (q : request B) : bool :=
  expects q && negb (content_length q =? chunked_data) && (m_max_body_size q <? content_length q).

Context (keep_alive_timeout : Z) (plugin : request B -> outcome exn (option handler)).

Definition keep_alive_of (q : request B) : Z := b2z (m_req_keep_alive q) * keep_alive_timeout.
Definition continue_text (q : request B) : bytes :=
  if expects q then to_string (make_response 100 [] []) (keep_alive_of q) else [].
Definition answer_text (q : request B) (res : response) : bytes :=
  to_string res (if m_response_keep_alive res =? -1 then keep_alive_of q else m_response_keep_alive res).

(** The body of a request, when it has one. *)
Definition read_rest (d : bytes) (p : pstate B) : outcome exn nat * pstate B :=
  if decide (req_state p = completed) then (Ok 0%nat, p) else parse_body d p.

(** The request at the front of the bytes [i], with the handler of the plugin
    and what it prepared: how many bytes its head has, the parser and the
    variables. *)
Definition next_request (i : bytes) (env : B) : option (nat * parser * handler * request B * B) :=
  match parse_head i (fresh env) with
  | (Ok n, p) =>
      if head_parsed (req_state p) then
        match plugin (ps_req p) with
        | Ok (Some h) =>
            match h_before h (ps_req p) (ps_env p) with
            | Ok (q, env1) => if refuses q then None else Some (n, ps_parser p, h, q, env1)
            | _ => None
            end
        | _ => None
        end
      else None
  | _ => None
  end.

(** The same request read out to its end: its handler, the request as it was
    prepared, the parser and the variables after the body, and the bytes that
    follow. *)
Definition read_out (i : bytes) (env : B) : option (handler * request B * pstate B * bytes) :=
  '(n, p, h, q, env1) ← next_request i env;
  match read_rest (drop n i) (mk_pstate p q env1) with
  | (Ok m, p2) => if decide (req_state p2 = completed) then Some (h, q, p2, drop m (drop n i)) else None
  | _ => None
  end.

(** The answer to that request, the bytes that follow the request, and the
    variables. *)
Definition exchange (i : bytes) (env : B) : option (bytes * bytes * B) :=
  '(h, q, p2, rest) ← read_out i env;
  match h_after h (ps_req p2) (ps_env p2) with
  | (Ok (res, more), env2) => Some (continue_text q ++ answer_text q res ++ default [] more, rest, env2)
  | _ => None
  end.

Definition interim (i : bytes) (env : B) : bytes :=
  match next_request i env with Some (_, _, _, q, _) => continue_text q | None => [] end.

(** A request no plugin has a session for. *)
Definition unserved : bytes := to_string (make_response 503 [] []) (-1).
Definition offers_nothing (i : bytes) (env : B) : Prop :=
  exists n p, parse_head i (fresh env) = (Ok n, p) /\ head_parsed (req_state p) = true /\ plugin (ps_req p) = Ok None.

(** How the request at the front of [i] fails: with the exception [e], after
    [c] was sent.  The connection may fail at any time; everything else is a
    function of the bytes, but for the cut at which a head or a body is refused. *)
Inductive fails (i : bytes) (env : B) : bytes -> exn -> Prop :=
  | fails_connection c ec : c = [] \/ c = interim i env -> fails i env c (ExErrorCode ec)
  | fails_head t rest e : i = t ++ rest -> (parse_head t (fresh env)).1 = Throw e -> fails i env [] e
  | fails_create n p e :
      parse_head i (fresh env) = (Ok n, p) -> head_parsed (req_state p) = true -> plugin (ps_req p) = Throw e ->
      fails i env [] e
  | fails_before n p h e :
      parse_head i (fresh env) = (Ok n, p) -> head_parsed (req_state p) = true -> plugin (ps_req p) = Ok (Some h) ->
      h_before h (ps_req p) (ps_env p) = Throw e -> fails i env [] e
  | fails_expectation n p h q env1 :
      parse_head i (fresh env) = (Ok n, p) -> head_parsed (req_state p) = true -> plugin (ps_req p) = Ok (Some h) ->
      h_before h (ps_req p) (ps_env p) = Ok (q, env1) -> refuses q = true -> fails i env [] (ExInt 417)
  | fails_body n p h q env1 t rest e :
      next_request i env = Some (n, p, h, q, env1) -> drop n i = t ++ rest ->
      (parse_body t (mk_pstate p q env1)).1 = Throw e -> fails i env (continue_text q) e
  | fails_after h q p2 rest e :
      read_out i env = Some (h, q, p2, rest) -> (h_after h (ps_req p2) (ps_env p2)).1 = Throw e ->
      fails i env (continue_text q) e.

(** What is sent for a request without an error answer: a part of the answer, or
    of what comes before the body, or of the answer that there is no session. *)
Definition stops (i : bytes) (env : B) (t : bytes) : Prop :=
  (exists a i' env', exchange i env = Some (a, i', env') /\ t `prefix_of` a) \/
  t `prefix_of` interim i env \/ (offers_nothing i env /\ t `prefix_of` unserved).

(** The answers to the requests at the front of [i], and what is left. *)
Inductive answers : bytes -> B -> list bytes -> bytes -> B -> Prop :=
  | answers_none i env : answers i env [] i env
  | answers_next i env a i1 env1 outs i2 env2 :
      exchange i env = Some (a, i1, env1) -> answers i1 env1 outs i2 env2 ->
      answers i env (a :: outs) i2 env2.
End handlers.
Arguments handler B : clear implicits.

(** ** A turn of io_loop *)

Section turn.
Context {W : Type} `{Hlaws : os_laws W} (tr : transport W) `{Htr : !transport_laws tr} {B : Type}.
Abbreviation X := (session W * (request B * B))%type.
Implicit Types (s : session W) (x : X) (q : request B) (env : B).

(** An error of the connection, on a transport that reports error codes. *)
Definition coded (e : exn) : Prop := reports_codes tr -> exists ec, e = ExErrorCode ec.

(** A handler run on the stream of a session and its request. *)
Definition send_answer (fuel : nat) (h : handler B) : M X exn unit := fun x =>
  match h_after h x.2.1 x.2.2 with
  | (Ok (res, more), env) =>
      (with_request (send_response (H:=session_stream tr fuel) res);;
       match more with
       | Some data => with_request (stream_write (abstract_stream:=session_stream tr fuel) data)
       | None => mret tt
       end) (x.1, (x.2.1, env))
  | (Throw e, env) => (Throw e, (x.1, (x.2.1, env)))
  | (Diverge, env) => (Diverge, (x.1, (x.2.1, env)))
  end.
Definition run_handler (fuel : nat) (h : handler B) : M X exn unit := fun x =>
  match h_before h x.2.1 x.2.2 with
  | Ok qe => (receive_request (H:=session_stream tr fuel);; send_answer fuel h) (x.1, qe)
  | Throw e => (Throw e, x)
  | Diverge => (Diverge, x)
  end.

(** The server's [create_session] for such a plugin. *)
Definition create_plain (fuel : nat) (plugin : request B -> outcome exn (option (handler B))) (q : request B)
    : M X exn (option (M X exn unit)) :=
  fun x => (match plugin q with
            | Ok h => Ok (run_handler fuel <$> h)
            | Throw e => Throw e
            | Diverge => Diverge
            end, x).

(** *** Sending a response *)

(** What became of [text]: a prefix of it is on the wire. *)
Record sends_text (text : bytes) s (o : outcome exn unit) s' : Prop := {
  st_unread : unread s' = unread s;
  st_parser : m_parser s' = m_parser s;
  st_wire : exists k, (k <= length text)%nat /\ wire (world s') = wire (world s) ++ take k text /\
    (o = Ok tt -> k = length text) /\
    (m_can_write_errror s' = true -> k = 0%nat /\ m_can_write_errror s = true);
}.

Lemma session_write_text fuel text s :
  sends_text text s (session_write tr fuel text s).1 (session_write tr fuel text s).2 /\
  m_keep_alive_s (session_write tr fuel text s).2 = m_keep_alive_s s.
Proof.
  destruct (session_write_spec tr fuel text s) as ((Hp & Hpa & Hk) & Hi & Hw).
  split; [|done]. split; [unfold unread; congruence|done|done].
Qed.

Lemma sends_text_quiet text s1 s o s' :
  unread s1 = unread s -> m_parser s1 = m_parser s -> wire (world s1) = wire (world s) ->
  m_can_write_errror s1 = m_can_write_errror s -> sends_text text s1 o s' -> sends_text text s o s'.
Proof. intros Hu Hp Hw Hc []. split; congruence || (rewrite <- Hw, <- Hc; done). Qed.

Lemma send_response_text fuel res s :
  let w := send_response (H:=session_stream tr fuel) res s in
  let ka := if m_response_keep_alive res =? -1 then m_keep_alive_s s else m_response_keep_alive res in
  sends_text (to_string res ka) s w.1 w.2 /\ m_keep_alive_s w.2 = ka.
Proof.
  cbn zeta. unfold send_response. set (r := m_response_keep_alive res).
  set (s1 := if r =? -1 then s else set_keep_alive r s).
  set (s2 := if negb (m_content_length res =? chunked_data)
             then set_session_timeout (Z.max (m_session_timeout s1) (10 + m_content_length res / (512 * 1024))) s1
             else s1).
  replace (_ s) with (session_write tr fuel (to_string res (m_keep_alive_s s2)) s2).
  2:{ unfold s2, s1, mbind, M_bind, modify. destruct (r =? -1), (m_content_length res =? chunked_data); done. }
  assert (Hq : unread s2 = unread s /\ m_parser s2 = m_parser s /\ wire (world s2) = wire (world s) /\
    m_can_write_errror s2 = m_can_write_errror s /\
    m_keep_alive_s s2 = if r =? -1 then m_keep_alive_s s else r).
  { assert (Hq1 : unread s1 = unread s /\ m_parser s1 = m_parser s /\ wire (world s1) = wire (world s) /\
      m_can_write_errror s1 = m_can_write_errror s /\ m_keep_alive_s s1 = if r =? -1 then m_keep_alive_s s else r)
      by (unfold s1; by destruct (r =? -1)).
    unfold s2. destruct (negb _); [|done].
    match goal with |- context [set_session_timeout ?t s1] =>
      destruct (set_session_timeout_quiet t s1) as (Hw & Hi & (Hp & Hpa & Hk) & Hc) end.
    unfold unread in *. rewrite Hp, Hpa, Hk, Hw, Hi, Hc. done. }
  destruct Hq as (Hu & Hpa & Hw & Hc & Hk). rewrite <- Hk.
  destruct (session_write_text fuel (to_string res (m_keep_alive_s s2)) s2) as [Ht Hka].
  split; [by eapply sends_text_quiet|done].
Qed.

Lemma send_response_throws fuel res s e :
  (send_response (H:=session_stream tr fuel) res s).1 = Throw e -> coded e.
Proof.
  intros He ?. revert He. unfold send_response, mbind, M_bind, modify, gets, mret, M_ret. cbn [stream_write session_stream].
  destruct (negb (m_response_keep_alive res =? -1)), (negb (m_content_length res =? chunked_data)); apply session_write_throws, _.
Qed.

(** One text after another. *)
Lemma sends_text_app t1 t2 s s1 o s2 :
  sends_text t1 s (Ok tt) s1 -> sends_text t2 s1 o s2 -> sends_text (t1 ++ t2) s o s2.
Proof.
  intros [Hu1 Hp1 (k1 & Hk1 & Hw1 & Hok1 & Hc1)] [Hu2 Hp2 (k2 & Hk2 & Hw2 & Hok2 & Hc2)].
  split; [congruence|congruence|]. specialize (Hok1 eq_refl). subst k1. exists (length t1 + k2)%nat. split_and!.
  - rewrite length_app. lia.
  - rewrite Hw2, Hw1, take_app_add, <- app_assoc. by rewrite firstn_all.
  - intros ->%Hok2. by rewrite length_app.
  - intros Hc. destruct (Hc2 Hc) as [-> Hc']. destruct (Hc1 Hc') as [-> ?]. done.
Qed.
Lemma sends_text_begun t1 t2 s o s1 : o <> Ok tt -> sends_text t1 s o s1 -> sends_text (t1 ++ t2) s o s1.
Proof.
  intros Ho [Hu Hp (k & Hk & Hw & _ & Hc)]. split; [done|done|]. exists k.
  rewrite length_app, take_app_le by done. split_and!; [lia|done|done|done].
Qed.

(** A response and what is written after it. *)
Lemma send_more_text fuel res more s (y : request B * B) :
  let w := (with_request (send_response (H:=session_stream tr fuel) res);;
            match more with
            | Some data => with_request (stream_write (abstract_stream:=session_stream tr fuel) data)
            | None => mret tt
            end) (s, y) in
  let ka := if m_response_keep_alive res =? -1 then m_keep_alive_s s else m_response_keep_alive res in
  sends_text (to_string res ka ++ default [] more) s w.1 w.2.1 /\ w.2.2 = y /\ m_keep_alive_s w.2.1 = ka /\
  (forall e, w.1 = Throw e -> coded e).
Proof.
  cbn zeta. unfold mbind, M_bind, with_request. cbn [fst snd].
  pose proof (send_response_text fuel res s) as [Hsend Hka]. cbn zeta in Hsend, Hka.
  pose proof (send_response_throws fuel res s) as Hth.
  destruct (send_response res s) as [[[]|e|] s1]; cbn [fst snd] in *; [|by split; [apply sends_text_begun|]..].
  destruct more as [data|]; cbn [default mret M_ret fst snd]; [|by rewrite app_nil_r].
  destruct (session_write_text fuel data s1) as [Ht Hk]. cbn [stream_write session_stream].
  pose proof (fun e He (Hr : reports_codes tr) => session_write_throws tr fuel data s1 e He) as Hth2.
  destruct (session_write tr fuel data s1) as [o s2]. cbn [fst snd] in *.
  split_and!; [by eapply sends_text_app|done|congruence|done].
Qed.

(** A failed read is the parser's or the connection's. *)
Lemma connection_error_code e : connection_error tr e -> coded e.
Proof. intros Hce ?. destruct Hce as [(n & s & He)|[s He]]; [by eapply read_some_throws|by eapply yield_or_throw_throws]. Qed.

(** *** Reading a request *)

(** What follows a complete request does not matter. *)
Lemma drop_unread (t i : bytes) n m : (n <= length t)%nat -> m = drop n t -> m ++ i = drop n (t ++ i).
Proof. intros Hn ->. by rewrite drop_app_le. Qed.

Lemma read_headers_turn fuel s q0 env :
  len (unread s) < 2 ^ 64 ->
  let w := read_headers tr fuel (s, (q0, env)) in
  wire (world w.2.1) = wire (world s) /\
  (w.1 = Ok tt -> exists n, parse_head (unread s) (fresh env) = (Ok n, pst w.2) /\
     head_parsed (state_of w.2) = true /\ unread w.2.1 = drop n (unread s)) /\
  (forall e, w.1 = Throw e -> coded e \/
     exists t rest, unread s = t ++ rest /\ (parse_head t (fresh env)).1 = Throw e) /\
  w.2.2.2 = env.
Proof.
  intros Hlen. cbn zeta. pose proof (read_headers_spec tr fuel s q0 env Hlen) as Hs. cbn zeta in Hs.
  assert (Hsil : wire (world (read_headers tr fuel (s, (q0, env))).2.1) = wire (world s)).
  { change (read_headers tr fuel (s, (q0, env))) with
      (reading_loop fuel (reading_round tr parse_head head_parsed (set_can_write_error true)) (s, (@new_request B, env))).
    pose proof (silent_reading_loop tr fuel (B:=B) parse_head head_parsed (set_can_write_error true) ltac:(done)
      (s, (new_request, env))) as H1. by injection H1. }
  assert (Henv : (read_headers tr fuel (s, (q0, env))).2.2.2 = env).
  { change (read_headers tr fuel (s, (q0, env))) with
      (reading_loop fuel (reading_round tr parse_head head_parsed (set_can_write_error true)) (s, (@new_request B, env))).
    refine (minds_reading_loop tr (fun y => y.2 = env) fuel parse_head head_parsed (set_can_write_error true) _
      (s, (new_request, env)) eq_refl).
    intros d p0 Hp0. pose proof (parse_head_part d p0) as Hpart. injection Hpart as _ _ He. cbn in *. congruence. }
  split; [done|]. split; [|split; [|done]].
  2:{ intros e He. rewrite He in Hs. destruct Hs as [Hs|Hs]; [by right|]. left. by apply connection_error_code. }
  intros Hok. rewrite Hok in Hs. destruct Hs as (t & n & Hrun & Hp & Ht & Hst).
  exists n. destruct (parse_head_split env t [] n _ Hrun) as [Hn _]; [rewrite app_nil_r|].
  { apply (f_equal length) in Ht. rewrite length_app in Ht. lia. }
  split_and!; [|done|].
  - rewrite Ht. apply parse_head_complete; [done|done|]. by rewrite <- Ht.
  - rewrite Ht. by apply drop_unread.
Qed.

Lemma session_read_turn fuel s q env :
  streaming (m_callback q) -> body_wf (mk_pstate (m_parser s) q env) ->
  let w := session_read tr fuel (s, (q, env)) in
  wire (world w.2.1) = wire (world s) /\
  (w.1 = Ok tt -> m_keep_alive_s w.2.1 = m_keep_alive_s s /\
     exists m, read_rest (unread s) (mk_pstate (m_parser s) q env) = (Ok m, pst w.2) /\
       state_of w.2 = completed /\ unread w.2.1 = drop m (unread s)) /\
  (forall e, w.1 = Throw e -> coded e \/
     exists t rest, unread s = t ++ rest /\ (parse_body t (mk_pstate (m_parser s) q env)).1 = Throw e).
Proof.
  intros Hcb Hwf. cbn zeta. destruct (decide (m_state q = completed)) as [Hc|Hc].
  { unfold session_read. rewrite decide_True by done. cbn. split; [done|]. split; [|done]. intros _. split; [done|].
    exists 0%nat. unfold read_rest. rewrite decide_True by done. done. }
  pose proof (session_read_spec tr fuel s q env Hcb Hwf Hc) as Hs. cbn zeta in Hs.
  assert (Hsil : wire (world (session_read tr fuel (s, (q, env))).2.1) = wire (world s) /\
    ((session_read tr fuel (s, (q, env))).1 = Ok tt ->
     m_keep_alive_s (session_read tr fuel (s, (q, env))).2.1 = m_keep_alive_s s)).
  { unfold session_read. rewrite decide_False by done. cbn [fst snd].
    pose proof (silent_reading_loop tr fuel (B:=B) parse_body (fun st => bool_decide (st = completed)) id ltac:(done)
      (set_can_write_error true s, (q, env))) as H1. injection H1 as Hw Hk.
    destruct (reading_loop _ _ _) as [[[]|e|] x2]; done. }
  destruct Hsil as [Hw Hk]. split; [done|]. split.
  2:{ intros e He. rewrite He in Hs. destruct Hs as [[Hs|Hs] _]; [by right|]. left. by apply connection_error_code. }
  intros Hok. split; [by apply Hk|].
  rewrite Hok in Hs. destruct Hs as (t & m & Hrun & Hp & Ht & Hst%bool_decide_eq_true).
  exists m. unfold read_rest. rewrite decide_False by done.
  destruct (parse_body_continues t (incoming (world (session_read tr fuel (s, (q, env))).2.1))
    (pst (s, (q, env))) m _ Hcb Hwf Hrun) as (Hm & H1 & H2).
  cbn zeta in H1, H2. rewrite (parse_body_finished _ _ (Hst : req_state (pst (session_read tr fuel (s, (q, env))).2) = completed)) in H1, H2.
  cbn in H1, H2. rewrite Nat.add_0_r in H1.
  split_and!; [|done|].
  - rewrite Ht. specialize (H2 0%nat eq_refl). destruct (parse_body (t ++ _) _). cbn in *. unfold pst in *. cbn in *. congruence.
  - rewrite Ht. by apply drop_unread.
Qed.

(** A text of which nothing, or something that rules out an error answer, went
    out. *)
Definition cut_text (text t : bytes) (can : bool) : Prop := t = [] \/ (can = false /\ t `prefix_of` text).

Lemma sends_text_cut text s o s' :
  sends_text text s o s' ->
  exists t, wire (world s') = wire (world s) ++ t /\ cut_text text t (m_can_write_errror s') /\
    (o = Ok tt -> t = text).
Proof.
  intros Ht. destruct (st_wire _ _ _ _ Ht) as (k & Hk & Hw & Hok & Hc). exists (take k text).
  split_and!; [done| |intros ->%Hok; by rewrite firstn_all].
  destruct (m_can_write_errror s'); [left; by destruct (Hc eq_refl) as [-> _]|].
  right. split; [done|]. exists (drop k text). by rewrite take_drop.
Qed.

Context (keep_alive_timeout : Z).

(** What a request that is not read out has sent: a part of the 100, and then
    nothing will follow; or all of it, or nothing. *)
Definition stopped_reading s q env (t : bytes) (can : bool) (o : outcome exn unit) : Prop :=
  t `prefix_of` continue_text keep_alive_timeout q /\
  (can = true -> forall e, o = Throw e ->
     ((t = [] \/ t = continue_text keep_alive_timeout q) /\ coded e) \/
     (t = continue_text keep_alive_timeout q /\
      exists u rest, unread s = u ++ rest /\ (parse_body u (mk_pstate (m_parser s) q env)).1 = Throw e)).

Lemma receive_request_eq fuel s q env :
  refuses q = false ->
  receive_request (H:=session_stream tr fuel) (s, (q, env)) =
  if expects q then
    match send_response (H:=session_stream tr fuel) (make_response 100 [] []) s with
    | (Ok _, s1) => session_read tr fuel (s1, (q, env))
    | (Throw e, s1) => (Throw e, (s1, (q, env)))
    | (Diverge, s1) => (Diverge, (s1, (q, env)))
    end
  else session_read tr fuel (s, (q, env)).
Proof.
  unfold refuses, expects, receive_request. intros Href.
  unfold mbind, M_bind, get, with_request. cbn [fst snd].
  destruct (decide (fields_find (q_fields q) (bs "Expect") = Some (bs "100-continue"))) as [He|He].
  - rewrite bool_decide_eq_true_2 in * by done. cbn [andb] in Href. rewrite Href. cbn [fst snd].
    by destruct (send_response _ s) as [[[]|e|] s1].
  - by rewrite bool_decide_eq_false_2.
Qed.

Lemma receive_request_refuses fuel s q env :
  refuses q = true ->
  receive_request (H:=session_stream tr fuel) (s, (q, env)) = (Throw (ExInt 417), (s, (q, env))).
Proof.
  unfold refuses, expects, receive_request. intros Href.
  unfold mbind, M_bind, get. cbn [fst snd].
  apply andb_true_iff in Href as [[He%bool_decide_eq_true Hc]%andb_true_iff Hm].
  destruct (decide _) as [_|Hne]; [|done]. by rewrite Hc, Hm.
Qed.

Lemma receive_turn fuel s q env :
  streaming (m_callback q) -> body_wf (mk_pstate (m_parser s) q env) -> refuses q = false ->
  m_keep_alive_s s = keep_alive_of keep_alive_timeout q ->
  let w := receive_request (H:=session_stream tr fuel) (s, (q, env)) in
  exists t, wire (world w.2.1) = wire (world s) ++ t /\
    (w.1 = Ok tt -> t = continue_text keep_alive_timeout q /\ m_keep_alive_s w.2.1 = m_keep_alive_s s /\
       exists m, read_rest (unread s) (mk_pstate (m_parser s) q env) = (Ok m, pst w.2) /\
         state_of w.2 = completed /\ unread w.2.1 = drop m (unread s)) /\
    (w.1 <> Ok tt -> stopped_reading s q env t (m_can_write_errror w.2.1) w.1).
Proof.
  intros Hcb Hwf Href Hka. cbn zeta. rewrite receive_request_eq by done.
  unfold stopped_reading, continue_text. destruct (expects q).
  - pose proof (send_response_text fuel (make_response 100 [] []) s) as [Hsend Hk]. cbn zeta in Hsend, Hk.
    change (m_response_keep_alive (make_response 100 [] []) =? -1) with true in Hsend, Hk. cbv iota in Hsend, Hk.
    pose proof (send_response_throws fuel (make_response 100 [] []) s) as Hth.
    rewrite Hka in Hsend. destruct (send_response _ s) as [o s1]. cbn [fst snd] in Hsend, Hk, Hth.
    destruct (sends_text_cut _ _ _ _ Hsend) as (t & Hw & Hcut & Hall). exists t.
    destruct o as [[]|e|]; cbn [fst snd].
    + specialize (Hall eq_refl). pose proof (session_read_turn fuel s1 q env Hcb) as Hr.
      rewrite (st_parser _ _ _ _ Hsend) in Hr. destruct (Hr Hwf) as (Hw2 & Hok2 & Hbad2).
      rewrite (st_unread _ _ _ _ Hsend) in Hok2, Hbad2. split; [by rewrite Hw2|]. split.
      * intros Hok. destruct (Hok2 Hok) as [Hk2 Hm]. split_and!; [done|congruence|done].
      * intros _. rewrite Hall. split; [done|]. intros _ e He. destruct (Hbad2 e He); auto.
    + split_and!; [done|done|]. intros _. destruct Hcut as [->|[Hc Hp]].
      * split; [apply prefix_nil|]. intros _ e' [= <-]. left. split; [by left|by apply Hth].
      * split; [done|]. by rewrite Hc.
    + split_and!; [done|done|]. intros _. destruct Hcut as [->|[Hc Hp]]; (split; [done || apply prefix_nil|done]).
  - destruct (session_read_turn fuel s q env Hcb Hwf) as (Hw & Hok & Hbad).
    exists []. rewrite app_nil_r. split_and!; [done| |].
    + intros H1. destruct (Hok H1) as [Hk Hm]. done.
    + intros _. split; [done|]. intros _ e He. destruct (Hbad e He); auto.
Qed.

(** *** Running a handler *)

Context (plugin : request B -> outcome exn (option (handler B))).
Local Abbreviation exchange := (exchange keep_alive_timeout plugin).
Local Abbreviation interim := (interim keep_alive_timeout plugin).
Local Abbreviation read_out := (read_out plugin).
Local Abbreviation fails := (fails keep_alive_timeout plugin).
Local Abbreviation stops := (stops keep_alive_timeout plugin).
Local Abbreviation keep_alive_of := (keep_alive_of keep_alive_timeout).
Local Abbreviation continue_text := (continue_text keep_alive_timeout).
Local Abbreviation answer_text := (answer_text keep_alive_timeout).

(** What a turn that failed has sent: an error will follow only when the session
    can still write one, and then it is that of the turn. *)
Definition thrown {A} (o : outcome exn A) : option exn := match o with Throw e => Some e | _ => None end.
Definition cut_off (i : bytes) env (t : bytes) (can : bool) (ex : option exn) : Prop :=
  stops i env t /\ (can = true -> forall e, ex = Some e -> fails i env t e).

Lemma cut_off_nothing i env can ex :
  (forall e, ex = Some e -> fails i env [] e) -> cut_off i env [] can ex.
Proof. intros Hf. split; [right; left; apply prefix_nil|]. by intros _. Qed.

(** What the variables of a turn that failed are, as far as a callback leaves
    them alone: those of before, or those the handler left after it had the whole
    request. *)
Context {V : Type} (view : B -> V).
Definition discreet (h : handler B) : Prop :=
  forall q env q' env', h_before h q env = Ok (q', env') -> m_callback q = None ->
    view env' = view env /\ discreet_callback view (m_callback q').
Definition settles (i : bytes) env (v : V) : Prop :=
  v = view env \/
  exists h q p2 rest, read_out i env = Some (h, q, p2, rest) /\ v = view (h_after h (ps_req p2) (ps_env p2)).2.

Lemma prepared_facts q q' :
  m_callback q = None -> m_max_body_size q = 0 -> prepared q q' ->
  streaming (m_callback q') /\ 0 <= m_max_body_size q' < 2 ^ 64 /\ keep_alive_of q' = keep_alive_of q.
Proof.
  intros Hcb Hmax [->|(cb & limit & -> & Hl & Hs)]; [|done]. rewrite Hcb, Hmax. split_and!; done || lia.
Qed.

Lemma receive_request_view fuel s q env :
  discreet_callback view (m_callback q) ->
  view (receive_request (H:=session_stream tr fuel) (s, (q, env))).2.2.2 = view env.
Proof.
  intros Hcb. refine (proj1 (minds_receive_request tr (fun y => view y.2 = view env /\ m_callback y.1 = m_callback q)
    _ fuel (s, (q, env)) _)); [|done]. intros d. by apply parse_body_view.
Qed.

Lemma send_answer_turn fuel h s q env1 q2 :
  m_keep_alive_s s = keep_alive_of q ->
  let w := send_answer fuel h (s, (q2, env1)) in
  w.2.2 = (q2, (h_after h q2 env1).2) /\ unread w.2.1 = unread s /\
  match (h_after h q2 env1).1 with
  | Ok (res, more) =>
      exists t, wire (world w.2.1) = wire (world s) ++ t /\
        cut_text (answer_text q res ++ default [] more) t (m_can_write_errror w.2.1) /\
        (w.1 = Ok tt -> t = answer_text q res ++ default [] more) /\
        (forall e, w.1 = Throw e -> coded e)
  | o => thrown w.1 = thrown o /\ w.1 <> Ok tt /\ wire (world w.2.1) = wire (world s)
  end.
Proof.
  intros Hka. cbn zeta. unfold send_answer. cbn [fst snd].
  destruct (h_after h q2 env1) as [[[res more]|e|] env2]; cbn [fst snd]; [|done..].
  pose proof (send_more_text fuel res more s (q2, env2)) as (Hsend & Hq2 & _ & Hth). cbn zeta in Hsend. rewrite Hka in Hsend.
  split; [done|]. split; [apply Hsend|]. destruct (sends_text_cut _ _ _ _ Hsend) as (t & ? & ? & ?). by exists t.
Qed.

(** The part of [handler_turn] after the request was prepared. *)
Lemma prepared_turn fuel h s i env n p q env1 :
  next_request plugin i env = Some (n, p, h, q, env1) -> refuses q = false ->
  streaming (m_callback q) -> discreet_callback view (m_callback q) -> body_wf (mk_pstate p q env1) ->
  m_parser s = p -> unread s = drop n i -> m_keep_alive_s s = keep_alive_of q -> view env1 = view env ->
  let w := (receive_request (H:=session_stream tr fuel);; send_answer fuel h) (s, (q, env1)) in
  exists t, wire (world w.2.1) = wire (world s) ++ t /\
    (w.1 = Ok tt -> exchange i env = Some (t, unread w.2.1, w.2.2.2) /\ state_of w.2 = completed) /\
    (w.1 <> Ok tt -> (reports_codes tr -> cut_off i env t (m_can_write_errror w.2.1) (thrown w.1)) /\ settles i env (view w.2.2.2)).
Proof.
  intros Hnext Href Hstr Hdis Hwf Hpar Hun Hka Hview. cbn zeta. unfold mbind, M_bind.
  assert (Hint : interim i env = continue_text q) by (unfold Pipeline.interim; by rewrite Hnext).
  destruct (receive_turn fuel s q env1 Hstr) as (t & Hw & Hok & Hbad); [by rewrite Hpar|done..|].
  pose proof (receive_request_view fuel s q env1 Hdis) as Hv. rewrite Hview in Hv.
  destruct (receive_request (s, (q, env1))) as [[[]|e|] [s1 [q1 env1']]]; cbn [fst snd] in *.
  2,3: exists t; (split_and!; [done|done|]); intros _; (split; [|by left]);
    intros Hr; destruct (Hbad ltac:(done)) as [Hpre Herr]; (split; [right; left; by rewrite Hint|]); intros Hc e' [= <-];
    (destruct (Herr Hc e eq_refl) as [[Ht Hcode]|(-> & u & rest & Hu & He)];
     [destruct (Hcode Hr) as [ec ->]; apply fails_connection; by rewrite Hint|rewrite <- Hpar in Hnext; eapply fails_body; [exact Hnext|by rewrite <- Hun|exact He]]).
  destruct (Hok eq_refl) as (-> & Hk1 & m & Hrest & Hcompl & Hun1).
  assert (Hro : read_out i env = Some (h, q, pst (s1, (q1, env1')), drop m (drop n i))).
  { unfold Pipeline.read_out. rewrite Hnext. cbn [mbind option_bind]. rewrite <- Hun, <- Hpar, Hrest. by rewrite decide_True. }
  destruct (send_answer_turn fuel h s1 q env1' q1) as (Hq2 & Hun2 & Hans); [congruence|].
  unfold state_of. rewrite Hq2, Hun2, Hun1, Hun. cbn [fst snd].
  assert (Hset : settles i env (view (h_after h q1 env1').2)) by (right; do 4 eexists; split; [exact Hro|done]).
  assert (Hex : exchange i env = match h_after h q1 env1' with
    | (Ok (res, more), env2) => Some (continue_text q ++ answer_text q res ++ default [] more, drop m (drop n i), env2)
    | _ => None end) by (unfold Pipeline.exchange; rewrite Hro; done).
  destruct (h_after h q1 env1') as [[[res more]|e|] env2] eqn:Hafter; cbn [fst snd] in *.
  - destruct Hans as (t' & Hw' & Hcut & Hall & Hth). exists (continue_text q ++ t').
    rewrite Hw', Hw, app_assoc. split; [done|]. split.
    + intros Hdone. rewrite Hex, (Hall Hdone). done.
    + intros _. split; [|done]. intros Hr. split.
      * left. do 3 eexists. split; [exact Hex|]. apply prefix_app. destruct Hcut as [->|[_ ?]]; [apply prefix_nil|done].
      * intros Hc e He. destruct Hcut as [->|[Hno _]]; [|congruence]. rewrite app_nil_r.
        destruct (Hth e) as [ec ->]; [by destruct (send_answer _ _ _).1; simplify_eq/=|done|].
        apply fails_connection. right. by rewrite Hint.
  - destruct Hans as (Hth & Hne & Hw'). exists (continue_text q). rewrite Hw', Hw. split_and!; [done|done|].
    intros _. split; [|done]. intros _. split; [right; left; by rewrite Hint|]. intros _ e'. rewrite Hth. intros [= <-].
    eapply fails_after; [exact Hro|]. cbn. by rewrite Hafter.
  - destruct Hans as (Hth & Hne & Hw'). exists (continue_text q). rewrite Hw', Hw. split_and!; [done|done|].
    intros _. split; [|done]. intros _. split; [right; left; by rewrite Hint|]. intros _ e'. by rewrite Hth.
Qed.

Lemma handler_turn fuel (h : handler B) `{!polite h} s i env n p :
  discreet h ->
  parse_head i (fresh env) = (Ok n, p) -> head_parsed (req_state p) = true -> plugin (ps_req p) = Ok (Some h) ->
  m_parser s = ps_parser p -> unread s = drop n i -> m_keep_alive_s s = keep_alive_of (ps_req p) ->
  let w := run_handler fuel h (s, (ps_req p, ps_env p)) in
  exists t, wire (world w.2.1) = wire (world s) ++ t /\
    (w.1 = Ok tt -> exchange i env = Some (t, unread w.2.1, w.2.2.2) /\ state_of w.2 = completed) /\
    (w.1 <> Ok tt -> (reports_codes tr -> cut_off i env t (m_can_write_errror w.2.1) (thrown w.1)) /\ settles i env (view w.2.2.2)).
Proof.
  intros Hdis Hrun Hst Hpl Hpar Hun Hka. cbn zeta. unfold run_handler. cbn [fst snd].
  assert (Hnext : next_request plugin i env = match h_before h (ps_req p) (ps_env p) with
    | Ok (q, env1) => if refuses q then None else Some (n, ps_parser p, h, q, env1) | _ => None end).
  { unfold next_request. by rewrite Hrun, Hst, Hpl. }
  pose proof (parse_head_part i (fresh env)) as Hpart. rewrite Hrun in Hpart. injection Hpart as Hcb Hmax Henv.
  assert (Hnothing : forall (o : outcome exn unit) (v : V), o <> Ok tt -> (forall e, o = Throw e -> fails i env [] e) -> v = view env ->
    exists t, wire (world s) = wire (world s) ++ t /\ (o = Ok tt -> exchange i env = Some (t, unread s, ps_env p) /\ m_state (ps_req p) = completed) /\
    (o <> Ok tt -> (reports_codes tr -> cut_off i env t (m_can_write_errror s) (thrown o)) /\ settles i env v)).
  { intros o v Hne He Hv. exists []. rewrite app_nil_r. split_and!; [done|done|]. intros _. split; [intros _|by left].
    apply cut_off_nothing. intros e. destruct o as [|e'|]; [done| |done]. intros [= <-]. by apply He. }
  destruct (h_before h (ps_req p) (ps_env p)) as [[q env1]|e|] eqn:Hb; cbn [fst snd].
  2:{ apply Hnothing; [done| |by rewrite Henv]. intros e' [= <-]. by eapply fails_before. }
  2:{ apply Hnothing; [done|done|by rewrite Henv]. }
  destruct (prepared_facts (ps_req p) q Hcb Hmax (before_prepares _ _ _ _ Hb)) as (Hstr & Hlim & Hkq).
  destruct (Hdis _ _ _ _ Hb Hcb) as [Hv Hdc]. rewrite Henv in Hv.
  assert (Hph : phase_ok p) by (refine (parse_head_phase i (fresh env) n p _ Hrun); done).
  destruct (head_parsed_done p Hph Hst) as [Hd _].
  assert (Hfr : framed p).
  { apply (head_done_framed i new_parser env n); [|done]. by rewrite parse_head_fresh. }
  destruct (refuses q) eqn:Href.
  { unfold mbind, M_bind. rewrite receive_request_refuses by done. exists []. rewrite app_nil_r.
    split_and!; [done|done|]. intros _. split; [intros _|by left]. apply cut_off_nothing. intros e [= <-].
    by eapply fails_expectation. }
  apply (prepared_turn fuel h s i env n (ps_parser p)); try done; [|by rewrite Hkq].
  by apply framed_body_wf.
Qed.

(** *** Serving a request, and requests *)

Context (Hpolite : forall q h, plugin q = Ok (Some h) -> polite h)
  (Hdiscreet : forall q h, plugin q = Ok (Some h) -> discreet h).

Lemma exchange_rest i env a i' env' : exchange i env = Some (a, i', env') -> exists k, i' = drop k i.
Proof.
  unfold Pipeline.exchange, Pipeline.read_out. destruct (next_request plugin i env) as [[[[[n p] h] q] env1]|]; [|done].
  cbn [mbind option_bind]. destruct (read_rest _ _) as [[m|e|] p2]; [|by cbn..]. case_decide; [|by cbn].
  cbn [mbind option_bind]. destruct (h_after h (ps_req p2) (ps_env p2)) as [[[res more]|e|] env2]; [|done..]. intros [= _ <- _].
  exists (n + m)%nat. by rewrite drop_drop.
Qed.

Lemma offers_nothing_exchange i env : offers_nothing plugin i env -> exchange i env = None.
Proof.
  intros (n & p & Hrun & Hst & Hpl). unfold Pipeline.exchange, Pipeline.read_out, next_request. by rewrite Hrun, Hst, Hpl.
Qed.

(** What a turn has made of the bytes [i]. *)
Definition turn_post (i : bytes) env s (w : outcome exn bool * X) : Prop :=
  exists t, wire (world w.2.1) = wire (world s) ++ t /\
    match w.1 with
    | Ok b => exchange i env = Some (t, unread w.2.1, w.2.2.2) \/
              (b = false /\ t = unserved /\ offers_nothing plugin i env /\ view w.2.2.2 = view env)
    | o => (reports_codes tr -> cut_off i env t (m_can_write_errror w.2.1) (thrown o)) /\ settles i env (view w.2.2.2)
    end.

Lemma turn_nothing i env s o x' :
  wire (world x'.1) = wire (world s) -> (forall b, o <> Ok b) -> (reports_codes tr -> forall e, o = Throw e -> fails i env [] e) ->
  view x'.2.2 = view env -> turn_post i env s (o, x').
Proof.
  intros Hw Ho Hf Hv. exists []. rewrite app_nil_r. split; [done|]. cbn.
  destruct o as [b|e|]; [by destruct (Ho b)|split; [intros Hr|by left]; apply cut_off_nothing..]; [|done].
  intros e' [= <-]. by apply Hf.
Qed.

Lemma serve_turn hfuel fuel s q0 env :
  len (unread s) < 2 ^ 64 ->
  turn_post (unread s) env s
    (serve_request tr keep_alive_timeout (create_plain hfuel plugin) fuel (s, (q0, env))).
Proof.
  intros Hlen. unfold serve_request. unfold mbind at 1, M_bind at 1.
  destruct (read_headers_turn fuel s q0 env Hlen) as (Hw1 & Hok1 & Hbad1 & Henv).
  destruct (read_headers tr fuel (s, (q0, env))) as [[[]|e|] [s1 [q1 env1]]]; cbn [fst snd] in *; subst env1.
  2:{ apply turn_nothing; [done..| |done]. intros Hr e' [= <-]. destruct (Hbad1 e eq_refl) as [Hcode|(t & rest & Ht & He)].
      - destruct (Hcode Hr) as [ec ->]. apply fails_connection. by left.
      - by eapply fails_head. }
  2: by apply turn_nothing.
  destruct (Hok1 eq_refl) as (n & Hrun & Hst & Hun1). clear Hok1 Hbad1.
  unfold mbind at 1, M_bind at 1, get. cbn [fst snd].
  unfold mbind at 1, M_bind at 1, on_session at 1, modify. cbn [fst snd].
  set (s2 := set_keep_alive _ s1). unfold mbind at 1, M_bind at 1, create_plain.
  destruct (plugin q1) as [[h|]|e|] eqn:Hpl; cbn [fmap option_fmap option_map fst snd].
  3:{ apply turn_nothing; [done..| |done]. intros _ e' [= <-]. by eapply fails_create. }
  3: by apply turn_nothing.
  - unfold mbind at 1, M_bind at 1, get. cbn [fst snd].
    unfold mbind at 1, M_bind at 1, on_session at 1, modify. cbn [fst snd].
    set (t3 := if negb _ then _ else _).
    destruct (set_session_timeout_quiet t3 s2) as (Hw3 & Hi3 & (Hp3 & Hpa3 & Hk3) & _).
    set (s3 := set_session_timeout t3 s2) in *.
    assert (polite h) by by eapply Hpolite. pose proof (Hdiscreet _ _ Hpl) as Hdis.
    destruct (handler_turn hfuel h s3 (unread s) env n (pst (s1, (q1, env))) Hdis Hrun Hst Hpl Hpa3)
      as (t & Hw & Hok & Hbad); [unfold unread in *; by rewrite Hp3, Hi3|done|].
    change (ps_req (pst (s1, (q1, env)))) with q1 in *. change (ps_env (pst (s1, (q1, env)))) with env in *.
    unfold mbind at 1, M_bind at 1.
    destruct (run_handler hfuel h (s3, (q1, env))) as [[[]|e|] x4]; cbn [fst snd] in *.
    2,3: exists t; (split; [cbn [fst snd]; rewrite Hw, Hw3; by apply (f_equal (fun b => b ++ t))|by apply Hbad]).
    destruct (Hok eq_refl) as [Hex Hcompl].
    unfold mbind at 1, M_bind at 1, get. rewrite decide_True by done.
    unfold mbind, M_bind, mret, M_ret, on_session, modify, get. cbn [fst snd].
    destruct (set_session_timeout_quiet (m_keep_alive_s x4.1) x4.1) as (Hw5 & Hi5 & (Hp5 & _) & _).
    exists t. cbn [fst snd]. destruct (served_law (world (set_session_timeout (m_keep_alive_s x4.1) x4.1))) as [Hw6 Hi6].
    split; [cbn; rewrite Hw6, Hw5, Hw, Hw3; by apply (f_equal (fun b => b ++ t))|].
    left. rewrite Hex. unfold unread. cbn. by rewrite Hi6, Hi5, Hp5.
  - assert (Hoff : offers_nothing plugin (unread s) env) by (by eexists n, _).
    unfold mbind, M_bind, mret, M_ret, on_session. cbn [fst snd].
    destruct (session_write_text fuel unserved s2) as [Ht _]. pose proof (fun e He (Hr : reports_codes tr) => session_write_throws tr fuel unserved s2 e He) as Hth.
    destruct (sends_text_cut _ _ _ _ Ht) as (t & Hw & Hcut & Hall).
    assert (Hpre : t `prefix_of` unserved) by (destruct Hcut as [->|[_ ?]]; [apply prefix_nil|done]).
    fold unserved. destruct (session_write tr fuel unserved s2) as [[[]|e|] s3]; cbn [fst snd] in *;
      exists t; (split; [cbn [fst snd]; rewrite Hw; by apply (f_equal (fun b => b ++ t))|]).
    + right. by split_and!; [|apply Hall|..].
    + split; [intros Hr|by left]. split; [right; by right|]. intros Hc e' [= <-]. destruct Hcut as [->|[? _]]; [|cbn in Hc; congruence].
      destruct (Hth e eq_refl Hr) as [ec ->]. apply fails_connection. by left.
    + split; [intros _|by left]. split; [right; by right|done].
Qed.

Local Abbreviation answers := (answers keep_alive_timeout plugin).

Definition loop_post (i : bytes) env s (w : outcome exn unit * X) : Prop :=
  exists outs i' env' t, answers i env outs i' env' /\
    wire (world w.2.1) = wire (world s) ++ concat outs ++ t /\ settles i' env' (view w.2.2.2) /\
    match w.1 with
    | Ok _ => stops i' env' t
    | o => reports_codes tr -> cut_off i' env' t (m_can_write_errror w.2.1) (thrown o)
    end.

Lemma loop_post_next i env s a i1 env1 s1 w :
  exchange i env = Some (a, i1, env1) -> wire (world s1) = wire (world s) ++ a ->
  loop_post i1 env1 s1 w -> loop_post i env s w.
Proof.
  intros Hex Hw (outs & i' & env' & t & Hans & Hw' & Ht). exists (a :: outs), i', env', t.
  split_and!; [by econstructor| |apply Ht..]. rewrite Hw', Hw. cbn. by rewrite <- !app_assoc.
Qed.

Lemma serve_loop_turns hfuel fuel s q0 env :
  len (unread s) < 2 ^ 64 ->
  loop_post (unread s) env s
    (serve_loop tr keep_alive_timeout (create_plain hfuel plugin) fuel (s, (q0, env))).
Proof.
  revert s q0 env. induction fuel as [|fuel IH]; intros s q0 env Hlen; cbn [serve_loop].
  { exists [], (unread s), env, []. split_and!; [constructor|by rewrite app_nil_r|by left|intros _; by apply cut_off_nothing]. }
  unfold mbind, M_bind. destruct (serve_turn hfuel fuel s q0 env Hlen) as (t & Hw & Hpost).
  destruct (serve_request _ _ _ fuel (s, (q0, env))) as [[b|e|] [s1 [q1 env1]]]; cbn [fst snd] in *.
  - destruct Hpost as [Hex|(-> & -> & Hoff & Hv)].
    + destruct b.
      * apply (loop_post_next _ _ _ _ _ _ s1 _ Hex Hw). apply IH.
        destruct (exchange_rest _ _ _ _ _ Hex) as [k ->]. rewrite length_drop. lia.
      * apply (loop_post_next _ _ _ _ _ _ s1 _ Hex Hw). exists [], (unread s1), env1, [].
        split_and!; [constructor|by rewrite app_nil_r|by left|right; left; apply prefix_nil].
    + exists [], (unread s), env, unserved. split_and!; [constructor|done|by left|]. right. by right.
  - exists [], (unread s), env, t. destruct Hpost. split_and!; [constructor|done|done|done].
  - exists [], (unread s), env, t. destruct Hpost. split_and!; [constructor|done|done|done].
Qed.

(** What may follow the answers: a part of what the next request gets, or the
    answer to the exception it failed with, after what was sent before. *)
Definition last_words (i : bytes) env (t : bytes) : Prop :=
  stops i env t \/
  exists c e, fails i env c e /\ t `prefix_of` c ++ to_string (error_response e) (-1).

Definition io_post env s (x' : X) : Prop :=
  exists outs i' env' t, answers (unread s) env outs i' env' /\
    wire (world x'.1) = wire (world s) ++ concat outs ++ t /\ last_words i' env' t /\ settles i' env' (view x'.2.2).

Lemma io_loop_eq headers_timeout create fuel (x : X) :
  io_loop tr headers_timeout keep_alive_timeout create fuel x =
  match serve_loop tr keep_alive_timeout create fuel (set_session_timeout headers_timeout x.1, x.2) with
  | (Ok _, x1) => on_session (shutdown tr) x1
  | (Throw e, x1) =>
      ((if m_can_write_errror x1.1
        then on_session (session_write tr fuel (to_string (error_response e) (-1)))
        else mret tt);; on_session (shutdown tr)) x1
  | (Diverge, x1) => (Diverge, x1)
  end.
Proof. done. Qed.

Lemma io_loop_turns `{Hcodes : !reports_codes tr} (headers_timeout : Z) (hfuel fuel : nat) s q0 env :
  len (unread s) < 2 ^ 64 ->
  io_post env s (io_loop tr headers_timeout keep_alive_timeout (create_plain hfuel plugin) fuel (s, (q0, env))).2.
Proof.
  intros Hlen. rewrite io_loop_eq. unfold io_post. cbn [fst snd].
  destruct (set_session_timeout_quiet headers_timeout s) as (Hw1 & Hi1 & (Hp1 & _) & _).
  set (s1 := set_session_timeout headers_timeout s) in *.
  assert (Hu : unread s1 = unread s) by (unfold unread; congruence). rewrite <- Hu in *.
  destruct (serve_loop_turns hfuel fuel s1 q0 env Hlen) as (outs & i' & env' & t & Hans & Hw & Hset & Hpost).
  destruct (serve_loop _ _ _ fuel (s1, (q0, env))) as [[[]|e|] x1]; cbn [fst snd] in *.
  - pose proof (shutdown_quiet (tr:=tr) x1.1) as Hq. unfold on_session. destruct (shutdown tr x1.1) as [o s2].
    cbn [fst snd] in *. exists outs, i', env', t. split_and!; [done|congruence|by left|exact Hset].
  - destruct (Hpost Hcodes) as [Hstop Hfail]. destruct (m_can_write_errror x1.1) eqn:Hcan.
    + destruct (session_write_text fuel (to_string (error_response e) (-1)) x1.1) as [Ht _].
      destruct (st_wire _ _ _ _ Ht) as (k & _ & Hw2 & _).
      assert (Hfinal : forall s2, wire (world s2) =
          wire (world (session_write tr fuel (to_string (error_response e) (-1)) x1.1).2) ->
        exists outs i' env' t, answers (unread s1) env outs i' env' /\
          wire (world s2) = wire (world s) ++ concat outs ++ t /\ last_words i' env' t /\ settles i' env' (view x1.2.2)).
      { intros s2 Hs2. exists outs, i', env', (t ++ take k (to_string (error_response e) (-1))).
        split_and!; [done| | |done].
        - by rewrite Hs2, Hw2, Hw, Hw1, <- !app_assoc.
        - right. exists t, e. split; [by apply Hfail|]. apply prefix_app.
          exists (drop k (to_string (error_response e) (-1))). by rewrite take_drop. }
      unfold mbind, M_bind, on_session. destruct (session_write _ _ _ _) as [[[]|e'|] s2]; cbn [fst snd] in *;
        [|by apply Hfinal..].
      pose proof (shutdown_quiet (tr:=tr) s2) as Hq. destruct (shutdown tr s2) as [o s3]. by apply Hfinal.
    + unfold mbind, M_bind, mret, M_ret, on_session. cbn [fst snd].
      pose proof (shutdown_quiet (tr:=tr) x1.1) as Hq. destruct (shutdown tr x1.1) as [o s2]. cbn [fst snd] in *.
      exists outs, i', env', t. split_and!; [done|congruence|by left|exact Hset].
  - exists outs, i', env', t. split_and!; [done|cbn [fst snd]; congruence|left; by apply Hpost|exact Hset].
Qed.
End turn.

(** When nothing is said of the variables. *)
Lemma discreet_nothing {B} (h : handler B) : discreet (fun _ => tt) h.
Proof. by intros q env q' env' _ _. Qed.

Section connections.
Context {W : Type} `{Hlaws : os_laws W} (tr : transport W) `{Htr : !transport_laws tr} `{Hcodes : !reports_codes tr} {B : Type}.
Context (keep_alive_timeout : Z) (plugin : request B -> outcome exn (option (handler B)))
  (Hpolite : forall q h, plugin q = Ok (Some h) -> polite h).

(** C1: A whole connection over TCP or TLS, whatever the network does, to plugins
    whose sessions may register a body callback that does not mind how the
    body is cut, then read the request to its end and answer with one
    response and at most one more write: io_loop puts on the wire the
    answers to the requests of the bytes received, each once and in their
    order. What follows them belongs to the next request alone: a part of
    its own answer, of the 100 or of the 503 that no plugin has a session
    for it, or, after that 100 at most, a part of the error answer to the
    very exception that this request, its plugin or the connection failed
    with. No byte of a request is skipped or taken for another one, and no
    state of one request reaches the next. *)
Theorem connection_answers_in_order (headers_timeout : Z) (hfuel fuel : nat) (s : session W) q0 (env : B) :
  len (unread s) < 2 ^ 64 ->
  let '(_, x') := io_loop tr headers_timeout keep_alive_timeout (create_plain tr hfuel plugin) fuel (s, (q0, env)) in
  exists outs i' env' t, answers keep_alive_timeout plugin (unread s) env outs i' env' /\
    wire (world x'.1) = wire (world s) ++ concat outs ++ t /\ last_words keep_alive_timeout plugin i' env' t.
Proof.
  intros Hlen. destruct (io_loop_turns tr keep_alive_timeout plugin _ Hpolite (fun _ h _ => discreet_nothing h)
    headers_timeout hfuel fuel s q0 env Hlen) as (outs & i' & env' & t & H1 & H2 & H3 & _).
  destruct (io_loop _ _ _ _ _ _) as [o x']. by exists outs, i', env', t.
Qed.
End connections.
