(* ===== verification/Progress.v ===== *)
(** * A connection that works is served

    [Pipeline] says that nothing but the answers goes out, in their order; here
    is the other half.  When the connection keeps working, that is reads and
    writes are not ready only so many times and no wait ends with an error, then
    every request the client sent is answered, by both transports. *)

From S2P Require Import Prelude Utils Charconv Http HttpParser HeadProofs BodyProofs HeadFraming Stream Session SessionProofs ReadProofs Pipeline.

Local Open Scope Z_scope.

(** ** A connection that works

    [willing k w]: the socket is not ready at most [k] more times. *)

(** What is left of [k] after a call that was not ready when [stalled]. *)
Definition after_call {W} (willing : nat -> W -> Prop) (k : nat) (stalled : Prop) (w : W) : Prop :=
  (~ stalled /\ willing k w) \/ (stalled /\ exists k', k = S k' /\ willing k' w).

Class os_willing (W : Type) `{os_laws W} : Type := {
  willing : nat -> W -> Prop;
  willing_mono : forall k k' w, (k <= k')%nat -> willing k w -> willing k' w;
  sys_read_willing : forall k n w, willing k w -> (0 < n)%nat -> incoming w <> [] ->
    match sys_read n w with
    | (io_ok d, w') => d <> [] /\ willing k w'
    | (io_again, w') => exists k', k = S k' /\ willing k' w'
    | _ => False
    end;
  ssl_read_willing : forall k n w, willing k w -> (0 < n)%nat -> incoming w <> [] ->
    match ssl_read n w with
    | (inl d, w') => d <> [] /\ willing k w'
    | (inr (SSL_ERROR_WANT_READ | SSL_ERROR_WANT_WRITE), w') => exists k', k = S k' /\ willing k' w'
    | _ => False
    end;
  sys_write_willing : forall k b w, willing k w -> b <> [] ->
    match sys_write b w with
    | (io_ok n, w') => n <> 0%nat /\ willing k w'
    | (io_again, w') => exists k', k = S k' /\ willing k' w'
    | _ => False
    end;
  ssl_write_willing : forall k b w, willing k w -> b <> [] ->
    match ssl_write b w with
    | (inl n, w') => n <> 0%nat /\ willing k w'
    | (inr (SSL_ERROR_WANT_READ | SSL_ERROR_WANT_WRITE), w') => exists k', k = S k' /\ willing k' w'
    | _ => False
    end;
  yield_willing : forall k w, willing k w -> (coroutine_yield w).1 = None /\ willing k (coroutine_yield w).2;
  get_willing : forall k w, willing k w -> coroutine_get w = None;
  notify_willing : forall k t w, willing k w -> willing k (notify_deadline_of t w);
  served_willing : forall k w, willing k w -> willing k (count_session_served w);
  buffer_willing : forall k w, willing k w -> (0 < read_buffer_size w)%nat;
}.

Section progress.
Context {W : Type} `{Hwilling : os_willing W}.
Implicit Types s : session W.

Class willing_transport (tr : transport W) : Prop := {
  read_some_willing k n s : willing k (world s) -> (0 < n)%nat -> incoming (world s) <> [] ->
    let w := read_some tr n s in
    exists d, w.1 = Ok d /\ after_call willing k (d = []) (world w.2);
  write_some_willing k b s : willing k (world s) -> b <> [] ->
    let w := write_some tr b s in
    exists n, w.1 = Ok n /\ after_call willing k (n = 0%nat) (world w.2);
}.

Global Instance socket_session_willing : willing_transport socket_session.
Proof.
  split; intros k n s Hk.
  - intros Hn Hi. cbn. unfold socket_read_some, mbind, M_bind, run_world.
    pose proof (sys_read_willing k n (world s) Hk Hn Hi) as Hl.
    destruct (sys_read n (world s)) as [[d| |e] w]; cbn; [|by eexists; split; [|right]|done].
    exists d. split; [done|]. left. exact Hl.
  - intros Hb. cbn. unfold socket_write_some, mbind, M_bind, run_world.
    pose proof (sys_write_willing k n (world s) Hk Hb) as Hl.
    destruct (sys_write n (world s)) as [[d| |e] w]; cbn; [|by eexists; split; [|right]|done].
    exists d. split; [done|]. left. exact Hl.
Qed.

Lemma ssl_length_pos n : (0 < n)%nat -> (0 < ssl_length n)%nat.
Proof. intros Hn. unfold ssl_length, INT_MAX. destruct (_ <? _); lia. Qed.

Global Instance ssl_socket_session_willing t : willing_transport (ssl_socket_session t).
Proof.
  split; intros k n s Hk.
  - intros Hn%ssl_length_pos Hi. cbn. unfold ssl_read_some, mbind, M_bind, run_world.
    pose proof (ssl_read_willing k (ssl_length n) (world s) Hk Hn Hi) as Hl.
    destruct (ssl_read _ (world s)) as [[d|[]] w]; cbn; try done; try (by eexists; split; [|right]).
    exists d. split; [done|]. left. exact Hl.
  - intros Hb. cbn. unfold ssl_write_some, mbind, M_bind, run_world.
    assert (Hb' : take (ssl_length (length n)) n <> []).
    { destruct n as [|c n]; [done|]. assert (0 < ssl_length (length (c :: n)))%nat by (apply ssl_length_pos; cbn; lia).
      by destruct (ssl_length _); [lia|]. }
    pose proof (ssl_write_willing k _ (world s) Hk Hb') as Hl.
    destruct (ssl_write _ (world s)) as [[d|[]] w]; cbn; try done; try (by eexists; split; [|right]).
    exists d. split; [done|]. left. exact Hl.
Qed.

Lemma yield_or_throw_willing k s :
  willing k (world s) -> (yield_or_throw s).1 = Ok tt /\ willing k (world (yield_or_throw s).2).
Proof.
  intros Hk. unfold yield_or_throw, mbind, M_bind, run_world. destruct (yield_willing k _ Hk) as [Hy Hk'].
  destruct (coroutine_yield (world s)) as [[ec|] w]; [done|]. by split.
Qed.

Lemma set_session_timeout_willing k t s : willing k (world s) -> willing k (world (set_session_timeout t s)).
Proof.
  intros Hk. unfold set_session_timeout. destruct (negb _); [|done]. cbn -[i64]. by apply notify_willing.
Qed.

Context (tr : transport W) `{Htr : !transport_laws tr, Hwt : !willing_transport tr}.

(** ** Writing *)

Lemma session_write_willing fuel k b s :
  willing k (world s) -> (length b + k < fuel)%nat ->
  (session_write tr fuel b s).1 = Ok tt /\ willing k (world (session_write tr fuel b s).2).
Proof.
  revert k b s. induction fuel as [|fuel IH]; intros k b s Hk Hf; [lia|]. cbn [session_write].
  case_decide as Hb; [done|]. unfold mbind at 1 3, M_bind at 1 3.
  destruct (write_some_willing k b s Hk Hb) as (n & Hn & Hafter). pose proof (write_some_law b s) as Hl.
  destruct (write_some tr b s) as [o s1]. cbn [fst snd] in *. subst o. destruct Hl as (_ & _ & Hlen & _).
  destruct Hafter as [[Hne Hk1]|[-> (k' & -> & Hk1)]].
  - rewrite !decide_False by done. apply IH; [done|]. rewrite length_drop. lia.
  - rewrite !decide_True by done. unfold mbind, M_bind.
    destruct (yield_or_throw_willing k' s1 Hk1) as [Hy Hk2].
    destruct (yield_or_throw s1) as [o s2]. cbn [fst snd] in *. subst o.
    destruct (IH k' b s2 Hk2) as [H1 H2]; [lia|]. split; [done|]. by apply (willing_mono k'); [lia|].
Qed.

(** The response as it goes out on a session with the keep alive [ka]. *)
Definition response_text (res : response) (ka : Z) : bytes :=
  to_string res (if m_response_keep_alive res =? -1 then ka else m_response_keep_alive res).

Lemma send_response_willing fuel k res s :
  willing k (world s) -> (length (response_text res (m_keep_alive_s s)) + k < fuel)%nat ->
  let w := send_response (H:=session_stream tr fuel) res s in
  w.1 = Ok tt /\ willing k (world w.2).
Proof.
  intros Hk. cbn zeta. unfold response_text, send_response. intros Hf. set (r := m_response_keep_alive res) in *.
  set (s1 := if r =? -1 then s else set_keep_alive r s).
  set (s2 := if negb (m_content_length res =? chunked_data)
             then set_session_timeout (Z.max (m_session_timeout s1) (10 + m_content_length res / (512 * 1024))) s1
             else s1).
  replace (_ s) with (session_write tr fuel (to_string res (m_keep_alive_s s2)) s2).
  2:{ unfold s2, s1, mbind, M_bind, modify. destruct (r =? -1), (m_content_length res =? chunked_data); done. }
  assert (Hk1 : willing k (world s1) /\ m_keep_alive_s s1 = if r =? -1 then m_keep_alive_s s else r)
    by (unfold s1; by destruct (r =? -1)).
  destruct Hk1 as [Hk1 Hka1].
  assert (Hk2 : willing k (world s2) /\ m_keep_alive_s s2 = m_keep_alive_s s1).
  { unfold s2. destruct (negb _); [|done]. split; [by apply set_session_timeout_willing|].
    by destruct (set_session_timeout_quiet (Z.max (m_session_timeout s1) (10 + m_content_length res / (512 * 1024))) s1)
      as (_ & _ & (_ & _ & Hka) & _). }
  destruct Hk2 as [Hk2 Hka2]. rewrite Hka2, Hka1. by apply session_write_willing.
Qed.

Lemma send_more_willing {B} fuel k res more s (y : request B * B) :
  willing k (world s) ->
  (length (response_text res (m_keep_alive_s s)) + length (default [] more) + k < fuel)%nat ->
  let w := (with_request (send_response (H:=session_stream tr fuel) res);;
            match more with
            | Some data => with_request (stream_write (abstract_stream:=session_stream tr fuel) data)
            | None => mret tt
            end) (s, y) in
  w.1 = Ok tt /\ willing k (world w.2.1).
Proof.
  intros Hk Hf. cbn zeta. unfold mbind, M_bind, with_request. cbn [fst snd].
  destruct (send_response_willing fuel k res s Hk) as [H1 H2]; [lia|].
  destruct (send_response res s) as [o s1]. cbn [fst snd] in *. subst o.
  destruct more as [data|]; [|done]. cbn [stream_write session_stream fst snd default] in *.
  destruct (session_write_willing fuel k data s1 H2) as [H3 H4]; [cbn in Hf; lia|].
  by destruct (session_write tr fuel data s1) as [o s2].
Qed.

(** ** Reading *)

Section loop.
Context {B : Type} (parse : bytes -> M (pstate B) exn nat) (stop : parse_state -> bool)
  (before : session W -> session W) (p0 : pstate B) (total : bytes).
Abbreviation X := (session W * (request B * B))%type.
Implicit Types x : X.

Context (Hbefore : forall s, before s = s \/ before s = set_can_write_error true s)
  (Hsplit : forall t u n p, parse t p0 = (Ok n, p) -> len (t ++ u) <= len total ->
     (n <= length t)%nat /\ continues n (parse (t ++ u) p0) (parse (drop n t ++ u) p))
  (** No part of the request is refused, and all of it is enough. *)
  (Hgood : forall t rest, total = t ++ rest -> exists n p, parse t p0 = (Ok n, p))
  (Hstop : forall n p, parse total p0 = (Ok n, p) -> stop (req_state p) = true)
  (Hmore : total <> []).

(** A call of the parser in the loop returns. *)
Lemma feed_returns t u n p i :
  fed parse p0 t n p -> total = (t ++ u) ++ i ->
  exists m p', parse (drop n t ++ u) p = (Ok m, p') /\ parse (t ++ u) p0 = (Ok (n + m)%nat, p').
Proof.
  intros Hf Ht. destruct (feed parse p0 total Hsplit t u n p Hf) as [_ Hfeed].
  { rewrite Ht, (length_app (t ++ u)). lia. }
  destruct (Hgood (t ++ u) i Ht) as (n' & p'' & Hrun).
  destruct (parse (drop n t ++ u) p) as [[m|e|] p']; [by eauto|by rewrite Hrun in Hfeed..].
Qed.

(** As long as the loop goes on, there is more to read. *)
Lemma caught_up_more x : caught_up parse p0 total x -> stop (state_of x) = false -> incoming (world x.1) <> [].
Proof.
  intros (t & n & Hf & _ & Ht) Hst Hi. rewrite Hi, app_nil_r in Ht. subst t.
  destruct Hf as [[? _]|Hrun]; [done|]. pose proof (Hstop _ _ Hrun : stop (state_of x) = true). congruence.
Qed.

(** The loop goes on, with less to read or fewer waits ahead. *)
Definition goes_on (k : nat) x (w : outcome exn bool * X) : Prop :=
  exists b, w.1 = Ok b /\ exists k', (k' <= k)%nat /\ willing k' (world w.2.1) /\
    (b = false -> stop (state_of w.2) = false /\
       (length (incoming (world w.2.1)) + k' < length (incoming (world x.1)) + k)%nat).

Lemma read_more_goes_on k x :
  willing k (world x.1) -> caught_up parse p0 total x -> stop (state_of x) = false ->
  goes_on k x (read_more tr parse stop before x).
Proof.
  intros Hk Hup Hst. pose proof (caught_up_more x Hup Hst) as Hi. destruct Hup as (t & n & Hf & Hp & Ht).
  unfold read_more. unfold mbind at 1, M_bind at 1, gets. unfold mbind at 1, M_bind at 1, on_session at 1.
  pose proof (read_some_law (read_buffer_size (world x.1)) x.1) as Hl. cbn zeta in Hl.
  destruct (read_some_willing k (read_buffer_size (world x.1)) x.1 Hk (buffer_willing k _ Hk) Hi) as (data & Hd & Hafter).
  destruct (read_some tr _ x.1) as [o s1]. cbn [fst snd] in *. subst o.
  destruct Hl as ((Hp1 & Hpa1 & _) & _ & _ & Hi1).
  case_decide as Hdata.
  - destruct Hafter as [[? _]|[_ (k' & -> & Hk1)]]; [done|]. subst data.
    destruct (yield_or_throw_willing k' s1 Hk1) as [Hy Hk2]. unfold mbind, M_bind, on_session. cbn [fst].
    pose proof (yield_or_throw_quiet s1) as (_ & _ & _ & Hi2 & _).
    destruct (yield_or_throw s1) as [o s2]. cbn [fst snd] in *. subst o. exists false. split; [done|].
    exists k'. split_and!; [lia|done|]. intros _. split; [done|]. cbn [mret M_ret fst snd]. rewrite Hi2, Hi1. cbn. lia.
  - destruct Hafter as [[_ Hk1]|[? _]]; [|done].
    unfold mbind at 1, M_bind at 1, on_session at 1, modify. cbn [fst snd].
    destruct (before_keeps before Hbefore s1) as (Hbw & Hbp & Hbq). set (s2 := before s1) in *.
    unfold mbind at 1, M_bind at 1, get. cbn [fst]. rewrite Hbp, Hp1.
    assert (Hless : (length (incoming (world s2)) + k < length (incoming (world x.1)) + k)%nat).
    { rewrite Hbw, Hi1, length_app. destruct data; [done|cbn; lia]. }
    assert (Hpst : pst (s2, x.2) = pst x) by (unfold pst; cbn; by rewrite Hbq, Hpa1).
    rewrite <- Hbw in Hk1. case_decide as Hempty.
    + destruct (feed_returns t data n (pst x) (incoming (world s2)) Hf) as (m & p' & Hrun & _).
      { rewrite Hbw, Ht, Hi1. by rewrite app_assoc. }
      rewrite <- Hp, Hempty in Hrun. cbn [app] in Hrun.
      unfold mbind at 1, M_bind at 1. rewrite run_parser_eq, Hpst, Hrun.
      cbn [fst snd]. unfold mbind at 1, M_bind at 1, get.
      set (x3 := (set_parser (ps_parser p') s2, (ps_req p', ps_env p'))) in *.
      destruct (stop (state_of x3)) eqn:Hst3.
      * exists true. split; [done|]. exists k. split_and!; [lia|done|done].
      * exists false. split; [done|]. exists k. split_and!; [lia|done|]. done.
    + exists false. split; [done|]. exists k. split_and!; [lia|done|]. done.
Qed.

Lemma reading_round_goes_on k x :
  willing k (world x.1) -> reading parse p0 total x -> stop (state_of x) = false ->
  goes_on k x (reading_round tr parse stop before x).
Proof.
  intros Hk (t & u & n & Hf & Hp & Ht) Hst. unfold reading_round. unfold mbind at 1, M_bind at 1, get.
  assert (Htot : total = (t ++ u) ++ incoming (world x.1)) by (by rewrite <- app_assoc).
  case_decide as Hempty.
  - unfold mbind at 1, M_bind at 1, mret at 1, M_ret at 1. apply read_more_goes_on; [done| |done].
    rewrite Hp in Hempty. apply app_eq_nil in Hempty as [Hdrop ->].
    exists t, n. rewrite Hdrop, Hp, Hdrop. rewrite app_nil_r in Htot. done.
  - destruct (feed_returns t u n (pst x) _ Hf Htot) as (m & p' & Hrun & Hrun0). rewrite <- Hp in Hrun.
    unfold mbind at 1, M_bind at 1. unfold mbind at 1, M_bind at 1. rewrite run_parser_eq, Hrun.
    unfold mbind at 1, M_bind at 1, on_session at 1, modify, gets at 1. cbn [fst snd].
    change (m_pending (set_parser (ps_parser p') x.1)) with (m_pending x.1).
    set (x3 := (set_pending (drop m (m_pending x.1)) (set_parser (ps_parser p') x.1), (ps_req p', ps_env p'))).
    destruct (stop (state_of x3)) eqn:Hst3.
    + exists true. split; [done|]. exists k. split_and!; [lia|done|done].
    + change (goes_on k x3 (read_more tr parse stop before x3)).
      apply read_more_goes_on; [done| |done]. exists (t ++ u), (n + m)%nat. split_and!.
      * right. rewrite Hrun0. by destruct p'.
      * cbn. destruct (feed parse p0 total Hsplit t u n (pst x) Hf) as [Hn _].
        { rewrite Htot, (length_app (t ++ u)). lia. }
        rewrite Hp, <- drop_drop. by rewrite (drop_app_le t u n) by lia.
      * done.
Qed.

Lemma reading_loop_willing fuel k x :
  willing k (world x.1) -> reading parse p0 total x -> stop (state_of x) = false ->
  (length (incoming (world x.1)) + k < fuel)%nat ->
  let w := reading_loop fuel (reading_round tr parse stop before) x in
  w.1 = Ok tt /\ willing k (world w.2.1).
Proof.
  cbn zeta. revert k x. induction fuel as [|fuel IH]; intros k x Hk Hx Hst Hf; [lia|].
  cbn [reading_loop]. unfold mbind at 1 2, M_bind at 1 2.
  destruct (reading_round_goes_on k x Hk Hx Hst) as (b & Hb & k' & Hle & Hk' & Hgo).
  pose proof (reading_round_spec tr parse stop before p0 total Hbefore Hsplit x Hx) as Hspec.
  destruct (reading_round tr parse stop before x) as [o x']. cbn [fst snd] in *. subst o. destruct b.
  - split; [done|]. by apply (willing_mono k').
  - destruct (Hgo eq_refl) as [Hst' Hlt]. destruct (IH k' x' Hk' Hspec Hst') as [H1 H2]; [lia|].
    split; [done|]. by apply (willing_mono k').
Qed.
End loop.

Context {B : Type}.
Implicit Types (q : request B) (env : B).

Lemma read_headers_willing fuel k s q env n p :
  len (unread s) < 2 ^ 64 -> parse_head (unread s) (fresh env) = (Ok n, p) -> head_parsed (req_state p) = true ->
  willing k (world s) -> (length (incoming (world s)) + k < fuel)%nat ->
  let w := read_headers tr fuel (s, (q, env)) in w.1 = Ok tt /\ willing k (world w.2.1).
Proof.
  intros Hlen Hrun Hst Hk Hf.
  change (read_headers tr fuel (s, (q, env))) with
    (reading_loop fuel (reading_round tr parse_head head_parsed (set_can_write_error true)) (s, (@new_request B, env))).
  apply (reading_loop_willing parse_head head_parsed (set_can_write_error true) (fresh env) (unread s));
    [by auto|intros; apply parse_head_split; [done|lia]| | | |done|apply fresh_reading|done|done].
  - intros t rest Ht. pose proof (parse_head_consumes t (fresh env)) as Hc.
    destruct (parse_head t (fresh env)) as [[m|e|] p'] eqn:E; [by eauto| |done].
    destruct (parse_head_error_persists t rest (fresh env) e p') as [e' He]; [done|by rewrite <- Ht|done|].
    rewrite <- Ht, Hrun in He. done.
  - intros n' p' Hrun'. congruence.
  - intros Hnil. rewrite Hnil in Hrun.
    change (parse_head [] (fresh env)) with (Ok (E:=exn) 0%nat, fresh env) in Hrun. by injection Hrun as _ <-.
Qed.

(** Nothing of a body cannot be all of it. *)
Lemma parse_body_nothing (p : pstate B) q env m p' :
  framed p -> m_state q = req_state p -> req_state p <> completed ->
  parse_body [] (mk_pstate (ps_parser p) q env) = (Ok m, p') -> req_state p' <> completed.
Proof.
  intros (_ & Hchunk & _ & Hf) Hq Hst. unfold framing_of, chunk_of, remaining in *. unfold parse_body.
  unfold mbind at 1, M_bind at 1, get. cbn [ps_parser ps_req].
  rewrite bool_decide_eq_false_2 by congruence.
  destruct (m_parser_body (ps_parser p)) eqn:Hbody; [by destruct Hf|..].
  - rewrite bool_decide_eq_false_2, decide_False by done. cbn [orb].
    unfold mbind, M_bind, on_req, modify, fail_if, throw_if, gets, mret, M_ret. cbn [fst snd ps_parser ps_req ps_env length].
    destruct Hf as (_ & _ & Hr & _). rewrite Z.min_r by lia. destruct (_ && _); [done|].
    change (negb (Z.of_nat 0 =? 0)) with false. cbn [ps_parser].
    destruct (Z.eqb_spec (m_remaining (ps_parser p)) 0); [lia|]. by intros [= <- <-].
  - rewrite bool_decide_eq_false_2, decide_True by done. cbn [orb].
    unfold mbind, M_bind, on_req, modify. by intros [= <- <-].
Qed.

(** No part of the rest of a request is refused. *)
Definition reads_well (d : bytes) (p : pstate B) : Prop :=
  forall t rest, d = t ++ rest -> exists m p', read_rest t p = (Ok m, p').

(** It is so for a body of the announced length that the handler has room for,
    when its callback takes everything; the lines between chunks are refused when
    they are long and cut. *)
Lemma length_reads_well d (p : parser) q env cb :
  m_parser_body p = body_content_length -> m_received p = 0 -> 0 <= m_remaining p < 2 ^ 64 ->
  m_callback q = Some cb -> (forall b e, (cb b e).1 = Ok tt) ->
  m_max_body_size q = 0 \/ m_remaining p <= m_max_body_size q < 2 ^ 64 ->
  reads_well d (mk_pstate p q env).
Proof.
  intros Hbody Hrec Hrem Hcb Htakes Hmax t rest _. unfold read_rest. case_decide as Hc; [by eauto|].
  unfold parse_body. unfold mbind at 1, M_bind at 1, get. cbn [ps_parser ps_req].
  rewrite bool_decide_eq_false_2, bool_decide_eq_false_2, decide_False by congruence || done. cbn [orb].
  set (size := Z.min (m_remaining p) (len t)). assert (0 <= size <= m_remaining p) by lia.
  assert (Hover : forall r, 0 <= r <= m_remaining p -> negb (m_max_body_size q =? 0) && (m_max_body_size q <? r) = false).
  { intros r Hr. destruct (Z.eqb_spec (m_max_body_size q) 0) as [|Hne]; [done|]. destruct Hmax; [done|]. cbn. lia. }
  assert (Hfirst : negb (m_max_body_size q =? 0) && (u64 (m_max_body_size q - m_received p) <? m_remaining p) = false).
  { destruct Hmax as [-> |Hmax]; [done|]. rewrite Hrec, Z.sub_0_r, u64_small by lia.
    destruct (Z.ltb_spec (m_max_body_size q) (m_remaining p)); [lia|]. by rewrite andb_false_r. }
  assert (Hdel : forall s' : pstate B, m_received (ps_parser s') = 0 -> m_callback (ps_req s') = Some cb ->
    m_max_body_size (ps_req s') = m_max_body_size q -> exists st2 : pstate B, deliver (substr t 0 (Z.to_nat size)) s' = (Ok tt, st2)).
  { intros s' Hr' Hc' Hm'. unfold deliver, mbind, M_bind, on_parser, modify, get, fail_if, throw_if, on_env, append_body.
    cbn -[Z.add u64]. rewrite Hr', Hm', Hc'.
    assert (Hlen : 0 <= len (substr t 0 (Z.to_nat size)) <= m_remaining p).
    { unfold substr. rewrite length_take. lia. }
    rewrite u64_small by lia. rewrite (Hover (0 + len (substr t 0 (Z.to_nat size)))) by lia. cbn.
    specialize (Htakes (substr t 0 (Z.to_nat size)) (ps_env s')). destruct (cb _ _) as [o e]. cbn in *. subst o. by eauto. }
  unfold mbind, M_bind, on_req, modify, fail_if, throw_if, gets, mret, M_ret. cbn [ps_parser ps_req ps_env]. rewrite Hfirst.
  destruct (negb (size =? 0)).
  - match goal with |- context [deliver ?b ?st] => destruct (Hdel st Hrec Hcb eq_refl) as [s2 ->] end.
    unfold on_parser, modify. cbn [ps_parser]. destruct (m_remaining _ =? 0); by eauto.
  - cbn [ps_parser]. destruct (m_remaining _ =? 0); by eauto.
Qed.

Lemma session_read_willing fuel k s q env (p : pstate B) m p2 :
  framed p -> m_state q = req_state p -> m_parser s = ps_parser p -> streaming (m_callback q) ->
  body_wf (mk_pstate (ps_parser p) q env) ->
  read_rest (unread s) (mk_pstate (ps_parser p) q env) = (Ok m, p2) -> req_state p2 = completed ->
  reads_well (unread s) (mk_pstate (ps_parser p) q env) ->
  willing k (world s) -> (length (incoming (world s)) + k < fuel)%nat ->
  let w := session_read tr fuel (s, (q, env)) in w.1 = Ok tt /\ willing k (world w.2.1).
Proof.
  intros Hfr Hq Hpar Hcb Hwf Hrun Hdone Hgood Hk Hf. cbn zeta. unfold session_read, state_of. cbn [fst snd].
  case_decide as Hc; [done|]. unfold reads_well, read_rest in *. rewrite <- Hpar in *.
  rewrite decide_False in Hrun by done.
  destruct (reading_loop_willing parse_body (fun st => bool_decide (st = completed)) id
    (mk_pstate (m_parser s) q env) (unread s)) with (fuel := fuel) (k := k) (x := (set_can_write_error true s, (q, env)))
    as [H1 H2]; try done.
  - by auto.
  - intros t u n p' Hr _. by destruct (parse_body_continues t u (mk_pstate (m_parser s) q env) n p' Hcb Hwf Hr) as (? & ? & ?).
  - intros t rest Ht. destruct (Hgood t rest Ht) as (m' & p' & Hr). rewrite decide_False in Hr by done. by eauto.
  - intros n' p' Hr. apply bool_decide_eq_true. congruence.
  - intros Hnil. rewrite Hnil in Hrun. rewrite Hpar in Hrun.
    eapply parse_body_nothing; [exact Hfr|exact Hq|congruence|exact Hrun|done].
  - exists [], (m_pending s), 0%nat. split_and!; [by left|done|done].
  - by apply bool_decide_eq_false.
  - destruct (reading_loop _ _ _) as [[[]|e|] x2]; done.
Qed.

(** ** A turn *)

Context (keep_alive_timeout : Z) (plugin : request B -> outcome exn (option (handler B))).
Local Abbreviation exchange := (exchange keep_alive_timeout plugin).
Local Abbreviation next_request := (next_request plugin).

(** The request at the front of [i] is answered whatever the cuts, and whether
    the connection stays open after that. *)
Definition unrefused (i : bytes) env : Prop :=
  match next_request i env with
  | Some (n, p, h, q, env1) => reads_well (drop n i) (mk_pstate p q env1)
  | None => True
  end.
Definition stays_open (i : bytes) env : bool :=
  match next_request i env with
  | Some (n, p, h, q, env1) =>
      let p2 := (read_rest (drop n i) (mk_pstate p q env1)).2 in
      match (h_after h (ps_req p2) (ps_env p2)).1 with
      | Ok (res, _) => negb ((if m_response_keep_alive res =? -1 then keep_alive_of keep_alive_timeout q
                         else m_response_keep_alive res) =? 0)
      | _ => false
      end
  | None => false
  end.

Lemma bodiless_unrefused i env :
  match next_request i env with Some (_, _, _, q, _) => bool_decide (m_state q = completed) | None => true end = true ->
  unrefused i env.
Proof.
  unfold unrefused. destruct (next_request i env) as [[[[[n p] h] q] env1]|]; [|done].
  intros Hc%bool_decide_eq_true t rest _. unfold read_rest. rewrite decide_True by done. by eauto.
Qed.

Lemma incoming_unread s : (length (incoming (world s)) <= length (unread s))%nat.
Proof. unfold unread. rewrite length_app. lia. Qed.

Lemma receive_request_willing fuel k s q env (p : pstate B) m p2 :
  framed p -> m_state q = req_state p -> m_parser s = ps_parser p -> streaming (m_callback q) ->
  body_wf (mk_pstate (ps_parser p) q env) -> refuses q = false ->
  m_keep_alive_s s = keep_alive_of keep_alive_timeout q ->
  read_rest (unread s) (mk_pstate (ps_parser p) q env) = (Ok m, p2) -> req_state p2 = completed ->
  reads_well (unread s) (mk_pstate (ps_parser p) q env) -> willing k (world s) ->
  (length (unread s) + length (continue_text keep_alive_timeout q) + k < fuel)%nat ->
  let w := receive_request (H:=session_stream tr fuel) (s, (q, env)) in w.1 = Ok tt /\ willing k (world w.2.1).
Proof.
  intros Hfr Hq Hpar Hcb Hwf Href Hka Hrun Hdone Hgood Hk Hf. cbn zeta. rewrite receive_request_eq by done.
  unfold continue_text in Hf. destruct (expects q).
  - pose proof (send_response_text tr fuel (make_response 100 [] []) s) as [Hsend _]. cbn zeta in Hsend.
    destruct (send_response_willing fuel k (make_response 100 [] []) s Hk) as [H1 H2].
    { unfold response_text. change (m_response_keep_alive (make_response 100 [] []) =? -1) with true. cbv iota.
      rewrite Hka. lia. }
    destruct (send_response _ s) as [o s1]. cbn [fst snd] in *. subst o.
    pose proof (st_unread _ _ _ _ Hsend) as Hu. pose proof (st_parser _ _ _ _ Hsend) as Hp.
    apply (session_read_willing fuel k s1 q env p m p2); try done; [congruence|by rewrite Hu..|].
    pose proof (incoming_unread s1). rewrite Hu in *. lia.
  - apply (session_read_willing fuel k s q env p m p2); try done.
    pose proof (incoming_unread s). lia.
Qed.

Lemma run_handler_willing fuel k (h : handler B) `{!polite h} s i env n p q env1 a i1 env2 :
  parse_head i (fresh env) = (Ok n, p) -> head_parsed (req_state p) = true -> plugin (ps_req p) = Ok (Some h) ->
  h_before h (ps_req p) (ps_env p) = Ok (q, env1) -> refuses q = false ->
  m_parser s = ps_parser p -> unread s = drop n i -> m_keep_alive_s s = keep_alive_of keep_alive_timeout (ps_req p) ->
  exchange i env = Some (a, i1, env2) -> unrefused i env ->
  willing k (world s) -> (length i + length a + k < fuel)%nat ->
  let w := run_handler tr fuel h (s, (ps_req p, ps_env p)) in
  w.1 = Ok tt /\ willing k (world w.2.1) /\ negb (m_keep_alive_s w.2.1 =? 0) = stays_open i env.
Proof.
  intros Hrun Hst Hpl Hb Href Hpar Hun Hka Hex Hgood Hk Hf. cbn zeta. unfold run_handler. cbn [fst snd]. rewrite Hb.
  assert (Hnext : next_request i env = Some (n, ps_parser p, h, q, env1)).
  { unfold Pipeline.next_request. by rewrite Hrun, Hst, Hpl, Hb, Href. }
  unfold unrefused, stays_open in *. unfold Pipeline.exchange, read_out in Hex. rewrite Hnext in *. cbn [mbind option_bind] in Hex.
  pose proof (parse_head_part i (fresh env)) as Hpart. rewrite Hrun in Hpart. injection Hpart as Hcb Hmax _.
  pose proof (before_prepares _ _ _ _ Hb) as Hprep.
  destruct (prepared_facts keep_alive_timeout (ps_req p) q Hcb Hmax Hprep) as (Hstr & Hlim & Hkq).
  assert (Hq : m_state q = req_state p) by (by destruct Hprep as [->|(cb & limit & -> & _)]).
  assert (Hfr : framed p).
  { assert (Hph : phase_ok p) by (refine (parse_head_phase i (fresh env) n p _ Hrun); done).
    destruct (head_parsed_done p Hph Hst) as [Hd _].
    apply (head_done_framed i new_parser env n); [|done]. by rewrite parse_head_fresh. }
  rewrite <- Hun in *. destruct (read_rest (unread s) _) as [[m|e|] p2] eqn:Hrest; [|by cbn in Hex..]. cbn [snd].
  case_decide as Hdone; [|by cbn in Hex]. cbn [mbind option_bind] in Hex.
  destruct (h_after h (ps_req p2) (ps_env p2)) as [[[res more]|e|] env3] eqn:Hafter; [|done..].
  injection Hex as Ha _ _.
  assert (Hwf : body_wf (mk_pstate (ps_parser p) q env1)) by by apply framed_body_wf.
  assert (Hlen : (length (unread s) <= length i)%nat) by (rewrite Hun, length_drop; lia).
  assert (Hlena : length a = (length (continue_text keep_alive_timeout q) +
      (length (answer_text keep_alive_timeout q res) + length (default [] more)))%nat)
    by (by rewrite <- Ha, !length_app).
  destruct (receive_request_willing fuel k s q env1 p m p2) as [H1 H2]; try done; [by rewrite Hkq|lia|].
  destruct (receive_turn tr keep_alive_timeout fuel s q env1 Hstr) as (t & _ & Hok & _); [by rewrite Hpar|done|by rewrite Hkq|].
  unfold mbind, M_bind. destruct (receive_request (s, (q, env1))) as [o [s1 [q1 env1']]]. cbn [fst snd] in *. subst o.
  destruct (Hok eq_refl) as (_ & Hk1 & m' & Hrest' & _ & _). rewrite Hpar, Hrest in Hrest'. injection Hrest' as _ ->.
  change (h_after h q1 env1' = (Ok (res, more), env3)) in Hafter.
  unfold send_answer. cbn [fst snd]. rewrite Hafter.
  pose proof (send_more_text tr fuel res more s1 (q1, env3)) as (_ & _ & Hks & _). cbn zeta in Hks.
  destruct (send_more_willing fuel k res more s1 (q1, env3) H2) as [H3 H4].
  { unfold response_text, answer_text in *. rewrite Hk1, Hka, <- Hkq. lia. }
  split_and!; [done|done|]. by rewrite Hks, Hk1, Hka, <- Hkq.
Qed.

Context (Hpolite : forall q h, plugin q = Ok (Some h) -> polite h).

Definition turn_ok k (i : bytes) env (w : outcome exn bool * (session W * (request B * B))) : Prop :=
  w.1 = Ok (stays_open i env) /\ willing k (world w.2.1).

Lemma serve_request_willing hfuel fuel k s q0 env a i1 env1 :
  len (unread s) < 2 ^ 64 -> exchange (unread s) env = Some (a, i1, env1) -> unrefused (unread s) env ->
  willing k (world s) -> (length (unread s) + length a + k < fuel)%nat -> (length (unread s) + length a + k < hfuel)%nat ->
  turn_ok k (unread s) env (serve_request tr keep_alive_timeout (create_plain tr hfuel plugin) fuel (s, (q0, env))).
Proof.
  intros Hlen Hex Hgood Hk Hf Hhf. pose proof (incoming_unread s) as Hin.
  assert (Hnext : exists n p h q env2, parse_head (unread s) (fresh env) = (Ok n, p) /\ head_parsed (req_state p) = true /\
    plugin (ps_req p) = Ok (Some h) /\ h_before h (ps_req p) (ps_env p) = Ok (q, env2) /\ refuses q = false).
  { unfold Pipeline.exchange, read_out, Pipeline.next_request in Hex.
    destruct (parse_head (unread s) (fresh env)) as [[n|e|] p]; [|by cbn in Hex..].
    destruct (head_parsed (req_state p)) eqn:Hst; [|by cbn in Hex]. destruct (plugin (ps_req p)) as [[h|]|e|] eqn:Hpl; [|by cbn in Hex..].
    destruct (h_before h (ps_req p) (ps_env p)) as [[q env2]|e|] eqn:Hb; [|by cbn in Hex..].
    destruct (refuses q) eqn:Href; [by cbn in Hex|]. by exists n, p, h, q, env2. }
  destruct Hnext as (n & p & h & q & env2 & Hrun & Hst & Hpl & Hb & Href).
  destruct (read_headers_willing fuel k s q0 env n p Hlen Hrun Hst Hk) as [H1 H2]; [lia|].
  destruct (read_headers_turn tr fuel s q0 env Hlen) as (_ & Hok1 & _).
  unfold serve_request. unfold mbind at 1, M_bind at 1.
  destruct (read_headers tr fuel (s, (q0, env))) as [o [s1 [q1 env1']]]. cbn [fst snd] in *. subst o.
  destruct (Hok1 eq_refl) as (n' & Hrun' & _ & Hun1). rewrite Hrun in Hrun'. injection Hrun' as <- ->.
  unfold mbind at 1, M_bind at 1, get. cbn [fst snd].
  unfold mbind at 1, M_bind at 1, on_session at 1, modify. cbn [fst snd].
  set (s2 := set_keep_alive _ s1). unfold mbind at 1, M_bind at 1, create_plain.
  change (ps_req (pst (s1, (q1, env1')))) with q1 in *. rewrite Hpl. cbn [fmap option_fmap option_map fst snd].
  unfold mbind at 1, M_bind at 1, get. cbn [fst snd].
  unfold mbind at 1, M_bind at 1, on_session at 1, modify. cbn [fst snd].
  set (t3 := if negb _ then _ else _).
  destruct (set_session_timeout_quiet t3 s2) as (_ & Hi3 & (Hp3 & Hpa3 & Hk3) & _).
  pose proof (set_session_timeout_willing k t3 s2 H2) as H3. set (s3 := set_session_timeout t3 s2) in *.
  assert (polite h) by by eapply Hpolite.
  destruct (run_handler_willing hfuel k h s3 (unread s) env n (pst (s1, (q1, env1'))) q env2 a i1 env1)
    as (H4 & H5 & H6); try done; [unfold unread in *; by rewrite Hp3, Hi3|].
  destruct (handler_turn tr keep_alive_timeout plugin _ hfuel h s3 (unread s) env n (pst (s1, (q1, env1'))) (discreet_nothing h) Hrun Hst Hpl Hpa3)
    as (t & _ & Hok & _); [unfold unread in *; by rewrite Hp3, Hi3|done|].
  change (ps_req (pst (s1, (q1, env1')))) with q1 in *. change (ps_env (pst (s1, (q1, env1')))) with env1' in *.
  unfold mbind at 1, M_bind at 1. destruct (run_handler tr hfuel h (s3, (q1, env1'))) as [o x4]. cbn [fst snd] in *. subst o.
  destruct (Hok eq_refl) as [_ Hcompl].
  unfold mbind at 1, M_bind at 1, get. rewrite decide_True by done.
  unfold mbind, M_bind, mret, M_ret, on_session, modify, get, turn_ok. cbn [fst snd].
  destruct (set_session_timeout_quiet (m_keep_alive_s x4.1) x4.1) as (_ & _ & (_ & _ & Hk5) & _).
  pose proof (served_willing k _ (set_session_timeout_willing k (m_keep_alive_s x4.1) x4.1 H5)) as H7.
  split; [|done]. cbn. by rewrite (get_willing k _ H7), bool_decide_eq_true_2, Hk5, H6.
Qed.

(** ** A connection *)

(** The answers that are due: to every complete request, up to the one after
    which the connection is closed. *)
Inductive due : bytes -> B -> list bytes -> Prop :=
  | due_none i env : due i env []
  | due_last i env a i1 env1 :
      exchange i env = Some (a, i1, env1) -> unrefused i env -> due i env [a]
  | due_next i env a i1 env1 outs :
      exchange i env = Some (a, i1, env1) -> unrefused i env -> stays_open i env = true ->
      due i1 env1 outs -> due i env (a :: outs).

(** Rounds that are enough for these answers. *)
Definition rounds (i : bytes) (outs : list bytes) (k : nat) : nat :=
  (length i + length (concat outs) + length outs + k)%nat.

Definition sent_first (outs : list bytes) s (s' : session W) : Prop :=
  exists t, wire (world s') = wire (world s) ++ concat outs ++ t.

Lemma sent_first_next a outs s s1 s' :
  wire (world s1) = wire (world s) ++ a -> sent_first outs s1 s' -> sent_first (a :: outs) s s'.
Proof. intros H1 [t H2]. exists t. rewrite H2, H1. cbn. by rewrite <- !app_assoc. Qed.

Lemma serve_loop_due hfuel fuel k s q0 env outs :
  due (unread s) env outs -> len (unread s) < 2 ^ 64 -> willing k (world s) ->
  (rounds (unread s) outs k < fuel)%nat -> (rounds (unread s) outs k < hfuel)%nat ->
  sent_first outs s (serve_loop tr keep_alive_timeout (create_plain tr hfuel plugin) fuel (s, (q0, env))).2.1.
Proof.
  unfold rounds. intros Hdue. remember (unread s) as i eqn:Hi. revert s q0 fuel Hi.
  induction Hdue as [i env|i env a i1 env1 Hex Hgood|i env a i1 env1 outs Hex Hgood Hopen _ IH]; intros s q0 fuel -> Hlen Hk Hf Hhf.
  { destruct (serve_loop_turns tr keep_alive_timeout plugin _ Hpolite (fun _ h _ => discreet_nothing h) hfuel fuel s q0 env Hlen) as (o & _ & _ & t & _ & Hw & _).
    by exists (concat o ++ t). }
  all: destruct fuel as [|fuel]; [lia|]; cbn [serve_loop]; cbn [concat length] in Hf, Hhf; rewrite ?length_app in Hf, Hhf;
    destruct (serve_request_willing hfuel fuel k s q0 env a i1 env1 Hlen Hex Hgood Hk) as [H1 H2]; [lia..|];
    destruct (serve_turn tr keep_alive_timeout plugin _ Hpolite (fun _ h _ => discreet_nothing h) hfuel fuel s q0 env Hlen) as (t & Hw & Hpost);
    unfold mbind, M_bind; destruct (serve_request _ _ _ fuel _) as [o [s1 [q1 env1']]]; cbn [fst snd] in *; subst o;
    (destruct Hpost as [Hex'|(_ & _ & Hex'%(offers_nothing_exchange keep_alive_timeout) & _)]; [|congruence]); rewrite Hex in Hex'; injection Hex' as -> -> ->.
  - assert (Hlen1 : len (unread s1) < 2 ^ 64).
    { destruct (exchange_rest _ _ _ _ _ _ _ Hex) as [j ->]. rewrite length_drop. lia. }
    apply (sent_first_next _ _ _ s1); [done|]. destruct (stays_open _ _); [|exists []; by rewrite app_nil_r].
    destruct (serve_loop_turns tr keep_alive_timeout plugin _ Hpolite (fun _ h _ => discreet_nothing h) hfuel fuel s1 q1 env1' Hlen1) as (o & _ & _ & t' & _ & Hw' & _).
    by exists (concat o ++ t').
  - rewrite Hopen. apply (sent_first_next _ _ _ s1); [done|].
    destruct (exchange_rest _ _ _ _ _ _ _ Hex) as [j Hj].
    assert (length (unread s1) <= length (unread s))%nat by (rewrite Hj, length_drop; lia).
    apply IH; [done|lia|done|lia|lia].
Qed.

(** What follows the loop is only added. *)
Lemma io_loop_appends headers_timeout create fuel (x : session W * (request B * B)) :
  exists t, wire (world (io_loop tr headers_timeout keep_alive_timeout create fuel x).2.1) =
    wire (world (serve_loop tr keep_alive_timeout create fuel (set_session_timeout headers_timeout x.1, x.2)).2.1) ++ t.
Proof.
  unfold io_loop. unfold mbind at 1, M_bind at 1, on_session at 1, modify at 1. cbn [fst snd].
  destruct (serve_loop _ _ _ fuel _) as [[[]|e|] x1]; cbn [fst snd].
  - exists []. rewrite app_nil_r. unfold on_session. pose proof (shutdown_quiet (tr:=tr) x1.1) as Hq.
    by destruct (shutdown tr x1.1).
  - assert (Hw : forall s', exists t, wire (world (session_write tr fuel (to_string (error_response e) (-1)) s').2) =
      wire (world s') ++ t).
    { intros s'. destruct (session_write_text tr fuel (to_string (error_response e) (-1)) s') as [[_ _ (j & _ & Hw & _)] _].
      by eauto. }
    specialize (Hw x1.1). destruct (m_can_write_errror x1.1); unfold mbind, M_bind, mret, M_ret, on_session; cbn [fst snd].
    + destruct (session_write _ _ _ _) as [[[]|e'|] s2]; cbn [fst snd] in *; [|done..].
      pose proof (shutdown_quiet (tr:=tr) s2) as Hq. destruct (shutdown tr s2). cbn [fst snd] in *. by rewrite Hq.
    + exists []. rewrite app_nil_r. pose proof (shutdown_quiet (tr:=tr) x1.1) as Hq. by destruct (shutdown tr x1.1).
  - exists []. by rewrite app_nil_r.
Qed.

(** ** Errors

    An error is answered as long as nothing was sent since the client was last
    heard; [m_can_write_errror] says so. *)

Definition keeps_flag {A} (m : M (session W * (request B * B)) exn A) : Prop :=
  forall x, m_can_write_errror x.1 = true -> m_can_write_errror (m x).2.1 = true.

Lemma keeps_flag_bind {A C} (m : M (session W * (request B * B)) exn A) (f : A -> M (session W * (request B * B)) exn C) :
  keeps_flag m -> (forall a, keeps_flag (f a)) -> keeps_flag (m ≫= f).
Proof.
  intros Hm Hf x Hx. specialize (Hm x Hx). unfold mbind, M_bind.
  destruct (m x) as [[a|e|] x']; cbn in *; [|done..]. by apply Hf.
Qed.
Lemma keeps_flag_ret {A} (a : A) : keeps_flag (mret a).
Proof. by intros x. Qed.
Lemma keeps_flag_get : keeps_flag get.
Proof. by intros x. Qed.
Lemma keeps_flag_gets {A} (f : session W * (request B * B) -> A) : keeps_flag (gets f).
Proof. by intros x. Qed.
Lemma keeps_flag_parser {A} (m : M (pstate B) exn A) : keeps_flag (run_parser m).
Proof. intros x. by rewrite run_parser_eq. Qed.
Lemma keeps_flag_modify f :
  (forall s, m_can_write_errror s = true -> m_can_write_errror (f s) = true) -> keeps_flag (on_session (modify f)).
Proof. intros Hf x. apply Hf. Qed.
Lemma keeps_flag_yield : keeps_flag (on_session yield_or_throw).
Proof.
  intros x Hx. unfold on_session. pose proof (yield_or_throw_quiet x.1) as (_ & Hy & _).
  destruct (yield_or_throw x.1) as [o s']. cbn in *. congruence.
Qed.
Lemma keeps_flag_read n : keeps_flag (on_session (read_some tr n)).
Proof.
  intros x Hx. unfold on_session. pose proof (read_some_law n x.1) as (_ & Hr & _).
  destruct (read_some tr n x.1) as [o s']. cbn in *. congruence.
Qed.
Create HintDb flags.
#[local] Hint Resolve keeps_flag_ret keeps_flag_get keeps_flag_gets keeps_flag_parser keeps_flag_yield keeps_flag_read : flags.
Ltac walk_flag :=
  repeat (intros; match goal with
    | |- keeps_flag (mbind _ _) => apply keeps_flag_bind
    | |- keeps_flag (on_session (modify _)) => apply keeps_flag_modify; try done
    | |- keeps_flag (if ?b then _ else _) => destruct b
    | |- _ => solve [auto with flags nocore]
    end).

Section listening.
Context (parse : bytes -> M (pstate B) exn nat) (stop : parse_state -> bool) (before : session W -> session W).
Context (Hbefore : forall s, m_can_write_errror s = true -> m_can_write_errror (before s) = true).

Lemma reading_round_flag : keeps_flag (reading_round tr parse stop before).
Proof using Hbefore Htr. unfold reading_round. walk_flag. Qed.
Lemma reading_loop_flag fuel : keeps_flag (reading_loop fuel (reading_round tr parse stop before)).
Proof using Hbefore Htr.
  pose proof reading_round_flag. induction fuel as [|fuel IH]; [by intros x|]. cbn [reading_loop]. walk_flag; done.
Qed.

(** A loop that starts with nothing hears the client before it is done. *)
Context (Hraise : forall s, m_can_write_errror (before s) = true).
Definition heard (x : session W * (request B * B)) : Prop := m_pending x.1 = [] \/ m_can_write_errror x.1 = true.

Lemma reading_round_more x :
  m_pending x.1 = [] -> reading_round tr parse stop before x = read_more tr parse stop before x.
Proof using. intros Hx. unfold reading_round. unfold mbind at 1, M_bind at 1, get. by rewrite decide_True. Qed.

Lemma reading_round_heard x b x' :
  heard x -> reading_round tr parse stop before x = (Ok b, x') ->
  if (b : bool) then m_can_write_errror x'.1 = true else heard x'.
Proof using Hbefore Hraise Htr.
  intros [Hx|Hx] Hw.
  2:{ pose proof (reading_round_flag x Hx) as Hf. rewrite Hw in Hf. destruct b; [done|by right]. }
  rewrite reading_round_more in Hw by done. unfold read_more in Hw.
  apply bind_inv_ok in Hw as (size & x1 & [= <- <-] & Hw). apply bind_inv_ok in Hw as (data & x2 & Hread & Hw).
  pose proof (read_some_law (read_buffer_size (world x.1)) x.1) as ((Hp & _) & _). unfold on_session in Hread.
  destruct (read_some tr _ x.1) as [o s1]. injection Hread as -> <-. cbn [fst snd] in *. case_decide.
  - apply bind_inv_ok in Hw as ([] & x3 & Hy & [= <- <-]). left. unfold on_session in Hy. cbn [fst snd] in Hy.
    pose proof (yield_or_throw_quiet s1) as ((Hp1 & _) & _). destruct (yield_or_throw s1). injection Hy as _ <-.
    cbn in *. congruence.
  - apply bind_inv_ok in Hw as ([] & x3 & [= <-] & Hw). match type of Hw with ?m _ = _ => assert (Hk : keeps_flag m) by walk_flag end.
    specialize (Hk (before s1, x.2) (Hraise _)). rewrite Hw in Hk.
    destruct b; [done|by right].
Qed.

Lemma reading_loop_heard fuel x x' :
  heard x -> reading_loop fuel (reading_round tr parse stop before) x = (Ok tt, x') -> m_can_write_errror x'.1 = true.
Proof using Hbefore Hraise Htr.
  revert x. induction fuel as [|fuel IH]; intros x Hx; [done|]. cbn [reading_loop].
  intros (b & x1 & Hb & Hr)%bind_inv_ok. pose proof (reading_round_heard x b x1 Hx Hb) as Hx1.
  destruct b; [by injection Hr as <-|by eapply IH].
Qed.
End listening.

(** The request at the front of [i] is rejected with [e] before anything is sent
    for it: the plugin or its session throws, or it expects too much. *)
Inductive rejected (i : bytes) env : exn -> Prop :=
  | rejected_create n p e :
      parse_head i (fresh env) = (Ok n, p) -> head_parsed (req_state p) = true -> plugin (ps_req p) = Throw e ->
      rejected i env e
  | rejected_before n p h e :
      parse_head i (fresh env) = (Ok n, p) -> head_parsed (req_state p) = true -> plugin (ps_req p) = Ok (Some h) ->
      h_before h (ps_req p) (ps_env p) = Throw e -> rejected i env e
  | rejected_expectation n p h q env1 :
      parse_head i (fresh env) = (Ok n, p) -> head_parsed (req_state p) = true -> plugin (ps_req p) = Ok (Some h) ->
      h_before h (ps_req p) (ps_env p) = Ok (q, env1) -> refuses q = true -> rejected i env (ExInt 417)
  | rejected_after n p h q env1 m p2 e :
      parse_head i (fresh env) = (Ok n, p) -> head_parsed (req_state p) = true -> plugin (ps_req p) = Ok (Some h) ->
      h_before h (ps_req p) (ps_env p) = Ok (q, env1) -> expects q = false ->
      read_rest (drop n i) (mk_pstate (ps_parser p) q env1) = (Ok m, p2) -> req_state p2 = completed ->
      reads_well (drop n i) (mk_pstate (ps_parser p) q env1) ->
      (h_after h (ps_req p2) (ps_env p2)).1 = Throw e -> rejected i env e.

Lemma rejected_head i env e :
  rejected i env e -> exists n p, parse_head i (fresh env) = (Ok n, p) /\ head_parsed (req_state p) = true /\
    forall x, plugin (ps_req p) <> Ok None /\ plugin (ps_req p) <> Diverge /\ (plugin (ps_req p) = Throw x -> x = e).
Proof using. intros [n p ? ? ? Hpl|n p ? ? ? ? Hpl|n p ? ? ? ? ? Hpl|n p ? ? ? ? ? ? ? ? Hpl]; exists n, p; rewrite Hpl; naive_solver. Qed.

(** The exception [e] is on its way to be answered. *)
Definition tells {A} (k : nat) s (e : exn) (w : outcome exn A * (session W * (request B * B))) : Prop :=
  w.1 = Throw e /\ m_can_write_errror w.2.1 = true /\ wire (world w.2.1) = wire (world s) /\ willing k (world w.2.1).

Lemma session_read_flag fuel : keeps_flag (session_read tr fuel).
Proof using Htr.
  intros x Hx. unfold session_read. case_decide; [done|].
  pose proof (reading_loop_flag parse_body (fun st => bool_decide (st = completed)) id (fun s Hs => Hs) fuel
    (set_can_write_error true x.1, x.2) eq_refl) as Hf.
  destruct (reading_loop _ _ _) as [[[]|e|] x2]; done.
Qed.

Lemma run_handler_tells fuel k (h : handler B) `{!polite h} s i env n p e :
  parse_head i (fresh env) = (Ok n, p) -> head_parsed (req_state p) = true -> plugin (ps_req p) = Ok (Some h) ->
  m_parser s = ps_parser p -> unread s = drop n i -> m_keep_alive_s s = keep_alive_of keep_alive_timeout (ps_req p) ->
  rejected i env e -> m_can_write_errror s = true -> willing k (world s) -> (length i + k < fuel)%nat ->
  tells k s e (run_handler tr fuel h (s, (ps_req p, ps_env p))).
Proof using Htr Hwt.
  intros Hrun Hst Hpl Hpar Hun Hka Hrej Hcan Hk Hf. unfold run_handler. cbn [fst snd].
  destruct Hrej as [? ? ? Hr _ Hpl'|? ? ? ? Hr _ Hpl' Hb|? ? ? q env1 Hr _ Hpl' Hb Href|? ? ? q env1 m p2 e Hr _ Hpl' Hb Hex Hrest Hdone Hgood Hafter];
    rewrite Hrun in Hr; injection Hr as <- <-; rewrite Hpl in Hpl'; [done|injection Hpl' as <-; rewrite Hb..].
  - done.
  - unfold mbind, M_bind. by rewrite receive_request_refuses.
  - pose proof (parse_head_part i (fresh env)) as Hpart. rewrite Hrun in Hpart. injection Hpart as Hcb Hmax _.
    pose proof (before_prepares _ _ _ _ Hb) as Hprep.
    destruct (prepared_facts keep_alive_timeout (ps_req p) q Hcb Hmax Hprep) as (Hstr & Hlim & Hkq).
    assert (Hq : m_state q = req_state p) by (by destruct Hprep as [->|(cb & limit & -> & _)]).
    assert (Hfr : framed p).
    { assert (Hph : phase_ok p) by (refine (parse_head_phase i (fresh env) n p _ Hrun); done).
      destruct (head_parsed_done p Hph Hst) as [Hd _].
      apply (head_done_framed i new_parser env n); [|done]. by rewrite parse_head_fresh. }
    assert (Hwf : body_wf (mk_pstate (ps_parser p) q env1)) by by apply framed_body_wf.
    assert (Href : refuses q = false) by (unfold refuses; by rewrite Hex).
    assert (Hcont : continue_text keep_alive_timeout q = []) by (unfold continue_text; by rewrite Hex).
    assert (Hlen : (length (unread s) <= length i)%nat) by (rewrite Hun, length_drop; lia). rewrite <- Hun in *.
    destruct (receive_request_willing fuel k s q env1 p m p2) as [H1 H2]; try done; [by rewrite Hkq|rewrite Hcont; cbn; lia|].
    destruct (receive_turn tr keep_alive_timeout fuel s q env1 Hstr) as (t & Hw & Hok & _); [by rewrite Hpar|done|by rewrite Hkq|].
    pose proof (session_read_flag fuel (s, (q, env1)) Hcan) as Hflag.
    rewrite receive_request_eq, Hex in * by done. unfold mbind, M_bind. rewrite receive_request_eq, Hex by done.
    destruct (session_read tr fuel (s, (q, env1))) as [o [s1 [q1 env1']]]. cbn [fst snd] in *. subst o.
    destruct (Hok eq_refl) as (-> & _ & m' & Hrest' & _ & _). rewrite Hpar, Hrest in Hrest'. injection Hrest' as _ ->.
    unfold send_answer. cbn [fst snd]. cbn [pst ps_req ps_env fst snd] in Hafter.
    destruct (h_after h q1 env1') as [[[]|e'|] env3]; [done| |done]. injection Hafter as ->.
    unfold tells. cbn [fst snd]. split_and!; [done|done| |done]. by rewrite Hw, Hcont, app_nil_r.
Qed.

Lemma serve_request_tells hfuel fuel k s q0 env e :
  len (unread s) < 2 ^ 64 -> rejected (unread s) env e -> m_pending s = [] ->
  willing k (world s) -> (length (unread s) + k < fuel)%nat -> (length (unread s) + k < hfuel)%nat ->
  tells k s e (serve_request tr keep_alive_timeout (create_plain tr hfuel plugin) fuel (s, (q0, env))).
Proof using Htr Hwt Hpolite.
  intros Hlen Hrej Hpend Hk Hf Hhf. pose proof (incoming_unread s) as Hin.
  destruct (rejected_head _ _ _ Hrej) as (n & p & Hrun & Hst & Hnone).
  destruct (read_headers_willing fuel k s q0 env n p Hlen Hrun Hst Hk) as [H1 H2]; [lia|].
  destruct (read_headers_turn tr fuel s q0 env Hlen) as (Hw1 & Hok1 & _).
  assert (Hcan : m_can_write_errror (read_headers tr fuel (s, (q0, env))).2.1 = true).
  { apply (reading_loop_heard parse_head head_parsed (set_can_write_error true) ltac:(done) ltac:(done) fuel (s, (new_request, env)));
      [by left|]. change (read_headers tr fuel (s, (q0, env)) = (Ok tt, (read_headers tr fuel (s, (q0, env))).2)).
    destruct (read_headers tr fuel (s, (q0, env))) as [o x']. cbn in *. by subst. }
  unfold serve_request. unfold mbind at 1, M_bind at 1.
  destruct (read_headers tr fuel (s, (q0, env))) as [o [s1 [q1 env1']]]. cbn [fst snd] in *. subst o.
  destruct (Hok1 eq_refl) as (n' & Hrun' & _ & Hun1). rewrite Hrun in Hrun'. injection Hrun' as <- ->.
  unfold mbind at 1, M_bind at 1, get. cbn [fst snd].
  unfold mbind at 1, M_bind at 1, on_session at 1, modify. cbn [fst snd].
  set (s2 := set_keep_alive _ s1). unfold mbind at 1, M_bind at 1, create_plain.
  change (ps_req (pst (s1, (q1, env1')))) with q1 in *.
  destruct (plugin q1) as [[h|]|e'|] eqn:Hpl; cbn [fmap option_fmap option_map fst snd].
  2: by destruct (Hnone e).
  2:{ destruct (Hnone e') as (_ & _ & He). rewrite (He eq_refl). done. }
  2: by destruct (Hnone e) as (_ & ? & _).
  unfold mbind at 1, M_bind at 1, get. cbn [fst snd].
  unfold mbind at 1, M_bind at 1, on_session at 1, modify. cbn [fst snd].
  set (t3 := if negb _ then _ else _).
  destruct (set_session_timeout_quiet t3 s2) as (Hw3 & Hi3 & (Hp3 & Hpa3 & Hk3) & Hc3).
  pose proof (set_session_timeout_willing k t3 s2 H2) as H3. set (s3 := set_session_timeout t3 s2) in *.
  assert (polite h) by by eapply Hpolite.
  destruct (run_handler_tells hfuel k h s3 (unread s) env n (pst (s1, (q1, env1'))) e)
    as (H4 & H5 & H6 & H7); try done; [unfold unread in *; by rewrite Hp3, Hi3|by rewrite Hc3|].
  change (ps_req (pst (s1, (q1, env1')))) with q1 in *. change (ps_env (pst (s1, (q1, env1')))) with env1' in *.
  unfold mbind at 1, M_bind at 1. destruct (run_handler tr hfuel h (s3, (q1, env1'))) as [o x4]. cbn [fst snd] in *. subst o.
  unfold tells. cbn [fst snd]. split_and!; [done|done| |done]. rewrite H6, Hw3. exact Hw1.
Qed.

(** C14: When the first request of a connection that works, over TCP or TLS, has a
    complete head and is then rejected before anything is sent for it,
    because the plugin or its session (of the shape of
    connection_answers_in_order) throws any exception, before it reads the
    body or after it has read one that needs no 100 and that no cut of the
    network gets refused, or because it expects a 100 for a body over the
    limit, the client gets exactly the response of that exception and
    nothing else: the status of an int, a thrown response as it is, 500
    with the message of any other exception. *)
Theorem rejected_request_answered (headers_timeout : Z) (hfuel fuel k : nat) s q0 env e :
  rejected (unread s) env e -> m_pending s = [] -> len (unread s) < 2 ^ 64 -> willing k (world s) ->
  let answer := to_string (error_response e) (-1) in
  (length (unread s) + length answer + k + 1 < fuel)%nat -> (length (unread s) + k < hfuel)%nat ->
  let '(_, x') := io_loop tr headers_timeout keep_alive_timeout (create_plain tr hfuel plugin) fuel (s, (q0, env)) in
  wire (world x'.1) = wire (world s) ++ answer.
Proof using Htr Hwt Hpolite.
  cbn zeta. intros Hrej Hpend Hlen Hk Hf Hhf.
  destruct (set_session_timeout_quiet headers_timeout s) as (Hw1 & Hi1 & (Hp1 & _) & _).
  rewrite io_loop_eq. cbn [fst snd]. set (s1 := set_session_timeout headers_timeout s) in *.
  assert (Hu : unread s1 = unread s) by (unfold unread; congruence). rewrite <- Hu in *.
  destruct fuel as [|fuel]; [lia|]. cbn [serve_loop]. unfold mbind at 1, M_bind at 1.
  destruct (serve_request_tells hfuel fuel k s1 q0 env e Hlen Hrej) as (H1 & H2 & H3 & H4);
    [congruence|by apply set_session_timeout_willing|lia|lia|].
  destruct (serve_request _ _ _ fuel _) as [o x1]. cbn [fst snd] in *. subst o. rewrite H2.
  unfold mbind, M_bind, on_session.
  destruct (session_write_willing (S fuel) k (to_string (error_response e) (-1)) x1.1 H4) as [H5 _]; [lia|].
  destruct (session_write_text tr (S fuel) (to_string (error_response e) (-1)) x1.1) as [Ht _].
  destruct (st_wire _ _ _ _ Ht) as (j & _ & Hw & Hall & _).
  destruct (session_write tr (S fuel) _ x1.1) as [o s2]. cbn [fst snd] in *. subst o.
  pose proof (shutdown_quiet (tr:=tr) s2) as Hq. destruct (shutdown tr s2) as [o s3]. cbn [fst snd] in *.
  rewrite Hq, Hw, (Hall eq_refl), H3, Hw1. by rewrite take_ge.
Qed.

(** C2: A connection that works is served: when the socket is not ready only
    finitely often and no wait ends with an error, over TCP or TLS,
    io_loop sends every answer that is due, to each complete request whose
    body no cut of the network gets refused, up to the one after which the
    connection is closed, within a number of rounds given by the bytes and
    the waits. *)
Theorem connection_answers_all (headers_timeout : Z) (hfuel fuel k : nat) s q0 env outs :
  due (unread s) env outs -> len (unread s) < 2 ^ 64 -> willing k (world s) ->
  (rounds (unread s) outs k < fuel)%nat -> (rounds (unread s) outs k < hfuel)%nat ->
  let '(_, x') := io_loop tr headers_timeout keep_alive_timeout (create_plain tr hfuel plugin) fuel (s, (q0, env)) in
  exists t, wire (world x'.1) = wire (world s) ++ concat outs ++ t.
Proof.
  intros Hdue Hlen Hk Hf Hhf.
  destruct (set_session_timeout_quiet headers_timeout s) as (Hw1 & Hi1 & (Hp1 & _) & _).
  assert (Hu : unread (set_session_timeout headers_timeout s) = unread s) by (unfold unread; congruence).
  destruct (io_loop_appends headers_timeout (create_plain tr hfuel plugin) fuel (s, (q0, env))) as [t Ht].
  rewrite <- Hu in *. cbn [fst snd] in Ht.
  destruct (serve_loop_due hfuel fuel k _ q0 env outs Hdue Hlen (set_session_timeout_willing k _ _ Hk) Hf Hhf) as [t' Ht'].
  rewrite Ht', Hw1 in Ht. destruct (io_loop _ _ _ _ _ _) as [o x']. exists (t' ++ t). cbn [snd] in Ht.
  rewrite Ht. by rewrite <- !app_assoc.
Qed.
End progress.
