(* ===== verification/PluginRefinement.v ===== *)
(** * Two plugins a client cannot tell apart

    A plugin that keeps something between requests and one that keeps nothing:
    when their handlers have the same answers as long as an invariant of what is
    kept holds, a whole connection is the same. *)

From S2P Require Import Prelude Utils Charconv Http HttpParser HeadProofs Unobserved Stream Session SessionProofs ReadProofs Pipeline.

Local Open Scope Z_scope.

Section refinement.
Context {W : Type} `{!os W} {B : Type} (I : B -> Prop).
Implicit Types (q : request B) (env e : B).

(** [h] answers like [h'], which keeps nothing: both read the request as it is. *)
Record answers_like (h h' : handler B) : Prop := {
  al_before q env : h_before h q env = Ok (q, env) /\ h_before h' q env = Ok (q, env);
  al_after q env e : I env -> (h_after h q env).1 = (h_after h' q e).1 /\
    I (h_after h q env).2 /\ (h_after h' q e).2 = e;
}.

Definition same_offer (o o' : outcome exn (option (handler B))) : Prop :=
  match o, o' with
  | Ok (Some h), Ok (Some h') => answers_like h h'
  | Ok None, Ok None => True
  | Throw x, Throw x' => x = x'
  | Diverge, Diverge => True
  | _, _ => False
  end.

Context (ka : Z) (plugin plugin' : request B -> outcome exn (option (handler B))).
Context (Hsame : forall q, same_offer (plugin q) (plugin' q)).

Lemma answers_like_polite h h' : answers_like h h' -> polite h /\ polite h'.
Proof.
  intros Hal. split; intros q env q' env' Hb; destruct (al_before _ _ Hal q env) as [H1 H2];
    rewrite Hb in *; left; congruence.
Qed.

Lemma plugin_polite q h : plugin q = Ok (Some h) -> polite h.
Proof.
  intros Hp. specialize (Hsame q). rewrite Hp in Hsame.
  destruct (plugin' q) as [[h'|]| |]; [|done..]. by apply (answers_like_polite h h').
Qed.

Lemma offers_keep q h : plugin q = Ok (Some h) ->
  forall q env, h_before h q env = Ok (q, env) /\ (I env -> I (h_after h q env).2).
Proof.
  intros Hp q' env. specialize (Hsame q). rewrite Hp in Hsame. destruct (plugin' q) as [[h'|]| |]; [|done..].
  split; [apply (al_before _ _ Hsame)|]. intros HI. apply (al_after _ _ Hsame q' env env HI).
Qed.

Lemma parse_head_swap i env e :
  parse_head i (fresh e) = ((parse_head i (fresh env)).1, swap_env e (parse_head i (fresh env)).2) /\
  ps_env (parse_head i (fresh env)).2 = env /\ m_callback (ps_req (parse_head i (fresh env)).2) = None.
Proof.
  destruct (parse_head_unobserved i (fresh env) eq_refl) as (H1 & H2 & H3). split_and!; [|done..]. apply H3.
Qed.

Lemma next_request_alike i env e :
  match next_request plugin i env, next_request plugin' i e with
  | Some (n, p, h, q, env1), Some (n', p', h', q', e1) =>
      n' = n /\ p' = p /\ q' = q /\ env1 = env /\ e1 = e /\ m_callback q = None /\ answers_like h h'
  | None, None => True
  | _, _ => False
  end.
Proof.
  unfold next_request. destruct (parse_head_swap i env e) as (-> & Henv & Hcb).
  destruct (parse_head i (fresh env)) as [[n|x|] p]; cbn [fst snd] in *; [|done..].
  cbn [swap_env req_state ps_req ps_env ps_parser]. change (req_state (swap_env e p)) with (req_state p).
  destruct (head_parsed (req_state p)); [|done]. specialize (Hsame (ps_req p)). unfold same_offer in Hsame.
  destruct (plugin (ps_req p)) as [[h|]| |], (plugin' (ps_req p)) as [[h'|]| |]; try done.
  destruct (al_before _ _ Hsame (ps_req p) (ps_env p)) as [-> _], (al_before _ _ Hsame (ps_req p) e) as [_ ->].
  destruct (refuses (ps_req p)); [done|]. by split_and!.
Qed.

Lemma read_rest_swap d p e :
  m_callback (ps_req p) = None ->
  read_rest d (swap_env e p) = ((read_rest d p).1, swap_env e (read_rest d p).2) /\ ps_env (read_rest d p).2 = ps_env p.
Proof.
  intros Hcb. unfold read_rest. change (req_state (swap_env e p)) with (req_state p). case_decide; [done|].
  destruct (parse_body_unobserved d p Hcb) as (_ & H2 & H3). by rewrite H3.
Qed.

(** The same request is read out; only the variables are each plugin's own. *)
Lemma read_out_alike i env e :
  match read_out plugin i env, read_out plugin' i e with
  | Some (h, q, p2, rest), Some (h', q', p2', rest') =>
      q' = q /\ p2' = swap_env e p2 /\ rest' = rest /\ ps_env p2 = env /\ answers_like h h'
  | None, None => True
  | _, _ => False
  end.
Proof.
  pose proof (next_request_alike i env e) as Hn. unfold read_out.
  destruct (next_request plugin i env) as [[[[[n p] h] q] env1]|], (next_request plugin' i e) as [[[[[n' p'] h'] q'] e1]|];
    try done; cbn [mbind option_bind].
  destruct Hn as (-> & -> & -> & -> & -> & Hcb & Hal).
  destruct (read_rest_swap (drop n i) (mk_pstate p q env) e Hcb) as [Hr Henv].
  change (swap_env e (mk_pstate p q env)) with (mk_pstate p q e) in Hr. rewrite Hr.
  destruct (read_rest (drop n i) (mk_pstate p q env)) as [[m|x|] p2]; cbn [fst snd ps_env] in *; [|done..].
  change (req_state (swap_env e p2)) with (req_state p2). by case_decide.
Qed.

Lemma exchange_alike i env e :
  I env ->
  match exchange ka plugin i env with
  | Some (a, i1, env1) => exchange ka plugin' i e = Some (a, i1, e) /\ I env1
  | None => exchange ka plugin' i e = None
  end.
Proof.
  intros HI. pose proof (read_out_alike i env e) as Hr. unfold exchange.
  destruct (read_out plugin i env) as [[[[h q] p2] rest]|], (read_out plugin' i e) as [[[[h' q'] p2'] rest']|]; try done.
  cbn [mbind option_bind]. destruct Hr as (-> & -> & -> & Henv & Hal). cbn [swap_env ps_req ps_env]. rewrite Henv.
  destruct (al_after _ _ Hal (ps_req p2) env e HI) as (H1 & H2 & H3).
  destruct (h_after h (ps_req p2) env) as [o c1], (h_after h' (ps_req p2) e) as [o' e1]. cbn [fst snd] in *. subst o' e1.
  by destruct o as [[res more]|x|].
Qed.

Lemma interim_alike i env e : interim ka plugin i env = interim ka plugin' i e.
Proof.
  unfold interim. pose proof (next_request_alike i env e) as Hn.
  destruct (next_request plugin i env) as [[[[[n p] h] q] env1]|], (next_request plugin' i e) as [[[[[n' p'] h'] q'] e1]|];
    try done. by destruct Hn as (_ & _ & -> & _).
Qed.

Lemma answers_alike i env outs i' env' e :
  answers ka plugin i env outs i' env' -> I env -> answers ka plugin' i e outs i' e /\ I env'.
Proof.
  induction 1 as [i env|i env a i1 env1 outs i2 env2 Hex _ IH]; intros HI; [by split; [constructor|]|].
  pose proof (exchange_alike i env e HI) as Ha. rewrite Hex in Ha. destruct Ha as [Ha HI1].
  destruct (IH HI1) as [H1 H2]. split; [by econstructor|done].
Qed.

Lemma offers_nothing_alike i env e : offers_nothing plugin i env -> offers_nothing plugin' i e.
Proof.
  intros (n & p & Hrun & Hst & Hpl). destruct (parse_head_swap i env e) as (Hp & _). rewrite Hrun in Hp.
  exists n, (swap_env e p). split_and!; [done..|]. specialize (Hsame (ps_req p)). rewrite Hpl in Hsame.
  cbn [swap_env ps_req]. by destruct (plugin' (ps_req p)) as [[]| |].
Qed.

(** The requests fail alike. *)
Lemma fails_alike i env e c x : I env -> fails ka plugin i env c x -> fails ka plugin' i e c x.
Proof.
  intros HI Hf. pose proof (fun j => parse_head_swap j env e) as Hp.
  destruct Hf as [c ec Hc|t rest x Ht He|n p x Hrun Hst Hpl|n p h x Hrun Hst Hpl Hb|n p h q env1 Hrun Hst Hpl Hb Href
    |n p h q env1 t rest x Hnext Ht He|h q p2 rest x Hro He].
  - apply fails_connection. by rewrite <- (interim_alike i env e).
  - apply (fails_head _ _ _ _ t rest); [done|]. destruct (Hp t) as [-> _]. done.
  - destruct (Hp i) as [Hp' _]. rewrite Hrun in Hp'. apply (fails_create _ _ _ _ n (swap_env e p)); [done..|].
    specialize (Hsame (ps_req p)). rewrite Hpl in Hsame. cbn [swap_env ps_req].
    by destruct (plugin' (ps_req p)) as [[]| |]; simplify_eq/=.
  - pose proof (offers_keep _ _ Hpl (ps_req p) (ps_env p)) as [Hk _]. congruence.
  - destruct (Hp i) as [Hp' _]. rewrite Hrun in Hp'. specialize (Hsame (ps_req p)). rewrite Hpl in Hsame.
    destruct (plugin' (ps_req p)) as [[h'|]| |] eqn:Hpl'; [|done..].
    destruct (al_before _ _ Hsame (ps_req p) (ps_env p)) as [Hb' _]. rewrite Hb in Hb'. injection Hb' as -> ->.
    apply (fails_expectation _ _ _ _ n (swap_env e p) h' (ps_req p) e); [done..| |done].
    apply (al_before _ _ Hsame).
  - pose proof (next_request_alike i env e) as Hn. rewrite Hnext in Hn.
    destruct (next_request plugin' i e) as [[[[[n' p'] h'] q'] e1]|] eqn:Hnext'; [|done].
    destruct Hn as (-> & -> & -> & -> & -> & Hcb & _). apply (fails_body _ _ _ _ n p h' q e t rest); [done..|].
    destruct (parse_body_unobserved t (mk_pstate p q env) Hcb) as (_ & _ & H3).
    specialize (H3 e). change (swap_env e (mk_pstate p q env)) with (mk_pstate p q e) in H3. by rewrite H3.
  - pose proof (read_out_alike i env e) as Hr. rewrite Hro in Hr.
    destruct (read_out plugin' i e) as [[[[h' q'] p2'] rest']|] eqn:Hro'; [|done].
    destruct Hr as (-> & -> & -> & Henv & Hal). apply (fails_after _ _ _ _ h' q (swap_env e p2) rest); [done|].
    cbn [swap_env ps_req ps_env]. rewrite Henv in He. by destruct (al_after _ _ Hal (ps_req p2) env e HI) as (<- & _).
Qed.

Lemma last_words_alike i env e t : I env -> last_words (W:=W) ka plugin i env t -> last_words (W:=W) ka plugin' i e t.
Proof.
  intros HI [[(a & i' & env' & Hex & Ht)|[Ht|[Hoff Ht]]]|(c & x & Hf & Ht)].
  - left. left. pose proof (exchange_alike i env e HI) as Ha. rewrite Hex in Ha. exists a, i', e. by destruct Ha.
  - left. right. left. by rewrite <- (interim_alike i env e).
  - left. right. right. split; [by eapply offers_nothing_alike|done].
  - right. exists c, x. split; [by eapply fails_alike|done].
Qed.
End refinement.

(** ** What a plugin keeps *)

(** An invariant of what is kept that the handlers respect holds after a
    connection, however it ended. *)
Section kept.
Context {W : Type} `{!os W} (tr : transport W) {B : Type} (I : B -> Prop).
Abbreviation X := (session W * (request B * B))%type.
Implicit Types x : X.

Definition steady (y : request B * B) : Prop := I y.2 /\ m_callback y.1 = None.

Lemma steady_parser {A} (m : M (pstate B) exn A) : unobserved m -> parser_minds steady m.
Proof.
  intros Hm p [HI Hcb]. destruct (Hm p Hcb) as (H1 & H2 & _). split; [|exact H1]. cbn [fst snd]. by rewrite H2.
Qed.

Context (ka : Z) (plugin : request B -> outcome exn (option (handler B))).
Context (Hplugin : forall q h, plugin q = Ok (Some h) ->
  forall q env, h_before h q env = Ok (q, env) /\ (I env -> I (h_after h q env).2)).

Lemma steady_run_handler fuel q h : plugin q = Ok (Some h) -> minds steady (run_handler tr fuel h).
Proof.
  intros Hh x Hx. pose proof (Hplugin q h Hh) as Hk. unfold run_handler. destruct (Hk x.2.1 x.2.2) as [-> _].
  refine (minds_bind steady _ (fun _ => send_answer tr fuel h)
    (minds_receive_request tr steady (fun d => steady_parser _ (parse_body_unobserved d)) fuel) _ _ _); [|by destruct x as [? []]].
  intros _ y [HI Hcb]. unfold send_answer. destruct (Hk y.2.1 y.2.2) as [_ HI1]. specialize (HI1 HI).
  destruct (h_after h y.2.1 y.2.2) as [[[res more]|e|] env]; [|done..].
  refine (minds_bind steady _ _ (minds_with_request _ _) _ _ _); [|done].
  intros _. destruct more; [apply minds_with_request|apply minds_ret].
Qed.

Lemma steady_create {A} fuel q (k : option (M X exn unit) -> M X exn A) :
  (forall run, match run with Some m => minds steady m | None => True end -> minds steady (k run)) ->
  minds steady (create_plain tr fuel plugin q ≫= k).
Proof.
  intros Hk x Hx. unfold mbind, M_bind, create_plain.
  destruct (plugin q) as [[h|]|e|] eqn:Hp; [| |done..]; apply Hk; try done. by apply (steady_run_handler fuel q).
Qed.

(** A step that puts a new request in place of the last one. *)
Definition resets {A} (m : M X exn A) : Prop := forall x, I x.2.2 -> steady (m x).2.2.
Lemma resets_bind {A C} (m : M X exn A) (k : A -> M X exn C) :
  resets m -> (forall a, minds steady (k a)) -> resets (m ≫= k).
Proof.
  intros Hm Hk x Hx. specialize (Hm x Hx). unfold mbind, M_bind. destruct (m x) as [[a|e|] x1]; [by apply Hk|done..].
Qed.
Lemma serve_request_resets hfuel fuel : resets (serve_request tr ka (create_plain tr hfuel plugin) fuel).
Proof.
  unfold serve_request. apply resets_bind.
  { unfold read_headers. apply resets_bind; [by intros x Hx|]. intros _.
    apply minds_reading_loop. intros d. apply steady_parser, parse_head_unobserved. }
  pose proof (fun A (m : M (session W) exn A) => minds_on_session steady m) as Hs.
  intros _. apply minds_bind; [apply minds_get|]. intros x. apply minds_bind; [apply Hs|]. intros _.
  apply steady_create. intros [run|] Hrun;
    repeat first [apply minds_ret|apply minds_bind; [|intros ?]|apply minds_get|apply Hs|exact Hrun|destruct (decide _)].
Qed.

Lemma serve_loop_keeps hfuel fuel x : I x.2.2 -> I (serve_loop tr ka (create_plain tr hfuel plugin) fuel x).2.2.2.
Proof.
  revert x. induction fuel as [|fuel IH]; intros x Hx; [done|]. cbn [serve_loop].
  destruct (serve_request_resets hfuel fuel x Hx) as [H1 _]. unfold mbind, M_bind.
  destruct (serve_request _ _ _ fuel x) as [[[]|e|] x1]; [by apply IH|done..].
Qed.

Lemma io_loop_keeps headers_timeout hfuel fuel x :
  I x.2.2 -> I (io_loop tr headers_timeout ka (create_plain tr hfuel plugin) fuel x).2.2.2.
Proof.
  intros Hx. unfold io_loop. unfold mbind at 1, M_bind at 1, on_session at 1, modify at 1.
  pose proof (serve_loop_keeps hfuel fuel (set_session_timeout headers_timeout x.1, x.2) Hx) as H1. cbn [fst snd].
  assert (Hs : forall A (m : M (session W) exn A) (y : X), (on_session m y).2.2 = y.2).
  { intros A m y. unfold on_session. by destruct (m y.1). }
  destruct (serve_loop _ _ _ fuel _) as [[[]|e|] x1]; cbn [snd] in *; [by rewrite Hs| |done].
  unfold mbind, M_bind. destruct (m_can_write_errror x1.1); [|cbn [mret M_ret]; by rewrite Hs].
  match goal with |- context [on_session ?m x1] => pose proof (Hs _ m x1) as H2; destruct (on_session m x1) as [[[]|e'|] x2] end;
    cbn [snd] in H2; [by rewrite Hs, H2|by cbn; rewrite H2..].
Qed.
End kept.

(** ** Sessions that do the same *)

(** The server is given sessions that do the same, so it does the same. *)
Section same_sessions.
Context {W : Type} `{!os W} (tr : transport W) {B : Type} (headers_timeout ka : Z).
Abbreviation X := (session W * (request B * B))%type.
Context (create create' : request B -> M X exn (option (M X exn unit))).

Definition same_created (w w' : outcome exn (option (M X exn unit)) * X) : Prop :=
  w.2 = w'.2 /\
  match w.1, w'.1 with
  | Ok (Some run), Ok (Some run') => forall x, run x = run' x
  | Ok None, Ok None | Diverge, Diverge => True
  | Throw e, Throw e' => e = e'
  | _, _ => False
  end.
Context (Hsame : forall q x, same_created (create q x) (create' q x)).

Lemma created_bind {A} (k : option (M X exn unit) -> M X exn A) q x :
  (forall run run' y, (forall x, run x = run' x) -> k (Some run) y = k (Some run') y) ->
  (create q ≫= k) x = (create' q ≫= k) x.
Proof.
  intros Hk. unfold mbind, M_bind. destruct (Hsame q x) as [Hx Ho].
  destruct (create q x) as [[[run|]|e|] y], (create' q x) as [[[run'|]|e'|] y']; cbn [fst snd] in *; try done;
    subst; [by apply Hk|done..].
Qed.

Lemma serve_request_same fuel x : serve_request tr ka create fuel x = serve_request tr ka create' fuel x.
Proof.
  unfold serve_request. do 3 (apply bind_ext; intros ? ?). apply created_bind. intros run run' y Hrun.
  do 2 (apply bind_ext; intros ? ?). unfold mbind at 1 6, M_bind at 1 6. by rewrite Hrun.
Qed.

Lemma serve_loop_same fuel x : serve_loop tr ka create fuel x = serve_loop tr ka create' fuel x.
Proof.
  revert x. induction fuel as [|fuel IH]; intros x; [done|]. cbn [serve_loop].
  unfold mbind, M_bind. rewrite serve_request_same. by destruct (serve_request _ _ _ _ x) as [[[]|e|] x1].
Qed.

Lemma io_loop_same fuel x :
  io_loop tr headers_timeout ka create fuel x = io_loop tr headers_timeout ka create' fuel x.
Proof. unfold io_loop. unfold mbind at 1 4, M_bind at 1 4. cbn [on_session modify fst snd]. by rewrite serve_loop_same. Qed.
End same_sessions.
