(* ===== verification/Scripted.v ===== *)
(** * A scripted connection

    An operating system that plays a script: what each read brings and how much
    each write takes.  It satisfies [os_laws], so the theorems about sessions
    apply to it, and sessions run on it by evaluation. *)

From S2P Require Import Prelude Utils Charconv Http HttpParser HeadProofs BodyProofs BodyContent ChunkedWire Stream Session SessionProofs ReadProofs Pipeline Progress.

Local Open Scope Z_scope.

Record script : Type := mk_script {
  sc_reads : list bytes;      (** the pieces to come; an empty one is EAGAIN *)
  sc_accepts : list nat;      (** what each write takes, 0 is EAGAIN; then everything *)
  sc_sent : bytes;
  sc_patience : option nat;   (** how many waits until the deadline; [None]: no deadline *)
  sc_now : Z;
}.

Definition script_read (n : nat) (w : script) : option bytes * script :=
  match sc_reads w with
  | [] => (None, w)
  | [] :: r => (None, mk_script r (sc_accepts w) (sc_sent w) (sc_patience w) (sc_now w))
  | d :: r =>
      if (length d <=? n)%nat then
        (Some d, mk_script r (sc_accepts w) (sc_sent w) (sc_patience w) (sc_now w))
      else (Some (take n d),
            mk_script (drop n d :: r) (sc_accepts w) (sc_sent w) (sc_patience w) (sc_now w))
  end.

Definition script_write (b : bytes) (w : script) : option nat * script :=
  match sc_accepts w with
  | [] => (Some (length b), mk_script (sc_reads w) [] (sc_sent w ++ b) (sc_patience w) (sc_now w))
  | O :: a => (None, mk_script (sc_reads w) a (sc_sent w) (sc_patience w) (sc_now w))
  | k :: a =>
      let n := Nat.min k (length b) in
      (Some n, mk_script (sc_reads w) a (sc_sent w ++ take n b) (sc_patience w) (sc_now w))
  end.

Definition script_yield (w : script) : option errc * script :=
  match sc_patience w with
  | None => (None, w)
  | Some O => (Some timed_out, w)
  | Some (S k) => (None, mk_script (sc_reads w) (sc_accepts w) (sc_sent w) (Some k) (sc_now w))
  end.

Definition as_io {A} (r : option A * script) : io A * script :=
  (match r.1 with Some a => io_ok a | None => io_again end, r.2).
Definition as_ssl {A} (r : option A * script) : (A + ssl_error) * script :=
  (match r.1 with Some a => inl a | None => inr SSL_ERROR_WANT_READ end, r.2).

Global Instance script_os : os script := {|
  sys_read := fun n w => as_io (script_read n w);
  sys_write := fun b w => as_io (script_write b w);
  sys_writev := fun bufs w => as_io (script_write (concat bufs) w);
  sys_shutdown := fun w => w;
  sys_sndbuf := fun _ => 65536;
  sys_rcvbuf := fun _ => 65536;
  sys_set_sndbuf := fun _ w => (false, w);
  sys_set_rcvbuf := fun _ w => (false, w);
  ssl_read := fun n w => as_ssl (script_read n w);
  ssl_write := fun b w => as_ssl (script_write b w);
  ssl_accept := fun w => (None, w);
  ssl_is_init_finished := fun _ => true;
  ssl_shutdown := fun w => (1, w);
  coroutine_yield := script_yield;
  coroutine_get := fun _ => None;
  clock_now := sc_now;
  notify_deadline_of := fun _ w => w;
  read_buffer_size := fun _ => Z.to_nat 65536;
  write_buffer_size := fun _ _ => Z.to_nat 65536;
  count_session_served := fun w => w;
  error_message := fun _ => bs "error";
|}.

Lemma script_write_law b w :
  let '(r, w') := script_write b w in
  concat (sc_reads w') = concat (sc_reads w) /\
  match r with
  | Some n => written sc_sent b w w' n
  | None => sc_sent w' = sc_sent w
  end.
Proof.
  unfold script_write. destruct (sc_accepts w) as [|[|k] a]; [|done|]; (split; [done|]); split.
  - done.
  - cbn. by rewrite take_ge.
  - apply Nat.le_min_r.
  - done.
Qed.

Lemma script_read_law n w :
  let '(r, w') := script_read n w in
  sc_sent w' = sc_sent w /\
  match r with
  | Some d => concat (sc_reads w) = d ++ concat (sc_reads w')
  | None => concat (sc_reads w') = concat (sc_reads w)
  end.
Proof.
  unfold script_read. destruct (sc_reads w) as [|[|c d] r] eqn:E; [by rewrite E|done|].
  destruct (_ <=? n)%nat; [done|]. split; [done|]. cbn [concat sc_reads].
  by rewrite app_assoc, take_drop.
Qed.

Global Program Instance script_os_laws : os_laws script := {|
  wire := sc_sent;
  incoming := fun w => concat (sc_reads w);
|}.
Next Obligation.
  intros b w. cbn. pose proof (script_write_law b w) as H.
  by destruct (script_write b w) as [[n|] w'].
Qed.
Next Obligation.
  intros bufs w. cbn. pose proof (script_write_law (concat bufs) w) as H.
  by destruct (script_write (concat bufs) w) as [[n|] w'].
Qed.
Next Obligation.
  intros b w. cbn. pose proof (script_write_law b w) as H.
  by destruct (script_write b w) as [[n|] w'].
Qed.
Next Obligation.
  intros n w. cbn. pose proof (script_read_law n w) as H.
  by destruct (script_read n w) as [[d|] w'].
Qed.
Next Obligation.
  intros n w. cbn. pose proof (script_read_law n w) as H.
  by destruct (script_read n w) as [[d|] w'].
Qed.
Next Obligation.
  intros w. cbn. unfold script_yield. by destruct (sc_patience w) as [[]|].
Qed.
Next Obligation. done. Qed.
Next Obligation. done. Qed.
Next Obligation. done. Qed.
Next Obligation. done. Qed.

Lemma script_read_patience n w : sc_patience (script_read n w).2 = sc_patience w.
Proof. unfold script_read. destruct (sc_reads w) as [|[|c d] r]; [done..|]. by destruct (_ <=? n)%nat. Qed.
Lemma script_write_patience b w : sc_patience (script_write b w).2 = sc_patience w.
Proof. unfold script_write. by destruct (sc_accepts w) as [|[|k] a]. Qed.

Global Program Instance script_patience : os_patience script := {|
  patient := fun k w => sc_patience w = Some k;
|}.
Next Obligation.
  intros k w w'. cbn. unfold script_yield. intros ->. destruct k as [|k]; [done|].
  intros [= <-]. by exists k.
Qed.
Next Obligation. intros k n w. cbn. by rewrite script_read_patience. Qed.
Next Obligation. intros k b w. cbn. by rewrite script_write_patience. Qed.
Next Obligation. intros k bufs w. cbn. by rewrite script_write_patience. Qed.
Next Obligation. intros k n w. cbn. by rewrite script_read_patience. Qed.
Next Obligation. intros k b w. cbn. by rewrite script_write_patience. Qed.

(** A session on such a connection, which waits at most [patience] times. *)
Definition scripted (reads : list bytes) (accepts : list nat) (patience : option nat) : session script :=
  new_session (mk_script reads accepts [] patience 0) (bs "127.0.0.1") 0.

(** ** A vectored write that never gets anywhere

    [write_some] hands at most [IOV_MAX] buffers to [writev].  When all of them
    are empty, [writev] has nothing to write and returns 0, which the loop takes
    for a full socket. *)

Lemma writev_loop_stalls fuel (empties : list bytes) rest s :
  (length empties = IOV_MAX)%nat -> Forall (fun b => b = []) empties ->
  sc_accepts (world s) = [] -> sc_patience (world s) = None ->
  let '(o, s') := writev_loop socket_session fuel (empties ++ rest) s in
  o = Diverge /\ sc_sent (world s') = sc_sent (world s).
Proof.
  intros Hlen Hall. revert s. induction fuel as [|fuel IH]; intros s Ha Hy; [done|].
  cbn [writev_loop]. rewrite decide_False by (destruct empties; done).
  assert (concat empties = []) as Hc by (clear -Hall; by induction Hall as [|b l -> _ IH]).
  set (s1 := set_can_write_error false (set_world
    (mk_script (sc_reads (world s)) [] (sc_sent (world s) ++ []) (sc_patience (world s))
       (sc_now (world s))) s)).
  assert (Hw : write_some_span socket_session (empties ++ rest) s = (Ok 0%nat, s1)).
  { cbn [write_some_span socket_session]. unfold socket_write_some_span.
    rewrite length_app, Hlen, Nat.min_r, <- Hlen, take_app_length by lia.
    unfold mbind, M_bind, run_world. cbn [sys_writev script_os]. rewrite Hc.
    unfold script_write. by rewrite Ha. }
  assert (Hyield : yield_or_throw s1 = (Ok tt, s1)).
  { unfold yield_or_throw, mbind, M_bind, run_world. cbn [coroutine_yield script_os].
    unfold script_yield. by rewrite (Hy : sc_patience (world s1) = None). }
  rewrite (bind_ok _ _ _ _ _ Hw), decide_True, (bind_ok _ _ _ _ _ Hyield) by done.
  specialize (IH s1 eq_refl Hy).
  destruct (writev_loop socket_session fuel (empties ++ rest) s1) as [o s'].
  destruct IH as [-> ->]. split; [done|]. cbn. by rewrite app_nil_r.
Qed.

(** A vectored write whose first IOV_MAX buffers are empty never sends the data
    behind them: writev returns 0, which the loop takes for a full socket. *)
Theorem empty_buffers_stall_writev (fuel : nat) (body : bytes) s :
  body <> [] -> len body < 2 ^ 64 ->
  sc_accepts (world s) = [] -> sc_patience (world s) = None ->
  let '(o, s') := session_writev socket_session fuel (replicate IOV_MAX [] ++ [body]) s in
  o = Diverge /\ sc_sent (world s') = sc_sent (world s).
Proof.
  intros Hb H64 Ha Hy. unfold session_writev, total_length.
  assert (concat (replicate IOV_MAX [] ++ [body]) = body) as Hc.
  { rewrite concat_app. cbn [concat]. rewrite app_nil_r.
    replace (concat (replicate IOV_MAX [])) with (@nil ascii); [done|].
    generalize IOV_MAX as k. induction k; done. }
  rewrite total_length_from; rewrite ?Hc; [|lia..].
  destruct (Z.eqb_spec (0 + len body) 0); [by destruct body|].
  apply writev_loop_stalls; [apply length_replicate|by apply Forall_replicate|done|done].
Qed.

Lemma empty_buffers_stall_writev_witness :
  let '(o, s') := session_writev socket_session 1000 (replicate IOV_MAX [] ++ [bs "body"])
                    (scripted [] [] None) in
  o = Diverge /\ sc_sent (world s') = [].
Proof.
  exact (empty_buffers_stall_writev 1000 (bs "body") (scripted [] [] None) ltac:(done) ltac:(cbn; lia)
    eq_refl eq_refl).
Defined.

(** ** A script without a deadline *)

Definition pauses (w : script) : nat :=
  (length (filter (fun d => d = []) (sc_reads w)) + length (filter (fun n => n = 0%nat) (sc_accepts w)))%nat.
Definition script_willing (k : nat) (w : script) : Prop := sc_patience w = None /\ (pauses w <= k)%nat.

Lemma script_read_willing k n w :
  script_willing k w -> (0 < n)%nat -> concat (sc_reads w) <> [] ->
  match script_read n w with
  | (Some d, w') => d <> [] /\ script_willing k w'
  | (None, w') => exists k', k = S k' /\ script_willing k' w'
  end.
Proof.
  unfold script_willing, pauses, script_read. intros [Hp Hk] Hn Hi. destruct (sc_reads w) as [|[|c d] r]; [done|..].
  - rewrite filter_cons_True in Hk by done. cbn [length] in Hk. destruct k as [|k]; [lia|]. exists k.
    split_and!; [done|done|]. cbn [sc_reads sc_accepts]. lia.
  - rewrite filter_cons_False in Hk by done.
    destruct (Nat.leb_spec (length (c :: d)) n) as [|Hlt]; cbn [sc_reads sc_accepts sc_patience].
    + split_and!; [done|done|done].
    + split; [destruct n; [lia|done]|]. split; [done|]. etrans; [|exact Hk]. rewrite filter_cons.
      case_decide as Hd; [|done]. apply (f_equal length) in Hd. rewrite length_drop in Hd. cbn [length] in *. lia.
Qed.

Lemma script_write_willing k b w :
  script_willing k w -> b <> [] ->
  match script_write b w with
  | (Some n, w') => n <> 0%nat /\ script_willing k w'
  | (None, w') => exists k', k = S k' /\ script_willing k' w'
  end.
Proof.
  unfold script_willing, pauses, script_write. intros [Hp Hk] Hb.
  assert (length b <> 0%nat) by by destruct b.
  destruct (sc_accepts w) as [|[|n] a]; cbn [sc_reads sc_accepts sc_patience].
  - done.
  - rewrite filter_cons_True in Hk by done. cbn [length] in Hk. destruct k as [|k]; [lia|]. exists k.
    split_and!; [done|done|lia].
  - rewrite filter_cons_False in Hk by done. split_and!; [lia|done|done].
Qed.

Global Program Instance script_os_willing : os_willing script := {| willing := script_willing |}.
Next Obligation. intros k k' w Hle [Hp Hk]. split; [done|lia]. Qed.
Next Obligation.
  intros k n w Hk Hn Hi. cbn. unfold as_io. pose proof (script_read_willing k n w Hk Hn Hi) as H.
  by destruct (script_read n w) as [[d|] w'].
Qed.
Next Obligation.
  intros k n w Hk Hn Hi. cbn. unfold as_ssl. pose proof (script_read_willing k n w Hk Hn Hi) as H.
  by destruct (script_read n w) as [[d|] w'].
Qed.
Next Obligation.
  intros k b w Hk Hb. cbn. unfold as_io. pose proof (script_write_willing k b w Hk Hb) as H.
  by destruct (script_write b w) as [[n|] w'].
Qed.
Next Obligation.
  intros k b w Hk Hb. cbn. unfold as_ssl. pose proof (script_write_willing k b w Hk Hb) as H.
  by destruct (script_write b w) as [[n|] w'].
Qed.
Next Obligation. intros k w [Hp Hk]. cbn. unfold script_yield. by rewrite Hp. Qed.
Next Obligation. done. Qed.
Next Obligation. done. Qed.
Next Obligation. done. Qed.
Next Obligation. intros k w _. cbn. lia. Qed.

(** ** Concrete connections *)

Definition get_request : bytes :=
  bs "GET / HTTP/1.1" ++ crlf_string ++ bs "Host: a" ++ crlf_string ++ crlf_string.

(** The socket takes two bytes, then nothing, then the rest. *)
Definition slow_writer : session script := scripted [] [2; 0]%nat (Some 3%nat).

Lemma session_writes_terminate_witness :
  (session_write socket_session 20 (concat [bs "hello"; bs " world"]) slow_writer).1 <> Diverge /\
  (session_writev socket_session 20 [bs "hello"; bs " world"] slow_writer).1 <> Diverge.
Proof.
  apply (session_writes_terminate socket_session 20 3 [bs "hello"; bs " world"] slow_writer);
    [reflexivity|cbn; lia].
Defined.

Lemma session_write_in_order_witness :
  let w := session_write (ssl_socket_session 2) 20 (bs "hello world") slow_writer in
  w.1 = Ok tt /\ wire (world w.2) = bs "hello world".
Proof.
  pose proof (session_write_in_order (ssl_socket_session 2) 20 (bs "hello world") slow_writer) as H.
  destruct (session_write (ssl_socket_session 2) 20 (bs "hello world") slow_writer) as [o s'] eqn:E.
  assert (o = Ok tt) as -> by (revert E; vm_compute; by intros [= <- _]).
  destruct H as (_ & _ & k & _ & Hw & Hall & _). split; [reflexivity|]. cbn zeta. cbn [snd].
  rewrite Hw, (Hall eq_refl). reflexivity.
Defined.

Lemma session_writev_in_order_witness :
  exists k, wire (world (session_writev socket_session 20 [bs "hello"; bs " world"] slow_writer).2) =
    take k (bs "hello world") /\ k = 11%nat.
Proof.
  pose proof (session_writev_in_order socket_session 20 [bs "hello"; bs " world"] slow_writer
    ltac:(vm_compute; reflexivity)) as H.
  destruct (session_writev socket_session 20 [bs "hello"; bs " world"] slow_writer) as [o s'] eqn:E.
  destruct H as (_ & _ & k & Hk & Hw & Hall & _). exists k. split; [exact Hw|].
  apply Hall. revert E. vm_compute. by intros [= <- _].
Defined.

Lemma session_deadline_exact_witness :
  m_session_timeout_time_point (set_session_timeout 10 slow_writer) = Some (10 * 10 ^ 9).
Proof.
  destruct (session_deadline_exact 10 slow_writer) as [H _]; [cbn; lia|lia|]. exact H.
Defined.

(** Five petabytes. *)
Lemma huge_content_length_is_expired_witness :
  exists tp, m_session_timeout_time_point
    (set_session_timeout (10 + 5000000000000000 / (512 * 1024)) slow_writer) = Some tp /\ tp < 0.
Proof.
  destruct (huge_content_length_is_expired 10 5000000000000000 slow_writer) as (tp & H1 & H2);
    [cbn; lia|vm_compute; done|]. exists tp. split; [exact H1|exact H2].
Defined.

(** A head that arrives in two pieces, with a wait in between. *)
Definition slow_reader : session script :=
  scripted [take 9 get_request; []; drop 9 get_request ++ bs "next"] [] (Some 5%nat).
Definition fast_reader : session script := scripted [get_request ++ bs "next"] [] (Some 5%nat).

Lemma read_headers_parses_witness :
  let '(o, (s', (q', env'))) := read_headers socket_session 100 (slow_reader, (new_request, tt)) in
  o = Ok tt /\ exists t n, unread slow_reader = t ++ incoming (world s') /\
    parse_head t (fresh tt) = (Ok n, mk_pstate (m_parser s') q' env') /\ m_pending s' = drop n t.
Proof.
  assert (Hlen : len (unread slow_reader) < 2 ^ 64) by (vm_compute; reflexivity).
  pose proof (read_headers_parses socket_session 100 slow_reader (@new_request unit) tt Hlen) as H.
  destruct (read_headers socket_session 100 (slow_reader, (new_request, tt))) as [o [s' [q' env']]] eqn:E.
  assert (o = Ok tt) as -> by (revert E; vm_compute; by intros [= <- _ _ _]).
  split; [reflexivity|]. destruct H as (t & n & H1 & H2 & H3 & _). exists t, n.
  split; [exact H1|]. split; [exact H2|exact H3].
Defined.

Lemma read_headers_terminates_witness :
  (read_headers socket_session 100 (slow_reader, (new_request, tt))).1 <> Diverge.
Proof.
  apply (read_headers_terminates socket_session 100 5 slow_reader new_request tt);
    [vm_compute; reflexivity|reflexivity|vm_compute; lia].
Defined.

Lemma read_headers_segmentation_witness :
  let w1 := read_headers socket_session 100 (slow_reader, (@new_request unit, tt)) in
  let w2 := read_headers (ssl_socket_session 2) 7 (fast_reader, (@new_request unit, tt)) in
  w1.2.2.1 = w2.2.2.1 /\ m_parser w1.2.1 = m_parser w2.2.1 /\ unread w1.2.1 = unread w2.2.1.
Proof.
  set (w1 := read_headers socket_session 100 (slow_reader, (@new_request unit, tt))).
  set (w2 := read_headers (ssl_socket_session 2) 7 (fast_reader, (@new_request unit, tt))).
  apply (read_headers_segmentation socket_session (ssl_socket_session 2) 100 7 slow_reader fast_reader
    new_request new_request tt w1.2.1 w2.2.1 w1.2.2.1 w2.2.2.1 w1.2.2.2 w2.2.2.2);
    vm_compute; reflexivity.
Defined.

(** A body of eleven bytes, of which five are there. *)
Definition posting : session script :=
  set_pending (bs "hello") (set_parser (ps_parser (announced 11 20))
    (scripted [[]; bs " worldGET /"] [] (Some 5%nat))).

Lemma posting_wf : body_wf (mk_pstate (m_parser posting) (ps_req (announced 11 20)) []).
Proof. unfold body_wf. vm_compute. naive_solver. Qed.

Lemma session_read_parses_witness :
  let '(o, (s', (q', body))) := session_read socket_session 100 (posting, (ps_req (announced 11 20), [])) in
  o = Ok tt /\ exists t n, unread posting = t ++ incoming (world s') /\
    parse_body t (announced 11 20) = (Ok n, mk_pstate (m_parser s') q' body) /\
    m_pending s' = drop n t.
Proof.
  pose proof (session_read_parses socket_session 100 posting (ps_req (announced 11 20)) []
    collect_streaming posting_wf ltac:(done)) as H.
  destruct (session_read socket_session 100 (posting, (ps_req (announced 11 20), [])))
    as [o [s' [q' body]]] eqn:E.
  assert (o = Ok tt) as -> by (revert E; vm_compute; by intros [= <- _ _ _]).
  split; [reflexivity|]. destruct H as (t & n & H1 & H2 & H3 & _). exists t, n.
  split; [exact H1|]. split; [exact H2|exact H3].
Defined.

Lemma session_read_terminates_witness :
  (session_read socket_session 100 (posting, (ps_req (announced 11 20), []))).1 <> Diverge.
Proof.
  apply (session_read_terminates socket_session 100 5 posting (ps_req (announced 11 20)) []);
    [exact collect_streaming|exact posting_wf|done|reflexivity|vm_compute; lia].
Defined.

(** ** Concrete servers *)

(** A plugin that answers every request with a greeting. *)
Definition greeter (q : request unit) :
    M (session script * (request unit * unit)) exn
      (option (M (session script * (request unit * unit)) exn unit)) :=
  mret (Some (session_read socket_session 100;;
    on_session (session_write socket_session 100 (to_string (make_response 200 (bs "hi") []) (-1))))).

Lemma serve_request_reuses_only_completed_witness :
  let w := serve_request socket_session 10 greeter 100 (slow_reader, (new_request, tt)) in
  w.1 = Ok true /\ m_state w.2.2.1 = completed.
Proof.
  set (w := serve_request socket_session 10 greeter 100 (slow_reader, (new_request, tt))).
  assert (Hw : w.1 = Ok true) by (vm_compute; reflexivity). split; [exact Hw|].
  assert (Hw2 : w = (Ok true, w.2)) by (vm_compute; reflexivity).
  exact (proj1 (serve_request_reuses_only_completed socket_session 10 greeter 100
    (slow_reader, (new_request, tt)) w.2 Hw2)).
Defined.

(** The request line is not one: the client is told so. *)
Definition bad_client : session script := scripted [bs "nonsense" ++ crlf_string] [] (Some 5%nat).
Example nonsense_answered :
  wire (world (io_loop socket_session 5 10 greeter 100 (bad_client, (new_request, tt))).2.1) =
    to_string (make_response 400 (bs "Invalid request line") []) (-1).
Proof. vm_compute. reflexivity. Qed.

(** The same greeting, by a handler. *)
Definition greeting : handler unit :=
  plain_handler (fun q env => Ok (q, env)) (fun q env => (Ok (make_response 200 (bs "hi") []), env)).
Lemma greeting_polite : polite greeting.
Proof. intros q env q' env'. cbn. intros [= <- <-]. by left. Qed.
Definition greets (q : request unit) : outcome exn (option (handler unit)) := Ok (Some greeting).

(** Two requests in three pieces, to a slow socket. *)
Definition two_requests : session script :=
  scripted [take 9 get_request; []; drop 9 get_request ++ take 5 get_request; drop 5 get_request] [3; 0]%nat (Some 5%nat).
Definition greeting_text : bytes := to_string (make_response 200 (bs "hi") []) 10.

Lemma connection_answers_in_order_witness :
  let w := io_loop socket_session 5 10 (create_plain socket_session 100 greets) 100 (two_requests, (new_request, tt)) in
  wire (world w.2.1) = greeting_text ++ greeting_text /\
  exists outs i' env' t, answers 10 greets (unread two_requests) tt outs i' env' /\
    wire (world w.2.1) = concat outs ++ t /\ last_words 10 greets i' env' t.
Proof.
  cbn zeta. set (w := io_loop _ _ _ _ _ _). split; [vm_compute; reflexivity|].
  assert (Hlen : len (unread two_requests) < 2 ^ 64) by (vm_compute; reflexivity).
  pose proof (connection_answers_in_order socket_session 10 greets
    ltac:(intros q h [= <-]; exact greeting_polite) 5 100 100 two_requests new_request tt Hlen) as H.
  destruct w as [o x'] eqn:E. unfold w in E. rewrite E in H. exact H.
Defined.

(** The same client without a deadline: both answers are due, and come. *)
Definition patient_client : session script :=
  scripted [take 9 get_request; []; drop 9 get_request ++ take 5 get_request; drop 5 get_request] [3; 0]%nat None.

Lemma both_due : due 10 greets (unread patient_client) tt [greeting_text; greeting_text].
Proof.
  apply (due_next _ _ _ _ _ get_request tt); [vm_compute; reflexivity| |vm_compute; reflexivity|].
  - apply bodiless_unrefused. vm_compute. reflexivity.
  - apply (due_last _ _ _ _ _ [] tt); [vm_compute; reflexivity|]. apply bodiless_unrefused. vm_compute. reflexivity.
Qed.

Lemma connection_answers_all_witness :
  exists t, wire (world (io_loop (ssl_socket_session 2) 5 10 (create_plain (ssl_socket_session 2) 1000 greets) 1000
    (patient_client, (new_request, tt))).2.1) = greeting_text ++ greeting_text ++ t.
Proof.
  pose proof (connection_answers_all (ssl_socket_session 2) 10 greets ltac:(intros q h [= <-]; exact greeting_polite)
    5 1000 1000 2 patient_client new_request tt [greeting_text; greeting_text] both_due) as H.
  destruct (io_loop _ _ _ _ _ _) as [o x']. cbn [fst snd]. destruct H as [t Ht].
  - vm_compute. reflexivity.
  - split; [reflexivity|vm_compute; lia].
  - vm_compute. lia.
  - vm_compute. lia.
  - exists t. rewrite Ht. cbn [concat]. rewrite app_nil_r, <- app_assoc. reflexivity.
Defined.

(** A plugin that knows one page, and a client that asks for another one after
    it: the two requests are cut into two pieces. *)
Definition one_page (q : request unit) : outcome exn (option (handler unit)) :=
  if decide (m_url q = bs "/") then Ok (Some greeting) else Throw (ExInt 404).
Definition asks_twice (cut : nat) : session script :=
  let text := get_request ++ bs "GET /x HTTP/1.1" ++ crlf_string ++ bs "Host: a" ++ crlf_string ++ crlf_string in
  scripted [take cut text; drop cut text] [] (Some 5%nat).

(** Whether an error is answered depends on how the network cut the requests:
    when the second one arrives behind the first, the flag that allows an error
    to be answered is still down from the response to the first, and the
    connection is closed without a word. *)
Theorem pipelined_error_unanswered :
  let run s := (io_loop socket_session 5 10 (create_plain socket_session 100 one_page) 100 (s, (new_request, tt))).2.1 in
  wire (world (run (asks_twice (length get_request)))) = greeting_text ++ to_string (make_response 404 [] []) (-1) /\
  wire (world (run (asks_twice 1000))) = greeting_text.
Proof. split; vm_compute; reflexivity. Qed.

(** A client that asks for that page first, slowly, over TLS. *)
Definition asks_elsewhere : session script :=
  let text := bs "GET /x HTTP/1.1" ++ crlf_string ++ bs "Host: a" ++ crlf_string ++ crlf_string in
  scripted [take 9 text; []; drop 9 text] [3; 0]%nat None.
Lemma one_page_polite q h : one_page q = Ok (Some h) -> polite h.
Proof. unfold one_page. case_decide; [|done]. intros [= <-]. exact greeting_polite. Qed.

Lemma rejected_request_answered_witness :
  wire (world (io_loop (ssl_socket_session 2) 5 10 (create_plain (ssl_socket_session 2) 1000 one_page) 1000
    (asks_elsewhere, (new_request, tt))).2.1) = to_string (make_response 404 [] []) (-1).
Proof.
  pose proof (rejected_request_answered (ssl_socket_session 2) 10 one_page one_page_polite
    5 1000 1000 2 asks_elsewhere new_request tt (ExInt 404)) as H.
  destruct (io_loop _ _ _ _ _ _) as [o x']. cbn [fst snd]. rewrite H.
  - reflexivity.
  - set (w := parse_head (unread asks_elsewhere) (fresh tt)).
    apply (rejected_create _ _ _ (match w.1 with Ok n => n | _ => O end) w.2); vm_compute; reflexivity.
  - reflexivity.
  - vm_compute. reflexivity.
  - split; [reflexivity|vm_compute; lia].
  - vm_compute. lia.
  - vm_compute. lia.
Defined.

(** ** Concrete streams *)

Definition chunk_ops : list write_op := [op_write (bs "Wiki"); op_writev [bs "pe"; []; bs "dia"]].

(** What is written through a chunked stream on a slow socket is what a
    parser reads back. *)
Lemma chunked_stream_roundtrip_witness :
  let stream := session_stream socket_session 100 in
  let s1 := (run_ops (chunked_stream stream) chunk_ops slow_writer).2 in
  exists w, wire (world (chunked_stream_destroy stream s1).2) = w /\
    exists p', parse_body (w ++ bs "next") before_chunks = (Ok (length w), p') /\
      ps_env p' = bs "Wikipedia".
Proof.
  set (stream := session_stream socket_session 100).
  set (s1 := (run_ops (chunked_stream stream) chunk_ops slow_writer).2).
  set (s2 := (chunked_stream_destroy stream s1).2).
  assert (H1 : run_ops (chunked_stream stream) chunk_ops slow_writer = (Ok tt, s1))
    by (vm_compute; reflexivity).
  assert (H2 : @stream_write _ stream end_of_chunked_stream s1 = (Ok tt, s2))
    by (vm_compute; reflexivity).
  assert (H0 : Forall (fun op => len (op_payload op) < 2 ^ 63) chunk_ops)
    by (repeat constructor; vm_compute; done).
  destruct (@chunked_stream_roundtrip _ stream (session_sends socket_session 100) chunk_ops
    slow_writer s1 s2 H0 H1 H2) as (_ & w & Hw & Hparse).
  exists w. split; [exact Hw|].
  destruct (Hparse (bs "next") before_chunks) as (p' & Hp & Henv & _);
    [done|done|done| |right; vm_compute; done|vm_compute; done|].
  - split_and!; [reflexivity|reflexivity|right; vm_compute; done|vm_compute; reflexivity].
  - exists p'. split; [exact Hp|exact Henv].
Defined.

(** Three characters of room, and more than that to write. *)
Definition small_buffer : ostream_buffer (session script) := mk_ostream_buffer [] 3 slow_writer.
Definition puts : list put_op :=
  [put_char "h"; put_chars (bs "ello"); put_char " "; put_flush; put_chars (bs "world")].

Lemma ostream_buffer_in_order_witness :
  let ob' := (@run_puts _ (session_stream socket_session 100) puts small_buffer).2 in
  @put_so_far _ _ (session_sends socket_session 100) ob' = bs "hello world".
Proof.
  set (w := @run_puts _ (session_stream socket_session 100) puts small_buffer).
  assert (Hw : w = (Ok tt, w.2)) by (vm_compute; reflexivity).
  assert (H0 : Forall (fun op => len (put_bytes op) < 2 ^ 63) puts)
    by (repeat constructor; vm_compute; done).
  assert (Hwf : buffer_wf small_buffer) by (unfold buffer_wf; cbn -[Z.pow]; lia).
  exact (proj1 (@ostream_buffer_in_order _ _ (session_sends socket_session 100) puts small_buffer
    w.2 H0 Hwf Hw)).
Defined.
