(* ===== verification/Restful.v ===== *)
(** * URL routing: include/dracon/restful.h

    A router is a list of routes, a pointer to a route its index.  A handler is
    what a route stores for a method; an empty [http_session] is [None].  The
    handler shapes of [add_method_handler] that C++ tells apart by type are
    modelled from the captures on: [string_capture] and [optional_capture]. *)

From S2P Require Import Prelude Utils Charconv Http.

Local Open Scope Z_scope.

Definition query_strings : Type := list (bytes * bytes).
Definition captured_resources : Type := list bytes.

(** [captured_resource(captures, index)] *)
Definition captured_resource (captures : captured_resources) (index : nat) : bytes :=
  if decide (index < length captures)%nat then nth index captures [] else [].

Record parsed_route : Type := mk_parsed_route {
  captures : captured_resources;
  queries : query_strings;
  all_but_options_node_methods : bytes;
}.

Global Instance parsed_route_eq_dec : EqDecision parsed_route.
Proof. solve_decision. Defined.

(** [string_capture::get] and [optional_capture::get], for a handler that takes
    [n] captures, as [bind_captures] calls it. *)
Definition max_handler_captures : nat := 8.
Definition string_captures (n : nat) (route : parsed_route) : list bytes :=
  captured_resource (captures route) <$> seq 0 n.
Definition optional_capture (captures : captured_resources) (index : nat) : option bytes :=
  if decide (index < length captures)%nat then Some (nth index captures []) else None.
Definition optional_captures (n : nat) (route : parsed_route) : list (option bytes) :=
  optional_capture (captures route) <$> seq 0 n.

(** ** Routes *)

Definition route_part : Type := bool * bytes.

Definition invalid_route : exn := ExResponse (make_response 400 (bs "Invalid route") []).

(** One part of a route, as [parse_route_parts] reads it. *)
Definition parse_route_part (part : bytes) : outcome exn route_part :=
  if (length part <? 2)%nat then Throw invalid_route
  else if bool_decide (head part = Some "{"%char) && bool_decide (last part = Some "}"%char)
  then Ok (true, substr part 1 (length part - 2))
  else Ok (false, part).

Fixpoint parse_parts (parts : list bytes) : outcome exn (list route_part) :=
  match parts with
  | [] => Ok []
  | part :: parts' => p ← parse_route_part part; ps ← parse_parts parts'; Ok (p :: ps)
  end.

(** [parse_route_parts(route)] *)
Definition parse_route_parts (route : bytes) : outcome exn (list route_part) :=
  parse_parts (split route "/" npos).

Section routes.
(** What a handler makes of a request. *)
Context {R : Type}.
Definition method_handler : Type := parsed_route -> outcome exn (option R).

Record restful_route : Type := mk_route {
  m_route_parts : list route_part;
  m_methods : gmap bytes method_handler;
  m_all_methods : bytes;
}.

Definition new_route (route : bytes) : outcome exn restful_route :=
  parts ← parse_route_parts route; Ok (mk_route parts ∅ []).

(** [operator==(route)] *)
Definition route_equals (r : restful_route) (route : bytes) : outcome exn bool :=
  other ← parse_route_parts route; Ok (bool_decide (other = m_route_parts r)).

(** [set_method_handler(method, creator)] *)
Definition set_method_handler (method : bytes) (creator : method_handler) (r : restful_route)
    : restful_route :=
  match m_methods r !! method with
  | None =>
      let all :=
        if decide (method = bs "OPTIONS") then m_all_methods r
        else m_all_methods r ++ (if decide (m_all_methods r = []) then method
                                 else bs ", " ++ method) in
      mk_route (m_route_parts r) (<[method := creator]> (m_methods r)) all
  | Some _ => mk_route (m_route_parts r) (<[method := creator]> (m_methods r)) (m_all_methods r)
  end.

(** The loop of [create_handler] over the parts: the captures, or a part that
    does not match. *)
Fixpoint match_parts (parts : list route_part) (url_parts : list bytes)
    : option captured_resources :=
  match parts, url_parts with
  | [], [] => Some []
  | (capture, name) :: parts', u :: url_parts' =>
      if (capture : bool) then cons u <$> match_parts parts' url_parts'
      else if decide (name = u) then match_parts parts' url_parts' else None
  | _, _ => None
  end.

(** [restful_route::create_handler(url_parts, method, path_matched)] *)
Definition route_create_handler (r : restful_route) (url_parts : list bytes) (method : bytes)
    : option (captured_resources * method_handler) * bool :=
  match match_parts (m_route_parts r) url_parts with
  | None => (None, false)
  | Some captures => ((fun h => (captures, h)) <$> m_methods r !! method, true)
  end.

(** ** The router *)

Record restful_router : Type := mk_router {
  m_base_url : list bytes;
  m_routes : list restful_route;
}.

Definition new_router (base_url : bytes) : restful_router :=
  mk_router (split base_url "/" npos) [].

Fixpoint find_route (routes : list restful_route) (route : bytes) (i : nat)
    : outcome exn (option nat) :=
  match routes with
  | [] => Ok None
  | rt :: routes' =>
      same ← route_equals rt route;
      if (same : bool) then Ok (Some i) else find_route routes' route (S i)
  end.

(** [create_route(route)]: the route already there, or a new one. *)
Definition create_route (router : restful_router) (route : bytes)
    : outcome exn (nat * restful_router) :=
  found ← find_route (m_routes router) route 0;
  match found with
  | Some i => Ok (i, router)
  | None =>
      rt ← new_route route;
      Ok (length (m_routes router), mk_router (m_base_url router) (m_routes router ++ [rt]))
  end.

(** [route->add_method_handler(method, handler)] through the pointer that
    [create_route] gave. *)
Definition add_method_handler (router : restful_router) (i : nat) (method : bytes)
    (handler : method_handler) : restful_router :=
  mk_router (m_base_url router) (alter (set_method_handler method handler) i (m_routes router)).

Definition invalid_query : exn := ExResponse (make_response 400 (bs "Invalid query strings") []).

(** [unescape_url], whose error is a [std::invalid_argument]. *)
Definition unescape (s : bytes) : outcome exn bytes :=
  match unescape_url s with
  | Ok b => Ok b
  | Throw e => Throw (ExStd e)
  | Diverge => Diverge
  end.

(** The query string of a URL. *)
Definition parse_query_pair (kv_pair : bytes) : outcome exn (bytes * bytes) :=
  match split kv_pair "=" 1 with
  | [k] => k ← unescape k; Ok (k, [])
  | [k; v] => k ← unescape k; v ← unescape v; Ok (k, v)
  | _ => Throw invalid_query
  end.
Fixpoint parse_query_pairs (pairs : list bytes) : outcome exn query_strings :=
  match pairs with
  | [] => Ok []
  | p :: pairs' => kv ← parse_query_pair p; kvs ← parse_query_pairs pairs'; Ok (kv :: kvs)
  end.
Definition parse_query (query : bytes) : outcome exn query_strings :=
  parse_query_pairs (split query "&" npos).

Definition method_not_allowed (allowed : bytes) : exn :=
  ExResponse (make_response 405 [] [(bs "Allow", allowed)]).

(** The loop of [create_handler] over the routes. *)
Fixpoint route_loop (routes : list restful_route) (resources : list bytes) (method : bytes)
    (query : option bytes) (allowed_methods : option bytes) : outcome exn (option R) :=
  match routes with
  | [] =>
      match allowed_methods with
      | Some allowed => Throw (method_not_allowed allowed)
      | None => Ok None
      end
  | route :: routes' =>
      match route_create_handler route resources method with
      | (Some (captures, handler), _) =>
          queries ← (match query with None => Ok [] | Some q => parse_query q end);
          handler (mk_parsed_route captures queries (m_all_methods route))
      | (None, path_matched) =>
          route_loop routes' resources method query
            (if path_matched && bool_decide (allowed_methods = None)
             then Some (m_all_methods route) else allowed_methods)
      end
  end.

(** [restful_router::create_handler(url, method)] *)
Definition create_handler (router : restful_router) (url method : bytes)
    : outcome exn (option R) :=
  let qpos := find_char "?" url in
  let path := match qpos with None => url | Some k => take k url end in
  let query := (fun k => drop (k + 1) url) <$> qpos in
  let resources := split path "/" npos in
  let n := length (m_base_url router) in
  if (length resources <? n + 1)%nat then Ok None
  else if decide (take n resources = m_base_url router)
  then route_loop (m_routes router) (drop n resources) method query None
  else Ok None.
End routes.
Arguments method_handler R : clear implicits.
Arguments restful_route R : clear implicits.
Arguments restful_router R : clear implicits.

(** ** Which handler answers *)

Inductive path_match : list route_part -> list bytes -> captured_resources -> Prop :=
  | match_end : path_match [] [] []
  | match_capture name parts u us cs :
      path_match parts us cs -> path_match ((true, name) :: parts) (u :: us) (u :: cs)
  | match_literal u parts us cs :
      path_match parts us cs -> path_match ((false, u) :: parts) (u :: us) cs.

Lemma match_parts_spec parts us cs : match_parts parts us = Some cs <-> path_match parts us cs.
Proof.
  split.
  - revert us cs. induction parts as [|[[] name] parts IH]; intros [|u us] cs; cbn; try done.
    + intros [= <-]. constructor.
    + intros (cs' & Hm & ->)%fmap_Some. constructor. auto.
    + case_decide; [subst|done]. constructor. auto.
  - induction 1 as [|name parts u us cs _ IH|u parts us cs _ IH]; cbn; [done|by rewrite IH|].
    by rewrite decide_True.
Qed.

Section dispatch.
Context {R : Type}.
Implicit Types r : restful_route R.

Definition covers (resources : list bytes) r : Prop :=
  exists cs, path_match (m_route_parts r) resources cs.
Definition answers (resources : list bytes) (method : bytes) r : Prop :=
  covers resources r /\ is_Some (m_methods r !! method).

Lemma route_create_handler_spec r resources method :
  match route_create_handler r resources method with
  | (Some (cs, h), m) => path_match (m_route_parts r) resources cs /\
                         m_methods r !! method = Some h /\ m = true
  | (None, true) => covers resources r /\ ~ answers resources method r
  | (None, false) => ~ covers resources r
  end.
Proof.
  unfold route_create_handler. destruct (match_parts (m_route_parts r) resources) as [cs|] eqn:E.
  - apply match_parts_spec in E. destruct (m_methods r !! method) as [h|] eqn:Hm; cbn; [done|].
    split; [by exists cs|]. intros [_ [h Hh]]. congruence.
  - intros [cs Hcs%match_parts_spec]. congruence.
Qed.

Lemma answers_not_created r resources method :
  ~ answers resources method r -> (route_create_handler r resources method).1 = None.
Proof.
  intros Hn. pose proof (route_create_handler_spec r resources method) as H.
  destruct (route_create_handler r resources method) as [[[cs h]|] m]; [|done].
  destruct H as (Hp & Hm & _). exfalso. apply Hn. split; [by exists cs|by exists h].
Qed.

Lemma route_loop_answer l1 r l2 resources method query allowed cs (h : method_handler R) qs :
  Forall (fun r' => ~ answers resources method r') l1 ->
  path_match (m_route_parts r) resources cs -> m_methods r !! method = Some h ->
  (match query with None => Ok [] | Some q => parse_query q end) = Ok qs ->
  route_loop (l1 ++ r :: l2) resources method query allowed
  = h (mk_parsed_route cs qs (m_all_methods r)).
Proof.
  intros Hall Hp Hm Hq. revert allowed. induction Hall as [|r' l1 Hr' _ IH]; intros allowed; cbn.
  - unfold route_create_handler. rewrite (proj2 (match_parts_spec _ _ _) Hp). rewrite Hm. cbn. by rewrite Hq.
  - apply answers_not_created in Hr'.
    destruct (route_create_handler r' resources method) as [[[]|] m]; [done|]. apply IH.
Qed.

(** The first route that covers the path names the allowed methods. *)
Fixpoint first_covering (resources : list bytes) (routes : list (restful_route R)) : option bytes :=
  match routes with
  | [] => None
  | r :: routes' =>
      match match_parts (m_route_parts r) resources with
      | Some _ => Some (m_all_methods r)
      | None => first_covering resources routes'
      end
  end.

Lemma route_loop_refuse routes resources method query allowed :
  Forall (fun r => ~ answers resources method r) routes ->
  route_loop routes resources method query allowed =
  match (match allowed with Some a => Some a | None => first_covering resources routes end) with
  | Some a => Throw (method_not_allowed a)
  | None => Ok None
  end.
Proof.
  intros Hall. revert allowed. induction Hall as [|r routes Hr _ IH]; intros allowed; cbn.
  - by destruct allowed.
  - apply answers_not_created in Hr. unfold route_create_handler in *.
    destruct (match_parts (m_route_parts r) resources) as [cs|]; cbn in *.
    + rewrite Hr. cbn. rewrite IH. by destruct allowed.
    + rewrite IH. by destruct allowed.
Qed.

(** Where the path and the query of a URL are. *)
Lemma create_handler_path (router : restful_router R) path query method :
  ("?"%char ∉ path) ->
  create_handler router (path ++ match query with None => [] | Some q => "?"%char :: q end) method =
  let resources := split path "/" npos in
  let n := length (m_base_url router) in
  if (length resources <? n + 1)%nat then Ok None
  else if decide (take n resources = m_base_url router)
  then route_loop (m_routes router) (drop n resources) method query None
  else Ok None.
Proof.
  intros Hpath. unfold create_handler.
  assert (find_char "?" (path ++ match query with None => [] | Some q => "?"%char :: q end)
          = match query with None => None | Some _ => Some (length path) end) as ->.
  { destruct query; [by apply find_char_first|]. rewrite app_nil_r. by apply find_char_None. }
  replace (match _ with None => _ | Some k => take k _ end) with path.
  2:{ destruct query; [by rewrite take_app_length|by rewrite app_nil_r]. }
  replace (_ <$> _) with query; [done|].
  destruct query as [q|]; [|done]. cbn. f_equal. rewrite <- drop_drop, drop_app_length. done.
Qed.

Lemma create_handler_routes (router : restful_router R) path query resources method :
  ("?"%char ∉ path) -> split path "/" npos = m_base_url router ++ resources -> resources <> [] ->
  create_handler router (path ++ match query with None => [] | Some q => "?"%char :: q end) method
  = route_loop (m_routes router) resources method query None.
Proof.
  intros Hpath Hsplit Hres. rewrite create_handler_path by done. cbn zeta.
  rewrite Hsplit, length_app, drop_app_length, take_app_length, decide_True by done.
  destruct (Nat.ltb_spec (length (m_base_url router) + length resources)
    (length (m_base_url router) + 1)); [|done].
  destruct resources; [done|]. cbn in *. lia.
Qed.

(** C21: create_handler runs the handler of the first route that matches the path
    and has the method, with the captured parts in order and the decoded
    query; without one it throws 405 with the methods of the first route
    that matches the path; without that either it lets the next plugin
    answer. *)
Theorem router_dispatches (router : restful_router R) (path : bytes) (query : option bytes)
    (resources : list bytes) (method : bytes) :
  ("?"%char ∉ path) -> split path "/" npos = m_base_url router ++ resources -> resources <> [] ->
  let url := path ++ match query with None => [] | Some q => "?"%char :: q end in
  (forall l1 r l2 cs (h : method_handler R) qs,
     m_routes router = l1 ++ r :: l2 ->
     Forall (fun r' => ~ answers resources method r') l1 ->
     path_match (m_route_parts r) resources cs -> m_methods r !! method = Some h ->
     match query with None => qs = [] | Some q => parse_query q = Ok qs end ->
     create_handler router url method = h (mk_parsed_route cs qs (m_all_methods r))) /\
  (forall l1 r l2,
     m_routes router = l1 ++ r :: l2 ->
     Forall (fun r' => ~ answers resources method r') (m_routes router) ->
     Forall (fun r' => ~ covers resources r') l1 -> covers resources r ->
     create_handler router url method = Throw (method_not_allowed (m_all_methods r))) /\
  (Forall (fun r' => ~ covers resources r') (m_routes router) ->
     create_handler router url method = Ok None).
Proof.
  intros Hpath Hsplit Hres. cbn zeta. rewrite (create_handler_routes router path query resources) by done.
  split_and!.
  - intros l1 r l2 cs h qs -> Hl1 Hp Hm Hq. apply route_loop_answer; try done. by destruct query; subst.
  - intros l1 r l2 Hr Hall Hl1 [cs Hcs]. rewrite route_loop_refuse by done. rewrite Hr.
    replace (first_covering resources (l1 ++ r :: l2)) with (Some (m_all_methods r)); [done|].
    symmetry. clear Hr Hall. induction Hl1 as [|r' l1 Hr' _ IH]; cbn.
    + by rewrite (proj2 (match_parts_spec _ _ _) Hcs).
    + destruct (match_parts (m_route_parts r') resources) as [cs'|] eqn:E; [|done].
      destruct Hr'. exists cs'. by apply match_parts_spec.
  - intros Hall. rewrite route_loop_refuse.
    2:{ eapply Forall_impl; [exact Hall|]. intros r Hr [Hc _]. done. }
    replace (first_covering resources (m_routes router)) with (@None bytes); [done|].
    symmetry. induction Hall as [|r routes Hr _ IH]; cbn; [done|].
    destruct (match_parts (m_route_parts r) resources) as [cs|] eqn:E; [|done].
    destruct Hr. exists cs. by apply match_parts_spec.
Qed.
End dispatch.

(** ** The Allow header *)

Fixpoint comma_separated (ms : list bytes) : bytes :=
  match ms with
  | [] => []
  | [m] => m
  | m :: ms' => m ++ bs ", " ++ comma_separated ms'
  end.

Lemma comma_separated_snoc ms m :
  ms <> [] -> comma_separated (ms ++ [m]) = comma_separated ms ++ bs ", " ++ m.
Proof.
  induction ms as [|x ms IH]; intros Hne; [done|]. destruct ms as [|y ms]; [done|].
  change ((x :: y :: ms) ++ [m]) with (x :: (y :: ms) ++ [m]).
  change (comma_separated (x :: (y :: ms) ++ [m])) with (x ++ bs ", " ++ comma_separated ((y :: ms) ++ [m])).
  rewrite IH by done.
  change (comma_separated (x :: y :: ms)) with (x ++ bs ", " ++ comma_separated (y :: ms)).
  by rewrite <- !app_assoc.
Qed.

Lemma comma_separated_nil ms : Forall (fun m => m <> []) ms -> comma_separated ms = [] -> ms = [].
Proof.
  intros [|m ms' Hm _]; [done|]. destruct ms' as [|m' ms']; cbn; [done|].
  by intros [? _]%app_eq_nil.
Qed.

Section allow.
Context {R : Type}.
Implicit Types r : restful_route R.

(** [m_all_methods] lists every method but OPTIONS, once each. *)
Definition lists_methods r : Prop :=
  exists ms, NoDup ms /\ Forall (fun m => m <> []) ms /\
    (forall m, m ∈ ms <-> (m <> bs "OPTIONS") /\ is_Some (m_methods r !! m)) /\
    m_all_methods r = comma_separated ms.

(** The Allow list of a route names every method but OPTIONS that has a handler,
    once each, whatever handlers are added or replaced. *)
Theorem set_method_handler_lists_methods (method : bytes) (creator : method_handler R) r :
  method <> [] -> lists_methods r -> lists_methods (set_method_handler method creator r).
Proof.
  intros Hne (ms & Hnd & Hnn & Hms & Hall). unfold set_method_handler.
  destruct (m_methods r !! method) as [h|] eqn:E.
  - exists ms. split_and!; try done. intros m. cbn. rewrite Hms.
    destruct (decide (m = method)) as [->|Hm]; [|by rewrite lookup_insert_ne].
    rewrite lookup_insert_eq, E. split; intros [? _]; done.
  - case_decide as Ho.
    + exists ms. split_and!; try done. intros m. cbn. rewrite Hms. subst method.
      split; (intros [Hm Hs]; split; [done|]);
        [by rewrite lookup_insert_ne|by rewrite lookup_insert_ne in Hs].
    + exists (ms ++ [method]).
      assert (method ∉ ms) as Hnew by (rewrite Hms, E; intros [_ [? [=]]]).
      split_and!.
      * apply NoDup_app. split_and!; [done| |by apply NoDup_singleton].
        intros m Hm ->%list_elem_of_singleton. done.
      * apply Forall_app. split; [done|by apply Forall_singleton].
      * intros m. cbn. rewrite elem_of_app, list_elem_of_singleton, Hms.
        destruct (decide (m = method)) as [->|Hm].
        -- rewrite lookup_insert_eq. split; [by split|by right].
        -- rewrite lookup_insert_ne by done. split; [by intros [?|?]|by left].
      * cbn. rewrite Hall. case_decide as Hemp.
        -- apply comma_separated_nil in Hemp as ->; [done|done].
        -- rewrite comma_separated_snoc; [done|]. intros ->. done.
Qed.

(** ** Declaring a route twice *)

Lemma find_route_app (l1 l2 : list (restful_route R)) route i :
  find_route l1 route i = Ok None ->
  find_route (l1 ++ l2) route i = find_route l2 route (i + length l1).
Proof.
  revert i. induction l1 as [|r l1 IH]; intros i; cbn; [by rewrite Nat.add_0_r|].
  destruct (route_equals r route) as [[|]|e|]; cbn; try done.
  intros H. rewrite IH by done. f_equal. lia.
Qed.

Lemma find_route_Some (routes : list (restful_route R)) route k i :
  find_route routes route k = Ok (Some i) ->
  (k <= i)%nat /\
  exists r, routes !! (i - k)%nat = Some r /\ parse_route_parts route = Ok (m_route_parts r).
Proof.
  revert k. induction routes as [|r routes IH]; intros k; cbn; [done|].
  unfold route_equals. destruct (parse_route_parts route) as [ps|e|] eqn:Ep; cbn; try done.
  destruct (bool_decide_reflect (ps = m_route_parts r)) as [->|Hne].
  - intros [= <-]. rewrite Nat.sub_diag. split; [done|]. by exists r.
  - intros (Hle & r' & Hr' & Hp)%IH. split; [lia|]. exists r'.
    by replace (i - k)%nat with (S (i - S k))%nat by lia.
Qed.

Theorem create_route_idempotent (router router' : restful_router R) (route : bytes) (i : nat) :
  create_route router route = Ok (i, router') ->
  create_route router' route = Ok (i, router') /\
  exists r, m_routes router' !! i = Some r /\ parse_route_parts route = Ok (m_route_parts r).
Proof.
  unfold create_route. destruct (find_route (m_routes router) route 0) as [[j|]|e|] eqn:E; cbn; try done.
  - intros [= -> <-]. rewrite E. cbn. split; [done|].
    apply find_route_Some in E as (_ & r & Hr & Hp). rewrite Nat.sub_0_r in Hr. by exists r.
  - unfold new_route. destruct (parse_route_parts route) as [ps|e|] eqn:Ep; cbn; try done.
    intros [= <- <-]. cbn. rewrite find_route_app by done. cbn. unfold route_equals. rewrite Ep. cbn.
    rewrite bool_decide_eq_true_2 by done. cbn. split; [done|].
    eexists. split; [by rewrite lookup_app_r, Nat.sub_diag by lia|done].
Qed.
End allow.

(** ** The query string *)

Definition pair_text (kv : bytes * bytes) : bytes := kv.1 ++ "="%char :: kv.2.

Lemma split_pair k v :
  k <> [] -> ("="%char ∉ k) ->
  split (pair_text (k, v)) "=" 1 = k :: (if decide (v = []) then [] else [v]).
Proof.
  intros Hk Hs. replace 1 with (Z.of_nat 1) by done. rewrite split_pieces by lia.
  unfold pair_text. cbn [fst snd pieces]. rewrite find_char_first by done.
  rewrite take_app_length. replace (S (length k)) with (length k + 1)%nat by lia.
  rewrite <- drop_drop, drop_app_length. cbn [drop].
  rewrite filter_cons, decide_True by done. f_equal. apply nonempty_one.
Qed.

Definition encodes_pair (e kv : bytes * bytes) : Prop :=
  encodes e.1 kv.1 /\ encodes e.2 kv.2 /\ e.1 <> [] /\ ("="%char ∉ e.1) /\
  ("&"%char ∉ e.1) /\ ("&"%char ∉ e.2).

Lemma parse_query_pair_ok e kv : encodes_pair e kv -> parse_query_pair (pair_text e) = Ok kv.
Proof.
  destruct e as [k v], kv as [k' v']. intros (Hk & Hv & Hne & Heq & _). cbn [fst snd] in *.
  unfold parse_query_pair. rewrite split_pair by done. unfold unescape.
  rewrite (encodes_unescape _ _ Hk).
  case_decide as Hemp; [|by rewrite (encodes_unescape _ _ Hv)].
  subst v. by inversion Hv.
Qed.

(** C23: A query string built from percent encoded keys and values, which may hold
    '=', is decoded to those pairs in order. *)
Theorem parse_query_decodes (es kvs : list (bytes * bytes)) :
  Forall2 encodes_pair es kvs -> len (join "&" (pair_text <$> es)) < npos ->
  parse_query (join "&" (pair_text <$> es)) = Ok kvs.
Proof.
  intros Hall Hlen. unfold parse_query. rewrite split_of_join; [|clear Hlen|done].
  - clear Hlen. induction Hall as [|e kv es kvs He _ IH]; [done|]. cbn.
    rewrite (parse_query_pair_ok _ _ He). cbn. by rewrite IH.
  - induction Hall as [|[k v] kv es kvs He _ IH]; [constructor|]. cbn. constructor; [|done].
    destruct He as (_ & _ & Hne & _ & Hk & Hv). cbn in *. split; [by destruct k|].
    unfold pair_text. cbn. rewrite elem_of_app, elem_of_cons. intros [?|[[=]|?]]; done.
Qed.

(** ** Where the code and its documentation part *)

Lemma create_route_parts {R : Type} (router router' : restful_router R) route i :
  create_route router route = Ok (i, router') ->
  (exists r, m_routes router' !! i = Some r /\ parse_route_parts route = Ok (m_route_parts r)) /\
  (forall k r, m_routes router !! k = Some r -> m_routes router' !! k = Some r).
Proof.
  unfold create_route.
  destruct (find_route (m_routes router) route 0) as [[j|]|e|] eqn:E; cbn; try done.
  - intros [= -> <-]. apply find_route_Some in E as (_ & r & Hr & Hp).
    rewrite Nat.sub_0_r in Hr. split; [by exists r|done].
  - unfold new_route. destruct (parse_route_parts route) as [ps|e|] eqn:Ep; cbn; try done.
    intros [= <- <-]. cbn. split.
    + eexists. by rewrite lookup_app_r, Nat.sub_diag by lia.
    + intros k r Hk. rewrite lookup_app_l; [done|]. by eapply lookup_lt_Some.
Qed.

Theorem capture_names_split_routes {R : Type} (router r1 r2 : restful_router R) (ra rb : bytes)
    (pre post : list route_part) (a b : bytes) (i j : nat) :
  parse_route_parts ra = Ok (pre ++ (true, a) :: post) ->
  parse_route_parts rb = Ok (pre ++ (true, b) :: post) -> a <> b ->
  create_route router ra = Ok (i, r1) -> create_route r1 rb = Ok (j, r2) -> i <> j.
Proof.
  intros Ha Hb Hne [(x & Hx & Hpx) _]%create_route_parts [(y & Hy & Hpy) Hold]%create_route_parts.
  intros ->. apply Hold in Hx. rewrite Hx in Hy. injection Hy as <-.
  rewrite Ha in Hpx. rewrite Hb in Hpy. injection Hpx as Hpx. injection Hpy as Hpy.
  rewrite <- Hpx in Hpy. apply app_inv_head in Hpy. by injection Hpy.
Qed.

Theorem keyless_pair_becomes_key (v decoded : bytes) :
  v <> [] -> encodes v decoded -> parse_query_pair ("="%char :: v) = Ok (decoded, []).
Proof.
  intros Hne He. unfold parse_query_pair.
  replace (split ("="%char :: v) "=" 1) with [v]; [unfold unescape; by rewrite (encodes_unescape _ _ He)|].
  replace 1 with (Z.of_nat 1) by done. rewrite split_pieces by lia.
  cbn [pieces find_char]. rewrite decide_True by done. cbn [take drop].
  rewrite filter_cons, decide_False by (intros []; done). rewrite filter_all; [done|].
  by apply Forall_singleton.
Qed.

Theorem malformed_escape_is_a_std_exception (k : bytes) (e : std_exception) :
  k <> [] -> ("="%char ∉ k) -> unescape_url k = Throw e -> parse_query_pair k = Throw (ExStd e).
Proof.
  intros Hne Hs Hu. unfold parse_query_pair.
  replace (split k "=" 1) with [k]; [unfold unescape; by rewrite Hu|].
  replace 1 with (Z.of_nat 1) by done. rewrite split_pieces by lia. cbn [pieces].
  rewrite (proj2 (find_char_None _ _) Hs). rewrite filter_all; [done|]. by apply Forall_singleton.
Qed.


(** ** A concrete router *)

(** [/api/users/{id}] answers GET and PUT with the captured id. *)
Definition echo_captures : method_handler (list bytes) := fun route => Ok (Some (captures route)).
Definition users_route : restful_route (list bytes) :=
  set_method_handler (bs "PUT") echo_captures
    (set_method_handler (bs "GET") echo_captures
       (mk_route [(false, bs "users"); (true, bs "id")] ∅ [])).
Definition users_router : restful_router (list bytes) := mk_router [bs "api"] [users_route].

Lemma users_route_covers : path_match (m_route_parts users_route) [bs "users"; bs "42"] [bs "42"].
Proof. apply match_parts_spec. vm_compute. reflexivity. Qed.

Lemma router_dispatches_witness :
  create_handler users_router (bs "/api/users/42" ++ "?"%char :: bs "a=1") (bs "GET") = Ok (Some [bs "42"]) /\
  create_handler users_router (bs "/api/users/42" ++ []) (bs "DELETE") =
    Throw (method_not_allowed (bs "GET, PUT")).
Proof.
  assert (Hpath : "?"%char ∉ bs "/api/users/42") by (apply (bool_decide_unpack _); vm_compute; done).
  assert (Hsplit : split (bs "/api/users/42") "/" npos = m_base_url users_router ++ [bs "users"; bs "42"])
    by (vm_compute; reflexivity).
  split.
  - exact (proj1 (router_dispatches users_router (bs "/api/users/42") (Some (bs "a=1"))
      [bs "users"; bs "42"] (bs "GET") Hpath Hsplit ltac:(done))
      [] users_route [] [bs "42"] echo_captures [(bs "a", bs "1")] eq_refl (Forall_nil_2 _)
      users_route_covers eq_refl eq_refl).
  - refine (proj1 (proj2 (router_dispatches users_router (bs "/api/users/42") None
      [bs "users"; bs "42"] (bs "DELETE") Hpath Hsplit ltac:(done)))
      [] users_route [] eq_refl _ (Forall_nil_2 _) _).
    + apply Forall_singleton. intros [_ [h Hh]]. discriminate Hh.
    + exists [bs "42"]. exact users_route_covers.
Defined.

Lemma set_method_handler_lists_methods_witness :
  lists_methods (set_method_handler (bs "GET") echo_captures (mk_route [] ∅ [])).
Proof.
  apply (set_method_handler_lists_methods (bs "GET") echo_captures (mk_route [] ∅ []));
    [done|]. exists []. split_and!; [constructor|constructor| |done].
  intros m. split; [by intros ?%not_elem_of_nil|]. intros [_ [h Hh]]. cbn in Hh.
  by rewrite lookup_empty in Hh.
Defined.

Lemma parse_query_decodes_witness :
  parse_query (bs "name=J+D&x=%41") = Ok [(bs "name", bs "J D"); (bs "x", bs "A")].
Proof.
  apply (parse_query_decodes [(bs "name", bs "J+D"); (bs "x", bs "%41")]
           [(bs "name", bs "J D"); (bs "x", bs "A")]); [|vm_compute; reflexivity].
  repeat constructor; cbn [fst snd];
    try (apply unescape_encodes; vm_compute; reflexivity); try done;
    apply (bool_decide_unpack _); vm_compute; done.
Defined.

Lemma capture_names_split_routes_witness :
  exists i j r1 r2, create_route (R := unit) (new_router (bs "api")) (bs "{id}") = Ok (i, r1) /\
    create_route r1 (bs "{name}") = Ok (j, r2) /\ i <> j.
Proof.
  exists 0%nat, 1%nat, (mk_router [bs "api"] [mk_route [(true, bs "id")] ∅ []]),
    (mk_router [bs "api"] [mk_route [(true, bs "id")] ∅ []; mk_route [(true, bs "name")] ∅ []]).
  split; [reflexivity|]. split; [reflexivity|].
  apply (capture_names_split_routes (R := unit) (new_router (bs "api"))
    (mk_router [bs "api"] [mk_route [(true, bs "id")] ∅ []])
    (mk_router [bs "api"] [mk_route [(true, bs "id")] ∅ []; mk_route [(true, bs "name")] ∅ []])
    (bs "{id}") (bs "{name}") [] [] (bs "id") (bs "name") 0 1);
    [reflexivity|reflexivity|done|reflexivity|reflexivity].
Defined.

Lemma keyless_pair_becomes_key_witness : parse_query_pair (bs "=v") = Ok (bs "v", []).
Proof.
  apply (keyless_pair_becomes_key (bs "v") (bs "v")); [done|].
  apply unescape_encodes. vm_compute. reflexivity.
Defined.

Lemma malformed_escape_is_a_std_exception_witness :
  parse_query_pair (bs "%zz") = Throw (ExStd (invalid_argument (bs "Bad hex value"))).
Proof.
  apply (malformed_escape_is_a_std_exception (bs "%zz"));
    [done|apply (bool_decide_unpack _); vm_compute; done|].
  vm_compute. reflexivity.
Defined.
