(* ===== verification/HandlerShapes.v ===== *)
(** * How a handler is given its captures: make_session of include/dracon/restful.h

    C++ chooses at compile time, by what a handler can be called with; a handler
    is its parameters after the stream, and the choice is a function of them.
    [const std::string &] binds to a string, [std::optional<std::string>] also
    takes one by conversion, and not the other way round. *)

From S2P Require Import Prelude Utils Charconv Http Restful.

Inductive param : Type := p_string | p_optional.
Inductive value : Type := v_string (b : bytes) | v_optional (o : option bytes).

Global Instance param_eq_dec : EqDecision param.
Proof. solve_decision. Defined.
Global Instance value_eq_dec : EqDecision value.
Proof. solve_decision. Defined.

(** A handler: whether it takes the request and, after that, the route or
    captures, of which the last have defaults. *)
Record signature : Type := mk_signature {
  takes_request : bool;
  takes_route : bool;
  params : list param;
  defaults : list value;
}.

(** Which argument a parameter takes: [capture] is [Capture::Arg]. *)
Definition accepts (capture p : param) : bool :=
  match capture, p with p_optional, p_string => false | _, _ => true end.

(** [is_capture_invocable]: called with [n] captures. *)
Definition is_capture_invocable (sg : signature) (capture : param) (with_request : bool) (n : nat) : bool :=
  Bool.eqb with_request (takes_request sg) && negb (takes_route sg) &&
  (length (params sg) - length (defaults sg) <=? n) && (n <=? length (params sg)) &&
  forallb (accepts capture) (take n (params sg)).

(** [capture_arity<Handler, Capture, with_request, min, N>] *)
Fixpoint capture_arity (sg : signature) (capture : param) (with_request : bool) (min n : nat) : option nat :=
  if is_capture_invocable sg capture with_request n then Some n
  else match n with
       | O => None
       | S n' => if min <? n then capture_arity sg capture with_request min n' else None
       end.

(** [Capture::get(captures, index)] *)
Definition get_capture (capture : param) (captures : captured_resources) (index : nat) : value :=
  match capture with
  | p_string => v_string (captured_resource captures index)
  | p_optional => v_optional (optional_capture captures index)
  end.
Definition convert (p : param) (v : value) : value :=
  match p, v with p_optional, v_string b => v_optional (Some b) | _, _ => v end.

(** What the handler is called with. *)
Inductive arguments : Type :=
  | called_with_route (route : parsed_route)
  | called_with (values : list value).

(** [bind_captures]: [n] captures, and the defaults for the rest. *)
Definition bind_captures (sg : signature) (capture : param) (n : nat) (route : parsed_route) : arguments :=
  called_with (zip_with convert (take n (params sg)) (get_capture capture (captures route) <$> seq 0 n) ++
    drop (n - (length (params sg) - length (defaults sg))) (defaults sg)).

(** [make_session(handler, route)]; [None] does not compile. *)
Definition make_session (sg : signature) (route : parsed_route) : option arguments :=
  if takes_route sg then Some (called_with_route route)
  else
    match capture_arity sg p_optional true 1 max_handler_captures with
    | Some n => Some (bind_captures sg p_optional n route)
    | None =>
        match capture_arity sg p_optional false 1 max_handler_captures with
        | Some n => Some (bind_captures sg p_optional n route)
        | None =>
            match capture_arity sg p_string true 0 max_handler_captures with
            | Some n => Some (bind_captures sg p_string n route)
            | None =>
                match capture_arity sg p_string false 0 max_handler_captures with
                | Some n => Some (bind_captures sg p_string n route)
                | None => None
                end
            end
        end
    end.

(** ** Every handler gets all it declared *)

(** The widest arity is found. *)
Lemma capture_arity_widest sg capture with_request min n k :
  (min <= k <= n)%nat -> is_capture_invocable sg capture with_request k = true ->
  (forall j, (k < j <= n)%nat -> is_capture_invocable sg capture with_request j = false) ->
  capture_arity sg capture with_request min n = Some k.
Proof.
  revert k. induction n as [|n IH]; intros k Hk Hinv Hno; cbn [capture_arity].
  - assert (k = 0)%nat as -> by lia. by rewrite Hinv.
  - destruct (decide (k = S n)) as [->|Hne]; [by rewrite Hinv|].
    rewrite Hno by lia. rewrite (proj2 (Nat.ltb_lt _ _)) by lia. apply IH; [lia|done|]. intros j Hj. apply Hno. lia.
Qed.

Lemma capture_arity_none sg capture with_request min n :
  (forall j, (min <= j <= n)%nat -> is_capture_invocable sg capture with_request j = false) ->
  (min <= n)%nat -> capture_arity sg capture with_request min n = None.
Proof.
  induction n as [|n IH]; intros Hno Hmin; cbn [capture_arity]; rewrite Hno by lia; [done|].
  destruct (Nat.ltb_spec min (S n)); [|done]. apply IH; [|lia]. intros j Hj. apply Hno. lia.
Qed.

Lemma invocable_all sg capture :
  takes_route sg = false -> forallb (accepts capture) (params sg) = true ->
  is_capture_invocable sg capture (takes_request sg) (length (params sg)) = true.
Proof.
  intros Hr Ha. unfold is_capture_invocable. rewrite Bool.eqb_reflx, Hr, firstn_all, Ha.
  rewrite (proj2 (Nat.leb_le _ _)) by lia. by rewrite (proj2 (Nat.leb_le _ _)) by lia.
Qed.

Lemma invocable_wrong_request sg capture j :
  is_capture_invocable sg capture (negb (takes_request sg)) j = false.
Proof. unfold is_capture_invocable. by destruct (takes_request sg). Qed.

Lemma invocable_too_many sg capture r j :
  (length (params sg) < j)%nat -> is_capture_invocable sg capture r j = false.
Proof.
  intros Hj. unfold is_capture_invocable. rewrite (proj2 (Nat.leb_gt j _)) by lia.
  by rewrite !andb_false_r.
Qed.

(** Optional captures do not fit a handler whose required parameters have a
    string among them. *)
Lemma invocable_string_param sg r j i :
  params sg !! i = Some p_string -> (i < length (params sg) - length (defaults sg))%nat ->
  is_capture_invocable sg p_optional r j = false.
Proof.
  intros Hi Hreq. unfold is_capture_invocable.
  destruct (Nat.leb_spec (length (params sg) - length (defaults sg)) j) as [Hle|]; [|by rewrite andb_false_r].
  apply andb_false_iff. right. apply not_true_iff_false. rewrite forallb_forall.
  intros Hall. assert (Hin : In p_string (take j (params sg))).
  { apply list_elem_of_In. eapply list_elem_of_lookup_2. rewrite lookup_take_lt; [done|lia]. }
  by specialize (Hall _ Hin).
Qed.

Definition all_optional (sg : signature) : bool :=
  negb (bool_decide (params sg = [])) && forallb (fun p => bool_decide (p = p_optional)) (params sg).

(** The capture a parameter gets. *)
Definition capture_for (sg : signature) (route : parsed_route) (i : nat) (p : param) : value :=
  match p with
  | p_string => v_string (captured_resource (captures route) i)
  | p_optional => v_optional (if all_optional sg then optional_capture (captures route) i
                              else Some (captured_resource (captures route) i))
  end.

(** The choice between the two kinds of captures. *)
Definition fits (sg : signature) : Prop :=
  all_optional sg = true \/ (forall i p, params sg !! i = Some p -> p = p_string) \/
  (exists i, params sg !! i = Some p_string /\ i < length (params sg) - length (defaults sg))%nat.

Lemma make_session_kind sg route :
  takes_route sg = false -> (length (params sg) <= max_handler_captures)%nat -> fits sg ->
  make_session sg route =
  Some (bind_captures sg (if all_optional sg then p_optional else p_string) (length (params sg)) route).
Proof.
  intros Hr Hlen Hfit. unfold make_session. rewrite Hr.
  assert (Hwidest : forall capture min, (min <= length (params sg))%nat ->
    forallb (accepts capture) (params sg) = true ->
    capture_arity sg capture (takes_request sg) min max_handler_captures = Some (length (params sg))).
  { intros capture min Hmin Ha. apply capture_arity_widest; [lia|by apply invocable_all|].
    intros j Hj. apply invocable_too_many. lia. }
  assert (Hwrong : forall capture min, (min <= max_handler_captures)%nat ->
    capture_arity sg capture (negb (takes_request sg)) min max_handler_captures = None).
  { intros capture min Hmin. apply capture_arity_none; [|done]. intros j _. apply invocable_wrong_request. }
  destruct (all_optional sg) eqn:Hall.
  - apply andb_true_iff in Hall as [Hne%negb_true_iff%bool_decide_eq_false Hopt].
    assert (Hacc : forallb (accepts p_optional) (params sg) = true).
    { rewrite forallb_forall in Hopt |- *. intros p Hp%Hopt%bool_decide_eq_true. by subst p. }
    assert (1 <= length (params sg))%nat by (destruct (params sg); [done|cbn; lia]).
    specialize (Hwidest p_optional 1%nat ltac:(done) Hacc). specialize (Hwrong p_optional 1%nat ltac:(unfold max_handler_captures; lia)).
    destruct (takes_request sg); cbn [negb] in *; [by rewrite Hwidest|by rewrite Hwrong, Hwidest].
  - assert (Hnone : forall r, capture_arity sg p_optional r 1 max_handler_captures = None).
    { intros r. apply capture_arity_none; [|unfold max_handler_captures; lia]. intros j Hj.
      destruct Hfit as [?|[Hstr|(i & Hi & Hreq)]]; [congruence| |by eapply invocable_string_param].
      destruct (params sg) as [|p ps] eqn:Hps; [apply invocable_too_many; rewrite Hps; cbn; lia|].
      unfold is_capture_invocable. rewrite Hps.
      assert (p = p_string) as -> by by apply (Hstr 0%nat). destruct j; [lia|]. cbn. by rewrite !andb_false_r. }
    rewrite !Hnone.
    assert (Hacc : forallb (accepts p_string) (params sg) = true) by (apply forallb_forall; by intros []).
    specialize (Hwidest p_string 0%nat ltac:(lia) Hacc). specialize (Hwrong p_string 0%nat ltac:(lia)).
    destruct (takes_request sg); cbn [negb] in *; [by rewrite Hwidest|by rewrite Hwrong, Hwidest].
Qed.

(** C22: A handler is called with everything it declares: whatever the number of
    its string or optional parameters up to the maximum, with or without
    the request and with any defaults, provided that its parameters are
    all strings, or all optional, or that one of its strings has no
    default, make_session finds the widest shape that fits and every
    parameter gets the capture at its position; optional ones tell an
    absent capture from an empty one exactly when all of them are
    optional. (A handler that mixes them and has a default for each of its
    strings is not covered.) *)
Theorem handlers_get_their_captures (sg : signature) (route : parsed_route) :
  takes_route sg = false -> (length (params sg) <= max_handler_captures)%nat ->
  (length (defaults sg) <= length (params sg))%nat -> fits sg ->
  exists values, make_session sg route = Some (called_with values) /\ length values = length (params sg) /\
    forall i p, params sg !! i = Some p -> values !! i = Some (capture_for sg route i p).
Proof.
  intros Hr Hlen Hdef Hfit. rewrite make_session_kind by done. unfold bind_captures.
  rewrite firstn_all, drop_ge by lia. rewrite app_nil_r. eexists. split; [done|].
  rewrite length_zip_with, length_fmap, length_seq, Nat.min_id. split; [done|]. intros i p Hi.
  pose proof (lookup_lt_Some _ _ _ Hi) as Hlt.
  rewrite lookup_zip_with, Hi. cbn [mbind option_bind]. rewrite list_lookup_fmap, lookup_seq_lt by lia.
  cbn. unfold capture_for. f_equal. destruct (all_optional sg) eqn:Hall; [|by destruct p].
  apply andb_true_iff in Hall as [_ Hopt]. rewrite forallb_forall in Hopt.
  assert (Hp : p = p_optional); [|by subst p]. eapply bool_decide_eq_true_1, Hopt, list_elem_of_In.
  by eapply list_elem_of_lookup_2.
Qed.

(** A string with a default after an optional: the handler is called with the
    first capture alone. *)
Theorem defaulted_string_loses_capture :
  let sg := mk_signature true false [p_optional; p_string] [v_optional None; v_string []] in
  let route := mk_parsed_route [bs "42"; bs "7"] [] (bs "GET") in
  make_session sg route = Some (called_with [v_optional (Some (bs "42")); v_string []]) /\
  capture_for sg route 1 p_string = v_string (bs "7").
Proof. split; reflexivity. Qed.

(** The handler of the documentation on a route with one capture. *)
Lemma handlers_get_their_captures_witness :
  exists values,
    make_session (mk_signature true false [p_string; p_string] [v_string []; v_string []])
      (mk_parsed_route [bs "42"] [] (bs "GET")) = Some (called_with values) /\ length values = 2%nat /\
    forall i p, [p_string; p_string] !! i = Some p -> values !! i =
      Some (capture_for (mk_signature true false [p_string; p_string] [v_string []; v_string []])
        (mk_parsed_route [bs "42"] [] (bs "GET")) i p).
Proof.
  apply (handlers_get_their_captures (mk_signature true false [p_string; p_string] [v_string []; v_string []])
    (mk_parsed_route [bs "42"] [] (bs "GET"))).
  - reflexivity.
  - vm_compute. lia.
  - cbn. lia.
  - right. left. intros [|[|i]] p; cbn; intros [=]; done.
Defined.
