(* ===== verification/LruCache.v ===== *)
(** * lru_cache: include/dracon/utils.h

    The cache as the source keeps it: a list of entries in the order of their
    last use, and a hash from keys to iterators into that list.  An iterator is
    the identity of a node, which survives [splice] and is gone after [erase].
    The refinement theorems relate it to the abstract cache, a list of key and
    value pairs that the operations reorder and cut. *)

From S2P Require Import Prelude Utils.

Section lru.
Context {K V : Type} `{Countable K} `{Inhabited V}.

Record lru_cache : Type := mk_lru {
  m_cache_items : list (nat * (K * V));   (** node, key, value; front first *)
  m_cache_hash : gmap K nat;
  m_cache_size : nat;
  next_node : nat;                        (** the next node to be allocated *)
}.
Implicit Types c : lru_cache.

Definition new_lru (cache_size : nat) : lru_cache := mk_lru [] ∅ cache_size 0.

(** [m_cache_items.erase(it)] *)
Definition erase_node (it : nat) (items : list (nat * (K * V))) : list (nat * (K * V)) :=
  filter (fun e => e.1 <> it) items.

(** [m_cache_items.splice(begin, items, it)]: the same node, at the front. *)
Definition splice_front (it : nat) (items : list (nat * (K * V))) : list (nat * (K * V)) :=
  filter (fun e => e.1 = it) items ++ filter (fun e => e.1 <> it) items.

(** [it->second]; [None] for an iterator that is not into the list. *)
Definition deref (it : nat) (items : list (nat * (K * V))) : option V :=
  (fun e : nat * (K * V) => e.2.2) <$> head (filter (fun e => e.1 = it) items).

(** [clean_cache()].  [rbegin()] of an empty list is undefined: [None].  Each
    round shrinks the hash, so its size bounds the rounds. *)
Fixpoint clean_loop (fuel : nat) c : option lru_cache :=
  match fuel with
  | O => None
  | S fuel' =>
      if decide (m_cache_size c < size (m_cache_hash c)) then
        match last (m_cache_items c) with
        | None => None
        | Some it =>
            clean_loop fuel' (mk_lru (take (length (m_cache_items c) - 1) (m_cache_items c))
              (delete it.2.1 (m_cache_hash c)) (m_cache_size c) (next_node c))
        end
      else Some c
  end.
Definition clean_cache c : option lru_cache := clean_loop (S (size (m_cache_hash c))) c.

(** [put(key, value)] *)
Definition put (key : K) (value : V) c : option lru_cache :=
  let items := match m_cache_hash c !! key with
               | Some it => erase_node it (m_cache_items c)
               | None => m_cache_items c
               end in
  clean_cache (mk_lru ((next_node c, (key, value)) :: items)
    (<[key := next_node c]> (m_cache_hash c)) (m_cache_size c) (S (next_node c))).

(** Moving the entry of an iterator to the front, and its value. *)
Definition use (it : nat) c : option V * lru_cache :=
  let items := splice_front it (m_cache_items c) in
  (deref it items, mk_lru items (m_cache_hash c) (m_cache_size c) (next_node c)).

(** [reference(key)], read; a key that is not there is a [std::range_error]. *)
Definition reference (key : K) c : outcome std_exception (option V) * lru_cache :=
  match m_cache_hash c !! key with
  | None => (Throw (range_error (bs "Invalid key")), c)
  | Some it => let '(v, c') := use it c in (Ok v, c')
  end.

(** [value(key)] *)
Definition value (key : K) c : option V * lru_cache :=
  match m_cache_hash c !! key with
  | None => (Some inhabitant, c)
  | Some it => use it c
  end.

Definition exists_ (key : K) c : bool := bool_decide (is_Some (m_cache_hash c !! key)).

(** [cache_size(size)] *)
Definition resize_cache (size_ : nat) c : option lru_cache :=
  clean_cache (mk_lru (m_cache_items c) (m_cache_hash c) size_ (next_node c)).

Definition clear c : lru_cache := mk_lru [] ∅ (m_cache_size c) (next_node c).

(** [erase(it)], for an iterator into the list. *)
Definition erase (it : nat) c : lru_cache :=
  mk_lru (erase_node it (m_cache_items c))
    (match filter (fun e => e.1 = it) (m_cache_items c) with
     | e :: _ => delete e.2.1 (m_cache_hash c)
     | [] => m_cache_hash c
     end) (m_cache_size c) (next_node c).

Definition size_ c : nat := size (m_cache_hash c).

(** ** The abstract cache *)

Definition abstract c : list (K * V) := (m_cache_items c).*2.

Definition without (key : K) (l : list (K * V)) : list (K * V) := filter (fun e => e.1 <> key) l.
Fixpoint lookup_key (key : K) (l : list (K * V)) : option V :=
  match l with
  | [] => None
  | (k, v) :: l' => if decide (k = key) then Some v else lookup_key key l'
  end.

Definition spec_put (n : nat) (key : K) (value : V) (l : list (K * V)) : list (K * V) :=
  take n ((key, value) :: without key l).
Definition spec_use (key : K) (l : list (K * V)) : list (K * V) :=
  match lookup_key key l with
  | Some v => (key, v) :: without key l
  | None => l
  end.

(** ** The invariant *)

Definition entry_key (e : nat * (K * V)) : K := e.2.1.
Definition index_of (items : list (nat * (K * V))) : gmap K nat :=
  list_to_map ((fun e => (entry_key e, e.1)) <$> items).

Definition lru_inv c : Prop :=
  NoDup ((m_cache_items c).*1) /\ NoDup (entry_key <$> m_cache_items c) /\
  Forall (fun e => e.1 < next_node c) (m_cache_items c) /\
  m_cache_hash c = index_of (m_cache_items c).

Lemma index_of_cons e items : index_of (e :: items) = <[entry_key e := e.1]> (index_of items).
Proof. done. Qed.

Lemma index_of_None items k : index_of items !! k = None <-> k ∉ entry_key <$> items.
Proof.
  unfold index_of. rewrite <- not_elem_of_list_to_map, <- list_fmap_compose. done.
Qed.

Lemma index_of_Some items k it :
  NoDup (entry_key <$> items) ->
  index_of items !! k = Some it <-> exists v, (it, (k, v)) ∈ items.
Proof.
  intros Hnd. unfold index_of. rewrite <- elem_of_list_to_map.
  2:{ by rewrite <- list_fmap_compose. }
  rewrite list_elem_of_fmap. split.
  - intros ([it' [k' v]] & [= -> ->] & Hin). by exists v.
  - intros [v Hin]. by exists (it, (k, v)).
Qed.

Lemma index_of_size items : NoDup (entry_key <$> items) -> size (index_of items) = length items.
Proof.
  induction items as [|e items IH]; [done|]. rewrite fmap_cons. intros [Hn Hnd]%NoDup_cons.
  rewrite index_of_cons, map_size_insert_None by (by rewrite index_of_None).
  by rewrite IH.
Qed.

Lemma index_of_filter items k :
  index_of (filter (fun e => entry_key e <> k) items) = delete k (index_of items).
Proof.
  induction items as [|e items IH]; [symmetry; apply delete_empty|].
  rewrite filter_cons, index_of_cons. case_decide as Hk.
  - rewrite index_of_cons, IH. by rewrite delete_insert_ne by congruence.
  - subst k. rewrite IH, delete_insert_eq. done.
Qed.

Lemma index_of_snoc items e :
  entry_key e ∉ entry_key <$> items -> delete (entry_key e) (index_of (items ++ [e])) = index_of items.
Proof.
  induction items as [|x items IH]; cbn [app].
  - intros _. rewrite index_of_cons, delete_insert_eq. apply delete_empty.
  - intros Hn. rewrite !index_of_cons. rewrite fmap_cons, elem_of_cons in Hn.
    rewrite delete_insert_ne by naive_solver. rewrite IH by naive_solver. done.
Qed.

Lemma same_entry items (e e' : nat * (K * V)) :
  NoDup (items.*1) -> NoDup (entry_key <$> items) -> e ∈ items -> e' ∈ items ->
  e.1 = e'.1 <-> entry_key e = entry_key e'.
Proof.
  intros Hid Hkey [i Hi]%list_elem_of_lookup [j Hj]%list_elem_of_lookup. split; intros Heq.
  - assert (i = j) as <-; [|congruence].
    eapply (NoDup_lookup _ _ _ _ Hid); rewrite list_lookup_fmap; [by rewrite Hi|].
    rewrite Hj. cbn. by rewrite Heq.
  - assert (i = j) as <-; [|congruence].
    eapply (NoDup_lookup _ _ _ _ Hkey); rewrite list_lookup_fmap; [by rewrite Hi|].
    rewrite Hj. cbn. by rewrite Heq.
Qed.

(** Erasing the node of a key is erasing the key. *)
Lemma erase_node_key items it k v :
  NoDup (items.*1) -> NoDup (entry_key <$> items) -> (it, (k, v)) ∈ items ->
  erase_node it items = filter (fun e => entry_key e <> k) items.
Proof.
  intros Hid Hkey Hin. apply filter_ext_in. intros e He.
  by rewrite (same_entry items e (it, (k, v)) Hid Hkey He Hin).
Qed.

Lemma find_node_key items it k v :
  NoDup (items.*1) -> NoDup (entry_key <$> items) -> (it, (k, v)) ∈ items ->
  filter (fun e => e.1 = it) items = [(it, (k, v))].
Proof.
  intros Hid _ Hin. apply list_elem_of_split in Hin as (l1 & l2 & ->).
  rewrite fmap_app, fmap_cons in Hid. apply NoDup_app in Hid as (_ & Hd1 & Hd2).
  apply NoDup_cons in Hd2 as [Hn2 _].
  rewrite filter_app, filter_cons, decide_True by done.
  rewrite (filter_none _ l1), (filter_none _ l2); [done|..]; intros e He Heq.
  - apply Hn2. rewrite list_elem_of_fmap. by exists e.
  - apply (Hd1 it); [rewrite list_elem_of_fmap; by exists e|by left].
Qed.

Lemma abstract_without items k :
  (filter (fun e => entry_key e <> k) items).*2 = without k (items.*2).
Proof.
  induction items as [|e items IH]; [done|]. rewrite fmap_cons. unfold without in *.
  rewrite !filter_cons. destruct (decide (entry_key e <> k)) as [Hk|Hk].
  - rewrite decide_True by done. by rewrite fmap_cons, IH.
  - rewrite decide_False by done. exact IH.
Qed.

Ltac members_in :=
  cbn [m_cache_items m_cache_hash m_cache_size next_node fst snd] in *.

Lemma inv_filter c k :
  lru_inv c ->
  lru_inv (mk_lru (filter (fun e => entry_key e <> k) (m_cache_items c))
    (delete k (m_cache_hash c)) (m_cache_size c) (next_node c)).
Proof.
  intros (H1 & H2 & H3 & H4). unfold lru_inv. members_in. split_and!.
  - refine (sublist_NoDup _ _ H1 _). apply fmap_sublist, sublist_filter.
  - refine (sublist_NoDup _ _ H2 _). apply fmap_sublist, sublist_filter.
  - apply Forall_forall. intros e [_ He]%list_elem_of_filter. rewrite Forall_forall in H3. auto.
  - by rewrite index_of_filter, H4.
Qed.

(** ** The operations refine the abstract cache *)

Lemma clean_loop_spec fuel c :
  length (m_cache_items c) < fuel -> lru_inv c ->
  exists c', clean_loop fuel c = Some c' /\ lru_inv c' /\ m_cache_size c' = m_cache_size c /\
    m_cache_items c' = take (m_cache_size c) (m_cache_items c).
Proof.
  revert c. induction fuel as [|fuel IH]; intros c Hf Hinv; [lia|]. cbn [clean_loop].
  pose proof Hinv as (H1 & H2 & H3 & H4). rewrite H4, index_of_size by done.
  case_decide as Hbig.
  2:{ exists c. rewrite take_ge by lia. done. }
  assert (exists l x, m_cache_items c = l ++ [x]) as (l & x & E).
  { destruct (m_cache_items c) as [|x l _] using rev_ind; [cbn in Hbig; lia|by exists l, x]. }
  rewrite E in *. rewrite last_snoc, length_app. cbn [length].
  replace (length l + 1 - 1) with (length l) by lia. rewrite take_app_length.
  rewrite fmap_app in H1. rewrite fmap_app in H2. cbn in H1, H2. apply NoDup_app in H1 as (H1 & _ & _).
  apply NoDup_app in H2 as (H2 & Hd & _). apply Forall_app in H3 as [H3 _].
  assert (entry_key x ∉ entry_key <$> l) as Hx by (intros Hin; apply (Hd _ Hin); by left).
  rewrite length_app in Hf, Hbig. cbn in Hf, Hbig.
  destruct (IH (mk_lru l (delete x.2.1 (index_of (l ++ [x]))) (m_cache_size c) (next_node c)))
    as (c' & Hc & Hinv' & Hsz & Hit); [cbn; lia| |].
  - split_and!; try done. by apply index_of_snoc.
  - exists c'. split_and!; try done. rewrite Hit. cbn. by rewrite take_app_le by lia.
Qed.

Lemma clean_cache_spec c :
  lru_inv c ->
  exists c', clean_cache c = Some c' /\ lru_inv c' /\ m_cache_size c' = m_cache_size c /\
    abstract c' = take (m_cache_size c) (abstract c).
Proof.
  intros Hinv. pose proof Hinv as (_ & H2 & _ & H4).
  destruct (clean_loop_spec (S (size (m_cache_hash c))) c) as (c' & Hc & Hi & Hs & Hit).
  { rewrite H4, index_of_size by done. lia. }
  { done. }
  exists c'. split_and!; try done. unfold abstract. rewrite Hit. by rewrite fmap_take.
Qed.

Lemma erase_hit c it key :
  lru_inv c -> m_cache_hash c !! key = Some it ->
  exists v, (it, (key, v)) ∈ m_cache_items c /\
    erase_node it (m_cache_items c) = filter (fun e => entry_key e <> key) (m_cache_items c) /\
    filter (fun e => e.1 = it) (m_cache_items c) = [(it, (key, v))].
Proof.
  intros (H1 & H2 & H3 & H4) Hl. rewrite H4, index_of_Some in Hl by done. destruct Hl as [v Hin].
  exists v. split_and!; [done|by eapply erase_node_key|by eapply find_node_key].
Qed.

Lemma items_without c key :
  lru_inv c ->
  match m_cache_hash c !! key with
  | Some it => erase_node it (m_cache_items c)
  | None => m_cache_items c
  end = filter (fun e => entry_key e <> key) (m_cache_items c).
Proof.
  intros Hinv. destruct (m_cache_hash c !! key) as [it|] eqn:E.
  - by destruct (erase_hit c it key Hinv E) as (v & _ & ? & _).
  - pose proof Hinv as (_ & _ & _ & H4). rewrite H4, index_of_None in E.
    symmetry. apply filter_all, Forall_forall. intros e He Hk. apply E.
    rewrite list_elem_of_fmap. by exists e.
Qed.

Lemma inv_push c key value :
  lru_inv c ->
  lru_inv (mk_lru ((next_node c, (key, value))
                     :: filter (fun e => entry_key e <> key) (m_cache_items c))
    (<[key := next_node c]> (m_cache_hash c)) (m_cache_size c) (S (next_node c))).
Proof.
  intros Hinv. destruct (inv_filter c key Hinv) as (H1 & H2 & H3 & H4). members_in.
  unfold lru_inv. members_in. split_and!.
  - rewrite fmap_cons. apply NoDup_cons. split; [|done]. rewrite list_elem_of_fmap. intros (e & He & Hin).
    rewrite Forall_forall in H3. specialize (H3 e Hin). members_in. lia.
  - rewrite fmap_cons. apply NoDup_cons. split; [|done]. rewrite list_elem_of_fmap.
    intros (e & He & [Hk _]%list_elem_of_filter). by apply Hk.
  - constructor; [cbn; lia|]. eapply Forall_impl; [exact H3|]. cbn. lia.
  - rewrite index_of_cons, <- H4. members_in. by rewrite insert_delete_eq.
Qed.

Lemma put_refines (key : K) (value : V) c :
  lru_inv c ->
  exists c', put key value c = Some c' /\ lru_inv c' /\ m_cache_size c' = m_cache_size c /\
    abstract c' = spec_put (m_cache_size c) key value (abstract c).
Proof.
  intros Hinv. unfold put. rewrite items_without by done.
  destruct (clean_cache_spec _ (inv_push c key value Hinv)) as (c' & Hc & Hi & Hs & Ha).
  exists c'. split_and!; try done. rewrite Ha. unfold spec_put, abstract. members_in.
  by rewrite fmap_cons, abstract_without.
Qed.

Lemma lookup_key_abstract items it k v :
  NoDup (entry_key <$> items) -> (it, (k, v)) ∈ items -> lookup_key k (items.*2) = Some v.
Proof.
  intros Hnd Hin. induction items as [|[it' [k' v']] items IH]; [by apply not_elem_of_nil in Hin|].
  cbn in *. apply NoDup_cons in Hnd as [Hn Hnd].
  apply elem_of_cons in Hin as [[= -> -> ->]|Hin]; [by rewrite decide_True|].
  rewrite decide_False; [by apply IH|]. intros ->. apply Hn. rewrite list_elem_of_fmap.
  by exists (it, (k, v)).
Qed.

Lemma lookup_key_None items k : k ∉ (entry_key <$> items) -> lookup_key k (items.*2) = None.
Proof.
  induction items as [|[it' [k' v']] items IH]; [done|]. cbn. intros Hn.
  rewrite decide_False by (intros ->; apply Hn; by left). apply IH. intros ?. apply Hn. by right.
Qed.

(** Using an entry moves it to the front and gives its value. *)
Lemma use_spec c it key :
  lru_inv c -> m_cache_hash c !! key = Some it ->
  exists v, lookup_key key (abstract c) = Some v /\ (use it c).1 = Some v /\
    lru_inv (use it c).2 /\ abstract (use it c).2 = spec_use key (abstract c).
Proof.
  intros Hinv Hl. pose proof Hinv as (H1 & H2 & H3 & H4).
  destruct (erase_hit c it key Hinv Hl) as (v & Hin & He & Hf). exists v.
  pose proof (lookup_key_abstract _ _ _ _ H2 Hin) as Hlk. fold (abstract c) in Hlk.
  unfold use, splice_front. unfold erase_node in He. rewrite Hf, He. cbn [fst snd app].
  destruct (inv_filter c key Hinv) as (I1 & I2 & I3 & I4). members_in.
  unfold lru_inv. split_and!; [done| | | | | |].
  - unfold deref. by rewrite filter_cons, decide_True.
  - members_in. rewrite fmap_cons. apply NoDup_cons. split; [|done]. rewrite <- He, list_elem_of_fmap.
    intros (e & Heq & [Hne _]%list_elem_of_filter). by apply Hne.
  - members_in. rewrite fmap_cons. apply NoDup_cons. split; [|done]. rewrite list_elem_of_fmap.
    intros (e & Heq & [Hne _]%list_elem_of_filter). by apply Hne.
  - members_in. constructor; [|done]. rewrite Forall_forall in H3. by apply (H3 (it, (key, v))).
  - members_in. rewrite index_of_cons, <- I4. members_in. rewrite insert_delete_eq, insert_id; done.
  - unfold spec_use. rewrite Hlk. unfold abstract. members_in. by rewrite ?fmap_cons, abstract_without.
Qed.

Lemma value_refines (key : K) c :
  lru_inv c ->
  (value key c).1 = Some (default inhabitant (lookup_key key (abstract c))) /\
  lru_inv (value key c).2 /\ abstract (value key c).2 = spec_use key (abstract c) /\
  exists_ key c = bool_decide (is_Some (lookup_key key (abstract c))).
Proof.
  intros Hinv. unfold value, exists_. destruct (m_cache_hash c !! key) as [it|] eqn:E.
  - destruct (use_spec c it key Hinv E) as (v & Hl & Hv & Hi & Ha). by rewrite Hl, Hv.
  - pose proof Hinv as (_ & _ & _ & H4). rewrite H4, index_of_None in E.
    unfold spec_use, abstract. by rewrite (lookup_key_None _ _ E).
Qed.

Lemma reference_refines (key : K) c :
  lru_inv c ->
  let '(o, c') := reference key c in
  lru_inv c' /\ abstract c' = spec_use key (abstract c) /\
  o = match lookup_key key (abstract c) with
      | Some v => Ok (Some v)
      | None => Throw (range_error (bs "Invalid key"))
      end.
Proof.
  intros Hinv. unfold reference. destruct (m_cache_hash c !! key) as [it|] eqn:E.
  - destruct (use_spec c it key Hinv E) as (v & Hl & Hv & Hi & Ha).
    destruct (use it c) as [o c']. cbn in *. by rewrite Hl, Hv.
  - pose proof Hinv as (_ & _ & _ & H4). rewrite H4, index_of_None in E.
    unfold spec_use, abstract. by rewrite (lookup_key_None _ _ E).
Qed.

Lemma resize_cache_refines (n : nat) c :
  lru_inv c ->
  exists c', resize_cache n c = Some c' /\ lru_inv c' /\ abstract c' = take n (abstract c) /\
    size_ c' = length (abstract c').
Proof.
  intros Hinv. unfold resize_cache.
  destruct (clean_cache_spec (mk_lru (m_cache_items c) (m_cache_hash c) n (next_node c)))
    as (c' & Hc & Hi & Hs & Ha); [exact Hinv|].
  exists c'. split_and!; try done. destruct Hi as (_ & I2 & _ & I4).
  unfold size_, abstract. by rewrite I4, index_of_size, length_fmap.
Qed.

Lemma erase_refines (it : nat) (key : K) c :
  lru_inv c -> m_cache_hash c !! key = Some it ->
  lru_inv (erase it c) /\ abstract (erase it c) = without key (abstract c).
Proof.
  intros Hinv Hl. destruct (erase_hit c it key Hinv Hl) as (v & _ & He & Hf).
  unfold erase. rewrite He, Hf. members_in. split; [by apply inv_filter|]. unfold abstract. members_in.
  by rewrite abstract_without.
Qed.

Lemma new_lru_inv n : lru_inv (new_lru n).
Proof. split_and!; try done; constructor. Qed.

Lemma clear_inv c : lru_inv (clear c) /\ abstract (clear c) = [].
Proof. split; [|done]. split_and!; try done; constructor. Qed.

(** ** Refinement

    Any use of the cache, against a cache that is a list of pairs and a limit.
    [None] is a use of an iterator into nothing, which the source must never
    come to. *)

Inductive cache_op : Type :=
  | op_put (key : K) (value : V)
  | op_value (key : K)
  | op_reference (key : K)
  | op_exists (key : K)
  | op_resize (n : nat)
  | op_clear
  | op_erase (key : K)     (** through the iterator of the entry, when there is one *)
  | op_size.

Inductive observation : Type :=
  | saw_nothing
  | saw_value (v : V)
  | saw_error (e : std_exception)
  | saw_bool (b : bool)
  | saw_size (n : nat).

Definition run_cache_op (op : cache_op) c : option (observation * lru_cache) :=
  match op with
  | op_put key v => (saw_nothing,.) <$> put key v c
  | op_value key => let '(o, c') := value key c in (fun v => (saw_value v, c')) <$> o
  | op_reference key =>
      match reference key c with
      | (Ok o, c') => (fun v => (saw_value v, c')) <$> o
      | (Throw e, c') => Some (saw_error e, c')
      | (Diverge, _) => None
      end
  | op_exists key => Some (saw_bool (exists_ key c), c)
  | op_resize n => (saw_nothing,.) <$> resize_cache n c
  | op_clear => Some (saw_nothing, clear c)
  | op_erase key =>
      Some (saw_nothing, match m_cache_hash c !! key with Some it => erase it c | None => c end)
  | op_size => Some (saw_size (size_ c), c)
  end.

Definition spec_cache_op (op : cache_op) (a : nat * list (K * V)) : observation * (nat * list (K * V)) :=
  let '(n, l) := a in
  match op with
  | op_put key v => (saw_nothing, (n, spec_put n key v l))
  | op_value key => (saw_value (default inhabitant (lookup_key key l)), (n, spec_use key l))
  | op_reference key =>
      (match lookup_key key l with
       | Some v => saw_value v
       | None => saw_error (range_error (bs "Invalid key"))
       end, (n, spec_use key l))
  | op_exists key => (saw_bool (bool_decide (is_Some (lookup_key key l))), a)
  | op_resize m => (saw_nothing, (m, take m l))
  | op_clear => (saw_nothing, (n, []))
  | op_erase key => (saw_nothing, (n, without key l))
  | op_size => (saw_size (length l), a)
  end.

Fixpoint run_cache (ops : list cache_op) c : option (list observation * lru_cache) :=
  match ops with
  | [] => Some ([], c)
  | op :: ops' =>
      '(o, c1) ← run_cache_op op c;
      '(os, c2) ← run_cache ops' c1;
      Some (o :: os, c2)
  end.
Fixpoint spec_cache (ops : list cache_op) (a : nat * list (K * V)) :
    list observation * (nat * list (K * V)) :=
  match ops with
  | [] => ([], a)
  | op :: ops' =>
      let '(o, a1) := spec_cache_op op a in
      let '(os, a2) := spec_cache ops' a1 in (o :: os, a2)
  end.

Definition implements c (a : nat * list (K * V)) : Prop :=
  lru_inv c /\ m_cache_size c = a.1 /\ abstract c = a.2.

Lemma value_cache_size key c : m_cache_size (value key c).2 = m_cache_size c.
Proof. unfold value. by destruct (m_cache_hash c !! key). Qed.
Lemma reference_cache_size key c : m_cache_size (reference key c).2 = m_cache_size c.
Proof. unfold reference. by destruct (m_cache_hash c !! key). Qed.
Lemma resize_cache_size n c c' : lru_inv c -> resize_cache n c = Some c' -> m_cache_size c' = n.
Proof.
  intros Hinv. unfold resize_cache.
  destruct (clean_cache_spec (mk_lru (m_cache_items c) (m_cache_hash c) n (next_node c)))
    as (c0 & -> & _ & Hs & _); [exact Hinv|]. by intros [= <-].
Qed.

Lemma without_missing c key : lru_inv c -> m_cache_hash c !! key = None -> without key (abstract c) = abstract c.
Proof.
  intros (_ & _ & _ & H4). rewrite H4, index_of_None. unfold without, abstract. intros Hn.
  apply filter_all, Forall_forall. intros e (e' & -> & Hin)%list_elem_of_fmap Hk. apply Hn.
  rewrite list_elem_of_fmap. by exists e'.
Qed.

Lemma run_cache_op_simulates op c a :
  implements c a ->
  exists c', run_cache_op op c = Some ((spec_cache_op op a).1, c') /\ implements c' (spec_cache_op op a).2.
Proof.
  destruct a as [n l]. intros (Hinv & Hs & Ha). cbn in Hs, Ha. subst n l.
  destruct op as [key v|key|key|key|n| |key|]; cbn -[put value reference resize_cache].
  - destruct (put_refines key v c Hinv) as (c' & -> & Hi & Hsz & Hab). by exists c'.
  - destruct (value_refines key c Hinv) as (Hv & Hi & Hab & _). pose proof (value_cache_size key c).
    destruct (value key c) as [o c']. cbn in *. subst o. by exists c'.
  - pose proof (reference_refines key c Hinv) as Hr. pose proof (reference_cache_size key c).
    destruct (reference key c) as [o c']. destruct Hr as (Hi & Hab & ->). exists c'.
    by destruct (lookup_key key (abstract c)).
  - exists c. destruct (value_refines key c Hinv) as (_ & _ & _ & ->). done.
  - destruct (resize_cache_refines n c Hinv) as (c' & Hc & Hi & Hab & _). exists c'.
    rewrite Hc. split; [done|]. split_and!; [done| |done]. by apply (resize_cache_size n c).
  - exists (clear c). destruct (clear_inv c). done.
  - eexists. split; [done|]. destruct (m_cache_hash c !! key) as [it|] eqn:E.
    + destruct (erase_refines it key c Hinv E) as [Hi Hab]. done.
    + split_and!; [done..|]. by rewrite without_missing.
  - exists c. split; [|done]. pose proof Hinv as (_ & I2 & _ & I4).
    unfold size_, abstract. by rewrite I4, index_of_size, length_fmap.
Qed.

(** C24: Every sequence of operations on the list and hash of lru_cache gives the
    results of a plain list of pairs in the order of last use, cut at the
    limit; no operation dereferences an iterator that is gone. *)
Theorem lru_cache_refines (cache_size : nat) (ops : list cache_op) :
  exists c, run_cache ops (new_lru cache_size) = Some ((spec_cache ops (cache_size, [])).1, c) /\
    abstract c = (spec_cache ops (cache_size, [])).2.2.
Proof.
  enough (forall c a, implements c a -> exists c', run_cache ops c = Some ((spec_cache ops a).1, c') /\
    implements c' (spec_cache ops a).2) as Hsim.
  { destruct (Hsim (new_lru cache_size) (cache_size, [])) as (c & Hrun & _ & _ & Hab);
      [split; [apply new_lru_inv|done]|]. by exists c. }
  induction ops as [|op ops IH]; intros c a Hc; [by exists c|]. cbn.
  destruct (run_cache_op_simulates op c a Hc) as (c1 & -> & Hc1).
  destruct (spec_cache_op op a) as [o a1]. cbn in *. destruct (IH c1 a1 Hc1) as (c2 & -> & Hc2).
  destruct (spec_cache ops a1) as [os a2]. cbn in *. by exists c2.
Qed.

End lru.
