(* ===== verification/Buffer.v ===== *)
(** * buffer<char>: include/dracon/utils.h

    The allocation, and the two pointers into it as offsets from its start;
    [None] is [nullptr].  Arithmetic on a pointer that is not into the
    allocation has no meaning, and gives [None] again. *)

From S2P Require Import Prelude.

Record buffer : Type := mk_buffer {
  m_buffer : option bytes;       (** the array, of [m_size] elements *)
  m_current : option nat;
  m_end : option nat;
}.

Definition m_size (b : buffer) : nat := match m_buffer b with None => 0 | Some a => length a end.

(** [buffer() = default] and [buffer(size)] *)
Definition default_buffer : buffer := mk_buffer None None None.
Definition new_buffer (size : nat) : buffer := mk_buffer (Some (replicate size NUL)) None None.

(** [m_buffer.get()], as a pointer. *)
Definition start_of (b : buffer) : option nat := (fun _ => 0) <$> m_buffer b.

Definition plus (p : option nat) (n : nat) : option nat := (fun k => k + n) <$> p.

Definition reset (b : buffer) : buffer :=
  mk_buffer (m_buffer b) (start_of b) (plus (start_of b) (m_size b)).

(** [resize(size)] *)
Definition resize (size : nat) (b : buffer) : buffer :=
  if decide (size = m_size b) then reset b
  else
    let old := match m_buffer b with Some a => take (Nat.min size (m_size b)) a | None => [] end in
    let tmp := if decide (m_size b = 0) then replicate size NUL
               else old ++ replicate (size - length old) NUL in
    reset (mk_buffer (Some tmp) (m_current b) (m_end b)).

(** [advance(size)] *)
Definition advance (size : nat) (b : buffer) : buffer :=
  let cur := plus (m_current b) size in
  mk_buffer (m_buffer b)
    (match cur, m_end b with
     | Some c, Some e => if decide (e < c) then Some e else Some c
     | _, _ => cur
     end) (m_end b).

Definition current_size (b : buffer) : nat := default 0 (m_end b) - default 0 (m_current b).

(** [std::memcpy] or [std::memmove] of [src] to the front of the array. *)
Definition write_front (src : bytes) (a : bytes) : bytes := src ++ drop (length src) a.

(** [commit()] *)
Definition commit (b : buffer) : buffer :=
  if decide (m_current b = start_of b) then b
  else
    let size := current_size b in
    let left := match m_buffer b, m_current b with
                | Some a, Some c => take size (drop c a)
                | _, _ => []
                end in
    mk_buffer (write_front left <$> m_buffer b) (start_of b) (plus (start_of b) size).

Definition set_current_size (size : nat) (b : buffer) : buffer :=
  mk_buffer (m_buffer b) (m_current b) (plus (m_current b) size).
Definition set_current_data (size : nat) (b : buffer) : buffer :=
  mk_buffer (m_buffer b) (plus (start_of b) size) (m_end b).

(** [current_string()]; [None]: a view that does not point at memory. *)
Definition current_string (b : buffer) : option bytes :=
  match m_buffer b, m_current b, m_end b with
  | Some a, Some c, Some e =>
      if decide (c <= e <= length a) then Some (take (e - c) (drop c a)) else None
  | _, _, _ => None
  end.

(** [operator=(buff)] *)
Definition assign (buff : bytes) (b : buffer) : buffer :=
  let b := resize (length buff) b in
  set_current_size (length buff)
    (mk_buffer (write_front buff <$> m_buffer b) (m_current b) (m_end b)).

(** [operator*=(buff)] *)
Definition assign_keep (buff : bytes) (b : buffer) : buffer :=
  if decide (m_size b <= length buff) then assign buff b
  else
    let b := reset b in
    advance (length buff) (mk_buffer (write_front buff <$> m_buffer b) (m_current b) (m_end b)).

(** [clear()] *)
Definition clear_buffer (b : buffer) : buffer := reset (mk_buffer None (m_current b) (m_end b)).

(** ** The window between the cursor and the end *)

(** The cursor and the end are in the array, in this order. *)
Definition buffer_inv (b : buffer) : Prop :=
  exists a c e, b = mk_buffer (Some a) (Some c) (Some e) /\ c <= e <= length a.

Lemma window a c e :
  c <= e <= length a ->
  current_string (mk_buffer (Some a) (Some c) (Some e)) = Some (take (e - c) (drop c a)).
Proof. intros H. unfold current_string. cbn. by rewrite decide_True. Qed.

Theorem assign_roundtrip (buff : bytes) (b : buffer) :
  m_buffer b <> None ->
  buffer_inv (assign buff b) /\ current_string (assign buff b) = Some buff.
Proof.
  intros Hb. unfold assign.
  assert (exists a, resize (length buff) b = mk_buffer (Some a) (Some 0) (Some (length a)) /\
            length a = length buff) as (a & -> & Ha).
  { unfold resize, reset, start_of, m_size. destruct (m_buffer b) as [a|]; [|done]. cbn -[current_string].
    case_decide as Hs; [by exists a|]. case_decide as Hz; cbn -[current_string].
    - eexists. split; [done|]. by rewrite length_replicate.
    - eexists. split; [done|]. rewrite length_app, length_replicate, length_take. lia. }
  unfold set_current_size, write_front. cbn -[current_string]. rewrite drop_ge, app_nil_r by lia. split.
  - exists buff, 0, (length buff). split; [done|lia].
  - rewrite window by lia. by rewrite Nat.sub_0_r, drop_0, take_ge.
Qed.

Theorem advance_consumes (n : nat) (b : buffer) :
  buffer_inv b ->
  buffer_inv (advance n b) /\ current_string (advance n b) = drop n <$> current_string b.
Proof.
  intros (a & c & e & -> & Hce). rewrite window by done. unfold advance. cbn -[current_string].
  case_decide as Hgt.
  - split; [exists a, e, e; split; [done|lia]|]. rewrite window by lia. cbn -[current_string]. f_equal.
    rewrite Nat.sub_diag, take_0. symmetry. apply drop_ge. rewrite length_take. lia.
  - split; [exists a, (c + n), e; split; [done|lia]|]. rewrite window by lia. cbn -[current_string]. f_equal.
    rewrite skipn_firstn_comm, drop_drop. f_equal. lia.
Qed.

Theorem commit_keeps_window (b : buffer) :
  buffer_inv b ->
  buffer_inv (commit b) /\ m_current (commit b) = Some 0 /\ m_size (commit b) = m_size b /\
  current_string (commit b) = current_string b.
Proof.
  intros (a & c & e & -> & Hce). unfold commit, start_of. cbn -[current_string]. case_decide as Hc.
  - injection Hc as ->. split_and!; try done. by exists a, 0, e.
  - unfold current_size. cbn -[current_string]. set (left := take (e - c) (drop c a)).
    assert (length left = e - c) as Hl by (unfold left; rewrite length_take, length_drop; lia).
    assert (length (write_front left a) = length a) as Hw.
    { unfold write_front. rewrite length_app, length_drop. lia. }
    split_and!; [|done|done|].
    + exists (write_front left a), 0, (e - c). split; [done|lia].
    + unfold write_front in Hw. rewrite !window by lia. f_equal. rewrite Nat.sub_0_r, drop_0.
      transitivity left; [|done]. rewrite <- Hl. apply take_app_length.
Qed.

Theorem new_buffer_has_no_window (size n : nat) :
  current_string (set_current_size n (new_buffer size)) = None.
Proof. done. Qed.

Theorem assign_keep_leaves_cursor_behind (buff : bytes) (b : buffer) :
  length buff < m_size b ->
  current_string (assign_keep buff b) = drop (length buff) <$> m_buffer b.
Proof.
  intros Hlt. unfold assign_keep. rewrite decide_False by lia.
  unfold m_size in *. destruct b as [[a|] c e]; cbn -[current_string] in *; [|lia]. unfold advance. cbn -[current_string].
  rewrite decide_False by lia. unfold write_front.
  rewrite window by (rewrite length_app, length_drop; lia). f_equal.
  rewrite drop_app_length, take_ge; [done|]. rewrite length_drop. lia.
Qed.
