(* ===== verification/EventLoop.v ===== *)
(** * The event loop: src/server/sessions_event_loop.{h,cpp} and server_session.h

    The members of [sessions_event_loop] and its operations, the parts of
    [loop()], and the reactions of a [server_session] to events.  A session is
    its address; the epoll set is the set of sessions whose sockets are in it.
    [notify_deadline] runs on any thread: [Cas] is its loop of weak
    compare-and-exchanges as a step relation. *)

From Stdlib Require Import Sorted.
From S2P Require Import Prelude Utils Http.

Local Open Scope Z_scope.

Record event_loop : Type := mk_event_loop {
  m_sessions : gset Z;               (** [std::set], in the order of addresses *)
  epoll_set : gset Z;
  m_active_sessions : Z;
  m_delete_later_objects : gset Z;
  m_wakeup_sessions : gset Z;
  event_fd : Z;                      (** the counter of the event fd *)
  m_earliest_deadline : Z;
  m_quit : bool;
}.

Definition new_event_loop : event_loop := mk_event_loop ∅ ∅ 0 ∅ ∅ 0 time_max false.

Section event_loop_operations.
Implicit Types l : event_loop.

Definition u32 (z : Z) : Z := z mod 2 ^ 32.

Definition cant_register : exn := ExStd (runtime_error (bs "Can't register session")).

(** [register_session(session, events)]; [added] is what [epoll_ctl(ADD)] says. *)
Definition register_session (session : Z) (added : bool) l : outcome exn unit * event_loop :=
  let sessions := {[session]} ∪ m_sessions l in
  if (added : bool) then
    (Ok tt, mk_event_loop sessions ({[session]} ∪ epoll_set l) (u32 (m_active_sessions l + 1))
       (m_delete_later_objects l) (m_wakeup_sessions l) (event_fd l) (m_earliest_deadline l) (m_quit l))
  else
    (Throw cant_register,
     mk_event_loop sessions (epoll_set l) (m_active_sessions l)
       (m_delete_later_objects l) (m_wakeup_sessions l) (event_fd l) (m_earliest_deadline l) (m_quit l)).

(** [update_session(session, events)]; [changed] is what [epoll_ctl(MOD)] says. *)
Definition update_session (changed : bool) l : outcome exn unit * event_loop :=
  if (changed : bool) then (Ok tt, l)
  else (Throw (ExStd (runtime_error (bs "Can't change the session"))), l).

(** [shared_write_buffer(size)]: the size of the buffer, and whether it is the
    shared one. *)
Definition shared_write_buffer (on_loop_thread : bool) (shared size : Z) : bool * Z :=
  if on_loop_thread && (size <=? shared) then (true, shared) else (false, size).

(** [unregister_session(session)]: [epoll_ctl(DEL)] fails on a socket that is
    not in the epoll set. *)
Definition unregister_session (session : Z) l : outcome exn unit * event_loop :=
  if decide (session ∈ m_sessions l) then
    let sessions := m_sessions l ∖ {[session]} in
    if decide (session ∈ epoll_set l) then
      (Ok tt, mk_event_loop sessions (epoll_set l ∖ {[session]}) (u32 (m_active_sessions l - 1))
         (m_delete_later_objects l) (m_wakeup_sessions l) (event_fd l) (m_earliest_deadline l) (m_quit l))
    else
      (Throw (ExErrorCode (errno 2)),
       mk_event_loop sessions (epoll_set l) (m_active_sessions l)
         (m_delete_later_objects l) (m_wakeup_sessions l) (event_fd l) (m_earliest_deadline l) (m_quit l))
  else (Ok tt, l).

(** [delete_later(session)], with [session->is_deleting()]. *)
Definition delete_later (session : Z) (deleting : bool) l : event_loop :=
  if (deleting : bool) then l
  else
    let l := (unregister_session session l).2 in
    mk_event_loop (m_sessions l) (epoll_set l) (m_active_sessions l)
      ({[session]} ∪ m_delete_later_objects l) (m_wakeup_sessions l) (event_fd l)
      (m_earliest_deadline l) (m_quit l).

(** [wakeup_session(session)] *)
Definition wakeup_session (session : Z) l : event_loop :=
  mk_event_loop (m_sessions l) (epoll_set l) (m_active_sessions l) (m_delete_later_objects l)
    ({[session]} ∪ m_wakeup_sessions l) (u64 (event_fd l + 1)) (m_earliest_deadline l) (m_quit l).

Definition set_earliest (d : Z) l : event_loop :=
  mk_event_loop (m_sessions l) (epoll_set l) (m_active_sessions l) (m_delete_later_objects l)
    (m_wakeup_sessions l) (event_fd l) d (m_quit l).

(** [notify_deadline(deadline)], run to its end by one thread. *)
Definition notify_deadline (deadline : Z) l : event_loop :=
  if decide (deadline = no_deadline) then l
  else if deadline <? m_earliest_deadline l then set_earliest deadline l else l.

(** [shutdown()] *)
Definition shutdown_loop l : event_loop :=
  mk_event_loop (m_sessions l) (epoll_set l) (m_active_sessions l) (m_delete_later_objects l)
    (m_wakeup_sessions l) (u64 (event_fd l + 1)) (m_earliest_deadline l) true.

(** [std::clamp] of what [read_proc] found, or of the default. *)
Definition min_shared_buffer_size : Z := 64 * 1024.
Definition max_shared_buffer_size : Z := 4 * 1024 * 1024.
Definition read_proc (found : option Z) : Z :=
  let value := default max_shared_buffer_size found in
  if value <? min_shared_buffer_size then min_shared_buffer_size
  else if max_shared_buffer_size <? value then max_shared_buffer_size else value.

(** ** The parts of loop() *)

(** [session_events.insert(std::upper_bound(...), ev)] with workload balancing:
    behind every event whose session has no larger order. *)
Fixpoint insert_event {E} (order : E -> Z) (ev : E) (evs : list E) : list E :=
  match evs with
  | [] => [ev]
  | e :: evs' => if order ev <? order e then ev :: evs else e :: insert_event order ev evs'
  end.
Definition balanced {E} (order : E -> Z) (evs : list E) : list E :=
  fold_left (fun acc ev => insert_event order ev acc) evs [].

(** The sessions to resume after a wakeup, and the loop with none left. *)
Definition take_wakeups l : list Z * event_loop :=
  (filter (fun s => s ∈ m_sessions l) (elements (m_wakeup_sessions l)),
   mk_event_loop (m_sessions l) (epoll_set l) (m_active_sessions l) (m_delete_later_objects l) ∅ 0
     (m_earliest_deadline l) (m_quit l)).

(** The scan over the sessions: the ones that timed out, and the earliest
    deadline of the others.  [next_timeout] is the sessions' own. *)
Definition scan_step (next_timeout : Z -> Z) (now : Z) (acc : list Z * Z) (session : Z)
    : list Z * Z :=
  let t := next_timeout session in
  if decide (t = no_deadline) then acc
  else if t <=? now then (acc.1 ++ [session], acc.2)
  else (acc.1, Z.min acc.2 t).
Definition scan (next_timeout : Z -> Z) (now : Z) (sessions : list Z) : list Z * Z :=
  fold_left (scan_step next_timeout now) sessions ([], time_max).

(** The part of the loop that looks for timeouts: the sessions to call
    [timeout()] on. *)
Definition check_deadlines (next_timeout : Z -> Z) (now : Z) l : list Z * event_loop :=
  if m_earliest_deadline l <=? now then
    let l := set_earliest time_max l in
    let '(expired, earliest) := scan next_timeout now (elements (m_sessions l)) in
    (expired, notify_deadline earliest l)
  else ([], l).

(** The timeout of the next [epoll_wait], in milliseconds: an [int]. *)
Definition i32 (z : Z) : Z := (z + 2 ^ 31) mod 2 ^ 32 - 2 ^ 31.
Definition next_wait (now earliest : Z) : Z :=
  i32 (if decide (earliest = time_max) then -1
       else Z.max 1 (Z.quot (i64 (earliest - now)) ns_per_ms + 50)).

(** The sessions to delete at the end of a turn. *)
Definition take_deleted l : list Z * event_loop :=
  (elements (m_delete_later_objects l),
   mk_event_loop (m_sessions l) (epoll_set l) (m_active_sessions l) ∅ (m_wakeup_sessions l)
     (event_fd l) (m_earliest_deadline l) (m_quit l)).
End event_loop_operations.

(** ** server_session

    [C] is the state of the coroutine; [resume ec] runs it until it yields or
    ends, and it may throw.  The result says whether [delete_later] is asked
    for. *)
Section server_session.
Context {C : Type} (running : C -> bool) (resume : option errc -> M C exn unit).

Definition EPOLLIN : Z := 1.
Definition EPOLLPRI : Z := 2.
Definition EPOLLOUT : Z := 4.
Definition EPOLLERR : Z := 8.
Definition EPOLLHUP : Z := 16.
Definition EPOLLRDHUP : Z := 8192.

(** [while (m_io_yield) m_io_yield(ec);], with every exception caught. *)
Fixpoint quit_io_loop (fuel : nat) (ec : errc) (c : C) : option C :=
  if running c then
    match fuel with
    | O => None
    | S fuel' =>
        match resume (Some ec) c with
        | (Ok _, c') => quit_io_loop fuel' ec c'
        | (Throw _, c') => Some c'
        | (Diverge, _) => None
        end
    end
  else Some c.

(** [if (m_io_yield) m_io_yield({}); else delete_later(this);], and an
    exception deletes the session. *)
Definition resume_or_delete (c : C) : option (C * bool) :=
  if running c then
    match resume None c with
    | (Ok _, c') => Some (c', false)
    | (Throw _, c') => Some (c', true)
    | (Diverge, _) => None
    end
  else Some (c, true).

(** [process_events(events)] *)
Definition process_events (fuel : nat) (events : Z) (c : C) : option (C * bool) :=
  if negb (Z.land events (Z.lor EPOLLERR (Z.lor EPOLLRDHUP EPOLLHUP)) =? 0) then
    (fun c' => (c', true)) <$> quit_io_loop fuel io_error c
  else if negb (Z.land events (Z.lor EPOLLIN (Z.lor EPOLLPRI EPOLLOUT)) =? 0) then
    resume_or_delete c
  else Some (c, true).

(** [timeout()] and [wakeup()] *)
Definition timeout (fuel : nat) (c : C) : option (C * bool) :=
  (fun c' => (c', true)) <$> quit_io_loop fuel timed_out c.
Definition wakeup (c : C) : option (C * bool) := resume_or_delete c.
End server_session.

(** ** Workload balancing is a stable sort *)

Section balancing.
Context {E : Type} (order : E -> Z).

Lemma insert_event_perm ev evs : insert_event order ev evs ≡ₚ ev :: evs.
Proof.
  induction evs as [|e evs IH]; [done|]. cbn. destruct (_ <? _); [done|].
  rewrite IH. apply Permutation_swap.
Qed.

Abbreviation ordered := (StronglySorted (fun a b => order a <= order b)).

Lemma insert_event_sorted ev evs : ordered evs -> ordered (insert_event order ev evs).
Proof.
  induction 1 as [|e evs Hs IH Hall]; cbn; [by repeat constructor|].
  destruct (Z.ltb_spec (order ev) (order e)) as [Hlt|Hge].
  - constructor; [by constructor|]. constructor; [lia|].
    eapply Forall_impl; [exact Hall|]. cbn. lia.
  - constructor; [done|]. rewrite insert_event_perm. by constructor.
Qed.

Lemma insert_event_stable ev evs k :
  ordered evs ->
  filter (fun e => order e = k) (insert_event order ev evs)
  = filter (fun e => order e = k) evs ++ filter (fun e => order e = k) [ev].
Proof.
  induction 1 as [|e evs Hs IH Hall]; [done|]. cbn [insert_event].
  destruct (Z.ltb_spec (order ev) (order e)) as [Hlt|Hge].
  - rewrite (filter_cons _ ev (e :: evs)), (filter_cons _ ev []). case_decide as Hk; [|by rewrite app_nil_r].
    rewrite (filter_none _ (e :: evs)); [done|].
    intros x [->|Hx]%elem_of_cons Heq; [lia|]. rewrite Forall_forall in Hall. specialize (Hall x Hx). lia.
  - rewrite !(filter_cons _ e), IH. by case_decide.
Qed.

(** Workload balancing processes the events of a turn sorted by the order of their
    sessions, each exactly once and those of equal order as they came. *)
Theorem balanced_is_stable_sort (evs : list E) :
  balanced order evs ≡ₚ evs /\ StronglySorted (fun a b => order a <= order b) (balanced order evs) /\
  (forall k, filter (fun e => order e = k) (balanced order evs) = filter (fun e => order e = k) evs).
Proof.
  unfold balanced.
  assert (forall acc, ordered acc ->
    fold_left (fun acc ev => insert_event order ev acc) evs acc ≡ₚ acc ++ evs /\
    ordered (fold_left (fun acc ev => insert_event order ev acc) evs acc) /\
    (forall k, filter (fun e => order e = k) (fold_left (fun acc ev => insert_event order ev acc) evs acc)
      = filter (fun e => order e = k) acc ++ filter (fun e => order e = k) evs)) as H.
  { induction evs as [|ev evs IH]; intros acc Hacc; cbn [fold_left].
    - rewrite app_nil_r. split_and!; [done|done|]. intros k. by rewrite app_nil_r.
    - destruct (IH (insert_event order ev acc)) as (H1 & H2 & H3); [by apply insert_event_sorted|].
      split_and!; [|done|].
      + rewrite H1, insert_event_perm. cbn. by rewrite Permutation_middle.
      + intros k. rewrite H3, insert_event_stable by done.
        rewrite <- app_assoc, <- filter_app. done. }
  apply (H []). constructor.
Qed.
End balancing.

(** ** Deadlines *)

(** The loop wakes up no later than any session's deadline. *)
Definition watches (next_timeout : Z -> Z) (l : event_loop) : Prop :=
  forall s, s ∈ m_sessions l -> next_timeout s <> no_deadline -> m_earliest_deadline l <= next_timeout s.

Lemma notify_deadline_min d l :
  d <> no_deadline -> m_earliest_deadline (notify_deadline d l) = Z.min d (m_earliest_deadline l) /\
  m_sessions (notify_deadline d l) = m_sessions l.
Proof.
  intros Hd. unfold notify_deadline. rewrite decide_False by done.
  destruct (Z.ltb_spec d (m_earliest_deadline l)); cbn; split; try done; lia.
Qed.

Lemma scan_spec next_timeout now sessions acc e :
  let '(expired, earliest) := fold_left (scan_step next_timeout now) sessions (acc, e) in
  (forall s, s ∈ expired <-> s ∈ acc \/
     (s ∈ sessions /\ next_timeout s <> no_deadline /\ next_timeout s <= now)) /\
  earliest <= e /\
  (forall s, s ∈ sessions -> next_timeout s <> no_deadline -> now < next_timeout s ->
     earliest <= next_timeout s) /\
  (earliest = e \/ exists s, s ∈ sessions /\ earliest = next_timeout s /\ now < earliest).
Proof.
  revert acc e. induction sessions as [|x sessions IH]; intros acc e; cbn [fold_left].
  - split_and!; [set_solver|lia|set_solver|by left].
  - unfold scan_step at 2. cbn [fst snd].
    destruct (decide (next_timeout x = no_deadline)) as [Hn|Hn].
    + specialize (IH acc e). destruct (fold_left _ sessions _) as [expired earliest].
      destruct IH as (H1 & H2 & H3 & H4). split_and!; [|done| |].
      * intros s. rewrite H1, elem_of_cons. split; [naive_solver|].
        intros [?|([->|?] & ? & ?)]; [by left|done|auto].
      * intros s [->|?]%elem_of_cons; [done|auto].
      * destruct H4 as [?|(s & ? & ? & ?)]; [by left|right]. exists s. rewrite elem_of_cons. auto.
    + destruct (Z.leb_spec (next_timeout x) now) as [Hle|Hgt].
      * specialize (IH (acc ++ [x]) e). destruct (fold_left _ sessions _) as [expired earliest].
        destruct IH as (H1 & H2 & H3 & H4). split_and!; [|done| |].
        -- intros s. rewrite H1, elem_of_cons, elem_of_app, list_elem_of_singleton.
           split; [intros [[?| ->]|(? & ? & ?)]; auto|].
           intros [?|([->|?] & ? & ?)]; auto.
        -- intros s [->|?]%elem_of_cons; [lia|auto].
        -- destruct H4 as [?|(s & ? & ? & ?)]; [by left|right]. exists s. rewrite elem_of_cons. auto.
      * specialize (IH acc (Z.min e (next_timeout x))).
        destruct (fold_left _ sessions _) as [expired earliest].
        destruct IH as (H1 & H2 & H3 & H4). split_and!; [|lia| |].
        -- intros s. rewrite H1, elem_of_cons. split; [naive_solver|].
           intros [?|([->|?] & ? & ?)]; [by left|lia|auto].
        -- intros s [->|?]%elem_of_cons; [lia|auto].
        -- destruct H4 as [H4|(s & ? & ? & ?)]; [|right; exists s; rewrite elem_of_cons; auto].
           destruct (Z.min_spec e (next_timeout x)) as [[_ Hm]|[_ Hm]]; rewrite Hm in H4; [by left|right].
           exists x. rewrite elem_of_cons. split_and!; [by left|done|lia].
Qed.

Lemma check_deadlines_expired next_timeout now l s :
  m_earliest_deadline l <= now ->
  s ∈ (check_deadlines next_timeout now l).1 <->
  s ∈ m_sessions l /\ next_timeout s <> no_deadline /\ next_timeout s <= now.
Proof.
  intros Hle. unfold check_deadlines. rewrite (proj2 (Z.leb_le _ _) Hle). unfold scan. cbn [m_sessions set_earliest].
  pose proof (scan_spec next_timeout now (elements (m_sessions l)) [] time_max) as Hs.
  destruct (fold_left _ _ _) as [expired earliest]. destruct Hs as (H1 & _). cbn [fst].
  rewrite H1, elem_of_elements. set_solver.
Qed.

(** The timeout scan of the loop times out exactly the sessions whose deadline has
    passed, and leaves an earliest deadline no later than that of any other
    session, so no session is forgotten. *)
Theorem check_deadlines_complete (next_timeout : Z -> Z) (now : Z) (l : event_loop) :
  0 < now -> watches next_timeout l ->
  let '(expired, l') := check_deadlines next_timeout now l in
  (forall s, s ∈ expired <->
     s ∈ m_sessions l /\ next_timeout s <> no_deadline /\ next_timeout s <= now) /\
  (forall s, s ∈ m_sessions l -> s ∉ expired -> next_timeout s <> no_deadline ->
     m_earliest_deadline l' <= next_timeout s).
Proof.
  intros H0 Hw. unfold check_deadlines.
  destruct (Z.leb_spec (m_earliest_deadline l) now) as [Hle|Hgt].
  - unfold scan. cbn [m_sessions set_earliest].
    pose proof (scan_spec next_timeout now (elements (m_sessions l)) [] time_max) as Hs.
    destruct (fold_left _ _ _) as [expired earliest]. destruct Hs as (H1 & H2 & H3 & H4).
    assert (Hex : forall s, s ∈ expired <->
      s ∈ m_sessions l /\ next_timeout s <> no_deadline /\ next_timeout s <= now).
    { intros s. rewrite H1, elem_of_elements. set_solver. }
    split; [done|]. intros s Hin Hne Hd. rewrite Hex in Hne.
    assert (now < next_timeout s) by (apply Z.nle_gt; intros ?; by apply Hne).
    assert (earliest <= next_timeout s) by (apply H3; [by apply elem_of_elements|done..]).
    assert (earliest <> no_deadline) as Hnz.
    { unfold no_deadline in *. destruct H4 as [->|(s' & _ & -> & ?)]; [done|lia]. }
    destruct (notify_deadline_min earliest (set_earliest time_max l) Hnz) as [-> _]. lia.
  - split.
    + intros s. split; [by intros ?%not_elem_of_nil|]. intros (Hin & Hd & Hle). specialize (Hw s Hin Hd). lia.
    + intros s Hin _ Hd. by apply Hw.
Qed.

(** A deadline some 25 days away: the milliseconds do not fit the [int] of
    [epoll_wait], which waits for ever. *)
Theorem far_deadline_waits_for_ever (now earliest : Z) :
  0 <= now -> 0 <= earliest < time_max -> (2 ^ 31 - 50) * ns_per_ms <= earliest - now < (2 ^ 32 - 50) * ns_per_ms ->
  next_wait now earliest < 0.
Proof.
  intros H0 He Hd. unfold next_wait. rewrite decide_False by lia.
  unfold time_max in *. rewrite i64_small by lia. unfold ns_per_ms in *.
  rewrite Z.quot_div_nonneg by lia. set (q := (earliest - now) / 10 ^ 6).
  assert (2 ^ 31 - 50 <= q < 2 ^ 32 - 50).
  { split; [apply Z.div_le_lower_bound|apply Z.div_lt_upper_bound]; lia. }
  rewrite Z.max_r by lia. unfold i32. rewrite <- (Z_mod_plus_full _ (-1)), Z.mod_small; lia.
Qed.

Lemma next_wait_bounds (now earliest : Z) :
  0 <= now <= time_max -> 0 <= earliest < time_max -> earliest - now < (2 ^ 31 - 100) * ns_per_ms ->
  1 <= next_wait now earliest /\ earliest < now + next_wait now earliest * ns_per_ms /\
  next_wait now earliest * ns_per_ms <= Z.max 0 (earliest - now) + 50 * ns_per_ms.
Proof.
  intros H0 He Hlim. unfold next_wait. rewrite decide_False by lia.
  unfold time_max in *. rewrite i64_small by lia. unfold ns_per_ms in *.
  set (q := Z.quot (earliest - now) (10 ^ 6)).
  assert (Hq : Z.abs (earliest - now - q * 10 ^ 6) < 10 ^ 6 /\
               (0 <= earliest - now -> 0 <= q /\ q * 10 ^ 6 <= earliest - now) /\
               (earliest - now <= 0 -> q <= 0)).
  { pose proof (Z.quot_rem' (earliest - now) (10 ^ 6)) as Hqr. fold q in Hqr.
    pose proof (Z.rem_bound_abs (earliest - now) (10 ^ 6) ltac:(lia)) as Hrb.
    change (10 ^ 6) with 1000000 in *. split_and!; [lia| |].
    - intros Hp. pose proof (Z.rem_bound_pos (earliest - now) 1000000 Hp ltac:(lia)).
      pose proof (Z.quot_pos (earliest - now) 1000000 Hp ltac:(lia)). lia.
    - intros Hp. unfold q. replace (earliest - now) with (- (now - earliest)) by lia.
      rewrite Z.quot_opp_l by lia. pose proof (Z.quot_pos (now - earliest) 1000000). lia. }
  change (10 ^ 6) with 1000000 in *.
  assert (i32 (Z.max 1 (q + 50)) = Z.max 1 (q + 50)) as ->.
  { unfold i32. rewrite Z.mod_small by lia. lia. }
  lia.
Qed.

(** ** The number of active sessions *)

(** One call of an operation, by whatever thread. *)
Inductive loop_step : event_loop -> event_loop -> Prop :=
  | step_register s added l :
      s ∉ m_sessions l -> s ∉ epoll_set l -> loop_step l (register_session s added l).2
  | step_unregister s l : loop_step l (unregister_session s l).2
  | step_delete_later s deleting l : loop_step l (delete_later s deleting l)
  | step_wakeup s l : loop_step l (wakeup_session s l)
  | step_notify d l : loop_step l (notify_deadline d l)
  | step_take_wakeups l : loop_step l (take_wakeups l).2
  | step_check next_timeout now l : loop_step l (check_deadlines next_timeout now l).2
  | step_take_deleted l : loop_step l (take_deleted l).2
  | step_shutdown l : loop_step l (shutdown_loop l).

(** What is in the epoll set is registered, and is what was counted. *)
Definition counts_sessions (l : event_loop) : Prop :=
  epoll_set l ⊆ m_sessions l /\ m_active_sessions l = u32 (Z.of_nat (size (epoll_set l))).

Lemma unregister_counts s l : counts_sessions l -> counts_sessions (unregister_session s l).2.
Proof.
  intros [Hsub Hact]. unfold unregister_session. case_decide as Hs; [|done].
  case_decide as He; cbn; split; cbn.
  - set_solver.
  - rewrite Hact. unfold u32. rewrite Zminus_mod_idemp_l. f_equal.
    rewrite size_difference by set_solver. rewrite size_singleton.
    assert (size (epoll_set l) <> 0%nat); [|lia].
    intros Hz%size_empty_inv. set_solver.
  - set_solver.
  - done.
Qed.

Lemma notify_keeps d l :
  m_sessions (notify_deadline d l) = m_sessions l /\ epoll_set (notify_deadline d l) = epoll_set l /\
  m_active_sessions (notify_deadline d l) = m_active_sessions l.
Proof. unfold notify_deadline. case_decide; [done|]. by destruct (_ <? _). Qed.

(** In every reachable state of an event loop the published count of active
    sessions, by which new connections are placed, is the number of sessions
    in its epoll set, whatever registrations fail. *)
Theorem active_sessions_counted (l : event_loop) :
  rtc loop_step new_event_loop l -> counts_sessions l.
Proof.
  intros Hrun. assert (counts_sessions new_event_loop) as H0 by (split; [set_solver|done]).
  revert H0. induction Hrun as [|l l' l'' Hstep _ IH]; [done|]. intros Hinv. apply IH. clear IH l''.
  destruct Hstep; try exact Hinv.
  - destruct Hinv as [Hsub Hact]. unfold register_session. destruct added; cbn; split; cbn.
    + set_solver.
    + rewrite Hact. unfold u32. rewrite Zplus_mod_idemp_l. f_equal.
      rewrite size_union by set_solver. rewrite size_singleton. lia.
    + set_solver.
    + done.
  - by apply unregister_counts.
  - unfold delete_later. destruct deleting; [done|]. by destruct (unregister_counts s l Hinv).
  - destruct (notify_keeps d l) as (H1 & H2 & H3). unfold counts_sessions. by rewrite H1, H2, H3.
  - unfold check_deadlines. destruct (_ <=? _); [|done].
    destruct (scan _ _ _) as [expired earliest]. cbn [snd].
    destruct (notify_keeps earliest (set_earliest time_max l)) as (H1 & H2 & H3).
    unfold counts_sessions. rewrite H1, H2, H3. exact Hinv.
Qed.

(** ** notify_deadline on many threads *)

Module Cas.
(** Where a thread is in [notify_deadline(value)]: before the load, in the loop
    with what it last saw, or done. *)
Inductive thread : Type :=
  | t_start (value : Z)
  | t_loop (value current : Z)
  | t_done (value : Z).

Definition value_of (t : thread) : Z :=
  match t with t_start v | t_loop v _ | t_done v => v end.

(** A step of one thread on the shared [m_earliest_deadline].  No deadline is not
    published; a weak exchange may fail for no reason. *)
Inductive thread_step : Z * thread -> Z * thread -> Prop :=
  | nothing e : thread_step (e, t_start no_deadline) (e, t_done no_deadline)
  | load v e : v <> no_deadline -> thread_step (e, t_start v) (e, t_loop v e)
  | leave v cur e : cur <= v -> thread_step (e, t_loop v cur) (e, t_done v)
  | exchanged v cur : v < cur -> thread_step (cur, t_loop v cur) (v, t_done v)
  | not_exchanged v cur e : v < cur -> thread_step (e, t_loop v cur) (e, t_loop v e).

Inductive step : Z * list thread -> Z * list thread -> Prop :=
  | interleave e e' t t' l1 l2 :
      thread_step (e, t) (e', t') -> step (e, l1 ++ t :: l2) (e', l1 ++ t' :: l2).

(** What the threads publish: every value but that for no deadline. *)
Definition published (values : list Z) : list Z := filter (fun v => v <> no_deadline) values.

(** The shared value only goes down, and stays one of those published. *)
Definition thread_ok (e : Z) (t : thread) : Prop :=
  match t with
  | t_start _ => True
  | t_loop v cur => e <= cur /\ v <> no_deadline
  | t_done v => v <> no_deadline -> e <= v
  end.
Definition cas_inv (e0 : Z) (vs : list Z) (st : Z * list thread) : Prop :=
  value_of <$> st.2 = vs /\ st.1 <= e0 /\ (st.1 = e0 \/ st.1 ∈ published vs) /\ Forall (thread_ok st.1) st.2.

Lemma thread_ok_mono e e' t : e' <= e -> thread_ok e t -> thread_ok e' t.
Proof. destruct t as [v|v cur|v]; cbn; intuition lia. Qed.

Lemma step_inv e0 vs st st' : cas_inv e0 vs st -> step st st' -> cas_inv e0 vs st'.
Proof.
  intros (Hvs & Hle & Hin & Hall) Hstep. destruct Hstep as [e e' t t' l1 l2 Ht]. cbn in *.
  apply Forall_app in Hall as [H1 H2]. apply Forall_cons in H2 as [H2 H3].
  assert (He : e' <= e /\ value_of t' = value_of t /\ (e' = e \/ e' = value_of t /\ e' <> no_deadline) /\ thread_ok e' t').
  { inversion Ht; subst; cbn in *; split_and!; try done; try lia; auto; destruct H2; auto; lia. }
  destruct He as (He & Hv & Hor & Hok).
  assert (Hmono : forall l, Forall (thread_ok e) l -> Forall (thread_ok e') l).
  { intros l Hl. eapply Forall_impl; [exact Hl|]. intros u. by apply thread_ok_mono. }
  split_and!; cbn.
  - rewrite <- Hvs, !fmap_app, !fmap_cons. by rewrite Hv.
  - lia.
  - destruct Hor as [->|[-> Hne]]; [done|right]. apply list_elem_of_filter. split; [done|].
    rewrite <- Hvs, fmap_app, fmap_cons. set_solver.
  - apply Forall_app. split; [by apply Hmono|]. apply Forall_cons. split; [done|by apply Hmono].
Qed.

(** The least of what was there and of a list of values. *)
Lemma foldr_min_spec (e0 : Z) (values : list Z) :
  foldr Z.min e0 values <= e0 /\ (forall v, v ∈ values -> foldr Z.min e0 values <= v) /\
  (foldr Z.min e0 values = e0 \/ foldr Z.min e0 values ∈ values).
Proof.
  induction values as [|v values (F1 & F2 & F3)]; cbn; [split_and!; [lia|set_solver|by left]|].
  split_and!; [lia| |].
  - intros w [->|Hw]%elem_of_cons; [lia|]. specialize (F2 w Hw). lia.
  - destruct (Z.min_spec v (foldr Z.min e0 values)) as [[_ ->]|[_ ->]]; [right; by left|].
    destruct F3 as [->|F3]; [by left|right; by right].
Qed.

(** C25: notify_deadline on any number of threads, with every interleaving of its
    loads and weak exchanges, leaves the minimum of what was there and of
    the deadlines that were published, time_point{} among the arguments,
    which is none, left out. *)
Theorem notify_deadline_threads (e0 : Z) (values : list Z) (e : Z) (threads : list thread) :
  rtc step (e0, t_start <$> values) (e, threads) ->
  Forall (fun t => exists v, t = t_done v) threads ->
  (forall v, v ∈ values -> v <> no_deadline -> e <= v) /\ e <= e0 /\ (e = e0 \/ e ∈ published values) /\
  e = foldr Z.min e0 (published values).
Proof.
  intros Hrun Hdone.
  assert (Hinv : cas_inv e0 values (e, threads)).
  { assert (cas_inv e0 values (e0, t_start <$> values)) as H0.
    { split_and!; cbn; [|lia|by left|].
      - rewrite <- list_fmap_compose. by apply list_fmap_id.
      - apply Forall_fmap, Forall_forall. done. }
    remember (e0, t_start <$> values) as st eqn:E. clear E. revert H0.
    remember (e, threads) as st' eqn:E. clear E Hdone.
    induction Hrun as [|st st1 st2 Hs _ IH]; [done|]. intros H. apply IH. by eapply step_inv. }
  destruct Hinv as (Hvs & Hle & Hin & Hall). cbn in *.
  assert (Hmin : forall v, v ∈ values -> v <> no_deadline -> e <= v).
  { intros v Hv. rewrite <- Hvs, list_elem_of_fmap in Hv. destruct Hv as (t & -> & Ht).
    rewrite Forall_forall in Hall, Hdone. specialize (Hall t Ht). destruct (Hdone t Ht) as [v ->]. done. }
  split_and!; try done. destruct (foldr_min_spec e0 (published values)) as (F1 & F2 & F3).
  assert (foldr Z.min e0 (published values) <= e) by (destruct Hin as [->|Hin]; [done|by apply F2]).
  assert (e <= foldr Z.min e0 (published values)).
  { destruct F3 as [->|F3]; [done|]. apply list_elem_of_filter in F3 as [? ?]. by apply Hmin. }
  lia.
Qed.
End Cas.

(** ** A session that is over is deleted *)

Section server_session_proofs.
Context {C : Type} (running : C -> bool) (resume : option errc -> M C exn unit).
(** A coroutine that was left by an exception has ended. *)
Hypothesis thrown_ends : forall ec c e c', resume ec c = (Throw e, c') -> running c' = false.

Lemma quit_io_loop_ends fuel ec c c' :
  quit_io_loop running resume fuel ec c = Some c' -> running c' = false.
Proof.
  revert c. induction fuel as [|fuel IH]; intros c; cbn; destruct (running c) eqn:Hr; try done.
  - by intros [= <-].
  - destruct (resume (Some ec) c) as [[u|e|] c1] eqn:E; [apply IH| |done].
    intros [= <-]. by eapply thrown_ends.
  - by intros [= <-].
Qed.

(** An event with an error ends the coroutine and deletes the session; a session
    whose coroutine has ended is deleted and not resumed; a session that is
    kept was resumed once and without an exception. *)
Theorem process_events_deletes (fuel : nat) (events : Z) (c c' : C) (del : bool) :
  process_events running resume fuel events c = Some (c', del) ->
  (Z.land events (Z.lor EPOLLERR (Z.lor EPOLLRDHUP EPOLLHUP)) <> 0 ->
     running c' = false /\ del = true) /\
  (running c = false -> c' = c /\ del = true) /\
  (del = false -> running c = true /\ exists u, resume None c = (Ok u, c')).
Proof.
  unfold process_events, resume_or_delete.
  destruct (Z.eqb_spec (Z.land events (Z.lor EPOLLERR (Z.lor EPOLLRDHUP EPOLLHUP))) 0) as [Hz|Hz]; cbn [negb].
  - destruct (negb _); [|intros [= <- <-]; split_and!; [by intros|done|done]].
    destruct (running c) eqn:Hr; [|intros [= <- <-]; split_and!; [by intros|done|done]].
    destruct (resume None c) as [[u|e|] c1]; [| |done]; intros [= <- <-];
      (split_and!; [by intros|done|]); intros [=]. split; [done|]. by exists u.
  - intros (c1 & Hq & [= -> ->])%fmap_Some. split_and!; [|intros Hr|done].
    + intros _. split; [|done]. by eapply quit_io_loop_ends.
    + destruct fuel; cbn in Hq; rewrite Hr in Hq; by injection Hq.
Qed.
End server_session_proofs.


(** ** Concrete loops *)

(** Two sessions: one timed out, one with a second left. *)
Definition two_sessions : event_loop :=
  mk_event_loop {[1; 2]} {[1; 2]} 2 ∅ ∅ 0 5 false.
Definition two_timeouts (s : Z) : Z := if decide (s = 1) then 5 else 1000000010.

Lemma check_deadlines_complete_witness :
  (1 ∈ (check_deadlines two_timeouts 10 two_sessions).1) /\
  m_earliest_deadline (check_deadlines two_timeouts 10 two_sessions).2 <= two_timeouts 2.
Proof.
  assert (Hw : watches two_timeouts two_sessions).
  { intros s _ _. cbn. unfold two_timeouts. case_decide; lia. }
  assert (Hin : forall s, s = 1 \/ s = 2 -> s ∈ m_sessions two_sessions) by (cbn; set_solver).
  pose proof (check_deadlines_complete two_timeouts 10 two_sessions ltac:(lia) Hw) as H.
  destruct (check_deadlines two_timeouts 10 two_sessions) as [expired l']. destruct H as [H1 H2].
  split; [apply H1|apply H2].
  - split; [by apply Hin; left|done].
  - by apply Hin; right.
  - intros Hx. apply H1 in Hx as (_ & _ & Hle). vm_compute in Hle. by apply Hle.
  - done.
Defined.

Lemma active_sessions_counted_witness :
  counts_sessions (unregister_session 1 (register_session 2 true
    (register_session 1 true new_event_loop).2).2).2.
Proof.
  apply (active_sessions_counted (unregister_session 1 (register_session 2 true
    (register_session 1 true new_event_loop).2).2).2).
  eapply rtc_l; [apply (step_register 1 true); apply (bool_decide_unpack _); vm_compute; done|].
  eapply rtc_l; [apply (step_register 2 true); apply (bool_decide_unpack _); vm_compute; done|].
  eapply rtc_l; [apply (step_unregister 1)|]. apply rtc_refl.
Defined.

(** Two threads that race: the second one sees the first one's value. *)
(** Three threads, one of which has no deadline to publish. *)
Lemma notify_deadline_threads_witness : 3 = foldr Z.min 10 (Cas.published [3; no_deadline; 7]).
Proof.
  apply (Cas.notify_deadline_threads 10 [3; no_deadline; 7] 3 [Cas.t_done 3; Cas.t_done no_deadline; Cas.t_done 7]).
  - eapply rtc_l; [by apply (Cas.interleave 10 10 (Cas.t_start 3) (Cas.t_loop 3 10) [] [Cas.t_start no_deadline; Cas.t_start 7]), Cas.load|]; cbn [app].
    eapply rtc_l; [apply (Cas.interleave 10 10 (Cas.t_start no_deadline) (Cas.t_done no_deadline) [Cas.t_loop 3 10] [Cas.t_start 7]), Cas.nothing|]; cbn [app].
    eapply rtc_l; [by apply (Cas.interleave 10 10 (Cas.t_start 7) (Cas.t_loop 7 10) [Cas.t_loop 3 10; Cas.t_done no_deadline] []), Cas.load|]; cbn [app].
    eapply rtc_l; [apply (Cas.interleave 10 3 (Cas.t_loop 3 10) (Cas.t_done 3) [] [Cas.t_done no_deadline; Cas.t_loop 7 10]), Cas.exchanged; lia|]; cbn [app].
    eapply rtc_l; [apply (Cas.interleave 3 3 (Cas.t_loop 7 10) (Cas.t_loop 7 3) [Cas.t_done 3; Cas.t_done no_deadline] []), Cas.not_exchanged; lia|]; cbn [app].
    eapply rtc_l; [apply (Cas.interleave 3 3 (Cas.t_loop 7 3) (Cas.t_done 7) [Cas.t_done 3; Cas.t_done no_deadline] []), Cas.leave; lia|]; cbn [app].
    apply rtc_refl.
  - repeat constructor; by eexists.
Defined.

(** A coroutine that has [n] more turns, and gives up at the first error. *)
Definition countdown (ec : option errc) : M nat exn unit := fun n =>
  match ec with
  | Some ec => (Throw (ExErrorCode ec), 0%nat)
  | None => (Ok tt, pred n)
  end.

Lemma process_events_deletes_witness :
  let running := fun n => negb (n =? 0)%nat in
  process_events running countdown 10 EPOLLHUP 3%nat = Some (0%nat, true) /\
  running 0%nat = false.
Proof.
  split; [reflexivity|].
  apply (process_events_deletes (fun n => negb (n =? 0)%nat) countdown
    ltac:(intros [ec|] c e c' [=]; by subst) 10 EPOLLHUP 3%nat 0%nat true); [reflexivity|done].
Defined.
