(* ===== verification/LoopThreads.v ===== *)
(** * The life of a session: the accept thread and the thread of an event loop

    [loop()] and [~sessions_event_loop()] of sessions_event_loop.cpp, the
    registration of a session by the accept loop of server.cpp, and the
    destructor of [server_session], as one step relation.  A session is an
    address; [alive] are the addresses of the objects that exist.  What the
    sessions do when they are called is left open, except that they reach the
    loop through [delete_later], [notify_deadline] and [wakeup_session]. *)

From S2P Require Import Prelude Utils Http EventLoop.

Local Open Scope Z_scope.

(** ** Registration in its two parts *)

Definition insert_session (s : Z) (l : event_loop) : event_loop :=
  mk_event_loop ({[s]} ∪ m_sessions l) (epoll_set l) (m_active_sessions l)
    (m_delete_later_objects l) (m_wakeup_sessions l) (event_fd l) (m_earliest_deadline l) (m_quit l).
Definition epoll_add (s : Z) (l : event_loop) : event_loop :=
  mk_event_loop (m_sessions l) ({[s]} ∪ epoll_set l) (u32 (m_active_sessions l + 1))
    (m_delete_later_objects l) (m_wakeup_sessions l) (event_fd l) (m_earliest_deadline l) (m_quit l).

Lemma register_session_parts s l :
  register_session s true l = (Ok tt, epoll_add s (insert_session s l)) /\
  register_session s false l = (Throw cant_register, insert_session s l).
Proof. done. Qed.

(** ** What a call of a session may do to the loop *)

Inductive reacts (deleting : bool) (s : Z) : event_loop -> event_loop -> Prop :=
  | react_delete l : reacts deleting s l (delete_later s deleting l)
  | react_notify d l : reacts deleting s l (notify_deadline d l)
  | react_wakeup s' l : reacts deleting s l (wakeup_session s' l).

(** The end of a turn: what is to be deleted is swapped out. *)
Definition after_deadlines (earliest : Z) (l : event_loop) : event_loop :=
  (take_deleted (notify_deadline earliest l)).2.

(** ** The threads *)

(** The accept thread: a session that exists, that is in [m_sessions], and whose
    registration failed; and at the end the destructor of the loop, with what its
    iterator over [m_sessions] has ahead, and when it is through. *)
Inductive accept_thread : Type :=
  | acc_idle
  | acc_created (s : Z)
  | acc_inserted (s : Z)
  | acc_failed (s : Z)
  | acc_destroys (ahead : list Z)
  | acc_gone.

(** The loop thread: at [epoll_wait], with events to process, with sessions that
    were woken up, about to call [wakeup] on one of them, at the check of the
    deadlines, with a copy of the sessions to scan, with sessions to delete, and
    after the loop. *)
Inductive loop_thread : Type :=
  | at_wait
  | at_events (evs : list Z) (wokeup : bool)
  | at_wakeups (ws : list Z)
  | at_wakeup (s : Z) (ws : list Z)
  | at_deadlines
  | at_scan (sessions : list Z)
  | at_delete (ds : list Z)
  | at_exit.

Record threads : Type := mk_threads {
  el : event_loop;
  alive : gset Z;
  accepting : accept_thread;
  looping : loop_thread;
}.

Definition new_threads : threads := mk_threads new_event_loop ∅ acc_idle at_wait.

Section steps.
(** Whether [epoll_ctl(ADD)] can fail, and whether the loop can time out or wake
    up a session whose registration is not over yet. *)
Variables registration_fails early_calls : bool.

Definition may_call (s : Z) (a : accept_thread) : Prop := early_calls = true \/ a <> acc_inserted s.

Inductive step : threads -> threads -> Prop :=
  (* the accept thread *)
  | create s l al pc : s ∉ al -> m_quit l = false ->
      step (mk_threads l al acc_idle pc) (mk_threads l ({[s]} ∪ al) (acc_created s) pc)
  | constructor_throws s l al pc :
      step (mk_threads l al (acc_created s) pc) (mk_threads l (al ∖ {[s]}) acc_idle pc)
  | insert s l al pc :
      step (mk_threads l al (acc_created s) pc) (mk_threads (insert_session s l) al (acc_inserted s) pc)
  | added s l al pc :
      step (mk_threads l al (acc_inserted s) pc) (mk_threads (epoll_add s l) al acc_idle pc)
  | not_added s l al pc : registration_fails = true ->
      step (mk_threads l al (acc_inserted s) pc) (mk_threads l al (acc_failed s) pc)
  | drop_session s l al pc :
      step (mk_threads l al (acc_failed s) pc)
           (mk_threads (unregister_session s l).2 (al ∖ {[s]}) acc_idle pc)
  | quit l al pc :
      step (mk_threads l al acc_idle pc) (mk_threads (shutdown_loop l) al acc_idle pc)
  (* any thread *)
  | wake_session s l al a pc : step (mk_threads l al a pc) (mk_threads (wakeup_session s l) al a pc)
  (* the loop *)
  | events evs wokeup l al a : m_quit l = false -> (forall s, s ∈ evs -> s ∈ epoll_set l) ->
      step (mk_threads l al a at_wait) (mk_threads l al a (at_events evs wokeup))
  | process s evs wokeup l l' al a : rtc (reacts false s) l l' ->
      step (mk_threads l al a (at_events (s :: evs) wokeup)) (mk_threads l' al a (at_events evs wokeup))
  | no_wakeups l al a :
      step (mk_threads l al a (at_events [] false)) (mk_threads l al a at_deadlines)
  | wakeups l al a :
      step (mk_threads l al a (at_events [] true))
           (mk_threads (take_wakeups l).2 al a (at_wakeups (elements (m_wakeup_sessions l))))
  | registered s ws l al a : s ∈ m_sessions l ->
      step (mk_threads l al a (at_wakeups (s :: ws))) (mk_threads l al a (at_wakeup s ws))
  | not_registered s ws l al a : s ∉ m_sessions l ->
      step (mk_threads l al a (at_wakeups (s :: ws))) (mk_threads l al a (at_wakeups ws))
  | woken s ws l l' al a : may_call s a -> rtc (reacts false s) l l' ->
      step (mk_threads l al a (at_wakeup s ws)) (mk_threads l' al a (at_wakeups ws))
  | woken_all l al a :
      step (mk_threads l al a (at_wakeups [])) (mk_threads l al a at_deadlines)
  | due l al a :
      step (mk_threads l al a at_deadlines)
           (mk_threads (set_earliest time_max l) al a (at_scan (elements (m_sessions l))))
  | not_due l al a :
      step (mk_threads l al a at_deadlines)
           (mk_threads (take_deleted l).2 al a (at_delete (elements (m_delete_later_objects l))))
  | not_expired s sessions l al a :
      step (mk_threads l al a (at_scan (s :: sessions))) (mk_threads l al a (at_scan sessions))
  | expired s sessions l l' al a : may_call s a -> rtc (reacts false s) l l' ->
      step (mk_threads l al a (at_scan (s :: sessions))) (mk_threads l' al a (at_scan sessions))
  | scanned earliest l al a :
      step (mk_threads l al a (at_scan []))
           (mk_threads (after_deadlines earliest l) al a (at_delete (elements (m_delete_later_objects l))))
  | deleted s ds l l' al a : rtc (reacts true s) l l' ->
      step (mk_threads l al a (at_delete (s :: ds)))
           (mk_threads (unregister_session s l').2 (al ∖ {[s]}) a (at_delete ds))
  | turned l al a :
      step (mk_threads l al a (at_delete [])) (mk_threads l al a at_wait)
  | leave l al a : m_quit l = true ->
      step (mk_threads l al a at_wait) (mk_threads l al a at_exit)
  (* the destructor of the loop, on the accept thread: after the join, each
     session the iterator comes to is deleted *)
  | joined l al :
      step (mk_threads l al acc_idle at_exit) (mk_threads l al (acc_destroys (elements (m_sessions l))) at_exit)
  | destroy s ahead l l' al : rtc (reacts true s) l l' ->
      step (mk_threads l al (acc_destroys (s :: ahead)) at_exit)
           (mk_threads (unregister_session s l').2 (al ∖ {[s]}) (acc_destroys ahead) at_exit)
  | destroyed_all l al :
      step (mk_threads l al (acc_destroys []) at_exit) (mk_threads l al acc_gone at_exit).

Definition reachable (st : threads) : Prop := rtc step new_threads st.
End steps.

(** The session the loop thread is about to call or to delete, and the one the
    accept thread works on. *)
Definition loop_touches (st : threads) : option Z :=
  match looping st with
  | at_events (s :: _) _ | at_wakeup s _ | at_scan (s :: _) | at_delete (s :: _) => Some s
  | _ => None
  end.
Definition accept_touches (st : threads) : option Z :=
  match accepting st with
  | acc_created s | acc_inserted s | acc_failed s | acc_destroys (s :: _) => Some s
  | acc_idle | acc_destroys [] | acc_gone => None
  end.

(** ** What calls do to the sets of sessions *)

Abbreviation dying l := (m_delete_later_objects l).

(** [l'] is [l] as far as sessions go, with [s] moved out or not. *)
Definition same_sessions (l l' : event_loop) : Prop :=
  m_sessions l' = m_sessions l /\ epoll_set l' = epoll_set l /\ dying l' = dying l.
Definition without (s : Z) (l l' : event_loop) : Prop :=
  m_sessions l' = m_sessions l ∖ {[s]} /\ epoll_set l' = epoll_set l ∖ {[s]}.

Lemma unregister_without s l :
  epoll_set l ⊆ m_sessions l -> without s l (unregister_session s l).2 /\ dying (unregister_session s l).2 = dying l.
Proof.
  intros Hsub. unfold without, unregister_session. case_decide; [case_decide|]; cbn; split_and!; set_solver.
Qed.

Lemma notify_same d l : same_sessions l (notify_deadline d l).
Proof. unfold same_sessions, notify_deadline. case_decide; [done|]. by destruct (_ <? _). Qed.

Lemma reacts_sessions deleting s l l' :
  epoll_set l ⊆ m_sessions l -> rtc (reacts deleting s) l l' ->
  same_sessions l l' \/ deleting = false /\ without s l l' /\ dying l' = {[s]} ∪ dying l.
Proof.
  intros Hsub Hr. revert Hsub. induction Hr as [|x y z Hxy _ IH]; intros Hsub; [by left|].
  assert (Hy : same_sessions x y \/ deleting = false /\ without s x y /\ dying y = {[s]} ∪ dying x).
  { destruct Hxy as [w|d w|s' w]; [|left; apply notify_same|by left].
    unfold delete_later. destruct deleting; [by left|right]. cbn.
    destruct (unregister_without s w Hsub) as [Hw ->]. split_and!; [done|exact Hw|done]. }
  unfold same_sessions, without in *.
  destruct Hy as [(H1 & H2 & H3)|(Hd & (H1 & H2) & H3)]; destruct IH as [(H4 & H5 & H6)|(Hd' & (H4 & H5) & H6)];
    try (rewrite H1, H2; set_solver).
  - left. by rewrite H4, H5, H6.
  - right. rewrite H4, H5, H6, H1, H2, H3. done.
  - right. rewrite H4, H5, H6. done.
  - right. rewrite H4, H5, H6, H1, H2, H3. split_and!; [done|set_solver..].
Qed.

(** ** The invariant, when registrations do not fail and the loop leaves the
    sessions alone that are being registered *)

(** The sessions the loop thread still has to call, or to delete. *)
Definition to_call (pc : loop_thread) : list Z :=
  match pc with
  | at_events evs _ => evs
  | at_wakeup s _ => [s]
  | at_scan sessions => sessions
  | _ => []
  end.
Definition to_process (pc : loop_thread) : list Z := match pc with at_events evs _ => evs | _ => [] end.
Definition to_delete (pc : loop_thread) : list Z := match pc with at_delete ds => ds | _ => [] end.
Definition between_turns (pc : loop_thread) : bool :=
  match pc with at_delete _ | at_wait | at_exit => true | _ => false end.

Definition accept_ok (st : threads) : Prop :=
  let l := el st in let pc := looping st in
  match accepting st with
  | acc_idle => True
  | acc_created s => (s ∈ alive st) /\ (s ∉ m_sessions l) /\ (s ∉ dying l) /\ (s ∉ to_call pc) /\ (s ∉ to_delete pc)
  | acc_inserted s => (s ∈ m_sessions l) /\ (s ∉ epoll_set l) /\ (s ∉ to_process pc)
  | acc_failed _ => False
  | acc_destroys ahead => pc = at_exit /\ NoDup ahead /\ forall s, s ∈ ahead <-> s ∈ m_sessions l
  | acc_gone => pc = at_exit /\ m_sessions l = ∅
  end.

Record live (st : threads) : Prop := {
  live_epoll : epoll_set (el st) ⊆ m_sessions (el st);
  live_sessions : m_sessions (el st) ⊆ alive st;
  live_dying : dying (el st) ⊆ alive st ∖ m_sessions (el st);
  live_call : forall s, s ∈ to_call (looping st) -> s ∈ alive st;
  live_delete : NoDup (to_delete (looping st)) /\
    forall s, s ∈ to_delete (looping st) -> s ∈ alive st /\ s ∉ m_sessions (el st);
  live_between : between_turns (looping st) = true -> dying (el st) = ∅;
  live_accept : accept_ok st;
  live_all : forall s, s ∈ alive st -> s ∈ m_sessions (el st) \/ s ∈ dying (el st) \/
    s ∈ to_delete (looping st) \/ accept_touches st = Some s;
}.

(** The loop calls [s], which goes on or is deleted later. *)
Lemma call_live s l l' al a pc pc' :
  live (mk_threads l al a pc) -> s ∈ to_call pc -> (a = acc_inserted s -> s ∈ to_process pc) ->
  rtc (reacts false s) l l' ->
  (forall x, x ∈ to_call pc' -> x ∈ to_call pc) -> (forall x, x ∈ to_process pc' -> x ∈ to_process pc) ->
  to_delete pc' = [] -> to_delete pc = [] -> between_turns pc' = false ->
  live (mk_threads l' al a pc').
Proof.
  intros [He Hs Hd Hc Hdel Hb Ha Hall] Hin Hearly Hr Hcall Hproc Hpc' Hpc Hb'.
  cbn [el alive accepting looping] in *. pose proof (Hc s Hin) as Hal.
  assert (Hnot : accept_touches (mk_threads l al a pc) <> Some s).
  { unfold accept_touches, accept_ok in *. cbn in *. destruct a as [|x|x|x|[|x ahead]|]; try done; intros [= ->].
    - naive_solver.
    - specialize (Hearly eq_refl). naive_solver.
    - destruct Ha as [-> _]. by apply not_elem_of_nil in Hin. }
  assert (Hexit : pc <> at_exit) by (intros ->; by apply not_elem_of_nil in Hin).
  destruct (reacts_sessions false s l l' He Hr) as [(H1 & H2 & H3)|(_ & (H1 & H2) & H3)].
  - split; cbn [el alive accepting looping]; rewrite ?H1, ?H2, ?H3, ?Hpc', ?Hb'; try done.
    + intros x Hx. by apply Hc, Hcall.
    + split; [constructor|]. by intros x Hx%not_elem_of_nil.
    + unfold accept_ok in *. cbn in *. destruct a; rewrite ?H1, ?H2, ?H3, ?Hpc'; try (by destruct Ha); set_solver.
    + rewrite Hpc in Hall. exact Hall.
  - split; cbn [el alive accepting looping]; rewrite ?H1, ?H2, ?H3, ?Hpc', ?Hb'; try done.
    + set_solver.
    + set_solver.
    + set_solver.
    + intros x Hx. by apply Hc, Hcall.
    + split; [constructor|]. by intros x Hx%not_elem_of_nil.
    + unfold accept_ok, accept_touches in *. cbn in *. destruct a; rewrite ?H1, ?H2, ?H3, ?Hpc'; try done.
      * assert (s0 <> s) by congruence. set_solver.
      * assert (s0 <> s) by congruence. set_solver.
      * by destruct Ha.
      * by destruct Ha.
    + intros x Hx. destruct (decide (x = s)) as [->|]; [set_solver|].
      destruct (Hall x Hx) as [?|[?|[Hn|?]]]; [set_solver..| |by auto]. rewrite Hpc in Hn. set_solver.
Qed.

(** A session is destroyed that is in no set any more. *)
Lemma delete_live s l l' al a pc pc' :
  live (mk_threads l al a pc) -> s ∈ alive (mk_threads l al a pc) -> accept_touches (mk_threads l al a pc) <> Some s ->
  rtc (reacts true s) l l' -> to_call pc = [] -> to_call pc' = [] -> between_turns pc = true ->
  NoDup (to_delete pc') -> pc <> at_exit ->
  (forall x, x ∈ to_delete pc' <-> x ∈ to_delete pc /\ x <> s) ->
  live (mk_threads (unregister_session s l').2 (al ∖ {[s]}) a pc').
Proof.
  intros [He Hs Hd Hc Hdel Hb Ha Hall] Hin Hnot Hr Hpc Hpc' Hbt Hnd Hexit Hto.
  cbn [el alive accepting looping] in *. specialize (Hb Hbt).
  destruct (reacts_sessions true s l l' He Hr) as [(H1 & H2 & H3)|[? _]]; [|done].
  destruct (unregister_without s l') as [[H4 H5] H6]; [by rewrite H1, H2|].
  rewrite H1 in H4. rewrite H2 in H5. rewrite H3 in H6.
  assert (Hpr : to_process pc' = []) by (destruct pc'; done).
  split; cbn [el alive accepting looping]; rewrite ?H4, ?H5, ?H6, ?Hb, ?Hpc'; try done.
  - set_solver.
  - set_solver.
  - intros x Hx. set_solver.
  - split; [done|]. intros x [Hx Hne]%Hto. destruct Hdel as [_ Hdel]. destruct (Hdel x Hx). set_solver.
  - unfold accept_ok, accept_touches in *. cbn in *. destruct a as [|x|x|x|ahead|]; rewrite ?H4, ?H5, ?H6, ?Hb, ?Hpc', ?Hpr; try done.
    + assert (x <> s) by congruence. destruct Ha as (? & ? & ? & ? & ?). split_and!; try set_solver.
    + assert (x <> s) by congruence. set_solver.
    + by destruct Ha.
    + by destruct Ha.
  - intros x [Hx Hne]%elem_of_difference. destruct (Hall x Hx) as [?|[?|[Hn|?]]]; [set_solver..| |by auto].
    right. right. left. apply Hto. set_solver.
Qed.

(** The destructor of the loop deletes the session its iterator comes to. *)
Lemma destroy_live s ahead l l' al :
  live (mk_threads l al (acc_destroys (s :: ahead)) at_exit) -> rtc (reacts true s) l l' ->
  live (mk_threads (unregister_session s l').2 (al ∖ {[s]}) (acc_destroys ahead) at_exit).
Proof.
  intros [He Hs Hd Hc Hdel Hb (_ & Hnd & Ha) Hall] Hr. cbn [el alive accepting looping to_delete] in *. specialize (Hb eq_refl).
  apply NoDup_cons in Hnd as [Hni Hnd].
  destruct (reacts_sessions true s l l' He Hr) as [(H1 & H2 & H3)|[? _]]; [|done].
  destruct (unregister_without s l') as [[H4 H5] H6]; [by rewrite H1, H2|].
  rewrite H1 in H4. rewrite H2 in H5. rewrite H3, Hb in H6.
  split; cbn [el alive accepting looping to_delete to_call]; rewrite ?H4, ?H5, ?H6.
  - clear -He. set_solver.
  - clear -Hs. set_solver.
  - apply empty_subseteq.
  - by intros x Hx%not_elem_of_nil.
  - split; [constructor|]. by intros x Hx%not_elem_of_nil.
  - done.
  - unfold accept_ok. cbn [el alive accepting looping]. rewrite H4.
    split_and!; [done..|]. intros x. rewrite elem_of_difference, not_elem_of_singleton, <- Ha, elem_of_cons.
    split; [|naive_solver]. intros Hx. split; [by right|]. by intros ->.
  - intros x [Hx Hne%not_elem_of_singleton]%elem_of_difference. left. apply elem_of_difference.
    rewrite not_elem_of_singleton. split; [|done]. destruct (Hall x Hx) as [?|[Hn|[Hn|[= <-]]]]; [done| |by apply not_elem_of_nil in Hn|done].
    rewrite Hb in Hn. by apply not_elem_of_empty in Hn.
Qed.

(** A step that leaves the sets of sessions alone. *)
Lemma pc_live l l' al a pc pc' :
  same_sessions l l' -> live (mk_threads l al a pc) ->
  (forall x, x ∈ to_call pc' -> x ∈ to_call pc \/ x ∈ m_sessions l) ->
  (forall x, x ∈ to_process pc' -> x ∈ to_process pc \/ x ∈ epoll_set l) ->
  to_delete pc' = to_delete pc -> (between_turns pc' = true -> dying l = ∅) -> (pc = at_exit -> pc' = at_exit) ->
  live (mk_threads l' al a pc').
Proof.
  intros (H1 & H2 & H3) [He Hs Hd Hc Hdel Hb Ha Hall] Hcall Hproc Hto Hbt Hexit. cbn [el alive accepting looping] in *.
  split; cbn [el alive accepting looping]; rewrite ?H1, ?H2, ?H3, ?Hto; try done.
  - intros x [?|?]%Hcall; [by apply Hc|by apply Hs].
  - unfold accept_ok in *. cbn [el alive accepting looping] in *.
    destruct a as [|x|x|x|ahead|]; rewrite ?H1, ?H2, ?H3, ?Hto; try done.
    + destruct Ha as (? & ? & ? & ? & ?). split_and!; try done. intros [?|?]%Hcall; done.
    + destruct Ha as (? & ? & ?). split_and!; try done. intros [?|?]%Hproc; done.
    + destruct Ha as (? & ? & ?). split_and!; try done. by apply Hexit.
    + destruct Ha as [? ?]. split; [by apply Hexit|done].
Qed.

(** The end of a turn. *)
Lemma swap_live l l' al a pc :
  m_sessions l' = m_sessions l -> epoll_set l' = epoll_set l -> dying l' = ∅ ->
  live (mk_threads l al a pc) -> to_delete pc = [] -> pc <> at_exit ->
  live (mk_threads l' al a (at_delete (elements (dying l)))).
Proof.
  intros H1 H2 H3 [He Hs Hd Hc Hdel Hb Ha Hall] Hpc Hexit. cbn [el alive accepting looping] in *.
  split; cbn [el alive accepting looping to_call to_delete]; rewrite ?H1, ?H2, ?H3; try done.
  - by intros x Hx%not_elem_of_nil.
  - split; [apply NoDup_elements|]. intros x Hx%elem_of_elements. set_solver.
  - unfold accept_ok in *. cbn [el alive accepting looping to_call to_process to_delete] in *.
    destruct a as [|x|x|x|ahead|]; rewrite ?H1, ?H2, ?H3, ?elem_of_elements; try (by destruct Ha); set_solver.
  - intros x Hx. rewrite elem_of_elements. destruct (Hall x Hx) as [?|[?|[Hn|?]]]; auto.
    rewrite Hpc in Hn. by apply not_elem_of_nil in Hn.
Qed.

Lemma create_live s l al pc :
  s ∉ al -> live (mk_threads l al acc_idle pc) -> live (mk_threads l ({[s]} ∪ al) (acc_created s) pc).
Proof.
  intros Hf [He Hs Hd Hc [Hn Hdel] Hb Ha Hall]. unfold accept_touches in Hall. cbn [el alive accepting looping] in *.
  split; cbn [el alive accepting looping]; try done.
  - clear -Hs. set_solver.
  - clear -Hd. set_solver.
  - intros x Hx. apply elem_of_union_r. by apply Hc.
  - split; [done|]. intros x Hx. destruct (Hdel x Hx) as [Hx1 Hx2]. split; [by apply elem_of_union_r|done].
  - split_and!; cbn [el alive accepting looping].
    + by apply elem_of_union_l, elem_of_singleton.
    + intros Hx. by apply Hf, Hs.
    + intros Hx. apply Hf. by apply Hd in Hx as [? _]%elem_of_difference.
    + intros Hx. by apply Hf, Hc.
    + intros Hx. by destruct (Hdel s Hx).
  - intros x [->%elem_of_singleton|Hx]%elem_of_union; [by auto|].
    destruct (Hall x Hx) as [?|[?|[?|?]]]; by auto.
Qed.

Lemma throws_live s l al pc :
  live (mk_threads l al (acc_created s) pc) -> live (mk_threads l (al ∖ {[s]}) acc_idle pc).
Proof.
  intros [He Hs Hd Hc [Hn Hdel] Hb (Ha1 & Ha2 & Ha3 & Ha4 & Ha5) Hall]. unfold accept_touches in Hall.
  cbn [el alive accepting looping] in *.
  assert (Hin : forall x, x ∈ al -> x <> s -> x ∈ al ∖ {[s]}) by (clear; set_solver).
  split; cbn [el alive accepting looping]; try done.
  - clear -Hs Ha2. set_solver.
  - clear -Hd Ha3. set_solver.
  - intros x Hx. apply Hin; [by apply Hc|]. by intros ->.
  - split; [done|]. intros x Hx. destruct (Hdel x Hx) as [Hx1 Hx2]. split; [|done]. apply Hin; [done|]. by intros ->.
  - intros x [Hx Hne]%elem_of_difference. destruct (Hall x Hx) as [?|[?|[?|[= ->]]]]; auto.
    by apply not_elem_of_singleton in Hne.
Qed.

Lemma insert_live s l al pc :
  live (mk_threads l al (acc_created s) pc) -> live (mk_threads (insert_session s l) al (acc_inserted s) pc).
Proof.
  intros [He Hs Hd Hc [Hn Hdel] Hb (Ha1 & Ha2 & Ha3 & Ha4 & Ha5) Hall]. cbn [el alive accepting looping] in *.
  split; cbn [el alive accepting looping insert_session m_sessions epoll_set m_delete_later_objects]; try done.
  - set_solver.
  - set_solver.
  - set_solver.
  - split; [done|]. intros x Hx. destruct (Hdel x Hx). split; [done|].
    intros [->%elem_of_singleton|?]%elem_of_union; done.
  - split_and!; [set_solver..|]. by destruct pc.
  - unfold accept_touches in *. cbn in *. intros x Hx. destruct (Hall x Hx) as [?|[?|[?|[= ->]]]]; set_solver.
Qed.

Lemma added_live s l al pc :
  live (mk_threads l al (acc_inserted s) pc) -> live (mk_threads (epoll_add s l) al acc_idle pc).
Proof.
  intros [He Hs Hd Hc [Hn Hdel] Hb (Ha1 & Ha2 & Ha3) Hall]. cbn [el alive accepting looping] in *.
  split; cbn [el alive accepting looping epoll_add m_sessions epoll_set m_delete_later_objects]; try done.
  - set_solver.
  - unfold accept_touches in *. cbn in *. intros x Hx. destruct (Hall x Hx) as [?|[?|[?|[= ->]]]]; auto.
Qed.

Ltac next_pc Hl := eapply pc_live; [|exact Hl|..]; cbn; try done; try set_solver.

Lemma step_live st st' : step false false st st' -> live st -> live st'.
Proof.
  intros Hs Hl. destruct Hs.
  all: try match goal with Hm : may_call _ _ _ |- _ => destruct Hm as [Hm|Hm]; [discriminate Hm|] end.
  all: try (eapply call_live; [exact Hl|by left|cbn; set_solver|eassumption|cbn; set_solver..]).
  - by apply create_live.
  - by apply throws_live.
  - by apply insert_live.
  - by apply added_live.
  - done.
  - by destruct (live_accept _ Hl).
  - next_pc Hl. apply (live_between _ Hl).
  - next_pc Hl. apply (live_between _ Hl).
  - pose proof (live_epoll _ Hl) as He. cbn in He. next_pc Hl.
  - next_pc Hl.
  - next_pc Hl.
  - next_pc Hl.
  - next_pc Hl.
  - next_pc Hl.
  - next_pc Hl.
  - by apply (swap_live l _ al a at_deadlines).
  - next_pc Hl.
  - unfold after_deadlines. destruct (notify_same earliest l) as (H1 & H2 & H3). cbn.
    by apply (swap_live l _ al a (at_scan [])).
  - pose proof (live_delete _ Hl) as [Hnd Hdel]. cbn [to_delete looping el alive] in *.
    apply NoDup_cons in Hnd as [Hni Hnd]. destruct (Hdel s) as [Hin Hns]; [by left|].
    eapply (delete_live s l l' al a (at_delete (s :: ds))); try done.
    + intros Ha. pose proof (live_accept _ Hl) as Hacc. unfold accept_touches, accept_ok in *. cbn in *.
      destruct a; simplify_eq; set_solver.
    + intros x. cbn. rewrite elem_of_cons. split; [|naive_solver]. intros Hx. split; [by right|]. by intros ->.
  - next_pc Hl. by apply (live_between _ Hl).
  - next_pc Hl. by apply (live_between _ Hl).
  - destruct Hl as [He Hs' Hd Hc Hdel Hb _ Hall]. unfold accept_touches in Hall. cbn [el alive accepting looping] in *.
    split; cbn [el alive accepting looping]; try done.
    + split_and!; [done|apply NoDup_elements|]. intros s. apply elem_of_elements.
    + intros x Hx. destruct (Hall x Hx) as [?|[?|[?|?]]]; [by auto..|done].
  - by eapply destroy_live.
  - destruct Hl as [He Hs' Hd Hc Hdel Hb (_ & _ & Ha) Hall]. cbn [el alive accepting looping] in *.
    split; cbn [el alive accepting looping]; try done. split; [done|]. cbn. apply set_eq. intros s.
    rewrite <- Ha. set_solver.
Qed.

Lemma reachable_live st : reachable false false st -> live st.
Proof.
  intros H. unfold reachable in H. assert (live new_threads) as H0.
  { split; cbn; try done; try set_solver. split; [constructor|set_solver]. }
  induction H; eauto using step_live.
Qed.

(** C29: With every interleaving of the accept thread, the loop thread and wakeups
    from elsewhere, when registrations do not fail and no session is
    called while it is being registered: what the loop calls, scans or
    deletes, what its destructor deletes and what the accept thread works
    on is a session that exists; no session that is registered or waits to
    be deleted was destroyed, so none is destroyed twice; the iterator of
    the destructor has ahead exactly the sessions that are registered;
    every session that exists is registered, waiting to be deleted or in
    the hands of one of the two threads; and when the destructor of the
    loop is done no session exists. *)
Theorem sessions_outlive_their_calls st :
  reachable false false st ->
  (forall s, loop_touches st = Some s -> s ∈ alive st) /\
  (forall s, accept_touches st = Some s -> s ∈ alive st) /\
  m_sessions (el st) ∪ m_delete_later_objects (el st) ⊆ alive st /\
  (forall s, s ∈ alive st -> s ∈ m_sessions (el st) \/ s ∈ m_delete_later_objects (el st) \/
     s ∈ to_delete (looping st) \/ accept_touches st = Some s) /\
  (forall ahead s, accepting st = acc_destroys ahead -> s ∈ ahead <-> s ∈ m_sessions (el st)) /\
  (accepting st = acc_gone -> alive st = ∅).
Proof.
  intros Hr. destruct (reachable_live st Hr) as [He Hs Hd Hc [_ Hdel] Hb Ha Hall]. split_and!.
  - unfold loop_touches. destruct (looping st) as [|[|x evs] w|ws|x ws| |[|x ss]|[|x ds]|]; intros s [= ->].
    1-3: apply Hc; by left.
    apply Hdel. by left.
  - unfold accept_touches, accept_ok in *. destruct (accepting st) as [|x|x|x|[|x ahead]|]; intros s [= ->]; [by apply Ha| |done|].
    + apply Hs. by apply Ha.
    + apply Hs. destruct Ha as (_ & _ & Ha). apply Ha. by left.
  - clear -Hs Hd. set_solver.
  - exact Hall.
  - intros ahead s Hacc. unfold accept_ok in Ha. rewrite Hacc in Ha. apply Ha.
  - intros Hgone. unfold accept_ok, accept_touches in *. rewrite Hgone in *. destruct Ha as [Hpc Hms].
    rewrite Hpc, Hms in *. specialize (Hb eq_refl). rewrite Hb in Hall. cbn in Hall. set_solver.
Qed.

(** register_session puts a session into m_sessions before epoll_ctl: when that
    fails, the accept thread destroys the session while the loop may have it
    in the copy it scans for timeouts, and the loop then calls a destroyed
    object. *)
Theorem failed_registration_is_used_after_free :
  exists st s, reachable true false st /\ loop_touches st = Some s /\ s ∉ alive st.
Proof.
  set (l1 := insert_session 1 new_event_loop).
  exists (mk_threads (unregister_session 1 (set_earliest time_max l1)).2 (({[1]} ∪ ∅) ∖ {[1]}) acc_idle (at_scan [1])), 1.
  split_and!; [|done|cbn [alive]; set_solver].
  eapply rtc_l; [apply (create _ _ 1); [set_solver|done]|].
  eapply rtc_l; [apply insert|].
  eapply rtc_l; [apply (events _ _ [] false); [done|set_solver]|].
  eapply rtc_l; [apply no_wakeups|].
  eapply rtc_l; [apply due|].
  eapply rtc_l; [by apply not_added|].
  apply rtc_once. apply drop_session.
Qed.

(** A session that was registered, had an event and is to be deleted. *)
Lemma sessions_outlive_their_calls_witness :
  exists st, reachable false false st /\ looping st = at_events [] false /\
    m_delete_later_objects (el st) = {[1]} /\
    (forall s, s ∈ alive st -> s ∈ m_sessions (el st) \/ s ∈ m_delete_later_objects (el st) \/
       s ∈ to_delete (looping st) \/ accept_touches st = Some s).
Proof.
  set (l := epoll_add 1 (insert_session 1 new_event_loop)).
  exists (mk_threads (delete_later 1 false l) ({[1]} ∪ ∅) acc_idle (at_events [] false)).
  assert (Hr : reachable false false (mk_threads (delete_later 1 false l) ({[1]} ∪ ∅) acc_idle (at_events [] false))).
  { eapply rtc_l; [apply (create _ _ 1); [set_solver|done]|]. eapply rtc_l; [apply insert|]. eapply rtc_l; [apply added|].
    eapply rtc_l; [apply (events _ _ [1] false); [done|cbn; set_solver]|].
    apply rtc_once. apply process. apply rtc_once. apply react_delete. }
  split_and!; [exact Hr|done|by vm_compute|].
  apply (sessions_outlive_their_calls _ Hr).
Defined.
