(* ===== verification/Deadlines.v ===== *)
(** * Deadlines: who publishes them and who looks for them

    [set_next_timeout], [next_timeout] and [io_loop] of server_session.h,
    [set_session_timeout] of streams.cpp and the scan of [loop()], as steps of the
    accept thread and of the thread of an event loop.  The loop looks at the
    sessions only when its earliest deadline is due, so a deadline that is
    missing there would never be noticed. *)

From S2P Require Import Prelude Utils Http EventLoop LoopThreads.

Local Open Scope Z_scope.

(** ** The deadlines of a session *)

(** [m_next_timeout], the time point of a stream whose constructor is still at
    the handshake, and that of [m_stream]. *)
Record timed : Type := mk_timed {
  m_next_timeout : Z;
  handshaking : option Z;
  m_stream : option Z;
}.

(** [next_timeout()] *)
Definition next_timeout (t : timed) : Z :=
  match m_stream t with Some tp => tp | None => m_next_timeout t end.

(** [set_next_timeout(seconds)], in the constructor of a session. *)
Definition set_next_timeout (deadline : Z) (l : event_loop) : timed * event_loop :=
  (mk_timed deadline None None, notify_deadline deadline l).

(** [set_session_timeout] in the constructor of a TLS stream, which is not yet in
    [m_stream]. *)
Definition handshake_timeout (tp : Z) (t : timed) (l : event_loop) : timed * event_loop :=
  (mk_timed (m_next_timeout t) (Some tp) None, notify_deadline tp l).

(** [m_stream = std::move(stream)] in [io_loop]; a TCP stream has no time point
    yet. *)
Definition assign_stream (t : timed) : timed :=
  mk_timed (m_next_timeout t) None (Some (default no_deadline (handshaking t))).

(** [set_session_timeout] on [m_stream]; [no_deadline] for no seconds, which is
    not published. *)
Definition stream_timeout (tp : Z) (t : timed) (l : event_loop) : timed * event_loop :=
  (mk_timed (m_next_timeout t) None (Some tp), notify_deadline tp l).

(** Several of them, one after the other. *)
Definition notify_all (ds : list Z) (l : event_loop) : event_loop :=
  foldl (fun l d => notify_deadline d l) l ds.

(** ** Threads *)

(** The loop thread: anywhere but in the scan, or in it with the sessions to look
    at and the earliest deadline so far. *)
Inductive scan_phase : Type :=
  | outside
  | scanning (todo : list Z) (now acc : Z).

Record clockwork : Type := mk_clockwork {
  cw_loop : event_loop;
  cw_sessions : gmap Z timed;
  cw_phase : scan_phase;
}.

Inductive tick : clockwork -> clockwork -> Prop :=
  (* the accept thread *)
  | construct s d l ss ph : ss !! s = None -> s ∉ m_sessions l -> 0 < d ->
      tick (mk_clockwork l ss ph)
           (mk_clockwork (set_next_timeout d l).2 (<[s := (set_next_timeout d l).1]> ss) ph)
  | register s t l ss ph : ss !! s = Some t -> m_stream t = None -> handshaking t = None ->
      tick (mk_clockwork l ss ph) (mk_clockwork (insert_session s l) ss ph)
  | add s l ss ph : tick (mk_clockwork l ss ph) (mk_clockwork (epoll_add s l) ss ph)
  (* the coroutine of a session, on the loop thread *)
  | handshakes s t tp l ss : ss !! s = Some t -> m_stream t = None -> handshaking t = None ->
      m_next_timeout t <= tp ->
      tick (mk_clockwork l ss outside)
           (mk_clockwork (handshake_timeout tp t l).2 (<[s := (handshake_timeout tp t l).1]> ss) outside)
  | assigns s t l ss : ss !! s = Some t -> m_stream t = None ->
      tick (mk_clockwork l ss outside) (mk_clockwork l (<[s := assign_stream t]> ss) outside)
  | sets_timeout s t tp l ss : ss !! s = Some t -> m_stream t <> None -> 0 <= tp ->
      tick (mk_clockwork l ss outside)
           (mk_clockwork (stream_timeout tp t l).2 (<[s := (stream_timeout tp t l).1]> ss) outside)
  | ends s l ss : tick (mk_clockwork l ss outside) (mk_clockwork (delete_later s false l) ss outside)
  | destroyed s l ss : s ∉ m_sessions l -> tick (mk_clockwork l ss outside) (mk_clockwork l (delete s ss) outside)
  (* the scan of loop(); a session that is timed out may publish more of its own *)
  | scan_begins now l ss : m_earliest_deadline l <= now ->
      tick (mk_clockwork l ss outside)
           (mk_clockwork (set_earliest time_max l) ss (scanning (elements (m_sessions l)) now time_max))
  | scan_none s t todo now acc l ss : ss !! s = Some t -> next_timeout t = no_deadline ->
      tick (mk_clockwork l ss (scanning (s :: todo) now acc)) (mk_clockwork l ss (scanning todo now acc))
  | scan_later s t todo now acc l ss : ss !! s = Some t -> next_timeout t <> no_deadline -> now < next_timeout t ->
      tick (mk_clockwork l ss (scanning (s :: todo) now acc))
           (mk_clockwork l ss (scanning todo now (Z.min acc (next_timeout t))))
  | scan_expired s t t' ds todo now acc l ss : ss !! s = Some t -> next_timeout t <> no_deadline -> next_timeout t <= now ->
      Forall (Z.le 0) ds -> m_next_timeout t' = m_next_timeout t -> handshaking t' = None ->
      (forall tp, m_stream t' = Some tp -> 0 <= tp) ->
      tick (mk_clockwork l ss (scanning (s :: todo) now acc))
           (mk_clockwork (delete_later s false (notify_all ds l)) (<[s := t']> ss) (scanning todo now acc))
  | scan_ends now acc l ss :
      tick (mk_clockwork l ss (scanning [] now acc)) (mk_clockwork (notify_deadline acc l) ss outside).

Definition at_start : clockwork := mk_clockwork new_event_loop ∅ outside.

(** ** No deadline is forgotten *)

(** When a session whose coroutine has run must be looked at. *)
Definition due_by (t : timed) : Z :=
  match m_stream t, handshaking t with
  | Some tp, _ => tp
  | None, Some tp => tp
  | None, None => no_deadline
  end.

(** The deadline [d] of [s] is not forgotten: it is published, or the scan has it
    or still comes to it. *)
Definition watched (c : clockwork) (s d : Z) : Prop :=
  m_earliest_deadline (cw_loop c) <= d \/
  match cw_phase c with outside => False | scanning todo _ acc => acc <= d \/ s ∈ todo end.

(** The time points come from a clock that is past its epoch. *)
Record sound (t : timed) : Prop := {
  so_next : 0 < m_next_timeout t;
  so_handshake tp : handshaking t = Some tp -> m_next_timeout t <= tp;
  so_stream tp : m_stream t = Some tp -> 0 <= tp;
}.

Record on_time (c : clockwork) : Prop := {
  ot_watched s t : s ∈ m_sessions (cw_loop c) -> cw_sessions c !! s = Some t -> due_by t <> no_deadline ->
    watched c s (due_by t);
  ot_sound s t : cw_sessions c !! s = Some t -> sound t;
  ot_earliest : 0 < m_earliest_deadline (cw_loop c);
  ot_acc todo now acc : cw_phase c = scanning todo now acc -> 0 < acc;
}.

(** What a session must be looked at for is not before what it says. *)
Lemma next_timeout_due t :
  sound t -> due_by t <> no_deadline -> next_timeout t <> no_deadline /\ next_timeout t <= due_by t.
Proof.
  intros [Hn Hh _]. unfold due_by, next_timeout, no_deadline in *. destruct (m_stream t); [by split|].
  destruct (handshaking t) as [tp|]; [|done]. intros _. specialize (Hh tp eq_refl). lia.
Qed.
Lemma next_timeout_sound t : sound t -> 0 <= next_timeout t.
Proof. intros [Hn _ Hs]. unfold next_timeout. destruct (m_stream t); [by apply Hs|lia]. Qed.

(** *** What is published *)

Lemma notify_loop d l :
  0 <= d -> 0 < m_earliest_deadline l ->
  0 < m_earliest_deadline (notify_deadline d l) <= m_earliest_deadline l /\
  (d <> no_deadline -> m_earliest_deadline (notify_deadline d l) <= d) /\
  m_sessions (notify_deadline d l) = m_sessions l.
Proof.
  intros Hd Hl. destruct (decide (d = no_deadline)) as [->|Hne].
  { unfold notify_deadline. rewrite decide_True by done. split_and!; [lia..|done|done]. }
  destruct (notify_deadline_min d l Hne) as [-> ->]. unfold no_deadline in *. split_and!; [lia..|done].
Qed.
Lemma notify_all_loop ds l :
  Forall (Z.le 0) ds -> 0 < m_earliest_deadline l ->
  0 < m_earliest_deadline (notify_all ds l) <= m_earliest_deadline l /\ m_sessions (notify_all ds l) = m_sessions l.
Proof.
  intros Hds. revert l. induction Hds as [|d ds Hd _ IH]; intros l Hl; [split; [cbn; lia|done]|].
  change (notify_all (d :: ds) l) with (notify_all ds (notify_deadline d l)).
  destruct (notify_loop d l Hd Hl) as (H1 & _ & H2). destruct (IH (notify_deadline d l)) as [H3 H4]; [lia|].
  rewrite H4, H2. split; [lia|done].
Qed.
Lemma delete_later_loop s l :
  m_sessions (delete_later s false l) = m_sessions l ∖ {[s]} /\
  m_earliest_deadline (delete_later s false l) = m_earliest_deadline l.
Proof.
  unfold delete_later, unregister_session. destruct (decide (s ∈ m_sessions l)); [by destruct (decide _)|].
  cbn. split; [set_solver|done].
Qed.

(** *** The steps *)

(** A step that publishes only, and changes the deadlines of one session, whose
    new deadline is watched. *)
Lemma on_time_change l l' ss ph s t' :
  on_time (mk_clockwork l ss ph) -> m_sessions l' = m_sessions l ->
  0 < m_earliest_deadline l' <= m_earliest_deadline l -> sound t' ->
  (s ∈ m_sessions l -> due_by t' <> no_deadline -> m_earliest_deadline l' <= due_by t') ->
  on_time (mk_clockwork l' (<[s := t']> ss) ph).
Proof.
  intros Hc Hm He Hs Hw. split; cbn [cw_loop cw_sessions cw_phase].
  - intros s0 t0 Hin. rewrite Hm in Hin. destruct (decide (s0 = s)) as [->|Hne].
    + rewrite lookup_insert_eq. intros [= <-] Hd. left. by apply Hw.
    + rewrite lookup_insert_ne by done. intros Ht0 Hd.
      destruct (ot_watched _ Hc s0 t0 Hin Ht0 Hd) as [Hle|Hph]; [left; cbn in *; lia|by right].
  - intros s0 t0 [[_ <-]|[_ Ht0]]%lookup_insert_Some; [done|]. by apply (ot_sound _ Hc s0).
  - lia.
  - apply (ot_acc _ Hc).
Qed.

(** A step of the loop that changes no deadline; sessions may go. *)
Lemma on_time_move l l' ss ss' ph ph' :
  on_time (mk_clockwork l ss ph) ->
  (forall s t, s ∈ m_sessions l' -> ss' !! s = Some t -> due_by t <> no_deadline -> s ∈ m_sessions l /\ ss !! s = Some t) ->
  (forall s t, ss' !! s = Some t -> sound t) ->
  0 < m_earliest_deadline l' -> (forall todo now acc, ph' = scanning todo now acc -> 0 < acc) ->
  (forall s t, s ∈ m_sessions l' -> ss' !! s = Some t -> due_by t <> no_deadline ->
     watched (mk_clockwork l ss ph) s (due_by t) -> watched (mk_clockwork l' ss' ph') s (due_by t)) ->
  on_time (mk_clockwork l' ss' ph').
Proof.
  intros Hc Hin Hs He Ha Hw. split; cbn [cw_loop cw_sessions cw_phase]; [|done..].
  intros s t H1 H2 H3. apply Hw; [done..|]. destruct (Hin s t H1 H2 H3). by apply (ot_watched _ Hc s t).
Qed.

(** The sessions of the scan, one after the other. *)
Lemma scan_none_on_time s t todo now acc l ss :
  ss !! s = Some t -> next_timeout t = no_deadline -> on_time (mk_clockwork l ss (scanning (s :: todo) now acc)) ->
  on_time (mk_clockwork l ss (scanning todo now acc)).
Proof.
  intros Hl Hn Hc. pose proof (ot_sound _ Hc) as Hs.
  apply (on_time_move l _ ss _ (scanning (s :: todo) now acc)); try done; [apply (ot_earliest _ Hc)|..].
  - intros ??? [= <- <- <-]. by apply (ot_acc _ Hc (s :: todo) now).
  - intros s' t' _ Ht' Hd [Hle|[Hle|[->|Hin]%elem_of_cons]]; [by left|right; by left| |right; by right].
    cbn in Hs. rewrite Hl in Ht'. injection Ht' as <-. by destruct (next_timeout_due t (Hs s t Hl) Hd).
Qed.
Lemma scan_later_on_time s t todo now acc l ss :
  ss !! s = Some t -> next_timeout t <> no_deadline -> on_time (mk_clockwork l ss (scanning (s :: todo) now acc)) ->
  on_time (mk_clockwork l ss (scanning todo now (Z.min acc (next_timeout t)))).
Proof.
  intros Hl Hn Hc. pose proof (ot_acc _ Hc (s :: todo) now acc eq_refl) as Ha.
  pose proof (ot_sound _ Hc s t Hl) as Hs. pose proof (next_timeout_sound t Hs) as Hp.
  apply (on_time_move l _ ss _ (scanning (s :: todo) now acc));
    try done; [apply (ot_sound _ Hc)|apply (ot_earliest _ Hc)|..].
  - intros ??? [= <- <- <-]. unfold no_deadline in Hn. lia.
  - intros s' t' _ Ht' Hd [Hle|[Hle|[->|Hin]%elem_of_cons]]; [by left|right; left; lia| |right; by right].
    rewrite Hl in Ht'. injection Ht' as <-. destruct (next_timeout_due t Hs Hd). right. left. lia.
Qed.
Lemma scan_expired_on_time s t t' ds todo now acc l ss :
  ss !! s = Some t -> Forall (Z.le 0) ds -> m_next_timeout t' = m_next_timeout t -> handshaking t' = None ->
  (forall tp, m_stream t' = Some tp -> 0 <= tp) -> on_time (mk_clockwork l ss (scanning (s :: todo) now acc)) ->
  on_time (mk_clockwork (delete_later s false (notify_all ds l)) (<[s := t']> ss) (scanning todo now acc)).
Proof.
  intros Hl Hds Hn' Hh' Hst Hc. destruct (notify_all_loop ds l Hds (ot_earliest _ Hc)) as [H1 H2].
  destruct (delete_later_loop s (notify_all ds l)) as [H3 H4].
  apply (on_time_move l _ ss _ (scanning (s :: todo) now acc)); [done|..].
  - rewrite H3, H2. intros s' t0 [Hin Hne%not_elem_of_singleton]%elem_of_difference.
    rewrite lookup_insert_ne by done. done.
  - intros s' t0 [[_ <-]|[_ Ht0]]%lookup_insert_Some; [|by apply (ot_sound _ Hc s')].
    destruct (ot_sound _ Hc s t Hl) as [Hp _ _]. split; [by rewrite Hn'|by rewrite Hh'|done].
  - rewrite H4. lia.
  - intros ??? [= <- <- <-]. by apply (ot_acc _ Hc (s :: todo) now acc).
  - rewrite H3, H2. intros s' t0 [_ Hne%not_elem_of_singleton]%elem_of_difference _ _ [Hle|[Hle|Hin]].
    + left. cbn in *. lia.
    + right. by left.
    + right. right. by apply elem_of_cons in Hin as [?|?].
Qed.
Lemma scan_ends_on_time now acc l ss :
  on_time (mk_clockwork l ss (scanning [] now acc)) -> on_time (mk_clockwork (notify_deadline acc l) ss outside).
Proof.
  intros Hc. pose proof (ot_acc _ Hc [] now acc eq_refl) as Ha. pose proof (ot_earliest _ Hc) as He. cbn in He.
  destruct (notify_loop acc l) as (H1 & H2 & H3); [lia..|].
  apply (on_time_move l _ ss _ (scanning [] now acc)); try done; [by rewrite H3|apply (ot_sound _ Hc)|lia|].
  assert (acc <> no_deadline) as Hne by (unfold no_deadline; lia). specialize (H2 Hne).
  intros s' t' _ _ _ [Hle|[Hle|[]%not_elem_of_nil]]; left; cbn in *; lia.
Qed.

(** The coroutine of a session. *)
Lemma handshake_on_time s t tp l ss :
  ss !! s = Some t -> m_next_timeout t <= tp -> on_time (mk_clockwork l ss outside) ->
  on_time (mk_clockwork (handshake_timeout tp t l).2 (<[s := (handshake_timeout tp t l).1]> ss) outside).
Proof.
  intros Hl Htp Hc. pose proof (ot_sound _ Hc s t Hl) as [Hn _ _]. pose proof (ot_earliest _ Hc) as He. cbn in He.
  destruct (notify_loop tp l) as (H1 & H2 & H3); [lia..|]. apply (on_time_change l); [done..| |intros _; exact H2].
  split; [done| |done]. cbn. by intros ? [= <-].
Qed.
Lemma assign_on_time s t l ss :
  ss !! s = Some t -> m_stream t = None -> on_time (mk_clockwork l ss outside) ->
  on_time (mk_clockwork l (<[s := assign_stream t]> ss) outside).
Proof.
  intros Hl Hm Hc. pose proof (ot_sound _ Hc s t Hl) as [Hn Hh _]. pose proof (ot_earliest _ Hc) as He. cbn in He.
  apply (on_time_change l); [done|done|lia| |].
  - split; [done|done|]. cbn. intros tp [= <-]. destruct (handshaking t) as [tp|]; cbn; [|done].
    specialize (Hh tp eq_refl). lia.
  - intros Hin Hd. assert (Hdue : due_by t = due_by (assign_stream t)).
    { unfold due_by. rewrite Hm. cbn. by destruct (handshaking t). }
    rewrite <- Hdue in *. by destruct (ot_watched _ Hc s t Hin Hl Hd).
Qed.
Lemma stream_on_time s t tp l ss :
  ss !! s = Some t -> 0 <= tp -> on_time (mk_clockwork l ss outside) ->
  on_time (mk_clockwork (stream_timeout tp t l).2 (<[s := (stream_timeout tp t l).1]> ss) outside).
Proof.
  intros Hl Htp Hc. pose proof (ot_sound _ Hc s t Hl) as [Hn _ _]. pose proof (ot_earliest _ Hc) as He.
  destruct (notify_loop tp l) as (H1 & H2 & H3); [done..|]. apply (on_time_change l); [done..| |intros _; exact H2].
  split; [done|done|]. cbn. by intros ? [= <-].
Qed.

Lemma tick_on_time c c' : tick c c' -> on_time c -> on_time c'.
Proof.
  intros Ht Hc. pose proof (ot_earliest _ Hc) as He. pose proof (ot_sound _ Hc) as Hs. pose proof (ot_acc _ Hc) as Ha.
  destruct Ht as [s d l ss ph Hn Hs0 Hd|s t l ss ph Hl Hm Hh|s l ss ph|s t tp l ss Hl Hm Hh Htp|s t l ss Hl Hm
    |s t tp l ss Hl Hm Htp|s l ss|s l ss Hs0|now l ss Hle|s t todo now acc l ss Hl Hn|s t todo now acc l ss Hl Hn Hlt
    |s t t' ds todo now acc l ss Hl Hn Hle Hds Hn' Hh' Hst|now acc l ss]; cbn [cw_loop cw_sessions cw_phase] in *.
  - destruct (notify_loop d l) as (H1 & H2 & H3); [lia..|]. by apply (on_time_change l).
  - apply (on_time_move l _ ss _ ph); try done.
    intros s' t' [->%elem_of_singleton|Hin]%elem_of_union Ht' Hd; [|done]. exfalso. apply Hd.
    rewrite Hl in Ht'. injection Ht' as <-. unfold due_by. by rewrite Hm, Hh.
  - by apply (on_time_move l _ ss _ ph).
  - by apply handshake_on_time.
  - by apply assign_on_time.
  - by apply stream_on_time.
  - destruct (delete_later_loop s l) as [H1 H2]. apply (on_time_move l _ ss _ outside); try done.
    + rewrite H1. set_solver.
    + by rewrite H2.
    + intros s' t' _ _ _ [Hle|[]]. left. cbn in *. by rewrite H2.
  - apply (on_time_move l _ ss _ outside); try done.
    + by intros s' t' Hin [_ Ht']%lookup_delete_Some _.
    + intros s' t' [_ Ht']%lookup_delete_Some. by apply (Hs s').
  - apply (on_time_move l _ ss _ outside); try done.
    + by intros ??? [= <- <- <-].
    + intros s' t' Hin _ _ _. right. right. by apply elem_of_elements.
  - by apply (scan_none_on_time s t).
  - by apply (scan_later_on_time s t).
  - by apply (scan_expired_on_time s t).
  - by apply (scan_ends_on_time now).
Qed.

Lemma reached_on_time st : rtc tick at_start st -> on_time st.
Proof.
  intros Hr. remember at_start as c0 eqn:H0. assert (Hc : on_time c0).
  { subst c0. by split. }
  clear H0. induction Hr; [done|]. eauto using tick_on_time.
Qed.

(** What [loop()] gets from the sessions. *)
Definition timeouts (st : clockwork) (s : Z) : Z :=
  match cw_sessions st !! s with Some t => next_timeout t | None => no_deadline end.

(** C26: However the accept thread, the coroutines of the sessions and the scan of
    an event loop interleave, the loop forgets no deadline of a session
    that was started: between two scans, the loop's check times the
    session out as soon as its deadline has passed; and before that, as
    long as the deadline is less than 2^31 - 100 ms (some 24 days) away,
    epoll_wait is never told to sleep for ever or longer than 50 ms past
    the deadline, during a TLS handshake as well as on an established
    stream. *)
Theorem no_deadline_forgotten (st : clockwork) (s now : Z) (t : timed) :
  rtc tick at_start st -> cw_phase st = outside ->
  s ∈ m_sessions (cw_loop st) -> cw_sessions st !! s = Some t -> due_by t <> no_deadline ->
  (due_by t <= now -> s ∈ (check_deadlines (timeouts st) now (cw_loop st)).1) /\
  (0 <= now <= due_by t -> due_by t < time_max -> due_by t - now < (2 ^ 31 - 100) * ns_per_ms ->
   let wait := next_wait now (m_earliest_deadline (cw_loop st)) in
   1 <= wait /\ now + wait * ns_per_ms <= due_by t + 50 * ns_per_ms).
Proof.
  intros Hr Hph Hin Hl Hd. pose proof (reached_on_time st Hr) as Hc.
  destruct (ot_watched _ Hc s t Hin Hl Hd) as [He|Hw]; [|by rewrite Hph in Hw].
  destruct (next_timeout_due t (ot_sound _ Hc s t Hl) Hd) as [Hn Hle]. pose proof (ot_earliest _ Hc) as Hp. split.
  - intros Hnow. apply check_deadlines_expired; [lia|]. unfold timeouts. rewrite Hl. split_and!; [done|done|lia].
  - intros Hnow Hmax Hlim. destruct (next_wait_bounds now (m_earliest_deadline (cw_loop st))) as (H1 & _ & H2); lia.
Qed.

(** ** A connection over TLS *)

(** Constructed for 5 s, registered, its handshake started a little later. *)
Definition tls_session : timed := mk_timed (5 * 10 ^ 9) (Some (6 * 10 ^ 9)) None.
Definition tls_started : clockwork :=
  mk_clockwork (set_earliest (5 * 10 ^ 9) (epoll_add 1 (insert_session 1 new_event_loop))) {[1 := tls_session]} outside.

Lemma tls_started_reached : rtc tick at_start tls_started.
Proof.
  eapply rtc_l; [apply (construct 1 (5 * 10 ^ 9)); [done|done|lia]|].
  eapply rtc_l; [apply (register 1 (mk_timed (5 * 10 ^ 9) None None)); done|].
  eapply rtc_l; [apply (add 1)|].
  apply rtc_once. apply (handshakes 1 (mk_timed (5 * 10 ^ 9) None None) (6 * 10 ^ 9)); [done|done|done|cbn; lia].
Qed.

Lemma no_deadline_forgotten_witness :
  1 ∈ (check_deadlines (timeouts tls_started) (7 * 10 ^ 9) (cw_loop tls_started)).1 /\
  2 * 10 ^ 9 + next_wait (2 * 10 ^ 9) (m_earliest_deadline (cw_loop tls_started)) * ns_per_ms <=
    6 * 10 ^ 9 + 50 * ns_per_ms.
Proof.
  assert (Hin : 1 ∈ m_sessions (cw_loop tls_started)) by (apply elem_of_union_l, elem_of_singleton; done).
  assert (Hl : cw_sessions tls_started !! 1 = Some tls_session) by reflexivity.
  assert (Hd : due_by tls_session <> no_deadline) by done.
  split.
  - apply (no_deadline_forgotten tls_started 1 (7 * 10 ^ 9) tls_session tls_started_reached eq_refl Hin Hl Hd).
    cbn. lia.
  - apply (no_deadline_forgotten tls_started 1 (2 * 10 ^ 9) tls_session tls_started_reached eq_refl Hin Hl Hd);
      unfold time_max, ns_per_ms; cbn; lia.
Defined.

(** A scan between the construction of a session and its registration: the
    deadline the constructor published is gone, and the loop waits for events
    alone.  The socket can be written to, so its first event starts the coroutine,
    which publishes a deadline of its own. *)
Definition unstarted : clockwork :=
  mk_clockwork (insert_session 2 (set_earliest time_max (delete_later 1 false (insert_session 1 new_event_loop))))
    (<[1 := mk_timed 5 None None]> {[2 := mk_timed 20 None None]}) outside.
Example unstarted_deadline_lost :
  rtc tick at_start unstarted /\ timeouts unstarted 2 = 20 /\
  next_wait 10 (m_earliest_deadline (cw_loop unstarted)) = -1.
Proof.
  split; [|by vm_compute].
  eapply rtc_l; [apply (construct 1 5); [done|done|lia]|].
  eapply rtc_l; [apply (register 1 (mk_timed 5 None None)); done|].
  eapply rtc_l; [apply (construct 2 20); [done|done|lia]|].
  eapply rtc_l; [apply (scan_begins 10); by vm_compute|].
  eapply rtc_l; [apply (scan_expired 1 (mk_timed 5 None None) (mk_timed 5 None None) []); (done || by vm_compute)|].
  eapply rtc_l; [apply (register 2 (mk_timed 20 None None)); done|].
  apply (rtc_once (R := tick)).
  match goal with |- tick (mk_clockwork ?l ?ss _) _ => exact (scan_ends 10 time_max l ss) end.
Qed.
