(* ===== verification/Server.v ===== *)
(** * The server: src/server/server.{h,cpp}, server_plugin.cpp and
    server_service_sessions.cpp

    What [server] keeps of its sessions and of the connections of each address,
    the accept loop's handling of one connection, the plugins and the status
    page.  Sessions are created by the accept thread and deleted by the threads
    of the event loops: [step] interleaves their critical sections. *)

From Stdlib Require Import Sorted.
From S2P Require Import Prelude Utils Charconv Http Stream.

Local Open Scope Z_scope.

(** ** Session accounting *)

Definition u32 (z : Z) : Z := z mod 2 ^ 32.

Record server : Type := mk_server {
  m_active_sessions : gset Z;              (** sessions, by address *)
  m_active_sessions_count : Z;
  m_peak_sessions : Z;
  m_connections_per_ip : gmap bytes Z;
}.

Definition new_server : server := mk_server ∅ 0 0 ∅.

(** [server_session_created(session)] *)
Definition server_session_created (session : Z) (sv : server) : server :=
  let active := {[session]} ∪ m_active_sessions sv in
  let count := Z.of_nat (size active) in
  mk_server active count
    (if m_peak_sessions sv <? count then count else m_peak_sessions sv)
    (m_connections_per_ip sv).

(** The two critical sections of [server_session_deleted(session)].  The second
    fails where its assertion does. *)
Definition forget_session (session : Z) (sv : server) : server :=
  let active := m_active_sessions sv ∖ {[session]} in
  mk_server active (Z.of_nat (size active)) (m_peak_sessions sv) (m_connections_per_ip sv).
Definition release_address (addr : bytes) (sv : server) : option server :=
  match m_connections_per_ip sv !! addr with
  | None => None
  | Some connections =>
      let connections := u32 (connections - 1) in
      Some (mk_server (m_active_sessions sv) (m_active_sessions_count sv) (m_peak_sessions sv)
        (if connections =? 0 then delete addr (m_connections_per_ip sv)
         else <[addr := connections]> (m_connections_per_ip sv)))
  end.
Definition server_session_deleted (session : Z) (addr : bytes) (sv : server) : option server :=
  release_address addr (forget_session session sv).

(** ** The accept loop *)

(** The check of the limit under its lock: the order of the connection, or
    nothing when it is to be closed.  [operator\[\]] adds the address. *)
Definition admit_connection (max_connections_per_ip : Z) (addr : bytes) (sv : server) : option Z * server :=
  let connections := default 0 (m_connections_per_ip sv !! addr) in
  let with_ip n := mk_server (m_active_sessions sv) (m_active_sessions_count sv)
    (m_peak_sessions sv) (<[addr := n]> (m_connections_per_ip sv)) in
  if max_connections_per_ip <=? connections then (None, with_ip connections)
  else (Some connections, with_ip (u32 (connections + 1))).

(** The search for the least used event loop, given the sessions of each. *)
Fixpoint best_loop_from (best : nat) (least : Z) (i : nat) (loops : list Z) : nat :=
  match loops with
  | [] => best
  | active :: loops' =>
      if active <? least then best_loop_from i active (S i) loops'
      else best_loop_from best least (S i) loops'
  end.
Definition best_loop (loops : list Z) : nat :=
  match loops with
  | [] => 0
  | first :: rest => best_loop_from 0 first 1 rest
  end.

(** How making a session can end: [new] has no memory, the constructor throws
    after that of its base class has run, [init_session] throws, or the session
    is in its event loop. *)
Inductive construction : Type :=
  | new_throws
  | constructor_throws (session : Z)
  | init_throws (session : Z)
  | constructed (session : Z).

Record accepted : Type := mk_accepted {
  a_session : Z;
  a_order : Z;
  a_loop : nat;
}.

(** One turn of the accept loop on a connection from [addr]: the session that
    serves it, or nothing when the socket was closed. *)
Definition accept_connection (max_connections_per_ip : Z) (loops : list Z) (addr : bytes)
    (made : construction) (sv : server) : option (option accepted * server) :=
  match admit_connection max_connections_per_ip addr sv with
  | (None, sv) => Some (None, sv)
  | (Some order, sv) =>
      let loop := best_loop loops in
      match made with
      | new_throws => Some (None, sv)
      | constructor_throws session | init_throws session =>
          pair None <$> server_session_deleted session addr (server_session_created session sv)
      | constructed session =>
          Some (Some (mk_accepted session order loop), server_session_created session sv)
      end
  end.

(** ** Plugins *)

Section plugins.
Context {B H : Type}.

Record server_plugin : Type := mk_server_plugin {
  create_session : request B -> outcome exn (option H);
  m_order : Z;
}.

(** What [dlsym] finds in a library. *)
Record library : Type := mk_library {
  sym_init_plugin : option (bytes -> outcome exn bool);
  sym_create_session : option (request B -> outcome exn (option H));
  sym_plugin_order : option (outcome exn Z);
  sym_destory_plugin : bool;
}.

Inductive library_call : Type := called_init | called_destroy | called_dlclose.

(** The deleter of [m_handler]. *)
Definition close_library (lib : library) : list library_call :=
  (if sym_destory_plugin lib then [called_destroy] else []) ++ [called_dlclose].

(** [server_plugin(path, conf_dir)], with the calls it makes: the deleter runs
    when an exception leaves the constructor. *)
Definition load_failed (lib : library) (e : exn) (calls : list library_call)
    : outcome exn server_plugin * list library_call :=
  (Throw e, calls ++ close_library lib).
Definition load_plugin (dlerror : bytes) (opened : option library) (conf_dir : bytes)
    : outcome exn server_plugin * list library_call :=
  match opened with
  | None => (Throw (ExStd (runtime_error dlerror)), [])
  | Some lib =>
      let '(inited, calls) :=
        match sym_init_plugin lib with
        | None => (Ok true, [])
        | Some init => (init conf_dir, [called_init])
        end in
      match inited with
      | Throw e => load_failed lib e calls
      | Diverge => (Diverge, calls)
      | Ok false => load_failed lib (ExStd (runtime_error (bs "initPlugin failed"))) calls
      | Ok true =>
          match sym_create_session lib with
          | None => load_failed lib (ExStd (runtime_error (bs "Can't find create_session function"))) calls
          | Some create =>
              match sym_plugin_order lib with
              | None => load_failed lib (ExStd (runtime_error (bs "Can't find plugin_order function"))) calls
              | Some (Throw e) => load_failed lib e calls
              | Some Diverge => (Diverge, calls)
              | Some (Ok order) => (Ok (mk_server_plugin create (u32 order)), calls)
              end
          end
      end
  end.

(** The loop over the files of the plugins directory: a standard exception
    skips the file, anything else ends [exec]. *)
Fixpoint load_plugins (dlerror conf_dir : bytes) (files : list (option library))
    : outcome exn (list server_plugin) :=
  match files with
  | [] => Ok []
  | f :: files' =>
      match (load_plugin dlerror f conf_dir).1 with
      | Ok plugin => cons plugin <$> load_plugins dlerror conf_dir files'
      | Throw (ExStd _) => load_plugins dlerror conf_dir files'
      | Throw e => Throw e
      | Diverge => Diverge
      end
  end.

(** [std::sort] by the order of the plugins, which need not be stable. *)
Definition sorts_plugins (sort : list server_plugin -> list server_plugin) : Prop :=
  forall plugins, sort plugins ≡ₚ plugins /\
    StronglySorted (fun a b => m_order a <= m_order b) (sort plugins).

(** [server::create_session(request)] over [m_plugins]. *)
Fixpoint ask_plugins (plugins : list server_plugin) (req : request B) : outcome exn (option H) :=
  match plugins with
  | [] => Ok None
  | plugin :: plugins' =>
      match create_session plugin req with
      | Ok None => ask_plugins plugins' req
      | answer => answer
      end
  end.
End plugins.
Arguments server_plugin : clear implicits.
Arguments library : clear implicits.

(** ** /server_status: server_service_sessions.cpp *)

(** [std::format] of an integer. *)
Definition format_int (z : Z) : bytes :=
  if z <? 0 then "-"%char :: to_chars 10 (- z) else to_chars 10 z.

(** The days, hours, minutes and seconds of an uptime. *)
Definition uptime_parts (uptime : Z) : Z * Z * Z * Z :=
  let seconds := uptime in
  let days := Z.quot seconds (60 * 60 * 24) in
  let seconds := seconds - days * (60 * 60 * 24) in
  let hours := Z.quot seconds (60 * 60) in
  let seconds := seconds - hours * (60 * 60) in
  let minutes := Z.quot seconds 60 in
  let seconds := seconds - minutes * 60 in
  (days, hours, minutes, seconds).

Definition status_body (active peak_sessions served uptime : Z) : bytes :=
  let peak := Z.max peak_sessions active in
  let '(days, hours, minutes, seconds) := uptime_parts uptime in
  bs "Active sessions: " ++ format_int active ++ [LF] ++
  bs "Sessions peak: " ++ format_int peak ++ [LF] ++
  bs "Uptime: " ++ format_int days ++ bs " days, " ++ format_int hours ++ bs " hours, " ++
  format_int minutes ++ bs " minutes and " ++ format_int seconds ++ bs " seconds" ++ [LF] ++
  bs "Served sessions: " ++ format_int served ++ [LF].

Section server_status.
Context {S B : Type} `{abstract_stream S}.
Abbreviation SM := (M (S * (request B * B)) exn).

(** What the handlers of [write_response] answer: a bare status. *)
Definition status_error (e : exn) : response :=
  make_response (match e with ExResponse res => m_status_code res | _ => 500 end) [] [].

(** [write_response(stream, req)]; an exception of a handler's own write
    leaves it. *)
Definition write_response (active peak served uptime : Z) : SM unit := fun x =>
  match receive_request x with
  | (Throw e, x1) => with_request (send_response (status_error e)) x1
  | (Diverge, x1) => (Diverge, x1)
  | (Ok _, x1) =>
      let page := make_response 200 (status_body active peak served uptime)
        [(bs "Refresh", bs "5"); (bs "Content-Type", bs "text/plain")] in
      match with_request (send_response page) x1 with
      | (Throw _, x2) => (Ok tt, x2)
      | r => r
      end
  end.

(** [server_sessions::create_session(req)] *)
Definition status_session (active peak served uptime : Z) (req : request B)
    : outcome exn (option (SM unit)) :=
  Ok (if decide (m_url req = bs "/server_status" /\ m_method req = bs "GET")
      then Some (write_response active peak served uptime) else None).
End server_status.

(** The plugins of [exec]: the ones that loaded and, when enabled, the status
    page, sorted. *)
Definition UINT32_MAX : Z := 2 ^ 32 - 1.
Definition server_plugins {B H} (sort : list (server_plugin B H) -> list (server_plugin B H))
    (dlerror conf_dir : bytes) (files : list (option (library B H)))
    (server_status : option (request B -> outcome exn (option H))) : outcome exn (list (server_plugin B H)) :=
  loaded ← load_plugins dlerror conf_dir files;
  mret (sort (loaded ++ match server_status with
                        | Some create => [mk_server_plugin create (UINT32_MAX / 2)]
                        | None => []
                        end)).

(** ** The threads

    [accepting] is the address of a connection that was admitted and has no
    session yet, [objects] the sessions that exist with their peer addresses,
    [dying] those whose destructor is between its two critical sections, and
    [lost] the addresses of the connections [new] had no memory for. *)

Record system : Type := mk_system {
  sv : server;
  accepting : option bytes;
  objects : gmap Z bytes;
  dying : gmap Z bytes;
  lost : list bytes;
}.

Definition new_system : system := mk_system new_server None ∅ ∅ [].

Section steps.
Variable max_connections_per_ip : Z.

Inductive step : system -> system -> Prop :=
  | step_refuse addr s sv' obj dy lo :
      admit_connection max_connections_per_ip addr s = (None, sv') ->
      step (mk_system s None obj dy lo) (mk_system sv' None obj dy lo)
  | step_admit addr order s sv' obj dy lo :
      admit_connection max_connections_per_ip addr s = (Some order, sv') ->
      step (mk_system s None obj dy lo) (mk_system sv' (Some addr) obj dy lo)
  | step_no_memory addr s obj dy lo :
      step (mk_system s (Some addr) obj dy lo) (mk_system s None obj dy (addr :: lo))
  | step_create addr session s obj dy lo :
      obj !! session = None -> dy !! session = None ->
      step (mk_system s (Some addr) obj dy lo)
           (mk_system (server_session_created session s) None (<[session := addr]> obj) dy lo)
  | step_forget addr session s acc obj dy lo :
      obj !! session = Some addr ->
      step (mk_system s acc obj dy lo)
           (mk_system (forget_session session s) acc (delete session obj) (<[session := addr]> dy) lo)
  | step_release addr session s sv' acc obj dy lo :
      dy !! session = Some addr -> release_address addr s = Some sv' ->
      step (mk_system s acc obj dy lo) (mk_system sv' acc obj (delete session dy) lo).

Definition reachable (st : system) : Prop := rtc step new_system st.
End steps.

(** The connections of an address, and those that were lost. *)
Definition sessions_of (addr : bytes) (m : gmap Z bytes) : Z :=
  Z.of_nat (size (filter (fun kv : Z * bytes => kv.2 = addr) m)).
Definition connections_of (addr : bytes) (st : system) : Z :=
  (if decide (accepting st = Some addr) then 1 else 0) +
  sessions_of addr (objects st) + sessions_of addr (dying st).
Definition lost_of (addr : bytes) (st : system) : Z :=
  Z.of_nat (count_occ (decide_rel eq) (lost st) addr).

(** ** The accounting is exact *)

Lemma sessions_of_insert addr b session m :
  m !! session = None ->
  sessions_of addr (<[session := b]> m) = sessions_of addr m + (if decide (b = addr) then 1 else 0).
Proof.
  intros Hm. unfold sessions_of. case_decide as Hb.
  - rewrite map_filter_insert_True by done. rewrite map_size_insert_None; [lia|].
    apply map_lookup_filter_None. left. done.
  - rewrite map_filter_insert_not' by naive_solver. lia.
Qed.

Lemma sessions_of_delete addr b session m :
  m !! session = Some b ->
  sessions_of addr (delete session m) = sessions_of addr m - (if decide (b = addr) then 1 else 0).
Proof.
  intros Hm. rewrite <- (insert_delete_id m session b Hm) at 2.
  rewrite sessions_of_insert by apply lookup_delete_eq. lia.
Qed.

Lemma sessions_of_nonneg addr m : 0 <= sessions_of addr m.
Proof. unfold sessions_of. lia. Qed.

Lemma sessions_of_pos addr session m : m !! session = Some addr -> 0 < sessions_of addr m.
Proof.
  intros Hm. pose proof (sessions_of_delete addr addr session m Hm) as Hd.
  rewrite decide_True in Hd by done. pose proof (sessions_of_nonneg addr (delete session m)). lia.
Qed.

Lemma u32_small z : 0 <= z < 2 ^ 32 -> u32 z = z.
Proof. apply Z.mod_small. Qed.

Section accounting.
Variable max : Z.
Hypothesis max_u32 : 0 <= max < 2 ^ 32.

Definition held (addr : bytes) (st : system) : Z := connections_of addr st + lost_of addr st.

Record accounted (st : system) : Prop := {
  acc_active : m_active_sessions (sv st) = dom (objects st);
  acc_count : m_active_sessions_count (sv st) = Z.of_nat (size (objects st));
  acc_peak : m_active_sessions_count (sv st) <= m_peak_sessions (sv st);
  acc_disjoint : forall session addr, objects st !! session = Some addr -> dying st !! session = None;
  acc_ips : forall addr, default 0 (m_connections_per_ip (sv st) !! addr) = held addr st;
  acc_max : forall addr, held addr st <= max;
  acc_entry : forall addr n, m_connections_per_ip (sv st) !! addr = Some n -> n = 0 -> max = 0;
}.

(** The map of addresses after one entry was changed, when the connections
    changed alike. *)
Lemma ips_insert (ips : gmap bytes Z) (h h' : bytes -> Z) addr n :
  (forall a, default 0 (ips !! a) = h a) -> n = h' addr -> (forall a, a <> addr -> h' a = h a) ->
  forall a, default 0 (<[addr := n]> ips !! a) = h' a.
Proof.
  intros Hips Hn Ho a. destruct (decide (a = addr)) as [->|Ha].
  - by rewrite lookup_insert_eq.
  - rewrite lookup_insert_ne by done. rewrite Hips. by rewrite Ho.
Qed.

Lemma ips_delete (ips : gmap bytes Z) (h h' : bytes -> Z) addr :
  (forall a, default 0 (ips !! a) = h a) -> h' addr = 0 -> (forall a, a <> addr -> h' a = h a) ->
  forall a, default 0 (delete addr ips !! a) = h' a.
Proof.
  intros Hips Hn Ho a. destruct (decide (a = addr)) as [->|Ha].
  - by rewrite lookup_delete_eq.
  - rewrite lookup_delete_ne by done. rewrite Hips. by rewrite Ho.
Qed.

Lemma entry_insert (ips : gmap bytes Z) addr n :
  (forall a m, ips !! a = Some m -> m = 0 -> max = 0) -> (n = 0 -> max = 0) ->
  forall a m, <[addr := n]> ips !! a = Some m -> m = 0 -> max = 0.
Proof. intros Hips Hn a m [[<- <-]|[? Hm]]%lookup_insert_Some; [done|]. by apply (Hips a). Qed.

Lemma held_nonneg addr st : 0 <= held addr st.
Proof.
  unfold held, connections_of, lost_of. pose proof (sessions_of_nonneg addr (objects st)).
  pose proof (sessions_of_nonneg addr (dying st)). case_decide; lia.
Qed.

Lemma held_new addr : held addr new_system = 0.
Proof. done. Qed.

Lemma new_accounted : accounted new_system.
Proof.
  split; cbn; try done. intros addr. rewrite held_new. lia.
Qed.

Definition one_if (b addr : bytes) : Z := if decide (b = addr) then 1 else 0.

Lemma held_accepting addr b s obj dy lo :
  held addr (mk_system s (Some b) obj dy lo) = held addr (mk_system s None obj dy lo) + one_if b addr.
Proof.
  unfold held, connections_of, lost_of, one_if. cbn [accepting objects dying lost].
  rewrite (decide_False (P := None = Some addr)) by done.
  destruct (decide (b = addr)) as [->|Hb]; [rewrite decide_True by done|rewrite decide_False by congruence]; lia.
Qed.

Lemma held_server addr s s' acc obj dy lo :
  held addr (mk_system s acc obj dy lo) = held addr (mk_system s' acc obj dy lo).
Proof. done. Qed.

Lemma held_lost addr b s acc obj dy lo :
  held addr (mk_system s acc obj dy (b :: lo)) = held addr (mk_system s acc obj dy lo) + one_if b addr.
Proof.
  unfold held, connections_of, lost_of, one_if. cbn [accepting objects dying lost count_occ].
  destruct (decide_rel eq b addr), (decide (b = addr)); try done; lia.
Qed.

Lemma held_object addr b session s acc obj dy lo :
  obj !! session = None ->
  held addr (mk_system s acc (<[session := b]> obj) dy lo)
  = held addr (mk_system s acc obj dy lo) + one_if b addr.
Proof.
  intros Ho. unfold held, connections_of, lost_of, one_if. cbn [accepting objects dying lost].
  rewrite sessions_of_insert by done. lia.
Qed.

Lemma held_dying addr b session s acc obj dy lo :
  dy !! session = Some b ->
  held addr (mk_system s acc obj (delete session dy) lo)
  = held addr (mk_system s acc obj dy lo) - one_if b addr.
Proof.
  intros Hd. unfold held, connections_of, lost_of, one_if. cbn [accepting objects dying lost].
  rewrite (sessions_of_delete addr b) by done. lia.
Qed.

Lemma held_forget addr b session s acc obj dy lo :
  obj !! session = Some b -> dy !! session = None ->
  held addr (mk_system s acc (delete session obj) (<[session := b]> dy) lo)
  = held addr (mk_system s acc obj dy lo).
Proof.
  intros Ho Hd. unfold held, connections_of, lost_of. cbn [accepting objects dying lost].
  rewrite sessions_of_insert, (sessions_of_delete addr b) by done. lia.
Qed.

Lemma one_if_eq addr : one_if addr addr = 1.
Proof. unfold one_if. by rewrite decide_True. Qed.
Lemma one_if_ne b addr : addr <> b -> one_if b addr = 0.
Proof. intros H. unfold one_if. by rewrite decide_False. Qed.

Ltac accounts := split; cbn [sv accepting objects dying lost server_session_created forget_session
  m_active_sessions m_active_sessions_count m_peak_sessions m_connections_per_ip]; try done.

Lemma refuse_accounted addr s s' obj dy lo :
  admit_connection max addr s = (None, s') -> accounted (mk_system s None obj dy lo) ->
  accounted (mk_system s' None obj dy lo).
Proof.
  intros Had [Ha Hc Hp Hdis Hips Hmax He]. cbn [sv accepting objects dying lost] in *.
  unfold admit_connection in Had. destruct (Z.leb_spec max (default 0 (m_connections_per_ip s !! addr))) as [Hfull|]; [|done].
  injection Had as <-. accounts.
  + eapply ips_insert; [exact Hips|apply Hips|done].
  + apply entry_insert; [done|lia].
Qed.

Lemma admit_accounted addr order s s' obj dy lo :
  admit_connection max addr s = (Some order, s') -> accounted (mk_system s None obj dy lo) ->
  accounted (mk_system s' (Some addr) obj dy lo).
Proof.
  intros Had [Ha Hc Hp Hdis Hips Hmax He]. cbn [sv accepting objects dying lost] in *.
  unfold admit_connection in Had. destruct (Z.leb_spec max (default 0 (m_connections_per_ip s !! addr))) as [|Hfree]; [done|].
  injection Had as <- <-. pose proof (Hips addr) as Hi. pose proof (held_nonneg addr (mk_system s None obj dy lo)).
  rewrite u32_small by lia.
  accounts.
  + eapply ips_insert; [exact Hips|rewrite held_accepting, one_if_eq, Hi; done|].
    intros a Hne. rewrite held_accepting, one_if_ne by done. rewrite Z.add_0_r. done.
  + intros a. rewrite held_accepting. rewrite (held_server a _ s). specialize (Hmax a).
    destruct (decide (a = addr)) as [->|]; [rewrite one_if_eq; lia|rewrite one_if_ne by done; lia].
  + apply entry_insert; [done|lia].
Qed.

Lemma no_memory_accounted addr s obj dy lo :
  accounted (mk_system s (Some addr) obj dy lo) ->
  accounted (mk_system s None obj dy (addr :: lo)).
Proof.
  intros  [Ha Hc Hp Hdis Hips Hmax He]. cbn [sv accepting objects dying lost] in *.
  split; cbn; try done; intros a; specialize (Hips a); specialize (Hmax a);
    rewrite held_accepting in Hips, Hmax; rewrite held_lost; done.
Qed.

Lemma create_accounted addr session s obj dy lo :
  obj !! session = None -> dy !! session = None -> accounted (mk_system s (Some addr) obj dy lo) ->
  accounted (mk_system (server_session_created session s) None (<[session := addr]> obj) dy lo).
Proof.
  intros Ho Hd [Ha Hc Hp Hdis Hips Hmax He]. cbn [sv accepting objects dying lost] in *.
  accounts.
  + rewrite Ha, dom_insert_L. done.
  + rewrite Ha. rewrite <- (dom_insert_L obj session addr), size_dom. done.
  + destruct (Z.ltb_spec (m_peak_sessions s) (Z.of_nat (size ({[session]} ∪ m_active_sessions s)))); lia.
  + intros x a [[<- <-]|[? Hx]]%lookup_insert_Some; [done|]. by eapply Hdis.
  + intros a. rewrite held_object by done. rewrite Hips, held_accepting. done.
  + intros a. rewrite held_object by done. specialize (Hmax a). rewrite held_accepting in Hmax. done.
Qed.

Lemma forget_accounted addr session s acc obj dy lo :
  obj !! session = Some addr -> accounted (mk_system s acc obj dy lo) ->
  accounted (mk_system (forget_session session s) acc (delete session obj) (<[session := addr]> dy) lo).
Proof.
  intros Ho [Ha Hc Hp Hdis Hips Hmax He]. cbn [sv accepting objects dying lost] in *.
  pose proof (Hdis _ _ Ho) as Hd.
  accounts.
  + rewrite Ha, dom_delete_L. done.
  + rewrite Ha, <- dom_delete_L, size_dom. done.
  + rewrite Ha, <- dom_delete_L, size_dom, map_size_delete_Some by eauto. lia.
  + intros x a Hx%lookup_delete_Some. destruct Hx as [Hne Hx]. rewrite lookup_insert_ne by done. by eapply Hdis.
  + intros a. rewrite held_forget by done. apply Hips.
  + intros a. rewrite held_forget by done. apply Hmax.
Qed.

Lemma release_accounted addr session s s' acc obj dy lo :
  dy !! session = Some addr -> release_address addr s = Some s' -> accounted (mk_system s acc obj dy lo) ->
  accounted (mk_system s' acc obj (delete session dy) lo).
Proof.
  intros Hd Hrel [Ha Hc Hp Hdis Hips Hmax He]. cbn [sv accepting objects dying lost] in *.
  unfold release_address in Hrel. destruct (m_connections_per_ip s !! addr) as [n|] eqn:Hn; [|done].
  injection Hrel as <-. pose proof (Hips addr) as Hi. rewrite Hn in Hi. cbn in Hi. unfold id in Hi.
  assert (Hpos : 0 < n <= max).
  { split; [|rewrite Hi; apply Hmax]. rewrite Hi. unfold held, connections_of, lost_of. cbn [accepting objects dying lost].
    pose proof (sessions_of_pos addr session dy Hd). pose proof (sessions_of_nonneg addr obj). case_decide; lia. }
  rewrite u32_small by lia.
  accounts.
  + intros x a Hx. apply lookup_delete_None. right. by eapply Hdis.
  + assert (Hother : forall a, a <> addr -> held a (mk_system s acc obj (delete session dy) lo) = held a (mk_system s acc obj dy lo)).
    { intros a Hne. rewrite (held_dying a addr) by done. rewrite one_if_ne by done. lia. }
    assert (Hthis : held addr (mk_system s acc obj (delete session dy) lo) = n - 1).
    { rewrite (held_dying addr addr) by done. rewrite one_if_eq. lia. }
    destruct (Z.eqb_spec (n - 1) 0) as [Hz|Hz]; [eapply ips_delete|eapply ips_insert];
      [exact Hips|rewrite (held_server _ _ s); lia|exact Hother|exact Hips|rewrite (held_server _ _ s); lia|exact Hother].
  + intros a. rewrite (held_dying a addr) by done. rewrite (held_server _ _ s). specialize (Hmax a).
    unfold one_if. case_decide; lia.
  + destruct (Z.eqb_spec (n - 1) 0) as [Hz|Hz].
    * intros a m Hm%lookup_delete_Some. destruct Hm. by apply (He a).
    * apply entry_insert; [done|lia].
Qed.

Lemma step_accounted st st' : step max st st' -> accounted st -> accounted st'.
Proof.
  destruct 1; eauto using refuse_accounted, admit_accounted, no_memory_accounted, create_accounted,
    forget_accounted, release_accounted.
Qed.

Lemma steps_accounted st st' : rtc (step max) st st' -> accounted st -> accounted st'.
Proof. induction 1; eauto using step_accounted. Qed.

Lemma reachable_accounted st : reachable max st -> accounted st.
Proof. intros H. eapply steps_accounted; [exact H|]. apply new_accounted. Qed.

(** The assertion of [server_session_deleted] holds, and its decrement does not
    wrap around. *)
Lemma release_exact st session addr :
  accounted st -> dying st !! session = Some addr ->
  exists s', release_address addr (sv st) = Some s' /\
    default 0 (m_connections_per_ip s' !! addr) = held addr st - 1.
Proof.
  intros Hacc Hd. destruct st as [s acc obj dy lo]. cbn [dying sv] in *.
  pose proof (acc_ips _ Hacc addr) as Hi. cbn [sv] in Hi.
  assert (Hpos : 0 < held addr (mk_system s acc obj dy lo)).
  { pose proof (held_dying addr addr session s acc obj dy lo Hd) as Hh. rewrite one_if_eq in Hh.
    pose proof (held_nonneg addr (mk_system s acc obj (delete session dy) lo)). lia. }
  destruct (release_address addr s) as [s'|] eqn:Hrel.
  - exists s'. split; [done|].
    pose proof (acc_ips _ (release_accounted _ _ _ _ acc obj dy lo Hd Hrel Hacc) addr) as Hi'.
    cbn [sv] in Hi'. rewrite Hi', (held_dying addr addr) by done. rewrite one_if_eq. done.
  - unfold release_address in Hrel. destruct (m_connections_per_ip s !! addr); [done|].
    cbn in Hi. lia.
Qed.

(** One turn of the accept loop is a sequence of steps of the threads. *)
Lemma accept_connection_steps loops addr made s obj dy lo :
  accounted (mk_system s None obj dy lo) ->
  match made with
  | new_throws => True
  | constructor_throws session | init_throws session | constructed session =>
      obj !! session = None /\ dy !! session = None
  end ->
  exists r s' obj' lo', accept_connection max loops addr made s = Some (r, s') /\
    rtc (step max) (mk_system s None obj dy lo) (mk_system s' None obj' dy lo').
Proof.
  intros Hacc Hfresh. unfold accept_connection.
  destruct (admit_connection max addr s) as [[order|] s1] eqn:Had.
  2: { eexists _, _, _, _. split; [done|]. eapply rtc_once, step_refuse, Had. }
  assert (Hadm : rtc (step max) (mk_system s None obj dy lo) (mk_system s1 (Some addr) obj dy lo)).
  { eapply rtc_once, step_admit, Had. }
  assert (Hgone : forall session, obj !! session = None -> dy !! session = None ->
    exists s', server_session_deleted session addr (server_session_created session s1) = Some s' /\
      rtc (step max) (mk_system s None obj dy lo) (mk_system s' None obj dy lo)).
  { intros session Ho Hd. set (st1 := mk_system (server_session_created session s1) None (<[session := addr]> obj) dy lo).
    set (st2 := mk_system (forget_session session (server_session_created session s1)) None obj (<[session := addr]> dy) lo).
    assert (Hrun : rtc (step max) (mk_system s None obj dy lo) st2).
    { etrans; [exact Hadm|]. eapply rtc_l; [by apply (step_create max addr session)|].
      apply rtc_once. unfold st2. rewrite <- (delete_insert_id obj session addr Ho) at 2.
      apply step_forget, lookup_insert_eq. }
    destruct (release_exact st2 session addr) as (s' & Hs' & _).
    { by eapply steps_accounted. } { apply lookup_insert_eq. }
    exists s'. split; [exact Hs'|]. eapply rtc_r; [exact Hrun|].
    unfold st2. rewrite <- (delete_insert_id dy session addr Hd) at 2.
    eapply step_release; [apply lookup_insert_eq|exact Hs']. }
  destruct made as [|session|session|session].
  - eexists _, _, _, _. split; [done|]. eapply rtc_r; [exact Hadm|]. apply step_no_memory.
  - destruct (Hgone session) as (s' & -> & Hrun); [naive_solver..|]. by eexists _, _, _, _.
  - destruct (Hgone session) as (s' & -> & Hrun); [naive_solver..|]. by eexists _, _, _, _.
  - destruct Hfresh as [Ho Hd]. eexists _, _, _, _. split; [done|]. eapply rtc_r; [exact Hadm|]. by apply step_create.
Qed.
End accounting.

(** C28: With every interleaving of the accept thread and the threads that delete
    sessions, the set and the count of active sessions are those that
    exist, the count of each address is the number of its connections (and
    of those that got no memory), never above the limit, entries do not
    accumulate, and the decrement of a deletion finds its entry and does
    not wrap around. *)
Theorem session_accounting_exact max st :
  0 <= max < 2 ^ 32 -> reachable max st ->
  m_active_sessions (sv st) = dom (objects st) /\
  m_active_sessions_count (sv st) = Z.of_nat (size (objects st)) /\
  m_active_sessions_count (sv st) <= m_peak_sessions (sv st) /\
  (forall addr, default 0 (m_connections_per_ip (sv st) !! addr)
     = connections_of addr st + lost_of addr st) /\
  (forall addr, connections_of addr st + lost_of addr st <= max) /\
  (forall addr, 0 < max -> connections_of addr st + lost_of addr st = 0 ->
     m_connections_per_ip (sv st) !! addr = None) /\
  (forall session addr, dying st !! session = Some addr ->
     exists s', release_address addr (sv st) = Some s' /\
       default 0 (m_connections_per_ip s' !! addr) = connections_of addr st + lost_of addr st - 1).
Proof.
  intros Hmax Hr. pose proof (reachable_accounted max Hmax st Hr) as [Ha Hc Hp Hdis Hips Hm He].
  split_and!; try done.
  - intros addr H0 Hh. pose proof (Hips addr) as Hi. unfold held in Hi.
    destruct (m_connections_per_ip (sv st) !! addr) as [n|] eqn:Hn; [|done]. cbn in Hi. unfold id in Hi.
    assert (max = 0) by (apply (He addr n Hn); lia). lia.
  - intros session addr Hd. by apply (release_exact max Hmax st session).
Qed.

(** ** Connections without memory are never given back *)

Lemma step_keeps_lost max addr st st' : step max st st' -> lost_of addr st <= lost_of addr st'.
Proof. unfold lost_of. destruct 1; cbn [lost count_occ]; try lia. destruct (decide_rel eq _ addr); lia. Qed.

Lemma full_refuses max addr st :
  0 <= max < 2 ^ 32 -> accounted max st -> max <= lost_of addr st -> (admit_connection max addr (sv st)).1 = None.
Proof.
  intros Hmax Hacc Hl. unfold admit_connection. pose proof (acc_ips max st Hacc addr) as Hi.
  assert (0 <= connections_of addr st).
  { unfold connections_of. pose proof (sessions_of_nonneg addr (objects st)).
    pose proof (sessions_of_nonneg addr (dying st)). case_decide; lia. }
  unfold held in Hi. destruct (Z.leb_spec max (default 0 (m_connections_per_ip (sv st) !! addr))); [done|lia].
Qed.

Lemma count_replicate (addr : bytes) n : count_occ (decide_rel eq) (replicate n addr) addr = n.
Proof. induction n as [|n IH]; [done|]. cbn. destruct (decide_rel eq addr addr); [by rewrite IH|done]. Qed.

Lemma lose_connections max addr n :
  0 <= max < 2 ^ 32 -> Z.of_nat n <= max ->
  exists s, reachable max (mk_system s None ∅ ∅ (replicate n addr)).
Proof.
  intros Hmax. induction n as [|n IH]; intros Hn; [exists new_server; apply rtc_refl|].
  destruct IH as [s Hs]; [lia|]. pose proof (reachable_accounted max Hmax _ Hs) as Hacc.
  pose proof (acc_ips max _ Hacc addr) as Hi. cbn [sv] in Hi.
  assert (Hh : held addr (mk_system s None ∅ ∅ (replicate n addr)) = Z.of_nat n).
  { unfold held, connections_of, lost_of. cbn [accepting objects dying lost]. rewrite decide_False by done.
    by rewrite count_replicate. }
  destruct (admit_connection max addr s) as [[order|] s1] eqn:Had.
  - exists s1. eapply rtc_r; [eapply rtc_r; [exact Hs|by eapply step_admit]|]. apply step_no_memory.
  - unfold admit_connection in Had. rewrite Hi, Hh in Had. destruct (Z.leb_spec max (Z.of_nat n)); [lia|done].
Qed.

(** Connections for whose session there was no memory are counted for ever: as
    many of them as the limit, and the server refuses every later connection
    of that address although it has none. *)
Theorem lost_connections_block_address max addr :
  0 < max < 2 ^ 32 ->
  exists st, reachable max st /\ connections_of addr st = 0 /\ objects st = ∅ /\
    forall st', rtc (step max) st st' -> (admit_connection max addr (sv st')).1 = None.
Proof.
  intros Hmax. destruct (lose_connections max addr (Z.to_nat max)) as [s Hs]; [lia..|].
  exists (mk_system s None ∅ ∅ (replicate (Z.to_nat max) addr)). split_and!; try done.
  intros st' Hrun. apply full_refuses; [lia|eapply steps_accounted; [|exact Hrun|apply reachable_accounted; [|exact Hs]]; lia|].
  transitivity (lost_of addr (mk_system s None ∅ ∅ (replicate (Z.to_nat max) addr))).
  - unfold lost_of. cbn [lost]. rewrite count_replicate. lia.
  - clear Hs. induction Hrun as [|x y z Hxy _ IH]; [done|]. etrans; [by eapply step_keeps_lost|done].
Qed.

(** ** The least used loop *)

Lemma best_loop_from_spec loops best least i all :
  all !! best = Some least -> (best < i)%nat ->
  (forall j n, (j < i)%nat -> all !! j = Some n -> least <= n /\ ((j < best)%nat -> least < n)) ->
  drop i all = loops ->
  exists n, all !! best_loop_from best least i loops = Some n /\
    forall j m, all !! j = Some m -> n <= m /\ ((j < best_loop_from best least i loops)%nat -> n < m).
Proof.
  revert best least i. induction loops as [|a loops IH]; intros best least i Hb Hi Hmin Hdrop; cbn [best_loop_from].
  - exists least. split; [done|]. intros j m Hj. apply Hmin; [|done].
    apply lookup_lt_Some in Hj. assert (length (drop i all) = 0)%nat by by rewrite Hdrop.
    rewrite length_drop in *. lia.
  - assert (Ha : all !! i = Some a) by (rewrite <- (Nat.add_0_r i), <- lookup_drop, Hdrop; done).
    assert (Hd : drop (S i) all = loops) by (rewrite <- Nat.add_1_r, <- drop_drop, Hdrop; done).
    destruct (Z.ltb_spec a least); apply IH; try done; try lia; intros j n Hj Hn.
    + destruct (decide (j = i)) as [->|]; [simplify_eq; lia|].
      destruct (Hmin j n) as [? ?]; [lia|done|]. lia.
    + destruct (decide (j = i)) as [->|]; [simplify_eq; lia|]. apply Hmin; [lia|done].
Qed.

Theorem best_loop_least loops :
  loops <> [] ->
  exists n, loops !! best_loop loops = Some n /\
    forall j m, loops !! j = Some m -> n <= m /\ ((j < best_loop loops)%nat -> n < m).
Proof.
  destruct loops as [|first rest]; [done|]. intros _. cbn [best_loop].
  apply (best_loop_from_spec rest 0 first 1 (first :: rest)); [done|lia| |done].
  intros j n Hj Hn. destruct j; [|lia]. injection Hn as <-. lia.
Qed.

(** ** The plugins *)

(** The answer is the one of the first plugin, by order, that gives any. *)
Definition answers_in_order {B H} (plugins : list (server_plugin B H)) (req : request B)
    (answer : outcome exn (option H)) : Prop :=
  match answer with
  | Ok None => Forall (fun p => create_session p req = Ok None) plugins
  | _ => exists p, p ∈ plugins /\ create_session p req = answer /\
      forall q, q ∈ plugins -> m_order q < m_order p -> create_session q req = Ok None
  end.

Lemma ask_sorted {B H} (l : list (server_plugin B H)) req :
  StronglySorted (fun a b => m_order a <= m_order b) l -> answers_in_order l req (ask_plugins l req).
Proof.
  induction 1 as [|p l _ IH Hp]; [constructor|]. cbn [ask_plugins]. rewrite Forall_forall in Hp.
  assert (Hfirst : forall answer, create_session p req = answer -> exists p', p' ∈ p :: l /\
    create_session p' req = answer /\
    forall q, q ∈ p :: l -> m_order q < m_order p' -> create_session q req = Ok None).
  { intros answer Ha. exists p. split_and!; [by left|done|].
    intros q [->|Hq]%elem_of_cons Hlt; [lia|]. specialize (Hp q Hq). lia. }
  destruct (create_session p req) as [[h|]|e|] eqn:Hc; try by apply Hfirst.
  unfold answers_in_order in *.
  destruct (ask_plugins l req) as [[h|]|e|]; [|by constructor|..];
    destruct IH as (p' & Hin & Hp' & Hq); exists p'; (split_and!; [by right|done|]);
    intros q [->|Hql]%elem_of_cons Hlt; auto.
Qed.

(** The plugins that loaded, in the order of the files. *)
Definition loaded_plugin {B H} (dlerror conf_dir : bytes) (f : option (library B H)) : option (server_plugin B H) :=
  match load_plugin dlerror f conf_dir with
  | (Ok plugin, _) => Some plugin
  | _ => None
  end.

Lemma load_plugins_ok {B H} dlerror conf_dir (files : list (option (library B H))) plugins :
  load_plugins dlerror conf_dir files = Ok plugins -> plugins = omap (loaded_plugin dlerror conf_dir) files.
Proof.
  revert plugins. induction files as [|f files IH]; intros plugins; cbn [load_plugins omap list_omap]; [by intros [= <-]|].
  unfold loaded_plugin at 1. destruct (load_plugin dlerror f conf_dir) as [[plugin|e|] calls]; cbn [fst]; [| |done].
  - destruct (load_plugins dlerror conf_dir files) as [l| |]; [|done..]. intros [= <-]. by rewrite (IH l).
  - destruct e; try done. apply IH.
Qed.

(** A plugin that is not kept is destroyed and closed, once; one that is kept is
    neither. *)
Lemma load_plugin_closes {B H} dlerror conf_dir (lib : library B H) o calls :
  load_plugin dlerror (Some lib) conf_dir = (o, calls) ->
  exists inits, Forall (eq called_init) inits /\
    calls = inits ++ match o with Throw _ => close_library lib | _ => [] end.
Proof.
  unfold load_plugin, load_failed. destruct (sym_init_plugin lib) as [init|]; [destruct (init conf_dir) as [[]| |]|].
  all: destruct (sym_create_session lib), (sym_plugin_order lib) as [[]|]; intros [= <- <-].
  all: (exists [called_init]; split; [by repeat constructor|done]) || (exists []; split; [constructor|done]).
Qed.

Lemma plugins_in_order {B H} (sort : list (server_plugin B H) -> list (server_plugin B H))
    (dlerror conf_dir : bytes) (files : list (option (library B H)))
    (server_status : option (request B -> outcome exn (option H))) (plugins : list (server_plugin B H)) (req : request B) :
  sorts_plugins sort ->
  server_plugins sort dlerror conf_dir files server_status = Ok plugins ->
  answers_in_order (omap (loaded_plugin dlerror conf_dir) files ++
      (if server_status is Some create then [mk_server_plugin create (2 ^ 31 - 1)] else [])) req
    (ask_plugins plugins req).
Proof.
  intros Hsort. unfold server_plugins, mbind, outcome_bind.
  destruct (load_plugins dlerror conf_dir files) as [loaded| |] eqn:Hload; [|done..].
  apply load_plugins_ok in Hload as ->. intros [= <-].
  change (UINT32_MAX / 2) with (2 ^ 31 - 1).
  match goal with |- answers_in_order ?ps _ (ask_plugins (sort ?ps') _) => change ps' with ps; set (all := ps) end.
  destruct (Hsort all) as [Hperm Hsorted].
  pose proof (ask_sorted _ req Hsorted) as Hask. unfold answers_in_order in *.
  destruct (ask_plugins (sort all) req) as [[h|]|e|];
    [destruct Hask as (p & Hin & ? & Hq); exists p|by rewrite <- Hperm
    |destruct Hask as (p & Hin & ? & Hq); exists p..];
    (split_and!; [by rewrite <- Hperm|done|]); intros q; rewrite <- Hperm; apply Hq.
Qed.

(** ** The status page *)

(** The uptime is taken apart exactly. *)
Lemma uptime_parts_exact uptime :
  0 <= uptime ->
  let '(days, hours, minutes, seconds) := uptime_parts uptime in
  ((days * 24 + hours) * 60 + minutes) * 60 + seconds = uptime /\
  0 <= days /\ 0 <= hours < 24 /\ 0 <= minutes < 60 /\ 0 <= seconds < 60.
Proof.
  intros Hu. unfold uptime_parts. cbv zeta.
  change (60 * 60 * 24) with 86400. change (60 * 60) with 3600.
  Z.to_euclidean_division_equations. lia.
Qed.

(** ** Sample runs *)

Definition sample_addr : bytes := bs "10.0.0.1".

(** Two sessions of one address and a connection that got no memory; one of the
    sessions is being deleted. *)
Definition sample_admitted (n : Z) (s : server) : server :=
  mk_server (m_active_sessions s) (m_active_sessions_count s) (m_peak_sessions s)
    (<[sample_addr := n]> (m_connections_per_ip s)).
Definition sample_one : server := server_session_created 7 (sample_admitted 1 new_server).
Definition sample_two : server := server_session_created 8 (sample_admitted 2 sample_one).
Definition sample_server : server := forget_session 7 (sample_admitted 3 sample_two).
Definition sample_system : system :=
  mk_system sample_server None (delete 7 (<[8 := sample_addr]> (<[7 := sample_addr]> ∅)))
    (<[7 := sample_addr]> ∅) [sample_addr].

Lemma sample_reachable : reachable 3 sample_system.
Proof.
  eapply rtc_l; [by apply (step_admit 3 sample_addr 0 _ (sample_admitted 1 new_server))|].
  eapply rtc_l; [by apply (step_create 3 sample_addr 7)|].
  eapply rtc_l; [apply (step_admit 3 sample_addr 1 sample_one (sample_admitted 2 sample_one)); vm_compute; reflexivity|].
  eapply rtc_l; [by apply (step_create 3 sample_addr 8)|].
  eapply rtc_l; [apply (step_admit 3 sample_addr 2 sample_two (sample_admitted 3 sample_two)); vm_compute; reflexivity|].
  eapply rtc_l; [apply (step_no_memory 3 sample_addr)|].
  apply rtc_once. by apply (step_forget 3 sample_addr 7).
Qed.

Lemma session_accounting_exact_witness :
  m_active_sessions (sv sample_system) = {[8]} /\
  connections_of sample_addr sample_system = 2 /\ lost_of sample_addr sample_system = 1 /\
  m_connections_per_ip (sv sample_system) !! sample_addr = Some 3 /\
  exists s', release_address sample_addr (sv sample_system) = Some s' /\
    default 0 (m_connections_per_ip s' !! sample_addr) = 2.
Proof.
  destruct (session_accounting_exact 3 sample_system) as (Ha & _ & _ & _ & _ & _ & Hd);
    [lia|apply sample_reachable|].
  split_and!; [by rewrite Ha; vm_compute|vm_compute; reflexivity..|].
  apply (Hd 7 sample_addr). vm_compute. reflexivity.
Defined.

Lemma lost_connections_block_address_witness :
  exists st, reachable 500 st /\ connections_of sample_addr st = 0 /\ objects st = ∅ /\
    forall st', rtc (step 500) st st' -> (admit_connection 500 sample_addr (sv st')).1 = None.
Proof. apply (lost_connections_block_address 500 sample_addr). lia. Defined.

Lemma best_loop_least_witness :
  best_loop [5; 3; 4; 3] = 1%nat /\
  exists n, [5; 3; 4; 3] !! best_loop [5; 3; 4; 3] = Some n /\
    forall j m, [5; 3; 4; 3] !! j = Some m -> n <= m /\ ((j < best_loop [5; 3; 4; 3]%Z)%nat -> n < m).
Proof. split; [reflexivity|]. by apply best_loop_least. Defined.

(** An insertion sort, a library without its entry point, one that answers
    everything with [true] and the status page, which comes before it. *)
Fixpoint insert_plugin {B H} (p : server_plugin B H) (l : list (server_plugin B H)) : list (server_plugin B H) :=
  match l with
  | [] => [p]
  | q :: l' => if m_order p <=? m_order q then p :: l else q :: insert_plugin p l'
  end.
Definition sort_plugins {B H} (l : list (server_plugin B H)) : list (server_plugin B H) := foldr insert_plugin [] l.

Lemma sort_plugins_sorts {B H} : sorts_plugins (@sort_plugins B H).
Proof.
  assert (Hins : forall (p : server_plugin B H) l, insert_plugin p l ≡ₚ p :: l).
  { intros p l. induction l as [|q l IH]; cbn; [done|]. case_match; [done|]. rewrite IH. constructor. }
  intros l. induction l as [|p l [IHp IHs]]; [split; constructor|]. cbn [sort_plugins foldr].
  fold (sort_plugins l). split; [by rewrite Hins, IHp|].
  clear IHp. induction IHs as [|q m Hm IH Hq]; [by repeat constructor|]. cbn [insert_plugin].
  destruct (Z.leb_spec (m_order p) (m_order q)) as [Hle|Hgt].
  - constructor; [by constructor|]. constructor; [done|]. eapply Forall_impl; [exact Hq|]. cbn. lia.
  - constructor; [done|]. rewrite Hins. constructor; [lia|done].
Qed.

Definition sample_files : list (option (library unit bool)) :=
  [Some (mk_library None None (Some (Ok 1)) true); None;
   Some (mk_library (Some (fun _ => Ok true)) (Some (fun _ => Ok (Some true))) (Some (Ok (2 ^ 32 - 2))) false)].
Definition sample_status (req : request unit) : outcome exn (option bool) :=
  Ok (if decide (m_url req = bs "/server_status") then Some false else None).

Lemma plugins_in_order_witness :
  exists plugins, server_plugins sort_plugins [] (bs "/etc") sample_files (Some sample_status) = Ok plugins /\
    ask_plugins plugins (set_url new_request (bs "/server_status")) = Ok (Some false) /\
    answers_in_order (omap (loaded_plugin [] (bs "/etc")) sample_files ++ [mk_server_plugin sample_status (2 ^ 31 - 1)])
      (set_url new_request (bs "/server_status")) (ask_plugins plugins (set_url new_request (bs "/server_status"))).
Proof.
  eexists. split; [reflexivity|]. split; [reflexivity|].
  apply (plugins_in_order sort_plugins [] (bs "/etc") sample_files (Some sample_status));
    [apply sort_plugins_sorts|reflexivity].
Defined.
