(* ===== verification/ThreadWorker.v ===== *)
(** * Threads: thread_worker.h and the spin_lock of utils.h

    Every thread is a program counter; a step of the system is one access to
    what the threads share.  A function gives the step of a thread, a relation
    interleaves them.  Atomics are sequentially consistent. *)

From S2P Require Import Prelude.

Local Open Scope nat_scope.

(** ** thread_worker *)

Section thread_worker.
Context {T : Type}.   (** tasks *)
Implicit Types t : T.

(** Where a worker is: at the [while (!m_quit)], at the lock of [next_task], at
    the predicate of [wait], about to sleep, asleep, awake and in need of the
    lock, at [if (m_quit)], at [front()], in the task, or at its end. *)
Inductive worker : Type :=
  | at_loop
  | at_lock
  | at_predicate
  | at_sleep
  | asleep
  | awake
  | at_quit
  | at_front
  | in_task (t : T)
  | finished.

(** The destructor: not called, after the store of [m_quit], in the joins, and
    at its end. *)
Inductive destructor : Type := not_called | stored_quit | joining | joined.

Record pool : Type := mk_pool {
  m_quit : bool;
  m_pending_tasks : list T;
  m_lock : option nat;              (** the worker that holds it *)
  m_workers : list worker;
  destroying : destructor;
  inserted : list T;                (** every task that was inserted, *)
  taken : list T;                   (** given to a worker, *)
  ended : list T;                   (** and has returned or thrown *)
}.

(** [thread_worker(workers)] *)
Definition new_pool (workers : nat) : pool :=
  mk_pool false [] None (replicate (Nat.max 1 workers) at_loop) not_called [] [] [].

Definition goto (i : nat) (w : worker) (p : pool) : pool :=
  mk_pool (m_quit p) (m_pending_tasks p) (m_lock p) (<[i := w]> (m_workers p)) (destroying p)
    (inserted p) (taken p) (ended p).
Definition with_lock (l : option nat) (p : pool) : pool :=
  mk_pool (m_quit p) (m_pending_tasks p) l (m_workers p) (destroying p) (inserted p) (taken p) (ended p).
Definition take_lock (i : nat) (w : worker) (p : pool) : option pool :=
  match m_lock p with
  | None => Some (goto i w (with_lock (Some i) p))
  | Some _ => None
  end.
Definition pop_task (t : T) (tasks : list T) (p : pool) : pool :=
  mk_pool (m_quit p) tasks (m_lock p) (m_workers p) (destroying p) (inserted p) (taken p ++ [t]) (ended p).
Definition end_task (t : T) (p : pool) : pool :=
  mk_pool (m_quit p) (m_pending_tasks p) (m_lock p) (m_workers p) (destroying p)
    (inserted p) (taken p) (ended p ++ [t]).

(** The next step of a worker, if it can go on.  Nothing is at [front()] when
    there is no task: the C++ would be undefined. *)
Definition worker_step (i : nat) (p : pool) : option pool :=
  match m_workers p !! i with
  | None => None
  | Some at_loop => Some (goto i (if m_quit p then finished else at_lock) p)
  | Some at_lock => take_lock i at_predicate p
  | Some at_predicate =>
      Some (goto i (if m_quit p || negb (bool_decide (length (m_pending_tasks p) = 0))
                    then at_quit else at_sleep) p)
  | Some at_sleep => Some (goto i asleep (with_lock None p))
  | Some asleep => None
  | Some awake => take_lock i at_predicate p
  | Some at_quit =>
      Some (if m_quit p then goto i at_loop (with_lock None p) else goto i at_front p)
  | Some at_front =>
      match m_pending_tasks p with
      | [] => None
      | t :: tasks => Some (goto i (in_task t) (with_lock None (pop_task t tasks p)))
      end
  | Some (in_task t) => Some (goto i at_loop (end_task t p))
  | Some finished => None
  end.

Definition is_asleep (w : worker) : bool := match w with asleep => true | _ => false end.

(** [insert_task(task)], whose [notify_one] wakes [woken]. *)
Definition insert_task (t : T) (woken : option nat) (p : pool) : pool :=
  let p := mk_pool (m_quit p) (m_pending_tasks p ++ [t]) (m_lock p) (m_workers p) (destroying p)
    (inserted p ++ [t]) (taken p) (ended p) in
  match woken with Some i => goto i awake p | None => p end.
Definition notified (woken : option nat) (p : pool) : Prop :=
  match woken with
  | Some i => m_workers p !! i = Some asleep
  | None => Forall (fun w => is_asleep w = false) (m_workers p)
  end.

(** The store and the [notify_all] of [~thread_worker()], which takes no lock. *)
Definition store_quit (p : pool) : pool :=
  mk_pool true (m_pending_tasks p) (m_lock p) (m_workers p) stored_quit (inserted p) (taken p) (ended p).
Definition wake (w : worker) : worker := if is_asleep w then awake else w.
Definition notify_all (p : pool) : pool :=
  mk_pool (m_quit p) (m_pending_tasks p) (m_lock p) (wake <$> m_workers p) joining
    (inserted p) (taken p) (ended p).
Definition join_all (p : pool) : pool :=
  mk_pool (m_quit p) (m_pending_tasks p) (m_lock p) (m_workers p) joined (inserted p) (taken p) (ended p).

(** A pool is not used once its destructor was called. *)
Inductive step : pool -> pool -> Prop :=
  | step_worker i p p' : worker_step i p = Some p' -> step p p'
  | step_insert t woken p :
      destroying p = not_called -> m_lock p = None -> notified woken p -> step p (insert_task t woken p)
  | step_store p : destroying p = not_called -> step p (store_quit p)
  | step_notify p : destroying p = stored_quit -> step p (notify_all p)
  | step_join p : destroying p = joining -> Forall (eq finished) (m_workers p) -> step p (join_all p).

(** A condition variable may also wake a thread for no reason. *)
Inductive spurious_step : pool -> pool -> Prop :=
  | spurious_wakeup i p : m_workers p !! i = Some asleep -> spurious_step p (goto i awake p).

Definition any_step (p p' : pool) : Prop := step p p' \/ spurious_step p p'.
Definition reachable (workers : nat) (p : pool) : Prop := rtc any_step (new_pool workers) p.

(** ** Its invariant *)

Definition holds_lock (w : worker) : bool :=
  match w with at_predicate | at_sleep | at_quit | at_front => true | _ => false end.
Definition task_of (w : worker) : option T := match w with in_task t => Some t | _ => None end.

(** What a worker knows where it stands. *)
Definition knows (p : pool) (w : worker) : Prop :=
  match w with
  | at_sleep => m_pending_tasks p = []
  | at_quit => m_quit p = true \/ m_pending_tasks p <> []
  | at_front => m_pending_tasks p <> []
  | finished => m_quit p = true
  | _ => True
  end.

Record pool_ok (p : pool) : Prop := {
  ok_lock : forall i w, m_workers p !! i = Some w -> (m_lock p = Some i <-> holds_lock w = true);
  ok_holder : forall i, m_lock p = Some i -> is_Some (m_workers p !! i);
  ok_knows : forall i w, m_workers p !! i = Some w -> knows p w;
  ok_fifo : inserted p = taken p ++ m_pending_tasks p;
  ok_running : taken p ≡ₚ ended p ++ omap task_of (m_workers p);
  ok_awake : destroying p = not_called -> m_pending_tasks p <> [] ->
    exists i w, m_workers p !! i = Some w /\ is_asleep w = false;
  ok_quit : m_quit p = false <-> destroying p = not_called;
  ok_some : m_workers p <> [];
}.

Lemma new_pool_ok n : pool_ok (new_pool n).
Proof.
  split; cbn [new_pool m_workers m_lock m_pending_tasks m_quit taken inserted ended destroying]; try done.
  - intros i w [-> _]%lookup_replicate. done.
  - intros i w [-> _]%lookup_replicate. done.
  - induction (Nat.max 1 n) as [|k IH]; [done|]. exact IH.
  - destruct n; done.
Qed.

Lemma knows_holder p p' w :
  knows p w -> m_quit p' = m_quit p -> (holds_lock w = true -> m_pending_tasks p' = m_pending_tasks p) -> knows p' w.
Proof.
  intros Hk Hq Hp. destruct w; cbn in *; try done; try rewrite Hp by done; try rewrite Hq; done.
Qed.

(** A step of worker [i] from [w] to [w'] keeps the invariant when the tasks are
    kept track of and the worker knows what it has to. *)
Lemma move_ok p p' i w w' :
  pool_ok p -> m_workers p !! i = Some w ->
  m_workers p' = <[i := w']> (m_workers p) -> m_quit p' = m_quit p -> destroying p' = destroying p ->
  m_lock p' = (if holds_lock w' then Some i else if holds_lock w then None else m_lock p) ->
  (holds_lock w' = true -> holds_lock w = true \/ m_lock p = None) ->
  (m_pending_tasks p' = m_pending_tasks p \/ holds_lock w = true) ->
  knows p' w' -> (is_asleep w' = true -> m_pending_tasks p' = []) ->
  inserted p' = taken p' ++ m_pending_tasks p' ->
  taken p' ≡ₚ ended p' ++ omap task_of (m_workers p') ->
  pool_ok p'.
Proof.
  intros Hok Hi Hw Hq Hd Hl Hlock Hpend Hk Hsleep Hfifo Hrun. pose proof (lookup_lt_Some _ _ _ Hi) as Hlen.
  assert (Hfree : m_lock p = None -> holds_lock w = false).
  { intros Hn. destruct (holds_lock w) eqn:Hh; [|done]. apply (ok_lock p Hok i w Hi) in Hh. congruence. }
  assert (Hmine : holds_lock w = true -> m_lock p = Some i) by apply (ok_lock p Hok i w Hi).
  split; try done.
  - intros j v. rewrite Hw, Hl. intros [(-> & <- & _)|[Hne Hj]]%list_lookup_insert_Some.
    + destruct (holds_lock w') eqn:H'; [done|]. destruct (holds_lock w) eqn:H; [done|].
      rewrite (ok_lock p Hok j w Hi), H. done.
    + pose proof (ok_lock p Hok j v Hj) as Hjv.
      destruct (holds_lock w') eqn:H'; [|destruct (holds_lock w) eqn:H; [|done]].
      * split; [congruence|]. intros Hv%Hjv. destruct (Hlock eq_refl) as [Hh|Hh]; [|congruence].
        rewrite (Hmine Hh) in Hv. congruence.
      * split; [done|]. intros Hv%Hjv. rewrite (Hmine eq_refl) in Hv. congruence.
  - intros j. rewrite Hw, Hl. intros Hj. destruct (decide (j = i)) as [->|Hne].
    + rewrite list_lookup_insert_eq by done. eauto.
    + rewrite list_lookup_insert_ne by done. destruct (holds_lock w'); [congruence|].
      destruct (holds_lock w); [done|]. by apply (ok_holder p Hok).
  - intros j v. rewrite Hw. intros [(-> & <- & _)|[Hne Hj]]%list_lookup_insert_Some; [done|].
    apply (knows_holder p); [by eapply (ok_knows p Hok)|done|]. intros Hv.
    destruct Hpend as [|Hh]; [done|]. apply (ok_lock p Hok j v Hj) in Hv. rewrite (Hmine Hh) in Hv. congruence.
  - rewrite Hd, Hw. intros Hnc Hne. exists i, w'. rewrite list_lookup_insert_eq by done. split; [done|].
    destruct (is_asleep w'); [by rewrite Hsleep in Hne|done].
  - rewrite Hq, Hd. apply (ok_quit p Hok).
  - rewrite Hw. intros Hnil%(f_equal length). rewrite length_insert in Hnil. cbn in Hnil. lia.
Qed.

Lemma omap_insert l i w w' :
  l !! i = Some w ->
  option_list (task_of w) ++ omap task_of (<[i := w']> l) ≡ₚ option_list (task_of w') ++ omap task_of l.
Proof.
  intros Hi. rewrite insert_take_drop by (by eapply lookup_lt_Some). rewrite <- (take_drop_middle l i w Hi) at 3.
  rewrite !omap_app. cbn [omap list_omap]. destruct (task_of w), (task_of w'); cbn [option_list app];
    rewrite <- ?Permutation_middle; try done. constructor.
Qed.

Lemma idle_insert l i w w' :
  l !! i = Some w -> task_of w = None -> task_of w' = None -> omap task_of (<[i := w']> l) ≡ₚ omap task_of l.
Proof. intros Hi Hw Hw'. pose proof (omap_insert l i w w' Hi) as H. by rewrite Hw, Hw' in H. Qed.

Ltac moves H Hw :=
  eapply (move_ok _ _ _ _ _ H Hw); try reflexivity;
  cbn [goto with_lock pop_task end_task m_quit m_pending_tasks m_lock m_workers inserted taken ended holds_lock is_asleep knows];
  try done; try (by left); try (by right); try apply (ok_fifo _ H);
  try (by apply (ok_lock _ H _ _ Hw));
  try (rewrite (idle_insert _ _ _ _ Hw) by done; apply (ok_running _ H)).

Lemma take_lock_ok p p' i w :
  pool_ok p -> m_workers p !! i = Some w -> task_of w = None -> holds_lock w = false ->
  take_lock i at_predicate p = Some p' -> pool_ok p'.
Proof.
  unfold take_lock. intros Hok Hw Ht Hh. destruct (m_lock p) eqn:Hl; [done|]. intros [= <-].
  moves Hok Hw.
Qed.

Lemma worker_step_ok i p p' : worker_step i p = Some p' -> pool_ok p -> pool_ok p'.
Proof.
  unfold worker_step. intros Hs Hok. destruct (m_workers p !! i) as [w|] eqn:Hw; [|done].
  pose proof (ok_knows p Hok i w Hw) as Hk.
  destruct w; cbn [knows] in Hk; try done; try (injection Hs as <-).
  - destruct (m_quit p) eqn:Hq; moves Hok Hw; by rewrite ?Hq.
  - by eapply take_lock_ok.
  - destruct (m_quit p) eqn:Hq; cbn [orb]; [moves Hok Hw; by left|].
    case_bool_decide as Hz; cbn [negb]; moves Hok Hw; [by apply nil_length_inv|].
    right. intros Hnil. by rewrite Hnil in Hz.
  - moves Hok Hw.
  - by eapply take_lock_ok.
  - destruct (m_quit p) eqn:Hq; moves Hok Hw; destruct Hk; congruence || done.
  - destruct (m_pending_tasks p) as [|t ts] eqn:Hp; [done|]. injection Hs as <-. moves Hok Hw.
    + rewrite <- app_assoc. cbn. rewrite <- Hp. apply (ok_fifo p Hok).
    + rewrite (omap_insert (m_workers p) i at_front (in_task t) Hw : omap task_of _ ≡ₚ _). cbn [option_list task_of app].
      rewrite (ok_running p Hok). solve_Permutation.
  - moves Hok Hw. pose proof (omap_insert (m_workers p) i (in_task t) at_loop Hw) as Ho.
    cbn [option_list task_of app] in Ho. rewrite <- app_assoc. cbn [app]. rewrite Ho. apply (ok_running p Hok).
Qed.

Lemma spurious_ok p p' : spurious_step p p' -> pool_ok p -> pool_ok p'.
Proof. intros [i q Hw] Hok. moves Hok Hw. Qed.

(** Nobody holds the lock: a new task changes nothing a worker knows. *)
Lemma free_holds p i w : pool_ok p -> m_lock p = None -> m_workers p !! i = Some w -> holds_lock w = false.
Proof.
  intros Hok Hl Hw. destruct (holds_lock w) eqn:Hh; [|done]. apply (ok_lock p Hok i w Hw) in Hh. congruence.
Qed.

Lemma insert_ok t woken p :
  destroying p = not_called -> m_lock p = None -> notified woken p -> pool_ok p -> pool_ok (insert_task t woken p).
Proof.
  intros Hd Hl Hn Hok.
  set (workers := m_workers (insert_task t woken p)).
  assert (Hlook : forall j v, workers !! j = Some v -> holds_lock v = false /\ knows (insert_task t woken p) v).
  { intros j v Hj. assert (Hj' : v = awake \/ m_workers p !! j = Some v).
    { destruct woken as [i|]; [|by right]. apply list_lookup_insert_Some in Hj as [(_ & <- & _)|[_ ?]]; auto. }
    destruct Hj' as [->|Hj']; [done|]. pose proof (free_holds p j v Hok Hl Hj') as Hf. split; [done|].
    apply (knows_holder p); [by eapply (ok_knows p Hok)|by destruct woken|congruence]. }
  assert (Hlock : m_lock (insert_task t woken p) = None) by (by destruct woken).
  split.
  - intros j v Hj. rewrite Hlock. destruct (Hlook j v Hj) as [-> _]. done.
  - intros j. by rewrite Hlock.
  - intros j v Hj. by apply Hlook with j.
  - transitivity (inserted p ++ [t]); [by destruct woken|]. rewrite (ok_fifo p Hok), <- app_assoc. by destruct woken.
  - destruct woken as [i|]; cbn; [rewrite (idle_insert _ _ _ _ Hn) by done|]; apply (ok_running p Hok).
  - intros _ _. destruct woken as [i|]; cbn.
    + exists i, awake. rewrite list_lookup_insert_eq; [done|]. by eapply lookup_lt_Some.
    + pose proof (ok_some p Hok). unfold notified in Hn. destruct (m_workers p) as [|w ws]; [done|].
      exists 0, w. split; [done|]. by apply Forall_cons in Hn as [Hn _].
  - transitivity (m_quit p = false); [by destruct woken|]. rewrite (ok_quit p Hok). by destruct woken.
  - destruct woken as [i|]; cbn; [|by apply ok_some]. intros Hnil%(f_equal length).
    rewrite length_insert in Hnil. apply (ok_some p Hok). by apply nil_length_inv.
Qed.

Lemma store_ok p : pool_ok p -> pool_ok (store_quit p).
Proof.
  intros Hok. split; cbn; try apply Hok; try done.
  intros i w Hw. pose proof (ok_knows p Hok i w Hw). by destruct w; cbn in *; try done; left.
Qed.

Lemma omap_wake (l : list worker) : omap task_of (wake <$> l) = omap task_of l.
Proof. induction l as [|w l IH]; [done|]. rewrite fmap_cons. destruct w; try exact IH. exact (f_equal (cons t) IH). Qed.

Lemma notify_ok p : destroying p = stored_quit -> pool_ok p -> pool_ok (notify_all p).
Proof.
  intros Hd Hok.
  assert (Hlook : forall i w', (wake <$> m_workers p) !! i = Some w' ->
    exists w, m_workers p !! i = Some w /\ holds_lock w' = holds_lock w /\ (knows p w -> knows (notify_all p) w')).
  { intros i w' (w & -> & Hw)%list_lookup_fmap_Some. exists w. split; [done|]. by destruct w. }
  split; cbn; try apply Hok; try done.
  - intros i w' (w & Hw & -> & _)%Hlook. by apply ok_lock.
  - intros i Hi. rewrite list_lookup_fmap, fmap_is_Some. by apply ok_holder.
  - intros i w' (w & Hw & _ & Hk)%Hlook. apply Hk. by apply (ok_knows p Hok i).
  - rewrite omap_wake. apply (ok_running p Hok).
  - split; [|done]. intros Hq%(ok_quit p Hok). congruence.
  - intros Hnil%fmap_nil_inv. by apply (ok_some p Hok).
Qed.

Lemma join_ok p : destroying p = joining -> pool_ok p -> pool_ok (join_all p).
Proof.
  intros Hd Hok. split; cbn; try apply Hok; try done.
  split; [|done]. intros Hq%(ok_quit p Hok). congruence.
Qed.

Lemma any_step_ok p p' : any_step p p' -> pool_ok p -> pool_ok p'.
Proof.
  intros [[]|]; eauto using worker_step_ok, insert_ok, store_ok, notify_ok, join_ok, spurious_ok.
Qed.

Lemma reachable_ok n p : reachable n p -> pool_ok p.
Proof.
  intros H. unfold reachable in H. pose proof (new_pool_ok n) as Hok.
  induction H; eauto using any_step_ok.
Qed.

(** Steps of one worker alone. *)
Definition alone (i : nat) (p p' : pool) : Prop := worker_step i p = Some p'.

(** A pool in which [i], and nobody else, may be given the next task. *)
Record serving (i : nat) (t : T) (ts : list T) (p : pool) : Prop := {
  sv_quit : m_quit p = false;
  sv_tasks : m_pending_tasks p = t :: ts;
  sv_lock : forall w, m_workers p !! i = Some w -> holds_lock w = false -> m_lock p = None;
}.

(** How far a worker is from the front of the queue. *)
Definition distance (w : worker) : option nat :=
  match w with
  | at_front => Some 0
  | at_quit => Some 1
  | at_predicate => Some 2
  | at_lock | awake => Some 3
  | at_loop => Some 4
  | in_task _ => Some 5
  | at_sleep | asleep | finished => None
  end.

Lemma distance_lock w d : distance w = Some d -> holds_lock w = true <-> d <= 2.
Proof. destruct w; intros [= <-]; cbn; (split; [lia||done|]); done || lia. Qed.

Lemma closer i t ts p w d :
  serving i t ts p -> m_workers p !! i = Some w -> distance w = Some (S d) ->
  exists p' w', worker_step i p = Some p' /\ serving i t ts p' /\ taken p' = taken p /\
    m_workers p' !! i = Some w' /\ distance w' = Some d.
Proof.
  intros [Hq Ht Hl] Hw Hd. pose proof (lookup_lt_Some _ _ _ Hw) as Hlen. specialize (Hl w Hw).
  assert (Hat : forall w', <[i := w']> (m_workers p) !! i = Some w') by (intros; by apply list_lookup_insert_eq).
  unfold worker_step, take_lock. rewrite Hw, ?Hq, ?Ht.
  destruct w; try done; injection Hd as <-; try rewrite Hl by done.
  all: eexists _, _; split_and!; [reflexivity| |done|apply Hat|done].
  all: split; cbn; try done; intros w' Hw'; rewrite Hat in Hw'; injection Hw' as <-; cbn; done || by rewrite Hl.
Qed.

Lemma serving_takes i t ts p w d :
  serving i t ts p -> m_workers p !! i = Some w -> distance w = Some d ->
  exists p', rtc (alone i) p p' /\ taken p' = taken p ++ [t].
Proof.
  revert p w. induction d as [|d IH]; intros p w Hs Hw Hd.
  - destruct w; try done. eexists. split; [apply rtc_once; unfold alone, worker_step; rewrite Hw, (sv_tasks _ _ _ _ Hs); reflexivity|].
    reflexivity.
  - destruct (closer i t ts p w d Hs Hw Hd) as (p1 & w1 & Hstep & Hs1 & Htk & Hw1 & Hd1).
    destruct (IH p1 w1 Hs1 Hw1 Hd1) as (p' & Hrun & Htaken). exists p'. rewrite <- Htk.
    split; [|done]. by eapply rtc_l.
Qed.

(** While the queue is not empty, the holder of the lock or, when it is free,
    some worker that is awake is on its way to the front. *)
Lemma somebody_serves p t ts :
  pool_ok p -> destroying p = not_called -> m_pending_tasks p = t :: ts ->
  exists i w d, serving i t ts p /\ m_workers p !! i = Some w /\ distance w = Some d.
Proof.
  intros Hok Hd Ht. pose proof (proj2 (ok_quit p Hok) Hd) as Hq.
  assert (Hgo : forall i w, m_workers p !! i = Some w -> is_asleep w = false -> is_Some (distance w)).
  { intros i w Hw Ha. pose proof (ok_knows p Hok i w Hw) as Hk. destruct w; cbn in *; try done; congruence. }
  destruct (m_lock p) as [j|] eqn:Hl.
  - destruct (ok_holder p Hok j Hl) as [w Hw]. pose proof (proj1 (ok_lock p Hok j w Hw) Hl) as Hh.
    destruct (Hgo j w Hw) as [d Hdist]; [by destruct w|]. exists j, w, d. split_and!; try done.
    split; try done. intros w' Hw' Hf. simplify_eq. congruence.
  - destruct (ok_awake p Hok Hd) as (i & w & Hw & Ha); [by rewrite Ht|].
    destruct (Hgo i w Hw Ha) as [d Hdist]. exists i, w, d. split_and!; done.
Qed.

(** C33: In every interleaving of a thread_worker, with spurious wakeups, tasks
    leave the queue in the order they came, each is run by one worker and
    at most once, only one worker is in the critical section and none
    takes the front of an empty queue. *)
Theorem thread_worker_runs_each_task_once n p :
  reachable n p ->
  inserted p = taken p ++ m_pending_tasks p /\
  taken p ≡ₚ ended p ++ omap task_of (m_workers p) /\
  (forall i j w w', m_workers p !! i = Some w -> m_workers p !! j = Some w' ->
     holds_lock w = true -> holds_lock w' = true -> i = j) /\
  (forall i, m_workers p !! i = Some at_front -> m_pending_tasks p <> []).
Proof.
  intros Hr. pose proof (reachable_ok n p Hr) as Hok. split_and!; [apply Hok|apply Hok| |].
  - intros i j w w' Hw Hw' Hh%(ok_lock p Hok i w Hw) Hh'%(ok_lock p Hok j w' Hw'). congruence.
  - intros i Hi. exact (ok_knows p Hok i at_front Hi).
Qed.

(** C34: Until the destructor is called, no notification is lost: whenever a task
    waits, some worker can take the next one by steps of its own. *)
Theorem thread_worker_strands_no_task n p t ts :
  reachable n p -> destroying p = not_called -> m_pending_tasks p = t :: ts ->
  exists i p', rtc (alone i) p p' /\ taken p' = taken p ++ [t].
Proof.
  intros Hr Hd Ht. pose proof (reachable_ok n p Hr) as Hok.
  destruct (somebody_serves p t ts Hok Hd Ht) as (i & w & d & Hs & Hw & Hdist).
  exists i. by eapply serving_takes.
Qed.

(** The destructor stores m_quit without the lock: when that falls between the
    predicate of a worker and its sleep, the worker sleeps for ever and the
    join never returns. *)
Theorem thread_worker_destructor_hangs :
  exists p, rtc step (new_pool 1) p /\ destroying p = joining /\ m_workers p = [asleep] /\
    forall p', ~ step p p'.
Proof.
  exists (mk_pool true [] None [asleep] joining [] [] []). split_and!; try done.
  - do 3 (eapply rtc_l; [by apply (step_worker 0)|]).
    eapply rtc_l; [by apply step_store|]. eapply rtc_l; [by apply step_notify|].
    apply rtc_once. by apply (step_worker 0).
  - intros p' Hs. inversion Hs as [i q q' Hw|t woken q Hd|q Hd|q Hd|q Hd Hall]; subst; try done.
    + by destruct i.
    + by inversion Hall.
Qed.
End thread_worker.

(** Two workers: one has the task 7 in hand, the other one sleeps. *)
Definition sample_pool : pool :=
  mk_pool false [9] None [awake; in_task 7] not_called [7; 9] [7] [].

(** A schedule of the workers. *)
Fixpoint run_workers {T} (order : list nat) (p : @pool T) : option (@pool T) :=
  match order with
  | [] => Some p
  | i :: order' => worker_step i p ≫= run_workers order'
  end.

Lemma run_workers_steps {T} order (p p' : @pool T) : run_workers order p = Some p' -> rtc any_step p p'.
Proof.
  revert p. induction order as [|i order IH]; intros p; cbn [run_workers]; [intros [= ->]; apply rtc_refl|].
  destruct (worker_step i p) as [q|] eqn:Hs; [|done]. cbn [mbind option_bind]. intros Hrun.
  eapply rtc_l; [left; by eapply step_worker|by apply IH].
Qed.

Lemma sample_pool_reachable : reachable 2 sample_pool.
Proof.
  unfold reachable. etrans; [apply (run_workers_steps [0; 0; 0; 0; 1] _ (mk_pool false [] None [asleep; at_lock] not_called [] [] []));
    vm_compute; reflexivity|].
  eapply rtc_l; [left; by apply (step_insert 7 (Some 0))|].
  etrans; [apply (run_workers_steps [1; 1; 1; 1; 0; 0; 0] _
    (mk_pool false [] None [asleep; in_task 7] not_called [7] [7] [])); vm_compute; reflexivity|].
  apply rtc_once. left. by apply (step_insert 9 (Some 0)).
Qed.

Lemma thread_worker_runs_each_task_once_witness :
  inserted sample_pool = taken sample_pool ++ [9] /\ taken sample_pool ≡ₚ [7].
Proof.
  destruct (thread_worker_runs_each_task_once 2 sample_pool sample_pool_reachable) as (H1 & H2 & _).
  split; [exact H1|exact H2].
Defined.

Lemma thread_worker_strands_no_task_witness :
  exists i p', rtc (alone i) sample_pool p' /\ taken p' = [7; 9].
Proof.
  apply (thread_worker_strands_no_task 2 sample_pool 9 []); [apply sample_pool_reachable|reflexivity..].
Defined.

(** ** spin_lock *)

Module SpinLock.

(** Outside, at the [test_and_set] of [lock], at the [test] it spins on, at the
    [test_and_set] of [try_lock], and between a lock and its unlock. *)
Inductive thread : Type := outside | locking | spinning | trying | inside.

Record spin_lock : Type := mk_spin_lock {
  m_lock : bool;
  threads : list thread;
}.

(** One step of a thread in [lock], [try_lock] or [unlock]. *)
Definition lock_step (i : nat) (s : spin_lock) : option spin_lock :=
  let goto t := mk_spin_lock (m_lock s) (<[i := t]> (threads s)) in
  let set flag t := mk_spin_lock flag (<[i := t]> (threads s)) in
  match threads s !! i with
  | Some locking => Some (if m_lock s then goto spinning else set true inside)
  | Some spinning => Some (if m_lock s then s else goto locking)
  | Some trying => Some (if m_lock s then goto outside else set true inside)
  | Some inside => Some (set false outside)
  | Some outside | None => None
  end.

Inductive step : spin_lock -> spin_lock -> Prop :=
  | step_thread i s s' : lock_step i s = Some s' -> step s s'
  | step_lock i s : threads s !! i = Some outside ->
      step s (mk_spin_lock (m_lock s) (<[i := locking]> (threads s)))
  | step_try_lock i s : threads s !! i = Some outside ->
      step s (mk_spin_lock (m_lock s) (<[i := trying]> (threads s))).

Definition unlocked (n : nat) : spin_lock := mk_spin_lock false (replicate n outside).

(** Who is inside: one thread when the flag is set, none when it is not. *)
Definition owned (s : spin_lock) : Prop :=
  if m_lock s then exists i, threads s !! i = Some inside /\ forall j, threads s !! j = Some inside -> j = i
  else forall j, threads s !! j <> Some inside.

Lemma inside_insert (l : list thread) i t j :
  t <> inside -> <[i := t]> l !! j = Some inside -> l !! j = Some inside /\ j <> i.
Proof. intros Ht [(_ & ? & _)|[Hne Hj]]%list_lookup_insert_Some; [done|]. done. Qed.

Lemma owned_move s i t t' :
  owned s -> threads s !! i = Some t -> t <> inside -> t' <> inside ->
  owned (mk_spin_lock (m_lock s) (<[i := t']> (threads s))).
Proof.
  unfold owned. cbn. intros Ho Hi Ht Ht'. destruct (m_lock s).
  - destruct Ho as (k & Hk & Hu). exists k. split.
    + rewrite list_lookup_insert_ne; [done|]. intros ->. congruence.
    + intros j [Hj _]%inside_insert; [|done]. by apply Hu.
  - intros j [Hj _]%inside_insert; [|done]. by apply Ho in Hj.
Qed.

Lemma owned_enter s i t :
  owned s -> threads s !! i = Some t -> m_lock s = false ->
  owned (mk_spin_lock true (<[i := inside]> (threads s))).
Proof.
  unfold owned. cbn. intros Ho Hi Hf. rewrite Hf in Ho. exists i. split.
  - apply list_lookup_insert_eq. by eapply lookup_lt_Some.
  - intros j [(-> & _)|[_ Hj]]%list_lookup_insert_Some; [done|]. by apply Ho in Hj.
Qed.

Lemma owned_leave s i :
  owned s -> threads s !! i = Some inside -> owned (mk_spin_lock false (<[i := outside]> (threads s))).
Proof.
  unfold owned. cbn. intros Ho Hi. destruct (m_lock s); [|by apply Ho in Hi].
  destruct Ho as (k & _ & Hu). intros j [Hj Hne]%inside_insert; [|done].
  apply Hne. by rewrite (Hu i Hi), (Hu j Hj).
Qed.

Lemma step_owned s s' : step s s' -> owned s -> owned s'.
Proof.
  intros [i q q' Hs|i q Hi|i q Hi] Ho; [|by eapply owned_move..].
  unfold lock_step in Hs. destruct (threads q !! i) as [t|] eqn:Hi; [|done].
  pose proof (fun t' => owned_move q i t t' Ho Hi) as Hmove.
  destruct t; try done; injection Hs as <-; [destruct (m_lock q) eqn:Hf..|by apply owned_leave].
  all: done || (by eapply owned_enter) || by apply Hmove.
Qed.

(** At most one thread is between lock and unlock of a spin_lock, the flag says
    whether there is one, and when it is clear the next lock or try_lock
    succeeds at once. *)
Theorem spin_lock_excludes n s :
  rtc step (unlocked n) s ->
  (forall i j, threads s !! i = Some inside -> threads s !! j = Some inside -> i = j) /\
  (m_lock s = true <-> exists i, threads s !! i = Some inside) /\
  (forall i t, m_lock s = false -> threads s !! i = Some t -> t = locking \/ t = trying ->
     exists s', lock_step i s = Some s' /\ threads s' !! i = Some inside).
Proof.
  intros Hr. assert (Ho : owned s).
  { assert (Hn : owned (unlocked n)) by by intros j [? _]%lookup_replicate.
    induction Hr; eauto using step_owned. }
  unfold owned in Ho. split_and!.
  - intros i j Hi Hj. destruct (m_lock s); [|by apply Ho in Hi]. destruct Ho as (k & _ & Hu).
    by rewrite (Hu i Hi), (Hu j Hj).
  - destruct (m_lock s); [split; [naive_solver|done]|]. split; [done|]. intros [i Hi]. by apply Ho in Hi.
  - intros i t Hf Hi Ht. unfold lock_step. rewrite Hi, Hf. eexists. split; [by destruct Ht as [-> | ->]|].
    cbn. apply list_lookup_insert_eq. by eapply lookup_lt_Some.
Qed.
End SpinLock.

Lemma spin_lock_excludes_witness :
  exists s, rtc SpinLock.step (SpinLock.unlocked 2) s /\
    SpinLock.threads s = [SpinLock.inside; SpinLock.spinning] /\
    (SpinLock.m_lock s = true <-> exists i, SpinLock.threads s !! i = Some SpinLock.inside).
Proof.
  exists (SpinLock.mk_spin_lock true [SpinLock.inside; SpinLock.spinning]).
  assert (Hr : rtc SpinLock.step (SpinLock.unlocked 2)
    (SpinLock.mk_spin_lock true [SpinLock.inside; SpinLock.spinning])).
  { eapply rtc_l; [by apply (SpinLock.step_lock 0)|]. eapply rtc_l; [by apply (SpinLock.step_lock 1)|].
    eapply rtc_l; [by apply (SpinLock.step_thread 0)|]. apply rtc_once. by apply (SpinLock.step_thread 1). }
  split_and!; [exact Hr|reflexivity|]. apply (SpinLock.spin_lock_excludes 2 _ Hr).
Defined.
