(* ===== verification/SimpleTimer.v ===== *)
(** * simple_timer (utils.h)

    The thread of the timer and the thread that destroys it, interleaved at
    their accesses to [m_quit] and to the condition variable.  Time is a state:
    any amount of it may pass between two steps.  Only the thread of the timer
    ever takes [m_lock], so the lock never waits and is left out; the callback
    returns. *)

From S2P Require Import Prelude.

Local Open Scope Z_scope.

(** ** The two threads *)

(** Where the thread of the timer is: at [wait_for], and inside it, with the
    deadline it waits for, at the predicate, about to block, blocked, awake
    before the deadline or at it; in the callback; at [if (single_shot)]; at its
    end. *)
Inductive timer_pc : Type :=
  | at_wait
  | at_pred (deadline : Z)
  | at_block (deadline : Z)
  | blocked (deadline : Z)
  | woken (deadline : Z)
  | timed_out (deadline : Z)
  | in_callback
  | after_callback
  | ended.

(** [~simple_timer]: not called, after the store, after the notification, and
    after the join. *)
Inductive destroying : Type := alive | quit_stored | joining | gone.

Record simple_timer : Type := mk_timer {
  m_quit : bool;
  m_thread : timer_pc;
  destructor : destroying;
  now : Z;
  calls : list Z;          (** when the callback was called, the last call first *)
}.

Section simple_timer.
Variables (timeout : Z) (single_shot : bool).

Definition new_timer (start : Z) : simple_timer := mk_timer false at_wait alive start [].

Definition goto (pc : timer_pc) (t : simple_timer) : simple_timer :=
  mk_timer (m_quit t) pc (destructor t) (now t) (calls t).

(** [callback()] *)
Definition call_back (t : simple_timer) : simple_timer :=
  mk_timer (m_quit t) in_callback (destructor t) (now t) (now t :: calls t).

(** The next step of the thread, if it can go on.  [wait_for] is
    [while (!pred()) if (wait_until(deadline) == timeout) return pred(); return true;] *)
Definition timer_step (t : simple_timer) : option simple_timer :=
  match m_thread t with
  | at_wait => Some (goto (at_pred (now t + timeout)) t)
  | at_pred d => Some (goto (if m_quit t then ended else at_block d) t)
  | at_block d => Some (goto (blocked d) t)
  | blocked d => if d <=? now t then Some (goto (timed_out d) t) else None
  | woken d => Some (goto (at_pred d) t)
  | timed_out _ => Some (if m_quit t then goto ended t else call_back t)
  | in_callback => Some (goto after_callback t)
  | after_callback =>
      Some (mk_timer (single_shot || m_quit t) at_wait (destructor t) (now t) (calls t))
  | ended => None
  end.

(** A notification, or a wakeup for no reason. *)
Definition wake (pc : timer_pc) : timer_pc := match pc with blocked d => woken d | _ => pc end.

Definition store_quit (t : simple_timer) : simple_timer :=
  mk_timer true (m_thread t) quit_stored (now t) (calls t).
Definition notify_one (t : simple_timer) : simple_timer :=
  mk_timer (m_quit t) (wake (m_thread t)) joining (now t) (calls t).
Definition join (t : simple_timer) : simple_timer :=
  mk_timer (m_quit t) (m_thread t) gone (now t) (calls t).

Inductive step : simple_timer -> simple_timer -> Prop :=
  | step_thread t t' : timer_step t = Some t' -> step t t'
  | step_time t dt : 0 < dt -> step t (mk_timer (m_quit t) (m_thread t) (destructor t) (now t + dt) (calls t))
  | step_store t : destructor t = alive -> step t (store_quit t)
  | step_notify t : destructor t = quit_stored -> step t (notify_one t)
  | step_join t : destructor t = joining -> m_thread t = ended -> step t (join t).

(** A condition variable may also wake a thread for no reason. *)
Inductive spurious_step : simple_timer -> simple_timer -> Prop :=
  | spurious_wakeup t : spurious_step t (goto (wake (m_thread t)) t).

Definition any_step (t t' : simple_timer) : Prop := step t t' \/ spurious_step t t'.
Definition reachable (start : Z) (t : simple_timer) : Prop := rtc any_step (new_timer start) t.

(** ** Its invariant *)

(** The deadline the thread waits for, which it set at its last call or later. *)
Definition deadline (pc : timer_pc) : option Z :=
  match pc with
  | at_pred d | at_block d | blocked d | woken d | timed_out d => Some d
  | _ => None
  end.

(** When the thread may have begun to wait: after its last call. *)
Definition last_call (start : Z) (t : simple_timer) : Z := match calls t with [] => start | c :: _ => c end.

Fixpoint spaced (start : Z) (cs : list Z) : Prop :=
  match cs with
  | [] => True
  | c :: cs' => match cs' with [] => start | c' :: _ => c' end + timeout <= c /\ spaced start cs'
  end.

Record well_timed (start : Z) (t : simple_timer) : Prop := {
  wt_deadline d : deadline (m_thread t) = Some d -> last_call start t + timeout <= d;
  wt_passed d : m_thread t = timed_out d -> d <= now t;
  wt_now : last_call start t <= now t;
  wt_spaced : spaced start (calls t);
  wt_single : single_shot = true -> calls t <> [] ->
    length (calls t) = 1%nat /\ (m_quit t = true \/ m_thread t = in_callback \/ m_thread t = after_callback);
  wt_quit : destructor t <> alive -> m_quit t = true;
  wt_gone : destructor t = gone -> m_thread t = ended;
  wt_ended : m_thread t = ended -> m_quit t = true;
}.

Lemma new_timer_well_timed start : well_timed start (new_timer start).
Proof. by split; cbn; try lia. Qed.

(** A step that keeps the calls and lets no time run backwards. *)
Lemma well_timed_quiet start t q pc dst n :
  well_timed start t -> now t <= n ->
  (m_quit t = true -> q = true) ->
  (dst <> alive -> q = true) -> (dst = gone -> pc = ended) -> (pc = ended -> q = true) ->
  (forall d, deadline pc = Some d -> last_call start t + timeout <= d) ->
  (forall d, pc = timed_out d -> d <= n) ->
  (single_shot = true -> calls t <> [] -> q = true \/ pc = in_callback \/ pc = after_callback) ->
  well_timed start (mk_timer q pc dst n (calls t)).
Proof.
  intros Ht Hn Hq Hd Hg He Hdl Hp Hs. split; cbn [m_quit m_thread destructor now calls]; try done.
  - etrans; [apply (wt_now _ _ Ht)|done].
  - apply Ht.
  - intros H1 H2. split; [by apply Ht|by apply Hs].
Qed.

(** The thread goes on, without a call: it is at its end only after [m_quit],
    its deadline is far enough, and after a single shot there is nothing but the
    end. *)
Lemma well_timed_goto start t pc :
  well_timed start t -> m_thread t <> ended -> (pc = ended -> m_quit t = true) ->
  (forall d, deadline pc = Some d -> last_call start t + timeout <= d) ->
  (forall d, pc = timed_out d -> d <= now t) ->
  (m_thread t = in_callback -> pc = after_callback) -> m_thread t <> after_callback ->
  well_timed start (goto pc t).
Proof.
  intros Ht Hne He Hd Hp Hc Ha. apply well_timed_quiet; try done; [apply Ht| |].
  - intros Hg%(wt_gone _ _ Ht). done.
  - intros H1 H2. destruct (wt_single _ _ Ht H1 H2) as [_ [?|[?|?]]]; [by left|right; right; auto|done].
Qed.

Lemma well_timed_call start t d :
  0 <= timeout -> well_timed start t -> m_thread t = timed_out d -> m_quit t = false ->
  well_timed start (call_back t).
Proof.
  intros Hto Ht Hpc Hq. pose proof (wt_passed _ _ Ht d Hpc) as Hp.
  assert (Hd : last_call start t + timeout <= d) by (apply (wt_deadline _ _ Ht); by rewrite Hpc).
  split; cbn [m_quit m_thread destructor now calls call_back deadline last_call]; try done.
  - split; [unfold last_call in Hd; lia|apply Ht].
  - intros Hs _. split; [|by right; left]. destruct (calls t) as [|c cs] eqn:Hc; [done|].
    destruct (wt_single _ _ Ht Hs) as [_ Hno]; [by rewrite Hc|]. rewrite Hpc in Hno. 
    destruct Hno as [?|[?|?]]; congruence.
  - intros Ha%(wt_quit _ _ Ht). congruence.
  - intros Hg%(wt_gone _ _ Ht). congruence.
Qed.

Lemma timer_step_well_timed start t t' :
  0 <= timeout -> well_timed start t -> timer_step t = Some t' -> well_timed start t'.
Proof.
  intros Hto Ht. pose proof (wt_now _ _ Ht) as Hn. pose proof (wt_deadline _ _ Ht) as Hd.
  unfold timer_step. destruct (m_thread t) as [|d|d|d|d|d| | |] eqn:Hpc; try done.
  - intros [= <-]. apply well_timed_goto; rewrite ?Hpc; try done. cbn. intros d [= <-]. lia.
  - intros [= <-]. destruct (m_quit t) eqn:Hq; apply well_timed_goto; rewrite ?Hpc; done.
  - intros [= <-]. apply well_timed_goto; rewrite ?Hpc; done.
  - destruct (Z.leb_spec d (now t)); [|done]. intros [= <-].
    apply well_timed_goto; rewrite ?Hpc; try done. by intros d' [= <-].
  - intros [= <-]. apply well_timed_goto; rewrite ?Hpc; done.
  - destruct (m_quit t) eqn:Hq; intros [= <-]; [|by eapply well_timed_call].
    apply well_timed_goto; rewrite ?Hpc; done.
  - intros [= <-]. apply well_timed_goto; rewrite ?Hpc; done.
  - intros [= <-]. apply well_timed_quiet; try done.
    + intros ->. apply orb_true_r.
    + intros ->%(wt_quit _ _ Ht). apply orb_true_r.
    + intros Hg%(wt_gone _ _ Ht). congruence.
    + intros -> _. by left.
Qed.

Lemma wake_ended pc : wake pc = ended -> pc = ended.
Proof. by destruct pc. Qed.
Lemma deadline_wake pc : deadline (wake pc) = deadline pc.
Proof. by destruct pc. Qed.
Lemma wake_timed_out pc d : wake pc = timed_out d -> pc = timed_out d.
Proof. by destruct pc. Qed.
Lemma wake_callback pc : pc = in_callback \/ pc = after_callback -> wake pc = pc.
Proof. by intros [->| ->]. Qed.

Lemma well_timed_wake start t dst :
  well_timed start t -> (dst <> alive -> m_quit t = true) -> (dst = gone -> m_thread t = ended) ->
  well_timed start (mk_timer (m_quit t) (wake (m_thread t)) dst (now t) (calls t)).
Proof.
  intros Ht Hq Hg. apply well_timed_quiet; try done.
  - by intros ->%Hg.
  - intros ?%wake_ended. by apply (wt_ended _ _ Ht).
  - rewrite deadline_wake. apply Ht.
  - intros d ?%wake_timed_out. by apply (wt_passed _ _ Ht).
  - intros H1 H2. destruct (wt_single _ _ Ht H1 H2) as [_ [?|Hc]]; [by left|right].
    by rewrite wake_callback.
Qed.

Lemma step_well_timed start t t' : 0 <= timeout -> well_timed start t -> any_step t t' -> well_timed start t'.
Proof.
  intros Hto Ht [Hst|Hst]; [|destruct Hst; apply well_timed_wake; [done|apply Ht..]].
  destruct Hst as [u u' Hst|u dt Hdt|u Hal|u Hal|u Hj He].
  - by eapply timer_step_well_timed.
  - apply well_timed_quiet; try done; [lia|apply Ht..| |].
    + intros d Hd%(wt_passed _ _ Ht). lia.
    + intros H1 H2. by apply (wt_single _ _ Ht).
  - apply well_timed_quiet; try done; [apply Ht..|]. intros _ _. by left.
  - apply well_timed_wake; [done|intros _; apply (wt_quit _ _ Ht); by rewrite Hal|done].
  - apply well_timed_quiet; try done; [|apply Ht..|].
    + intros _. by apply (wt_ended _ _ Ht).
    + intros H1 H2. by apply (wt_single _ _ Ht).
Qed.

Lemma reachable_well_timed start t : 0 <= timeout -> reachable start t -> well_timed start t.
Proof.
  intros Hto. apply (rtc_ind_r (well_timed start)); [apply new_timer_well_timed|].
  intros u v _ Hst Hu. by eapply step_well_timed.
Qed.

Lemma gone_stays t t' :
  destructor t = gone -> m_thread t = ended -> any_step t t' ->
  destructor t' = gone /\ m_thread t' = ended /\ calls t' = calls t.
Proof.
  intros Hg He [Hst|Hst].
  - inversion Hst; subst; try congruence; [|done]. unfold timer_step in *. by rewrite He in *.
  - inversion Hst; subst. cbn. by rewrite He.
Qed.

(** The calls of a timer. *)
Theorem simple_timer_calls start t :
  0 <= timeout -> reachable start t ->
  spaced start (calls t) /\ (single_shot = true -> (length (calls t) <= 1)%nat) /\
  (destructor t = gone -> m_thread t = ended /\ forall t', rtc any_step t t' -> calls t' = calls t).
Proof.
  intros Hto Ht%reachable_well_timed; [|done]. split_and!; [apply Ht| |].
  - intros Hs. destruct (calls t) eqn:Hc; [cbn; lia|]. rewrite <- Hc.
    destruct (wt_single _ _ Ht Hs) as [-> _]; [by rewrite Hc|done].
  - intros Hg. pose proof (wt_gone _ _ Ht Hg) as He. split; [done|]. clear Ht. intros t' Hst.
    induction Hst as [|u v w Huv _ IH]; [done|].
    destruct (gone_stays _ _ Hg He Huv) as (? & ? & <-). auto.
Qed.

(** ** The destructor returns *)

Lemma thread_steps t t' : timer_step t = Some t' -> rtc step t t'.
Proof. intros. by apply rtc_once, step_thread. Qed.

(** Once [m_quit] is set, the thread ends without another call: woken, or at the
    latest when its deadline has passed. *)
Lemma quit_thread_ends t :
  m_quit t = true ->
  exists n, rtc step t (mk_timer true ended (destructor t) n (calls t)).
Proof.
  destruct t as [q pc dst n cs]. cbn. intros ->.
  assert (Hpred : forall d, rtc step (mk_timer true (at_pred d) dst n cs) (mk_timer true ended dst n cs))
    by (intros d; by apply thread_steps).
  assert (Hwait : rtc step (mk_timer true at_wait dst n cs) (mk_timer true ended dst n cs))
    by (etrans; [by apply thread_steps|apply Hpred]).
  assert (Hafter : rtc step (mk_timer true after_callback dst n cs) (mk_timer true ended dst n cs)).
  { etrans; [by apply thread_steps|]. unfold goto. cbn. rewrite orb_true_r. apply Hwait. }
  assert (Hblocked : forall d, exists m, rtc step (mk_timer true (blocked d) dst n cs) (mk_timer true ended dst m cs)).
  { intros d. exists (n + Z.max 1 (d - n)). eapply rtc_l; [apply (step_time _ (Z.max 1 (d - n))); lia|].
    cbn. etrans; [apply thread_steps; unfold timer_step; cbn; by rewrite (proj2 (Z.leb_le _ _)) by lia|].
    by apply thread_steps. }
  destruct pc as [|d|d|d|d|d| | |]; try by eauto.
  - destruct (Hblocked d) as [m Hm]. exists m. etrans; [by apply thread_steps|done].
  - exists n. etrans; [by apply thread_steps|apply Hpred].
  - exists n. by apply thread_steps.
  - exists n. etrans; [by apply thread_steps|apply Hafter].
  - exists n. apply rtc_refl.
Qed.

(** The destructor of a timer. *)
Theorem simple_timer_destructor_returns start t :
  0 <= timeout -> reachable start t -> destructor t <> alive ->
  exists t', rtc step t t' /\ destructor t' = gone /\ m_thread t' = ended /\ calls t' = calls t.
Proof.
  intros Hto Ht%reachable_well_timed Hd; [|done]. pose proof (wt_quit _ _ Ht Hd) as Hq.
  assert (Hj : forall u, destructor u = joining -> m_quit u = true ->
    exists u', rtc step u u' /\ destructor u' = gone /\ m_thread u' = ended /\ calls u' = calls u).
  { intros u Hu Hqu. destruct (quit_thread_ends u Hqu) as [n Hn]. rewrite Hu in Hn.
    exists (mk_timer true ended gone n (calls u)). split; [|done]. eapply rtc_r; [exact Hn|]. by apply step_join. }
  destruct (destructor t) eqn:Hdst; [done| |by apply Hj|].
  - destruct (Hj (notify_one t)) as (u & Hu & Hr); [done..|]. exists u. split; [|done].
    eapply rtc_l; [by apply step_notify|done].
  - exists t. split_and!; [apply rtc_refl|done|by apply Ht|done].
Qed.
End simple_timer.

(** A timer of 5 that was called at 5 and is asked to quit while it waits for
    the next call. *)
Definition sample_timer : simple_timer := mk_timer true (blocked 10) quit_stored 7 [5].

Lemma sample_timer_reachable : reachable 5 false 0 sample_timer.
Proof.
  unfold reachable.
  do 3 (eapply rtc_l; [left; by apply step_thread|]).
  eapply rtc_l; [left; by apply (step_time _ _ _ 5)|].
  do 7 (eapply rtc_l; [left; by apply step_thread|]).
  eapply rtc_l; [left; by apply (step_time _ _ _ 2)|].
  apply rtc_once. left. by apply step_store.
Qed.

Lemma simple_timer_calls_witness :
  spaced 5 0 (calls sample_timer) /\ (false = true -> (length (calls sample_timer) <= 1)%nat) /\
  (destructor sample_timer = gone -> m_thread sample_timer = ended /\
     forall t', rtc (any_step 5 false) sample_timer t' -> calls t' = calls sample_timer).
Proof. apply (simple_timer_calls 5 false 0); [lia|apply sample_timer_reachable]. Defined.

Lemma simple_timer_destructor_returns_witness :
  exists t', rtc (step 5 false) sample_timer t' /\ destructor t' = gone /\ m_thread t' = ended /\
    calls t' = calls sample_timer.
Proof.
  apply (simple_timer_destructor_returns 5 false 0); [lia|apply sample_timer_reachable|discriminate].
Defined.
