(* ===== verification/Config.v ===== *)
(** * Start up: the configuration of server::exec and server::bind (server.cpp)

    [ptree] is what Boost's [read_info] made of server.conf.  The conversions of
    its values, what OpenSSL says to the settings of the TLS context, the
    account database and the calls that change the credentials of the process
    are parameters; the help text, the working directory and the logging library
    are left out. *)

From S2P Require Import Prelude Utils Charconv Http.

Local Open Scope Z_scope.

(** ** Property trees *)

Inductive ptree : Type := node (data : bytes) (children : list (bytes * ptree)).

Definition pt_data (t : ptree) : bytes := let 'node d _ := t in d.
Definition pt_children (t : ptree) : list (bytes * ptree) := let 'node _ cs := t in cs.

Definition DOT : ascii := "."%char.

(** [merged_properties(node, prev_nodes)] *)
Fixpoint merged_properties (t : ptree) (prev_nodes : bytes) : list (bytes * bytes) :=
  let 'node data children := t in
  match children with
  | [] => [(prev_nodes, data)]
  | _ =>
      flat_map (fun '(name, n) =>
        let pn := match prev_nodes with [] => name | _ => prev_nodes ++ DOT :: name end in
        merged_properties n pn) children
  end.

(** [get_child_optional] along a path: the first child of each name. *)
Fixpoint find_child (name : bytes) (cs : list (bytes * ptree)) : option ptree :=
  match cs with
  | [] => None
  | (n, t) :: cs' => if decide (n = name) then Some t else find_child name cs'
  end.
Fixpoint get_path (path : list bytes) (t : ptree) : option ptree :=
  match path with
  | [] => Some t
  | name :: path' => find_child name (pt_children t) ≫= get_path path'
  end.

Definition bad_path : exn := ExStd (runtime_error (bs "No such node")).
Definition get_child (path : list bytes) (t : ptree) : outcome exn ptree :=
  match get_path path t with Some c => Ok c | None => Throw bad_path end.

(** ** Credentials

    They are a state of the operating system: each call gives the new ones, or
    [None] when it returns an error. *)
Record system (creds : Type) : Type := mk_system {
  real_uid : creds -> Z;
  effective_uid : creds -> Z;
  setgroups : creds -> option creds;
  setgid : Z -> creds -> option creds;
  setuid : Z -> creds -> option creds;
}.
Arguments real_uid {_}. Arguments effective_uid {_}. Arguments setgroups {_}.
Arguments setgid {_}. Arguments setuid {_}.

Section configuration.
(** The conversions of Boost's stream translator to [int], [uint32_t],
    [int64_t] and [bool]. *)
Variables (as_int as_uint32 as_int64 : bytes -> option Z) (as_bool : bytes -> option bool).

(** [properties.get(path, default)]: the default also when the value does not
    convert. *)
Definition get_or {A} (convert : bytes -> option A) (path : list bytes) (default_ : A) (t : ptree) : A :=
  match get_path path t with
  | Some c => default default_ (convert (pt_data c))
  | None => default_
  end.

(** [properties.get<std::string>(path)] *)
Definition get_string (path : list bytes) (t : ptree) : outcome exn bytes := pt_data <$> get_child path t.

(** [uid_t(-1)] and [gid_t(-1)] *)
Definition NO_ID : Z := 2 ^ 32 - 1.

(** What [exec] and the statics of server.cpp hold. *)
Record settings : Type := mk_settings {
  keep_alive_timeout : Z;
  headers_timeout : Z;
  ssl_accept_timeout : Z;
  ssl_shutdown_timeout : Z;
  enable_server_status : bool;
  http_port : Z;
  https_port : Z;
  queued_connections : Z;
  max_connections_per_ip : Z;
  workload_balancing : bool;
  has_ssl_context : bool;
  logging_settings : list (bytes * bytes);
  drop_uid : Z;
  drop_gid : Z;
}.
Definition initial_settings : settings :=
  mk_settings 10 5 5 2 false 8080 8443 20000 500 true false [] NO_ID NO_ID.

(** What OpenSSL does with the context: [conf_cmd key value] is whether the
    command is taken, [last_error] the text of its error queue. *)
Record openssl : Type := mk_openssl {
  ssl_ctx_new : bool -> bool;
  ssl_conf_ctx_new : bool;
  ssl_conf_cmd : bytes -> option bytes -> bool;
  ssl_conf_finish : bool;
  ssl_check_private_key : bool;
  last_error : bytes;
}.
Variable ssl : openssl.

Definition lower (s : bytes) : bytes := lower_letter <$> s.
Definition fail_unless (b : bool) (msg : bytes) : outcome exn unit :=
  if b then Ok tt else Throw (ExStd (runtime_error msg)).

(** The loop over the settings of the context: the first refused one throws. *)
Fixpoint conf_cmds (kvs : list (bytes * bytes)) : outcome exn unit :=
  match kvs with
  | [] => Ok tt
  | (k, v) :: kvs' =>
      fail_unless (ssl_conf_cmd ssl k (match v with [] => None | _ => Some v end)) (last_error ssl) ≫= fun _ =>
      conf_cmds kvs'
  end.

Definition ssl_settings (t : ptree) : outcome exn unit :=
  ctx_method ← get_string [bs "https"; bs "ssl"; bs "ctx_method"] t;
  fail_unless (ssl_ctx_new ssl (bool_decide (lower ctx_method = bs "dtls"))) (bs "Can't create SSL Context") ≫= fun _ =>
  fail_unless (ssl_conf_ctx_new ssl) (last_error ssl) ≫= fun _ =>
  cxt_settings ← get_child [bs "https"; bs "ssl"; bs "cxt_settings"] t;
  conf_cmds (merged_properties cxt_settings []) ≫= fun _ =>
  fail_unless (ssl_conf_finish ssl && ssl_check_private_key ssl) (last_error ssl).

(** The account database and who runs the server. *)
Variables (getpwnam : bytes -> option (Z * Z)) (getgrnam : bytes -> option Z).

(** The command line. *)
Record arguments : Type := mk_arguments {
  workers : Z; drop_user : bytes; drop_group : bytes;
}.

Definition QUOTE : bytes := [chr 34].

(** The user and group to drop to: [exec] looks them up only as root. *)
Definition privileges (getuid : Z) (args : arguments) (t : ptree) : outcome exn (Z * Z) :=
  let asked := bool_decide (drop_user args <> []) ||
    (bool_decide (find_child (bs "privileges") (pt_children t) <> None) &&
     get_or as_bool [bs "privileges"; bs "drop"] false t) in
  if bool_decide (getuid = 0) && asked then
    usr ← match drop_user args with
          | [] => get_string [bs "privileges"; bs "user"] t
          | u => Ok u
          end;
    match getpwnam usr with
    | None => Throw (ExStd (runtime_error (bs "Can't find user " ++ QUOTE ++ usr ++ QUOTE)))
    | Some (uid, gid) =>
        let grp := match drop_group args with
                   | [] => get_or Some [bs "privileges"; bs "group"] [] t
                   | g => g
                   end in
        match grp with
        | [] => Ok (uid, gid)
        | _ =>
            match getgrnam grp with
            | None => Throw (ExStd (runtime_error (bs "Can't find group " ++ QUOTE ++ grp ++ QUOTE)))
            | Some gid' => Ok (uid, gid')
            end
        end
    end
  else Ok (NO_ID, NO_ID).

(** The "https" section: the two timeouts, the port and whether there is a TLS
    context. *)
Definition https_settings (s : settings) (t : ptree) : outcome exn (Z * Z * Z * bool) :=
  match find_child (bs "https") (pt_children t) with
  | None => Ok (ssl_accept_timeout s, ssl_shutdown_timeout s, https_port s, has_ssl_context s)
  | Some _ =>
      if get_or as_bool [bs "https"; bs "enabled"] false t then
        ssl_settings t ≫= fun _ =>
        Ok (get_or as_int64 [bs "https"; bs "accept_timeout"] (ssl_accept_timeout s) t,
            get_or as_int64 [bs "https"; bs "shutdown_timeout"] (ssl_shutdown_timeout s) t,
            get_or as_int [bs "https"; bs "port"] (https_port s) t, true)
      else Ok (ssl_accept_timeout s, ssl_shutdown_timeout s, -1, has_ssl_context s)
  end.

(** The part of [exec] under [if (!conf_dir.empty())]. *)
Definition read_settings (getuid : Z) (args : arguments) (t : ptree) : outcome exn settings :=
  let s := initial_settings in
  logging ← get_child [bs "logging"] t;
  '(accept, shutdown, port, context) ← https_settings s t;
  '(uid, gid) ← privileges getuid args t;
  Ok (mk_settings
        (get_or as_int64 [bs "keepalive_timeout"] (keep_alive_timeout s) t)
        (get_or as_int64 [bs "headers_timeout"] (headers_timeout s) t)
        accept shutdown
        (get_or as_bool [bs "server_status"] false t)
        (get_or as_int [bs "http_port"] (-1) t)
        port
        (get_or as_uint32 [bs "queued_connections"] (queued_connections s) t)
        (get_or as_uint32 [bs "max_connections_per_ip"] (max_connections_per_ip s) t)
        (get_or as_bool [bs "workload_balancing"] (workload_balancing s) t)
        context (merged_properties logging []) uid gid).

(** The configuration with the checks of [exec]: the workers, then the file
    (absent when the directory of the configuration is empty), then the ports. *)
Definition configure (getuid : Z) (args : arguments) (conf : option ptree) : outcome exn settings :=
  if workers args <? 1 then Throw (ExStd (runtime_error (bs "Invalid workers count")))
  else
    s ← match conf with Some t => read_settings getuid args t | None => Ok initial_settings end;
    if (http_port s <? 0) && (https_port s <? 0)
    then Throw (ExStd (runtime_error (bs "No HTTP nor HTTPS ports specified")))
    else Ok s.

(** ** Listening *)

Inductive socket_type : Type := IPV4 | IPV6.

(** The calls of [bind] that fail. *)
Record bind_calls : Type := mk_bind_calls {
  no_socket : bool; no_reuse : bool; no_v6only : bool; not_bound : bool; not_listening : bool; not_polled : bool;
}.

(** [bind(type, port)]: the error of the first call that fails. *)
Definition bind_socket (type : socket_type) (calls : bind_calls) : outcome exn unit :=
  let error_if (b : bool) (msg : bytes) : outcome exn unit :=
    if b then Throw (ExStd (runtime_error msg)) else Ok tt in
  error_if (no_socket calls) (bs "Can't create the socket") ≫= fun _ =>
  error_if (no_reuse calls) (bs "Can't set the socket SO_REUSEADDR option") ≫= fun _ =>
  match type with
  | IPV4 => Ok tt
  | IPV6 => error_if (no_v6only calls) (bs "Can't set the socket IPV6_V6ONLY option")
  end ≫= fun _ =>
  error_if (not_bound calls) (bs "Can't bind the socket") ≫= fun _ =>
  error_if (not_listening calls) (bs "Can't listen on the socket") ≫= fun _ =>
  error_if (not_polled calls) (bs "Can't  epoll_ctl").

(** The sockets [exec] binds: type, port, and whether TLS is spoken on it. *)
Definition listeners (s : settings) : list (socket_type * Z * bool) :=
  (if 0 <? http_port s then [(IPV4, http_port s, false); (IPV6, http_port s, false)] else []) ++
  (if 0 <? https_port s then [(IPV4, https_port s, true); (IPV6, https_port s, true)] else []).

(** Binding all of them: the first error ends the server. *)
Fixpoint bind_all (calls : socket_type -> Z -> bind_calls) (ls : list (socket_type * Z * bool)) : outcome exn unit :=
  match ls with
  | [] => Ok tt
  | (type, port, _) :: ls' => bind_socket type (calls type port) ≫= fun _ => bind_all calls ls'
  end.

(** ** Privileges *)

Context {creds : Type} (sys : system creds).

Definition drop_privileges (uid gid : Z) (c : creds) : outcome exn creds :=
  if bool_decide (real_uid sys c = 0) && bool_decide (gid <> NO_ID) && bool_decide (uid <> NO_ID) then
    match setgroups sys c ≫= (fun c => setgid sys gid c ≫= setuid sys uid) with
    | None => Throw (ExStd (runtime_error (bs "Can't drop privileges")))
    | Some c' =>
        if bool_decide (uid <> 0) &&
           (bool_decide (real_uid sys c' = 0) || bool_decide (effective_uid sys c' = 0) ||
            bool_decide (setuid sys 0 c' <> None))
        then Throw (ExStd (runtime_error (bs "Dropping privileges didn't stick")))
        else Ok c'
    end
  else Ok c.

(** [exec] up to the event loops: the configuration, the sockets, the
    privileges. *)
Definition start_up (args : arguments) (conf : option ptree) (calls : socket_type -> Z -> bind_calls) (c : creds)
    : outcome exn (settings * creds) :=
  s ← configure (real_uid sys c) args conf;
  bind_all calls (listeners s) ≫= fun _ =>
  c' ← drop_privileges (drop_uid s) (drop_gid s) c;
  Ok (s, c').
End configuration.

(** ** Properties *)

(** The leaves of a tree, with the names on the way to them. *)
Fixpoint leaves (t : ptree) : list (list bytes * bytes) :=
  let 'node data children := t in
  match children with
  | [] => [([], data)]
  | _ => flat_map (fun '(name, n) => (fun l => (name :: l.1, l.2)) <$> leaves n) children
  end.
Definition extend (prev name : bytes) : bytes := match prev with [] => name | _ => prev ++ DOT :: name end.
Definition key_from (prev : bytes) (l : list bytes * bytes) : bytes * bytes := (fold_left extend l.1 prev, l.2).

Lemma ptree_nested_ind (P : ptree -> Prop) :
  (forall data cs, Forall (fun c => P c.2) cs -> P (node data cs)) -> forall t, P t.
Proof.
  intros Hnode. fix IH 1. intros [data cs]. apply Hnode.
  induction cs as [|[name n] cs IHcs]; constructor; [apply IH|done].
Qed.

(** Every leaf is a setting under its dotted path, in the order of the file; the
    value of an inner node is not. *)
Theorem merged_properties_leaves (t : ptree) (prev : bytes) :
  merged_properties t prev = key_from prev <$> leaves t.
Proof.
  revert prev. induction t as [data cs IH] using ptree_nested_ind. intros prev.
  destruct cs as [|c cs]; [done|].
  change (flat_map (fun '(name, n) => merged_properties n (extend prev name)) (c :: cs) =
    key_from prev <$> flat_map (fun '(name, n) => (fun l => (name :: l.1, l.2)) <$> leaves n) (c :: cs)).
  induction IH as [|[name n] cs' Hn _ IH]; [done|].
  cbn [flat_map]. rewrite fmap_app, <- list_fmap_compose, IH. f_equal. apply Hn.
Qed.

Section start_up.
Context (as_int as_uint32 as_int64 : bytes -> option Z) (as_bool : bytes -> option bool) (ssl : openssl)
  (getpwnam : bytes -> option (Z * Z)) (getgrnam : bytes -> option Z) {creds : Type} (sys : system creds).
Local Abbreviation configure := (configure as_int as_uint32 as_int64 as_bool ssl getpwnam getgrnam).
Local Abbreviation start_up := (start_up as_int as_uint32 as_int64 as_bool ssl getpwnam getgrnam sys).

(** The stages a configuration that is accepted went through. *)
Lemma configure_ok uid args t s :
  configure uid args (Some t) = Ok s ->
  1 <= workers args /\ (0 <= http_port s \/ 0 <= https_port s) /\
  https_settings as_int as_int64 as_bool ssl initial_settings t =
    Ok (ssl_accept_timeout s, ssl_shutdown_timeout s, https_port s, has_ssl_context s) /\
  privileges as_bool getpwnam getgrnam uid args t = Ok (drop_uid s, drop_gid s).
Proof.
  unfold Config.configure, read_settings, mbind, outcome_bind.
  destruct (Z.ltb_spec (workers args) 1); [done|].
  destruct (get_child _ t) as [logging| |]; [|done..].
  destruct (https_settings _ _ _ _ _ t) as [[[[a sh] p] x]| |]; [|done..].
  destruct (privileges _ _ _ _ _ t) as [[u g]| |]; [|done..].
  cbn [http_port https_port]. destruct (Z.ltb_spec (get_or as_int [bs "http_port"] (-1) t) 0);
    destruct (Z.ltb_spec p 0); cbn [andb]; try done; intros [= <-];
    cbn [http_port https_port ssl_accept_timeout ssl_shutdown_timeout has_ssl_context drop_uid drop_gid];
    split_and!; try done; by (left + right).
Qed.

(** With a section for it, a port on which TLS is spoken has a TLS context. *)
Theorem tls_listeners_have_context uid args t https s l :
  find_child (bs "https") (pt_children t) = Some https ->
  configure uid args (Some t) = Ok s -> l ∈ listeners s -> l.2 = true -> has_ssl_context s = true.
Proof.
  intros Hh (_ & _ & Hs & _)%configure_ok. revert Hs.
  unfold https_settings, mbind, outcome_bind. rewrite Hh. destruct (get_or as_bool _ _ t).
  - destruct (ssl_settings ssl t); [|done..]. by intros [= _ _ _ <-].
  - intros [= _ _ Hp _]. unfold listeners. rewrite <- Hp. cbn [Z.ltb Z.compare]. rewrite app_nil_r.
    destruct (0 <? _); [|by intros ?%not_elem_of_nil].
    intros [->|[->|?%not_elem_of_nil]%elem_of_cons]%elem_of_cons; done.
Qed.

(** Without one, the server speaks TLS on 8443 and has no context for it. *)
Theorem no_https_section_still_listens args t logging :
  1 <= workers args -> get_path [bs "logging"] t = Some logging -> find_child (bs "https") (pt_children t) = None ->
  exists s, configure 1 args (Some t) = Ok s /\
    (IPV4, 8443, true) ∈ listeners s /\ has_ssl_context s = false.
Proof.
  intros Hn Hl Hh. unfold Config.configure, read_settings, https_settings, get_child, mbind, outcome_bind, privileges.
  destruct (Z.ltb_spec (workers args) 1); [lia|]. rewrite Hl, Hh.
  cbn [https_port http_port initial_settings andb bool_decide_eq_false]. rewrite bool_decide_eq_false_2 by done.
  cbn [https_port http_port andb]. rewrite andb_false_r.
  eexists. split; [reflexivity|]. split; [|done]. unfold listeners. cbn [https_port http_port].
  apply elem_of_app. right. by left.
Qed.

(** A port of 0 is no error, and nothing is listened on. *)
Theorem port_zero_listens_nowhere :
  as_int (bs "0") = Some 0 -> as_bool (bs "false") = Some false ->
  exists s, configure 1 (mk_arguments 1 [] []) (Some (node [] [(bs "logging", node [] []);
      (bs "http_port", node (bs "0") []); (bs "https", node [] [(bs "enabled", node (bs "false") [])])])) = Ok s /\
    listeners s = [].
Proof.
  intros H0 Hf. vm_compute in H0, Hf. eexists. split.
  - vm_compute. rewrite Hf, H0. reflexivity.
  - reflexivity.
Qed.

(** A process that is not root and cannot be again. *)
Definition unprivileged (c : creds) : Prop :=
  real_uid sys c <> 0 /\ effective_uid sys c <> 0 /\ setuid sys 0 c = None.

Lemma drop_privileges_sticks uid gid c c' :
  real_uid sys c = 0 -> uid <> 0 -> uid <> NO_ID -> gid <> NO_ID ->
  drop_privileges sys uid gid c = Ok c' -> unprivileged c'.
Proof.
  intros Hr Hu Hun Hgn. unfold drop_privileges.
  rewrite !bool_decide_eq_true_2 by done. cbn [andb].
  destruct (setgroups _ _ ≫= _) as [c''|]; [|done].
  repeat case_bool_decide; try done. intros [= <-].
  split_and!; [done..|]. by destruct (setuid sys 0 c'').
Qed.

(** What the accounts of the system promise: no identifier is -1. *)
Definition valid_accounts : Prop :=
  (forall u uid gid, getpwnam u = Some (uid, gid) -> uid <> NO_ID /\ gid <> NO_ID) /\
  (forall g gid, getgrnam g = Some gid -> gid <> NO_ID).

(** Dropping was asked for, and for whom. *)
Definition asked_to_drop (args : arguments) (t : ptree) (user : bytes) : Prop :=
  user = drop_user args /\ user <> [] \/
  drop_user args = [] /\ get_or as_bool [bs "privileges"; bs "drop"] false t = true /\
  exists c, get_path [bs "privileges"; bs "user"] t = Some c /\ user = pt_data c.

Lemma privileges_found args t user r :
  asked_to_drop args t user -> privileges as_bool getpwnam getgrnam 0 args t = Ok r ->
  exists gid, getpwnam user = Some (r.1, gid) /\ (r.2 = gid \/ exists grp, getgrnam grp = Some r.2).
Proof.
  intros Ha. unfold privileges, mbind, outcome_bind.
  assert (Hasked : bool_decide (drop_user args <> []) ||
    (bool_decide (find_child (bs "privileges") (pt_children t) <> None) &&
     get_or as_bool [bs "privileges"; bs "drop"] false t) = true).
  { destruct Ha as [[-> ?]|(_ & -> & c & Hc & _)]; [by rewrite bool_decide_eq_true_2|].
    rewrite andb_true_r, (bool_decide_eq_true_2 (_ <> None)); [apply orb_true_r|].
    intros Hn. cbn [get_path] in Hc. by rewrite Hn in Hc. }
  rewrite Hasked. cbn [andb bool_decide].
  assert (Hu : match drop_user args with [] => get_string [bs "privileges"; bs "user"] t | u => Ok u end = Ok user).
  { destruct Ha as [[-> ?]|(-> & _ & c & Hc & ->)]; [by destruct (drop_user args)|].
    unfold get_string, get_child. by rewrite Hc. }
  rewrite Hu. destruct (getpwnam user) as [[uid gid]|]; [|done].
  destruct (match drop_group args with [] => _ | _ => _ end) as [|ch grp]; [intros [= <-]; by eauto|].
  destruct (getgrnam (ch :: grp)) as [gid'|] eqn:Hg; [|done]. intros [= <-]. eauto.
Qed.

(** C37: When the server is started as root with a configuration, and the command
    line or the configuration names a user to drop to, then after a start
    that succeeds the process is not root and cannot become root again,
    unless that user is root itself; this holds whatever setgroups, setgid
    and setuid do. *)
Theorem start_up_drops_privileges args t calls c s c' user :
  valid_accounts -> real_uid sys c = 0 -> asked_to_drop args t user ->
  start_up args (Some t) calls c = Ok (s, c') ->
  exists uid gid, getpwnam user = Some (uid, gid) /\ (uid = 0 \/ unprivileged c').
Proof.
  intros [Hpw Hgr] Hr Ha. unfold Config.start_up, mbind, outcome_bind. rewrite Hr.
  destruct (configure 0 args (Some t)) as [s'| |] eqn:Hc; [|done..].
  destruct (bind_all _ _); [|done..]. destruct (drop_privileges _ _ _ _) as [c2| |] eqn:Hd; [|done..].
  intros [= <- <-]. apply configure_ok in Hc as (_ & _ & _ & Hp).
  destruct (privileges_found _ _ _ _ Ha Hp) as (gid & Hu & Hg). cbn in Hu, Hg.
  exists (drop_uid s'), gid. split; [done|]. destruct (decide (drop_uid s' = 0)); [by left|right].
  destruct (Hpw _ _ _ Hu). eapply drop_privileges_sticks; [done..| |done].
  destruct Hg as [->|[grp ?%Hgr]]; done.
Qed.

(** Without a configuration directory the option is not looked at. *)
Theorem no_configuration_keeps_root args calls c :
  1 <= workers args -> (forall type port, bind_socket type (calls type port) = Ok tt) ->
  start_up args None calls c = Ok (initial_settings, c).
Proof.
  intros Hw Hb. unfold Config.start_up, Config.configure, mbind, outcome_bind.
  destruct (Z.ltb_spec (workers args) 1); [lia|]. cbn -[bind_socket drop_privileges]. rewrite !Hb.
  unfold drop_privileges. cbn. by rewrite !andb_false_r.
Qed.
End start_up.

(** ** Samples *)

(** A process is its user; only root may become another one. *)
Definition sample_system : system Z :=
  mk_system Z (fun c => c) (fun c => c) Some (fun _ => Some)
    (fun uid c => if bool_decide (c = 0) || bool_decide (c = uid) then Some uid else None).
Definition sample_conf : ptree :=
  node [] [(bs "logging", node [] []); (bs "http_port", node (bs "80") [])].
Definition sample_args : arguments := mk_arguments 2 (bs "www") [].
Definition sample_openssl : openssl := mk_openssl (fun _ => true) true (fun _ _ => true) true true [].
Definition all_bound : socket_type -> Z -> bind_calls := fun _ _ => mk_bind_calls false false false false false false.
Definition sample_users (u : bytes) : option (Z * Z) := if decide (u = bs "www") then Some (33, 33) else None.
Definition sample_port (s : bytes) : option Z := if decide (s = bs "80") then Some 80 else None.

Lemma start_up_drops_privileges_witness :
  exists s, start_up sample_port sample_port sample_port (fun _ => None) sample_openssl sample_users (fun _ => None)
    sample_system sample_args (Some sample_conf) all_bound 0 = Ok (s, 33) /\
  exists uid gid, sample_users (bs "www") = Some (uid, gid) /\ (uid = 0 \/ unprivileged sample_system 33).
Proof.
  eexists. split; [vm_compute; reflexivity|].
  eapply (start_up_drops_privileges sample_port sample_port sample_port (fun _ => None) sample_openssl sample_users
    (fun _ => None) sample_system sample_args sample_conf all_bound 0).
  - split; [|done]. intros u uid gid. unfold sample_users. destruct (decide _); [|done]. by intros [= <- <-].
  - reflexivity.
  - left. done.
  - vm_compute. reflexivity.
Defined.
