(* ===== verification/AcceptLoop.v ===== *)
(** * The accept thread: the loop of server::exec, and how a session is made and
    unmade (server.cpp, server_session.{h,cpp})

    The server, its event loops and the sessions that exist in one state, as the
    accept thread changes them; what other threads do meanwhile is in Server and
    LoopThreads.  A session is an address, which may be that of one that was
    deleted.  A coroutine is the deadlines it publishes while it is cancelled. *)

From S2P Require Import Prelude Utils Http EventLoop Server Config.

Local Open Scope Z_scope.

(** A connection of [accept4], with an address for its session and what the
    calls on the way say. *)
Record connection : Type := mk_connection {
  c_sock : Z;
  c_addr : bytes;
  c_session : Z;                   (** what [new] gives its session, when it is free *)
  c_memory : bool;                 (** [new] finds memory *)
  c_nodelay : bool;                (** [setsockopt(TCP_NODELAY)] *)
  c_added : bool;                  (** [epoll_ctl(ADD)] *)
  c_now : Z;
  c_published : list Z;            (** deadlines of the coroutine, when cancelled *)
}.

Record process : Type := mk_process {
  p_server : server;
  p_loops : list event_loop;
  objects : gmap Z connection;     (** the sessions that exist, at their addresses *)
  closed : list Z;                 (** the sockets that were closed *)
  served : list (Z * Z);           (** the sessions that were started, with their sockets *)
}.

(** [address_text(addr)], which gives [c_addr]; an address that is not of one of
    the two families has no text. *)
Definition AF_INET : Z := 2.
Definition AF_INET6 : Z := 10.
Record sockaddr_storage : Type := mk_sockaddr { ss_family : Z; sin_addr : bytes; sin6_addr : bytes }.
Definition address_text (inet_ntop : Z -> bytes -> option bytes) (addr : sockaddr_storage) : bytes :=
  if ss_family addr =? AF_INET then default [] (inet_ntop AF_INET (sin_addr addr))
  else if ss_family addr =? AF_INET6 then default [] (inet_ntop AF_INET6 (sin6_addr addr))
  else [].

Definition with_server (s : server) (p : process) : process := mk_process s (p_loops p) (objects p) (closed p) (served p).
Definition on_loop (i : nat) (f : event_loop -> event_loop) (p : process) : process :=
  mk_process (p_server p) (alter f i (p_loops p)) (objects p) (closed p) (served p).
Definition with_objects (o : gmap Z connection) (p : process) : process :=
  mk_process (p_server p) (p_loops p) o (closed p) (served p).
Definition close_sock (sock : Z) (p : process) : process :=
  mk_process (p_server p) (p_loops p) (objects p) (closed p ++ [sock]) (served p).
Definition serve (a : Z) (c : connection) (p : process) : process :=
  mk_process (p_server p) (p_loops p) (objects p) (closed p) (served p ++ [(a, c_sock c)]).

(** [operator new]: any address at which there is no object, one that was deleted
    among them. *)
Definition new_address (c : connection) (p : process) : Z :=
  if decide (c_session c ∈ dom (objects p)) then base.fresh (dom (objects p)) else c_session c.

(** [~basic_server_session] of the session at [a], and its memory. *)
Definition base_destructor (a : Z) (c : connection) (p : process) : option process :=
  (fun s => with_objects (delete a (objects p)) (with_server s p)) <$> server_session_deleted a (c_addr c) (p_server p).

(** [~server_session], whose [delete_later] does nothing since [m_deleting] is
    set.  [None]: there is no session at the address. *)
Definition session_destructor (i : nat) (a : Z) (p : process) : option process :=
  c ← objects p !! a;
  let p := on_loop i (fun l => foldl (fun l d => notify_deadline d l) l (c_published c)) p in
  let p := on_loop i (fun l => (unregister_session a l).2) p in
  base_destructor a c (close_sock (c_sock c) p).

(** [new server_session(...)]: the session, if there is one. *)
Definition new_session (timeout : Z) (i : nat) (c : connection) (p : process) : option (option Z * process) :=
  if c_memory c then
    let a := new_address c p in
    let p := with_server (server_session_created a (p_server p)) (with_objects (<[a := c]> (objects p)) p) in
    if c_nodelay c
    then Some (Some a, on_loop i (notify_deadline (c_now c + timeout)) p)
    else pair None <$> base_destructor a c p
  else Some (None, p).

(** [init_session()]: the loop of [register_session], and whether it threw. *)
Definition init_session (i : nat) (a : Z) (c : connection) (p : process) : bool * process :=
  (c_added c, on_loop i (fun l => (register_session a (c_added c) l).2) p).

(** The body of the accept loop. *)
Definition accept_one (max timeout : Z) (c : connection) (p : process) : option process :=
  match admit_connection max (c_addr c) (p_server p) with
  | (None, s) => Some (close_sock (c_sock c) (with_server s p))
  | (Some _, s) =>
      let p := with_server s p in
      let i := best_loop (EventLoop.m_active_sessions <$> p_loops p) in
      '(session, p) ← new_session timeout i c p;
      match session with
      | Some a =>
          let '(registered, p) := init_session i a c p in
          if (registered : bool) then Some (serve a c p) else session_destructor i a p
      | None => Some (close_sock (c_sock c) p)
      end
  end.

(** [while (!m_shutdown)] with what it reads there: until [accept4] has none. *)
Fixpoint accept_all (max timeout : Z) (cs : list (bool * connection)) (p : process) : option process :=
  match cs with
  | [] => Some p
  | (shutdown, c) :: cs' =>
      if (shutdown : bool) then Some p
      else accept_one max timeout c p ≫= accept_all max timeout cs'
  end.

(** An event of a listening socket, with the connections it has. *)
Record listen_event : Type := mk_listen_event {
  e_fd : Z;
  e_events : Z;
  e_connections : list (bool * connection);
}.

Definition listen_error : exn := ExStd (runtime_error (bs "listen socket error")).

Section accept_loop.
Variables (st : settings) (m_https4_sock m_https6_sock : Z).

(** The timeout of a new session, in nanoseconds: the socket of its event says
    whether it speaks TLS. *)
Definition accept_timeout (fd : Z) : Z :=
  let ssl := bool_decide (fd = m_https4_sock) || bool_decide (fd = m_https6_sock) in
  (if ssl then ssl_accept_timeout st else headers_timeout st) * 10 ^ 9.

Definition listen_socket_event (e : listen_event) : M process exn unit := fun p =>
  if negb (Z.land (e_events e) (Z.lor EPOLLERR (Z.lor EPOLLHUP EPOLLRDHUP)) =? 0) then (Throw listen_error, p)
  else if negb (Z.land (e_events e) (Z.lor EPOLLIN EPOLLPRI) =? 0) then
    match accept_all (max_connections_per_ip st) (accept_timeout (e_fd e)) (e_connections e) p with
    | Some p => (Ok tt, p)
    | None => (Diverge, p)
    end
  else (Ok tt, p).

Fixpoint listen_events (es : list listen_event) : M process exn unit :=
  match es with
  | [] => mret tt
  | e :: es' => listen_socket_event e;; listen_events es'
  end.

(** One turn of the loop: whether the memory was given back, and [trimmed] after
    it. *)
Definition accept_turn (es : list listen_event) (trimmed : bool) : M process exn (bool * bool) :=
  trim ← gets (fun p => bool_decide (es = []) && negb trimmed && (m_active_sessions_count (p_server p) <=? 1));
  listen_events es;;
  mret (trim, if bool_decide (es = []) then trimmed || trim else false).
End accept_loop.

(** ** One connection *)

Definition ip_count (s : server) (addr : bytes) : Z := default 0 (m_connections_per_ip s !! addr).
Definition at_addr (a addr : bytes) (n : Z) : Z := if decide (a = addr) then n else 0.

Lemma ip_count_insert act n k ips addr v a :
  ip_count (mk_server act n k (<[addr := v]> ips)) a = if decide (a = addr) then v else default 0 (ips !! a).
Proof.
  unfold ip_count. cbn. destruct (decide (a = addr)) as [->|Hne]; [by rewrite lookup_insert_eq|].
  by rewrite lookup_insert_ne.
Qed.

(** The counts after the check of the limit. *)
Lemma admit_counts max addr s order s' :
  0 <= ip_count s addr -> max < 2 ^ 32 -> admit_connection max addr s = (order, s') ->
  m_active_sessions s' = m_active_sessions s /\
  (forall a, ip_count s' a = ip_count s a + at_addr a addr (match order with Some _ => 1 | None => 0 end)) /\
  (order <> None -> ip_count s addr < max).
Proof.
  intros H0 Hm. unfold admit_connection. fold (ip_count s addr).
  destruct (Z.leb_spec max (ip_count s addr)); intros [= <- <-]; (split; [done|]); (split; [|done]);
    intros a; rewrite ip_count_insert; fold (ip_count s a); unfold at_addr; destruct (decide (a = addr)) as [->|]; try lia.
  unfold u32. rewrite Z.mod_small by lia. done.
Qed.

(** Deleting the session of a connection that was counted. *)
Lemma deleted_counts session addr s :
  0 < ip_count s addr < 2 ^ 32 ->
  exists s', server_session_deleted session addr s = Some s' /\
    m_active_sessions s' = m_active_sessions s ∖ {[session]} /\
    (forall a, ip_count s' a = ip_count s a - at_addr a addr 1).
Proof.
  intros Hc. unfold server_session_deleted, release_address, forget_session. cbn.
  destruct (m_connections_per_ip s !! addr) as [n|] eqn:Hn; unfold ip_count in Hc; rewrite Hn in Hc; cbn in Hc; [|lia].
  assert (Hu : u32 (n - 1) = n - 1) by (apply Z.mod_small; lia). rewrite Hu.
  eexists. split; [done|]. split; [done|]. intros a. unfold at_addr.
  destruct (Z.eqb_spec (n - 1) 0) as [Hz|Hz].
  - unfold ip_count. cbn. destruct (decide (a = addr)) as [->|]; [rewrite lookup_delete_eq, Hn; cbn; lia|].
    rewrite lookup_delete_ne by done. lia.
  - rewrite ip_count_insert. unfold ip_count. destruct (decide (a = addr)) as [->|]; [rewrite Hn; cbn; lia|lia].
Qed.

(** Two states of an event loop that differ in the earliest deadline only, which
    is no later. *)
Record same_loop (l l' : event_loop) : Prop := {
  same_sessions : m_sessions l' = m_sessions l;
  same_epoll : epoll_set l' = epoll_set l;
  same_active : EventLoop.m_active_sessions l' = EventLoop.m_active_sessions l;
  same_later : m_delete_later_objects l' = m_delete_later_objects l;
  same_wakeups : m_wakeup_sessions l' = m_wakeup_sessions l;
  same_quit : m_quit l' = m_quit l;
  same_earliest : m_earliest_deadline l' <= m_earliest_deadline l;
}.
Global Instance same_loop_preorder : PreOrder same_loop.
Proof.
  split; [by intros l; split|]. intros l1 l2 l3 [] []. split; try congruence. lia.
Qed.

Lemma notify_same_loop d l : same_loop l (notify_deadline d l).
Proof.
  unfold notify_deadline. destruct (decide _); [done|]. destruct (Z.ltb_spec d (m_earliest_deadline l)); [|done].
  split; cbn; try done. lia.
Qed.
Lemma notify_all_same ds l : same_loop l (foldl (fun l d => notify_deadline d l) l ds).
Proof.
  revert l. induction ds as [|d ds IH]; intros l; [done|]. cbn. etrans; [apply notify_same_loop|apply IH].
Qed.
Lemma notify_earliest d l : d <> no_deadline -> m_earliest_deadline (notify_deadline d l) <= d.
Proof.
  intros Hd. unfold notify_deadline. rewrite decide_False by done.
  destruct (Z.ltb_spec d (m_earliest_deadline l)); cbn; lia.
Qed.

Lemma same_loop_at f i (ls : list event_loop) :
  (forall l, ls !! i = Some l -> same_loop l (f l)) -> Forall2 same_loop ls (alter f i ls).
Proof.
  intros Hf. apply Forall2_lookup. intros j. destruct (decide (i = j)) as [<-|Hne].
  - rewrite list_lookup_alter_eq. destruct (ls !! i) eqn:Hl; cbn; constructor. by apply Hf.
  - rewrite list_lookup_alter_ne by done. destruct (ls !! j); by constructor.
Qed.

Lemma on_loop_twice i f g p : on_loop i g (on_loop i f p) = on_loop i (g ∘ f) p.
Proof. unfold on_loop. cbn. by rewrite list_alter_alter_eq. Qed.

(** Where a session is not yet known. *)
Record unknown (a : Z) (p : process) : Prop := {
  unknown_server : a ∉ m_active_sessions (p_server p);
  unknown_objects : objects p !! a = None;
  unknown_loops l : l ∈ p_loops p -> (a ∉ m_sessions l) /\ (a ∉ epoll_set l);
}.
Definition counts_in_range (p : process) : Prop := forall a, 0 <= ip_count (p_server p) a.

(** The server, the event loops and the memory have the same sessions. *)
Record agree (p : process) : Prop := {
  ag_loops s : s ∈ m_active_sessions (p_server p) <-> exists l, l ∈ p_loops p /\ s ∈ m_sessions l;
  ag_objects : dom (objects p) = m_active_sessions (p_server p);
  ag_epoll l : l ∈ p_loops p -> epoll_set l ⊆ m_sessions l;
}.

(** [new] gives an address nobody has. *)
Lemma new_address_unknown c p : agree p -> unknown (new_address c p) p.
Proof.
  intros [Hl Ho He]. assert (Ha : new_address c p ∉ dom (objects p)).
  { unfold new_address. case_decide; [apply is_fresh|done]. }
  split; [by rewrite <- Ho|by apply not_elem_of_dom|]. rewrite Ho, Hl in Ha. intros l Hin.
  assert (new_address c p ∉ m_sessions l) by eauto. split; [done|]. intros ?%(He l Hin). done.
Qed.

(** A registration that failed is undone. *)
Lemma failed_registration_undone t a (c : connection) l :
  a ∉ m_sessions l -> a ∉ epoll_set l ->
  same_loop l ((unregister_session (a)
    (foldl (fun l d => notify_deadline d l)
       (register_session (a) false (notify_deadline t l)).2 (c_published c))).2).
Proof.
  intros Hs He. pose proof (notify_same_loop t l) as Ht. set (l1 := notify_deadline t l) in *.
  set (l2 := (register_session (a) false l1).2).
  pose proof (notify_all_same (c_published c) l2) as H2. set (l3 := foldl _ l2 _) in *.
  assert (Hin : m_sessions l3 = {[a]} ∪ m_sessions l)
    by (rewrite (same_sessions _ _ H2); cbn; by rewrite (same_sessions _ _ Ht)).
  assert (Hep : epoll_set l3 = epoll_set l) by (rewrite (same_epoll _ _ H2); apply Ht).
  unfold unregister_session. rewrite decide_True by (rewrite Hin; set_solver).
  rewrite decide_False by by rewrite Hep.
  pose proof (same_earliest _ _ Ht). pose proof (same_earliest _ _ H2) as He2. cbn in He2.
  split; cbn; [rewrite Hin; set_solver|done| | | | |lia].
  - rewrite (same_active _ _ H2). apply Ht.
  - rewrite (same_later _ _ H2). apply Ht.
  - rewrite (same_wakeups _ _ H2). apply Ht.
  - rewrite (same_quit _ _ H2). apply Ht.
Qed.

(** The connection is served: the session at [a] is known to the server and to
    the least used loop, which has its deadline. *)
Record is_served (timeout : Z) (a : Z) (c : connection) (p p' : process) : Prop := {
  sv_closed : closed p' = closed p;
  sv_served : served p' = served p ++ [(a, c_sock c)];
  sv_objects : objects p' = <[a := c]> (objects p);
  sv_active : m_active_sessions (p_server p') = {[a]} ∪ m_active_sessions (p_server p);
  sv_counts b : ip_count (p_server p') b = ip_count (p_server p) b + at_addr b (c_addr c) 1;
  sv_loop : exists l, p_loops p !! best_loop (EventLoop.m_active_sessions <$> p_loops p) = Some l /\
    exists l', p_loops p' = <[best_loop (EventLoop.m_active_sessions <$> p_loops p) := l']> (p_loops p) /\
      m_sessions l' = {[a]} ∪ m_sessions l /\ epoll_set l' = {[a]} ∪ epoll_set l /\
      EventLoop.m_active_sessions l' = EventLoop.u32 (EventLoop.m_active_sessions l + 1) /\
      (c_now c + timeout <> no_deadline -> m_earliest_deadline l' <= c_now c + timeout);
}.

(** It is closed, and nothing is left of it but a count when there was no
    memory. *)
Record is_closed (max : Z) (c : connection) (p p' : process) : Prop := {
  cl_closed : closed p' = closed p ++ [c_sock c];
  cl_served : served p' = served p;
  cl_objects : objects p' = objects p;
  cl_active : m_active_sessions (p_server p') = m_active_sessions (p_server p);
  cl_counts a : ip_count (p_server p') a = ip_count (p_server p) a +
    at_addr a (c_addr c) (if (ip_count (p_server p) (c_addr c) <? max) && negb (c_memory c) then 1 else 0);
  cl_loops : Forall2 same_loop (p_loops p) (p_loops p');
}.

Lemma best_loop_in (ls : list event_loop) :
  ls <> [] -> exists l, ls !! best_loop (EventLoop.m_active_sessions <$> ls) = Some l.
Proof.
  intros Hne. destruct (best_loop_least (EventLoop.m_active_sessions <$> ls)) as (n & Hn & _).
  - intros Hnil%fmap_nil_inv. done.
  - apply list_lookup_fmap_Some in Hn as (l & ? & ?). eauto.
Qed.

(** The connection of [accept_one] once it was admitted and its session made. *)
Lemma deleted_session_counts max a c p s order :
  max < 2 ^ 32 -> counts_in_range p -> unknown a p ->
  admit_connection max (c_addr c) (p_server p) = (Some order, s) ->
  exists s', server_session_deleted a (c_addr c) (server_session_created a s) = Some s' /\
    m_active_sessions s' = m_active_sessions (p_server p) /\
    forall b, ip_count s' b = ip_count (p_server p) b.
Proof.
  intros Hm Hr Hf Had. destruct (admit_counts _ _ _ _ _ (Hr _) Hm Had) as (Hact & Hip & Hlt).
  specialize (Hlt ltac:(done)). pose proof (Hr (c_addr c)) as H0.
  destruct (deleted_counts a (c_addr c) (server_session_created a s)) as (s' & Hs' & Ha & Hi).
  { change (ip_count (server_session_created a s)) with (ip_count s).
    rewrite Hip. unfold at_addr. rewrite decide_True by done. lia. }
  exists s'. split; [done|]. split.
  - rewrite Ha. cbn. rewrite Hact. pose proof (unknown_server _ _ Hf). set_solver.
  - intros b. rewrite Hi. change (ip_count (server_session_created a s)) with (ip_count s).
    rewrite Hip. unfold at_addr. destruct (decide _); lia.
Qed.

(** Closing a connection of which nothing is left but, perhaps, a count. *)
Lemma closes max c p s ls o :
  o = objects p -> m_active_sessions s = m_active_sessions (p_server p) ->
  (forall a, ip_count s a = ip_count (p_server p) a +
     at_addr a (c_addr c) (if (ip_count (p_server p) (c_addr c) <? max) && negb (c_memory c) then 1 else 0)) ->
  Forall2 same_loop (p_loops p) ls ->
  is_closed max c p (mk_process s ls o (closed p ++ [c_sock c]) (served p)).
Proof. by intros; split. Qed.

Lemma at_addr_0 a addr : at_addr a addr 0 = 0.
Proof. unfold at_addr. by destruct (decide _). Qed.

(** [register_session] of the loop that was chosen. *)
Lemma serves timeout a c p s l :
  p_loops p !! best_loop (EventLoop.m_active_sessions <$> p_loops p) = Some l ->
  m_active_sessions s = {[a]} ∪ m_active_sessions (p_server p) ->
  (forall b, ip_count s b = ip_count (p_server p) b + at_addr b (c_addr c) 1) ->
  is_served timeout a c p
    (mk_process s (alter ((fun l => (register_session a true l).2) ∘ notify_deadline (c_now c + timeout))
       (best_loop (EventLoop.m_active_sessions <$> p_loops p)) (p_loops p)) (<[a := c]> (objects p)) (closed p)
       (served p ++ [(a, c_sock c)])).
Proof.
  intros Hl Hact Hip. split; try done. exists l. split; [done|].
  pose proof (notify_same_loop (c_now c + timeout) l) as Hn.
  eexists. split.
  { cbn [p_loops]. rewrite list_insert_alter. apply list_alter_ext; [|done]. intros l0 Hl0. rewrite Hl in Hl0.
    injection Hl0 as <-. reflexivity. }
  cbn. split_and!.
  - by rewrite (same_sessions _ _ Hn).
  - by rewrite (same_epoll _ _ Hn).
  - by rewrite (same_active _ _ Hn).
  - apply notify_earliest.
Qed.

(** What one connection makes of the process. *)
Definition accepted_one (max timeout : Z) (c : connection) (p p' : process) : Prop :=
  if (ip_count (p_server p) (c_addr c) <? max) && c_memory c && c_nodelay c && c_added c
  then is_served timeout (new_address c p) c p p' else is_closed max c p p'.

Lemma accept_one_outcome max timeout c p :
  max < 2 ^ 32 -> counts_in_range p -> unknown (new_address c p) p -> p_loops p <> [] ->
  exists p', accept_one max timeout c p = Some p' /\ accepted_one max timeout c p p'.
Proof.
  intros Hm Hr Hf Hne. unfold accept_one, accepted_one. destruct (best_loop_in _ Hne) as [l Hl].
  pose proof (unknown_objects _ _ Hf) as Hobj.
  destruct (admit_connection max (c_addr c) (p_server p)) as [[order|] s] eqn:Had;
    destruct (admit_counts _ _ _ _ _ (Hr _) Hm Had) as (Hact & Hip & Hlt).
  - specialize (Hlt ltac:(done)). rewrite (proj2 (Z.ltb_lt _ _) Hlt). cbn [andb].
    destruct (deleted_session_counts _ _ _ _ _ _ Hm Hr Hf Had) as (s' & Hdel & Hact' & Hip').
    pose proof (Zlt_is_lt_bool (ip_count (p_server p) (c_addr c)) max) as [Hlb _]. specialize (Hlb Hlt).
    unfold new_session. change (new_address c (with_server s p)) with (new_address c p).
    set (a := new_address c p) in *. destruct (c_memory c) eqn:Hmem; cbn [andb mbind option_bind].
    + destruct (c_nodelay c) eqn:Hnd; cbn [andb mbind option_bind].
      * unfold init_session. rewrite on_loop_twice. destruct (c_added c) eqn:Hadd.
        -- eexists. split; [reflexivity|]. apply (serves timeout a c p (server_session_created a s) l); [done|cbn; by rewrite Hact|done].
        -- unfold session_destructor. cbn [objects on_loop with_server with_objects]. rewrite lookup_insert_eq.
           cbn [mbind option_bind]. rewrite !on_loop_twice. unfold base_destructor. cbn. rewrite Hdel. cbn.
           eexists. split; [reflexivity|]. apply (closes max c p); [by rewrite delete_insert_id|done| |].
           ++ intros b. rewrite Hip', Hlb, Hmem. cbn. rewrite at_addr_0. lia.
           ++ apply same_loop_at. intros l' [Hs He]%list_elem_of_lookup_2%(unknown_loops _ _ Hf).
              by apply failed_registration_undone.
      * unfold base_destructor. cbn. rewrite Hdel. cbn. eexists. split; [reflexivity|].
        apply (closes max c p); [by rewrite delete_insert_id|done| |done].
        intros b. rewrite Hip', Hlb, Hmem. cbn. rewrite at_addr_0. lia.
    + eexists. split; [reflexivity|]. apply (closes max c p); [done|done| |done].
      intros b. rewrite Hip, Hlb, Hmem. done.
  - unfold admit_connection in Had. fold (ip_count (p_server p) (c_addr c)) in Had.
    destruct (Z.leb_spec max (ip_count (p_server p) (c_addr c))) as [Hle|]; [|done].
    rewrite (proj2 (Z.ltb_ge _ _) Hle). cbn [andb]. eexists. split; [reflexivity|]. apply (closes max c p); [done|done| |done].
    intros a. rewrite Hip, (proj2 (Z.ltb_ge _ _) Hle). done.
Qed.

(** ** Many connections *)

(** What the connections [cs] make of [p]: each socket is closed once or served
    once. *)
Record keeps (cs : list connection) (p p' : process) : Prop := {
  k_socks : closed p' ++ (served p').*2 ≡ₚ (closed p ++ (served p).*2) ++ (c_sock <$> cs);
  k_range : counts_in_range p -> counts_in_range p';
  k_loops : p_loops p <> [] -> p_loops p' <> [];
  k_agree : agree p -> agree p';
}.

Lemma keeps_nil p : keeps [] p p.
Proof. split; try done. by rewrite app_nil_r. Qed.

Lemma keeps_app cs1 cs2 p q r : keeps cs1 p q -> keeps cs2 q r -> keeps (cs1 ++ cs2) p r.
Proof.
  intros H1 H2. split.
  - rewrite (k_socks _ _ _ H2), (k_socks _ _ _ H1), fmap_app. by rewrite app_assoc.
  - intros ?. by apply H2, H1.
  - intros ?. by apply H2, H1.
  - intros ?. by apply H2, H1.
Qed.

(** An element of a list of loops and its counterpart. *)
Lemma Forall2_same_l ls ls' l : Forall2 same_loop ls ls' -> l ∈ ls -> exists l', l' ∈ ls' /\ same_loop l l'.
Proof.
  intros Hf [i Hi]%list_elem_of_lookup_1. destruct (Forall2_lookup_l _ _ _ _ _ Hf Hi) as (l' & Hl' & Hs).
  exists l'. split; [by eapply list_elem_of_lookup_2|done].
Qed.
Lemma Forall2_same_r ls ls' l' : Forall2 same_loop ls ls' -> l' ∈ ls' -> exists l, l ∈ ls /\ same_loop l l'.
Proof.
  intros Hf [i Hi]%list_elem_of_lookup_1. destruct (Forall2_lookup_r _ _ _ _ _ Hf Hi) as (l & Hl & Hs).
  exists l. split; [by eapply list_elem_of_lookup_2|done].
Qed.

Lemma closed_keeps max c p p' : is_closed max c p p' -> keeps [c] p p'.
Proof.
  intros H. split.
  - rewrite (cl_closed _ _ _ _ H), (cl_served _ _ _ _ H). cbn. rewrite <- !app_assoc.
    apply Permutation_app_head, Permutation_app_comm.
  - intros Hr a. rewrite (cl_counts _ _ _ _ H). specialize (Hr a). unfold at_addr.
    destruct (decide _); [|lia]. destruct (_ && _); lia.
  - intros Hne Hnil. pose proof (Forall2_length _ _ _ (cl_loops _ _ _ _ H)) as Hlen. rewrite Hnil in Hlen.
    by destruct (p_loops p).
  - intros [Ha Ho He]. split.
    + intros s. rewrite (cl_active _ _ _ _ H), (Ha s). split.
      * intros (l & Hl & Hs). destruct (Forall2_same_l _ _ _ (cl_loops _ _ _ _ H) Hl) as (l' & Hl' & Hsame).
        exists l'. split; [done|]. by rewrite (same_sessions _ _ Hsame).
      * intros (l' & Hl' & Hs). destruct (Forall2_same_r _ _ _ (cl_loops _ _ _ _ H) Hl') as (l & Hl & Hsame).
        exists l. split; [done|]. by rewrite <- (same_sessions _ _ Hsame).
    + by rewrite (cl_objects _ _ _ _ H), (cl_active _ _ _ _ H).
    + intros l' Hl'. destruct (Forall2_same_r _ _ _ (cl_loops _ _ _ _ H) Hl') as (l & Hl & Hsame).
      rewrite (same_sessions _ _ Hsame), (same_epoll _ _ Hsame). by apply He.
Qed.

Lemma elem_of_insert_list {A} (ls : list A) i x y z :
  ls !! i = Some x -> z ∈ <[i := y]> ls <-> z = y \/ exists j, j <> i /\ ls !! j = Some z.
Proof.
  intros Hi. rewrite list_elem_of_lookup. split.
  - intros [j Hj]. destruct (decide (i = j)) as [<-|Hne].
    + left. rewrite list_lookup_insert_eq in Hj by by eapply lookup_lt_Some. congruence.
    + right. rewrite list_lookup_insert_ne in Hj by done. eauto.
  - intros [->|(j & Hne & Hj)].
    + exists i. apply list_lookup_insert_eq. by eapply lookup_lt_Some.
    + exists j. by rewrite list_lookup_insert_ne.
Qed.

Lemma served_keeps timeout a c p p' : is_served timeout a c p p' -> keeps [c] p p'.
Proof.
  intros H. destruct (sv_loop _ _ _ _ _ H) as (l & Hl & l' & Hls & Hs & He & _ & _).
  assert (Hin : l ∈ p_loops p) by by eapply list_elem_of_lookup_2.
  split.
  - rewrite (sv_closed _ _ _ _ _ H), (sv_served _ _ _ _ _ H), fmap_app, app_assoc. done.
  - intros Hr b. rewrite (sv_counts _ _ _ _ _ H). specialize (Hr b). unfold at_addr. destruct (decide _); lia.
  - intros Hne Hnil. rewrite Hls in Hnil. apply (f_equal length) in Hnil. rewrite length_insert in Hnil.
    by destruct (p_loops p).
  - intros [Ha Ho Hep]. split.
    + intros s. rewrite (sv_active _ _ _ _ _ H), elem_of_union, elem_of_singleton, (Ha s), Hls.
      setoid_rewrite (elem_of_insert_list _ _ _ l' _ Hl). split.
      * intros [->|(m & Hm & Hsm)]; [exists l'; split; [by left|rewrite Hs; set_solver]|].
        apply list_elem_of_lookup_1 in Hm as [j Hj]. destruct (decide (j = best_loop (EventLoop.m_active_sessions <$> p_loops p))) as [->|Hne].
        -- exists l'. split; [by left|]. rewrite Hj in Hl. injection Hl as ->. rewrite Hs. set_solver.
        -- exists m. split; [right; eauto|done].
      * intros (m & [->|(j & _ & Hj)] & Hsm); [|right; exists m; split; [by eapply list_elem_of_lookup_2|done]].
        rewrite Hs, elem_of_union, elem_of_singleton in Hsm. destruct Hsm as [->|?]; [by left|right; eauto].
    + by rewrite (sv_objects _ _ _ _ _ H), (sv_active _ _ _ _ _ H), dom_insert_L, Ho.
    + intros m. rewrite Hls, (elem_of_insert_list _ _ _ l' _ Hl). intros [->|(j & _ & Hj)].
      * rewrite Hs, He. specialize (Hep l Hin). set_solver.
      * apply Hep. by eapply list_elem_of_lookup_2.
Qed.

(** The connections that are accepted before the server is told to stop. *)
Fixpoint accepted_of (cs : list (bool * connection)) : list connection :=
  match cs with
  | [] => []
  | (shutdown, c) :: cs' => if (shutdown : bool) then [] else c :: accepted_of cs'
  end.
Definition accepted_by (e : listen_event) : list connection :=
  if negb (Z.land (e_events e) (Z.lor EPOLLIN EPOLLPRI) =? 0) then accepted_of (e_connections e) else [].

(** A process that can accept. *)
Record ready (p : process) : Prop := {
  rd_range : counts_in_range p;
  rd_loops : p_loops p <> [];
  rd_agree : agree p;
}.
Lemma keeps_ready cs p q : ready p -> keeps cs p q -> ready q.
Proof. intros [Hr Hl Ha] Hk. split; by apply Hk. Qed.

Lemma accepted_keeps max timeout c p p' : accepted_one max timeout c p p' -> keeps [c] p p'.
Proof. unfold accepted_one. destruct (_ && _); [apply served_keeps|apply closed_keeps]. Qed.

(** A relation that every connection establishes holds of all of them. *)
Class chains (max : Z) (R : list connection -> process -> process -> Prop) : Prop := {
  chains_nil p : R [] p p;
  chains_app cs1 cs2 p q r : R cs1 p q -> R cs2 q r -> R (cs1 ++ cs2) p r;
  chains_one timeout c p p' : ready p -> accepted_one max timeout c p p' -> R [c] p p';
}.
Global Instance chains_true max : chains max (fun _ _ _ => True).
Proof. by split. Qed.

Lemma accept_all_keeps R max timeout cs p `{!chains max R} :
  max < 2 ^ 32 -> ready p ->
  exists p', accept_all max timeout cs p = Some p' /\ keeps (accepted_of cs) p p' /\ R (accepted_of cs) p p'.
Proof.
  intros Hm. revert p. induction cs as [|[[] c] cs IH]; intros p Hr; cbn [accept_all accepted_of] in *;
    [exists p; by split_and!; [|apply keeps_nil|apply chains_nil]..|].
  destruct (accept_one_outcome max timeout c p) as (q & Hq & Hout);
    [done|apply Hr|apply new_address_unknown, Hr|apply Hr|].
  pose proof (accepted_keeps _ _ _ _ _ Hout) as Hk.
  destruct (IH q) as (r & Hrun & Hkr & HR); [by eapply keeps_ready|].
  exists r. rewrite Hq. split; [done|]. split; [by apply (keeps_app [c] (accepted_of cs) p q)|].
  apply (chains_app [c] (accepted_of cs) p q r); [by eapply chains_one|done].
Qed.

Section turns.
Variables (st : settings) (https4 https6 : Z).

Definition event_error (e : listen_event) : bool :=
  negb (Z.land (e_events e) (Z.lor EPOLLERR (Z.lor EPOLLHUP EPOLLRDHUP)) =? 0).

(** The connections of a turn: those before the first error of a socket. *)
Fixpoint accepted_in_turn (es : list listen_event) : list connection :=
  match es with
  | [] => []
  | e :: es' => if event_error e then [] else accepted_by e ++ accepted_in_turn es'
  end.
Definition turn_result (es : list listen_event) : outcome exn unit :=
  if existsb event_error es then Throw listen_error else Ok tt.

Lemma listen_event_keeps R e p `{!chains (max_connections_per_ip st) R} :
  max_connections_per_ip st < 2 ^ 32 -> event_error e = false -> ready p ->
  exists p', listen_socket_event st https4 https6 e p = (Ok tt, p') /\ keeps (accepted_by e) p p' /\ R (accepted_by e) p p'.
Proof.
  intros Hm He. unfold listen_socket_event, accepted_by. unfold event_error in He. rewrite He.
  destruct (negb (Z.land _ (Z.lor EPOLLIN _) =? 0)); [|exists p; by split_and!; [|apply keeps_nil|apply chains_nil]]. intros Hr.
  destruct (accept_all_keeps R _ (accept_timeout st https4 https6 (e_fd e)) (e_connections e) _ Hm Hr) as (p' & -> & Hk). eauto.
Qed.

Lemma listen_events_keep R es p `{!chains (max_connections_per_ip st) R} :
  max_connections_per_ip st < 2 ^ 32 -> ready p ->
  exists p', listen_events st https4 https6 es p = (turn_result es, p') /\
    keeps (accepted_in_turn es) p p' /\ R (accepted_in_turn es) p p'.
Proof.
  intros Hm. unfold turn_result. revert p. induction es as [|e es IH]; intros p; cbn [listen_events accepted_in_turn existsb];
    [exists p; by split_and!; [|apply keeps_nil|apply chains_nil]|].
  unfold mbind, M_bind. destruct (event_error e) eqn:He; cbn [orb]; intros Hr.
  { exists p. unfold listen_socket_event, event_error in *. rewrite He.
    by split_and!; [|apply keeps_nil|apply chains_nil]. }
  destruct (listen_event_keeps R e p Hm He) as (q & -> & Hq & HRq); [done|].
  destruct (IH q) as (r & Hrun & Hkr & HR); [by eapply keeps_ready|].
  exists r. split; [done|]. split; [by apply (keeps_app _ _ p q)|by apply (chains_app _ _ p q)].
Qed.

(** C36: A turn of the accept loop, from a process in which the server, the event
    loops and the memory agree about the sessions, with a limit per
    address that is a uint32_t, over any events and connections, with
    refusals, failed allocations, failed socket options and failed
    registrations among them, always ends, with an exception exactly when
    a listening socket has an error; every socket accepted before that is
    closed exactly once or served by exactly one session, and the three
    agree again, with addresses of deleted sessions used again; memory is
    trimmed exactly in a turn without events, with at most one session,
    that is not in an idle period in which it was trimmed, and only a turn
    with events ends that period. *)
Theorem accept_turn_accounts es trimmed p :
  max_connections_per_ip st < 2 ^ 32 -> ready p ->
  let '(o, p') := accept_turn st https4 https6 es trimmed p in
  closed p' ++ (served p').*2 ≡ₚ (closed p ++ (served p).*2) ++ (c_sock <$> accepted_in_turn es) /\ ready p' /\
  match o with
  | Ok (trim, trimmed') =>
      existsb event_error es = false /\
      (trim = true <-> es = [] /\ trimmed = false /\ m_active_sessions_count (p_server p) <= 1) /\
      (trimmed' = true <-> es = [] /\ (trimmed = true \/ trim = true))
  | Throw e => existsb event_error es = true /\ e = listen_error
  | Diverge => False
  end.
Proof.
  intros Hm Hr. destruct (listen_events_keep (fun _ _ _ => True) es p Hm Hr) as (p' & Hrun & Hk & _).
  unfold accept_turn, mbind, M_bind, gets. rewrite Hrun. unfold turn_result.
  destruct (existsb event_error es); (split; [by apply Hk|]; split; [by eapply keeps_ready|]); [done|].
  split; [done|]. split; [rewrite !andb_true_iff, bool_decide_eq_true, negb_true_iff, Z.leb_le; tauto|].
  case_bool_decide; [|naive_solver]. destruct trimmed, (_ <=? _); naive_solver.
Qed.
End turns.

(** ** Samples

    Two loops, and three connections: one cannot be registered, the next has its
    address and is served, and the third is over the limit of its client. *)

Definition sample_process : process := mk_process new_server [new_event_loop; new_event_loop] ∅ [] [].
Definition sample_connection (sock session : Z) (added : bool) : connection :=
  mk_connection sock (bs "10.0.0.7") session true true added 1000 [500].
Definition one_per_ip : settings :=
  mk_settings 10 5 5 2 false 8080 8443 20000 1 true false [] NO_ID NO_ID.
Definition sample_events : list listen_event :=
  [mk_listen_event 3 EPOLLIN [(false, sample_connection 20 1 false); (false, sample_connection 21 1 true)];
   mk_listen_event 4 EPOLLIN [(false, sample_connection 22 3 true)]].

Lemma sample_ready : ready sample_process.
Proof.
  assert (Hl : forall l, l ∈ p_loops sample_process -> l = new_event_loop).
  { intros l [->|Hl]%elem_of_cons; [done|]. by apply list_elem_of_singleton in Hl. }
  split; [intros a; unfold ip_count; cbn; by rewrite lookup_empty|done|]. split.
  - intros s. split; [by intros ?%not_elem_of_empty|]. intros (l & ->%Hl & Hs). by apply not_elem_of_empty in Hs.
  - apply dom_empty_L.
  - intros l ->%Hl. done.
Qed.

Lemma accept_turn_accounts_witness :
  let p' := (accept_turn one_per_ip 4 6 sample_events false sample_process).2 in
  closed p' ++ (served p').*2 ≡ₚ [] ++ [20; 21; 22] /\ ready p'.
Proof.
  cbn zeta. pose proof (accept_turn_accounts one_per_ip 4 6 sample_events false sample_process) as H.
  destruct (accept_turn one_per_ip 4 6 sample_events false sample_process) as [o p'].
  destruct H as (H1 & H2 & _).
  - vm_compute. reflexivity.
  - apply sample_ready.
  - split; [exact H1|exact H2].
Defined.

(** What becomes of the sample: 20 and 22 are closed, 21 is served. *)
Example sample_turn :
  match accept_turn one_per_ip 4 6 sample_events false sample_process with
  | (Ok _, p) => closed p = [20; 22] /\ served p = [(1, 21)]
  | _ => False
  end.
Proof. vm_compute. done. Qed.
