(* ===== verification/Shutdown.v ===== *)
(** * The end of the server: the tail of server::exec and ~sessions_event_loop
    (server.cpp, sessions_event_loop.cpp)

    The life of a server as the sequence of what its threads do to the sessions:
    turns of the accept loop, deletions by the event loops, and at last the
    shutdown.  Their interleaving within a step is in [LoopThreads] and
    [Server].  A session may have the address of one that was deleted. *)

From stdpp Require Import sorting.
From S2P Require Import Prelude Utils Http EventLoop Server Config AcceptLoop.

Local Open Scope Z_scope.

(** ** Destroying the event loops *)

(** A [std::set] of pointers is in their order. *)
Definition set_order (sessions : gset Z) : list Z := merge_sort Z.le (elements sessions).

(** The loop of [~sessions_event_loop]: [it] is what the iterator has ahead of
    it.  [None]: it points to an element that is gone. *)
Fixpoint delete_sessions (i : nat) (it : list Z) (p : process) : option process :=
  match it with
  | [] => Some p
  | session :: it' =>
      l ← p_loops p !! i;
      if decide (session ∈ m_sessions l)
      then session_destructor i session p ≫= delete_sessions i it'
      else None
  end.
Definition loop_destructor (i : nat) (p : process) : option process :=
  let p := on_loop i shutdown_loop p in
  l ← p_loops p !! i; delete_sessions i (set_order (m_sessions l)) p.

(** [event_loops.reset()]: an array is destroyed from its end. *)
Fixpoint reset_event_loops (n : nat) (p : process) : option process :=
  match n with
  | O => Some p
  | S n' => loop_destructor n' p ≫= reset_event_loops n'
  end.

(** [for (auto &session : m_active_sessions) delete session;]: the destructor
    erases the session the loop is at, so this is defined for an empty set
    only. *)
Definition delete_active (p : process) : option process :=
  if decide (m_active_sessions (p_server p) = ∅) then Some p else None.

(** [exec] after its loop. *)
Definition shut_down (p : process) : option process :=
  let p := mk_process (p_server p) (shutdown_loop <$> p_loops p) (objects p) (closed p) (served p) in
  reset_event_loops (length (p_loops p)) p ≫= delete_active.

(** A session that ended, at the end of a turn of its event loop. *)
Definition loop_deletes (i : nat) (session : Z) (p : process) : option process :=
  session_destructor i session (on_loop i (fun l => (take_deleted (delete_later session false l)).2) p).

(** ** What holds between the steps *)

(** The sessions of a client. *)
Definition at_address (a : bytes) (sessions : gmap Z connection) : gmap Z connection :=
  filter (fun sc => c_addr sc.2 = a) sessions.

Record tidy (max : Z) (p : process) : Prop := {
  t_agree : agree p;
  t_disjoint i j l m s : p_loops p !! i = Some l -> p_loops p !! j = Some m -> s ∈ m_sessions l -> s ∈ m_sessions m -> i = j;
  t_counts a : Z.of_nat (size (at_address a (objects p))) <= ip_count (p_server p) a <= max;
}.

(** The session [s] of loop [i] is gone, and its socket closed. *)
Record removed (i : nat) (s : Z) (c : connection) (p p' : process) : Prop := {
  r_was : objects p !! s = Some c;
  r_objects : objects p' = delete s (objects p);
  r_active : m_active_sessions (p_server p') = m_active_sessions (p_server p) ∖ {[s]};
  r_counts a : ip_count (p_server p') a = ip_count (p_server p) a - at_addr a (c_addr c) 1;
  r_loops : exists l l', p_loops p !! i = Some l /\ p_loops p' = <[i := l']> (p_loops p) /\
    s ∈ m_sessions l /\ m_sessions l' = m_sessions l ∖ {[s]} /\ epoll_set l' ⊆ epoll_set l ∖ {[s]};
  r_closed : closed p' = closed p ++ [c_sock c];
}.

Lemma at_address_add a s c o :
  o !! s = None -> Z.of_nat (size (at_address a (<[s := c]> o))) = Z.of_nat (size (at_address a o)) + at_addr a (c_addr c) 1.
Proof.
  intros Hs. unfold at_address, at_addr. rewrite map_filter_insert. cbn. destruct (decide (c_addr c = a)) as [<-|Hne].
  - rewrite decide_True, map_size_insert_None by (done || by apply map_lookup_filter_None_2; left). lia.
  - rewrite decide_False, delete_id by done. lia.
Qed.
Lemma at_address_remove a s c o :
  o !! s = Some c -> Z.of_nat (size (at_address a (delete s o))) = Z.of_nat (size (at_address a o)) - at_addr a (c_addr c) 1.
Proof.
  intros Hs. pose proof (at_address_add a s c (delete s o) (lookup_delete_eq _ _)) as H.
  rewrite insert_delete_id in H by done. lia.
Qed.

Lemma removed_tidy max i s c p p' : tidy max p -> removed i s c p p' -> tidy max p'.
Proof.
  intros Ht Hr. destruct (r_loops _ _ _ _ _ Hr) as (l & l' & Hl & Hls & Hs & Hs' & He).
  assert (Hlook : forall j m, p_loops p' !! j = Some m -> exists m0, p_loops p !! j = Some m0 /\
    m_sessions m = m_sessions m0 ∖ {[s]} /\ epoll_set m ⊆ m_sessions m).
  { pose proof (fun j m Hm => ag_epoll _ (t_agree _ _ Ht) m (list_elem_of_lookup_2 _ j _ Hm)) as Hep. intros j m. rewrite Hls. destruct (decide (i = j)) as [<-|Hne].
    - rewrite list_lookup_insert_eq by by eapply lookup_lt_Some. intros [= <-]. exists l. specialize (Hep _ _ Hl). set_solver.
    - rewrite list_lookup_insert_ne by done. intros Hm. exists m. split; [done|]. specialize (Hep _ _ Hm).
      assert (s ∉ m_sessions m) by (intros Hsm; apply Hne; by eapply (t_disjoint _ _ Ht)). set_solver. }
  split.
  - split; [|by rewrite (r_objects _ _ _ _ _ Hr), (r_active _ _ _ _ _ Hr), dom_delete_L, (ag_objects _ (t_agree _ _ Ht))|].
    + intros s'. rewrite (r_active _ _ _ _ _ Hr), elem_of_difference, elem_of_singleton, (ag_loops _ (t_agree _ _ Ht) s'). split.
      * intros [(m & Hm & Hsm) Hne]. apply list_elem_of_lookup_1 in Hm as [j Hj].
        destruct (lookup_lt_is_Some_2 (p_loops p') j) as [m' Hm'].
        { rewrite Hls, length_insert. by eapply lookup_lt_Some. }
        destruct (Hlook j m' Hm') as (m0 & Hm0 & Heq & _). exists m'. split; [by eapply list_elem_of_lookup_2|].
        rewrite Heq. assert (m0 = m) as -> by congruence. set_solver.
      * intros (m' & Hm' & Hsm'). apply list_elem_of_lookup_1 in Hm' as [j Hj]. destruct (Hlook j m' Hj) as (m0 & Hm0 & Heq & _).
        rewrite Heq, elem_of_difference, elem_of_singleton in Hsm'. destruct Hsm' as [Hin Hne]. split; [|done].
        exists m0. split; [by eapply list_elem_of_lookup_2|done].
    + intros m [j Hj]%list_elem_of_lookup_1. by destruct (Hlook j m Hj) as (_ & _ & _ & ?).
  - intros j k m1 m2 s' H1 H2 Hs1 Hs2. destruct (Hlook _ _ H1) as (n1 & Hn1 & Heq1 & _), (Hlook _ _ H2) as (n2 & Hn2 & Heq2 & _).
    rewrite Heq1 in Hs1. rewrite Heq2 in Hs2. eapply (t_disjoint _ _ Ht _ _ _ _ s' Hn1 Hn2); set_solver.
  - intros a. rewrite (r_objects _ _ _ _ _ Hr), (r_counts _ _ _ _ _ Hr), (at_address_remove a s c) by apply Hr.
    pose proof (t_counts _ _ Ht a). unfold at_addr in *. destruct (decide _); lia.
Qed.

Lemma counted max p s c :
  tidy max p -> objects p !! s = Some c -> 0 < ip_count (p_server p) (c_addr c) <= max.
Proof.
  intros Ht Hs. pose proof (t_counts _ _ Ht (c_addr c)) as Hc. pose proof (at_address_remove (c_addr c) s c _ Hs) as Hr.
  unfold at_addr in Hr. rewrite decide_True in Hr by done. lia.
Qed.

Lemma unregister_sets s l :
  m_sessions (unregister_session s l).2 = m_sessions l ∖ {[s]} /\ epoll_set (unregister_session s l).2 ⊆ epoll_set l /\
  (s ∈ m_sessions l -> epoll_set (unregister_session s l).2 = epoll_set l ∖ {[s]}).
Proof. unfold unregister_session. destruct (decide (s ∈ m_sessions l)); [destruct (decide _)|]; cbn; set_solver. Qed.

(** The destructor of a session of loop [i], after whatever [f] did to the loop. *)
Lemma destructor_removed max i l s p (f : event_loop -> event_loop) :
  max < 2 ^ 32 -> tidy max p -> p_loops p !! i = Some l -> s ∈ m_sessions l ->
  (m_sessions (f l) = m_sessions l /\ epoll_set (f l) ⊆ epoll_set l \/
   m_sessions (f l) = m_sessions l ∖ {[s]} /\ epoll_set (f l) ⊆ epoll_set l ∖ {[s]}) ->
  exists p' c, session_destructor i s (on_loop i f p) = Some p' /\ removed i s c p p'.
Proof.
  intros Hmax Ht Hl Hs Hf.
  assert (exists c, objects p !! s = Some c) as [c Hobj].
  { apply elem_of_dom. rewrite (ag_objects _ (t_agree _ _ Ht)). apply (ag_loops _ (t_agree _ _ Ht)).
    exists l. split; [by eapply list_elem_of_lookup_2|done]. }
  pose proof (counted _ _ _ _ Ht Hobj) as Hc.
  destruct (deleted_counts s (c_addr c) (p_server p)) as (sv & Hsv & Ha & Hi); [lia|].
  unfold session_destructor. cbn [objects on_loop]. rewrite Hobj. cbn [mbind option_bind]. rewrite !on_loop_twice.
  unfold base_destructor. cbn [p_server close_sock on_loop]. rewrite Hsv.
  eexists _, c. split; [reflexivity|]. split; [done..| |done].
  cbn [p_loops with_server with_objects close_sock on_loop]. set (l1 := foldl (fun l d => notify_deadline d l) (f l) (c_published c)).
  pose proof (notify_all_same (c_published c) (f l)) as Hn. fold l1 in Hn.
  exists l, (unregister_session s l1).2. split; [done|]. split.
  { rewrite list_insert_alter. apply list_alter_ext; [|done]. intros l0 Hl0.
    assert (l0 = l) as -> by congruence. reflexivity. }
  split; [done|]. rewrite <- (same_sessions _ _ Hn), <- (same_epoll _ _ Hn) in Hf. fold l1 in Hf. clearbody l1.
  destruct (unregister_sets s l1) as (-> & Hsub & Hout). destruct Hf as [[Hm He]|[Hm He]].
  - rewrite Hm, Hout by by rewrite Hm. clear -He. set_solver.
  - rewrite Hm. clear -Hsub He. split; set_solver.
Qed.

(** The sockets that are open in a session or closed. *)
Definition sockets (p : process) : list Z :=
  closed p ++ (c_sock ∘ snd <$> map_to_list (objects p)).

Lemma removed_sockets i s c p p' : removed i s c p p' -> sockets p' ≡ₚ sockets p.
Proof.
  intros Hr. unfold sockets. rewrite (r_closed _ _ _ _ _ Hr), (r_objects _ _ _ _ _ Hr), <- app_assoc. apply Permutation_app_head.
  by rewrite <- (map_to_list_delete (objects p) s c (r_was _ _ _ _ _ Hr)).
Qed.

(** What a step leaves of a process whose sessions are removed. *)
Definition unwinds (max : Z) (p p' : process) : Prop := tidy max p' /\ sockets p' ≡ₚ sockets p.

Lemma removed_unwinds max i s c p p' : tidy max p -> removed i s c p p' -> unwinds max p p'.
Proof. split; [by eapply removed_tidy|by eapply removed_sockets]. Qed.

Lemma on_loop_id i p : on_loop i id p = p.
Proof. destruct p. unfold on_loop. cbn. f_equal. by apply list_alter_id. Qed.

(** Other loops are as they were. *)
Definition others (i : nat) (p p' : process) : Prop :=
  length (p_loops p') = length (p_loops p) /\ forall j, j <> i -> p_loops p' !! j = p_loops p !! j.

Lemma delete_sessions_all max i it p l :
  max < 2 ^ 32 -> tidy max p -> p_loops p !! i = Some l -> NoDup it -> (forall s, s ∈ it <-> s ∈ m_sessions l) ->
  exists p' l', delete_sessions i it p = Some p' /\ unwinds max p p' /\ others i p p' /\
    p_loops p' !! i = Some l' /\ m_sessions l' = ∅.
Proof.
  intros Hmax. revert p l. induction it as [|s it IH]; intros p l Ht Hl Hnd Hit; cbn [delete_sessions].
  - exists p, l. split_and!; [done|by split|done|done|]. apply set_eq. intros s. rewrite <- Hit. set_solver.
  - apply NoDup_cons in Hnd as [Hs Hnd]. rewrite Hl. cbn [mbind option_bind].
    assert (Hin : s ∈ m_sessions l) by (apply Hit; by left). rewrite decide_True by done.
    destruct (destructor_removed max i l s p id Hmax Ht Hl Hin) as (q & c & Hq & Hr); [by left|].
    rewrite on_loop_id in Hq. rewrite Hq. cbn [mbind option_bind].
    destruct (removed_unwinds _ _ _ _ _ _ Ht Hr) as [Htq Hsq].
    destruct (r_loops _ _ _ _ _ Hr) as (l0 & l1 & Hl0 & Hls & _ & Hl1 & _). assert (l0 = l) as -> by congruence.
    assert (Hl1' : p_loops q !! i = Some l1) by (rewrite Hls; apply list_lookup_insert_eq; by eapply lookup_lt_Some).
    destruct (IH q l1 Htq Hl1' Hnd) as (p' & l' & Hrun & [Ht' Hs'] & [Hlen Ho] & Hl' & He).
    { intros s'. rewrite Hl1, elem_of_difference, elem_of_singleton, <- Hit, elem_of_cons.
      split; [intros Hin'; split; [by right|by intros ->]|]. intros [[->|?] ?]; done. }
    exists p', l'. split_and!; [done|split; [done|by etrans]| |done|done]. split.
    + by rewrite Hlen, Hls, length_insert.
    + intros j Hj. rewrite Ho, Hls by done. by rewrite list_lookup_insert_ne.
Qed.

Lemma shutdown_loop_tidy max p (f : list event_loop -> list event_loop) :
  tidy max p -> (forall j m, f (p_loops p) !! j = Some m -> exists m0, p_loops p !! j = Some m0 /\ m_sessions m = m_sessions m0 /\ epoll_set m = epoll_set m0) ->
  (forall j m0, p_loops p !! j = Some m0 -> exists m, f (p_loops p) !! j = Some m /\ m_sessions m = m_sessions m0) ->
  tidy max (mk_process (p_server p) (f (p_loops p)) (objects p) (closed p) (served p)).
Proof.
  intros Ht H1 H2. split; cbn.
  - split; [|apply (ag_objects _ (t_agree _ _ Ht))|].
    + intros s. cbn. rewrite (ag_loops _ (t_agree _ _ Ht) s). split; intros (m & [j Hj]%list_elem_of_lookup_1 & Hs).
      * destruct (H2 _ _ Hj) as (m' & Hm' & Heq). exists m'. split; [by eapply list_elem_of_lookup_2|by rewrite Heq].
      * destruct (H1 _ _ Hj) as (m' & Hm' & Heq & _). exists m'. split; [by eapply list_elem_of_lookup_2|by rewrite <- Heq].
    + cbn. intros m [j Hj]%list_elem_of_lookup_1. destruct (H1 _ _ Hj) as (m' & Hm' & -> & ->).
      apply (ag_epoll _ (t_agree _ _ Ht)). by eapply list_elem_of_lookup_2.
  - intros i j l m s Hl Hm Hs1 Hs2. destruct (H1 _ _ Hl) as (l0 & Hl0 & Heq1 & _), (H1 _ _ Hm) as (m0 & Hm0 & Heq2 & _).
    rewrite Heq1 in Hs1. rewrite Heq2 in Hs2. by eapply (t_disjoint _ _ Ht).
  - apply (t_counts _ _ Ht).
Qed.

Lemma loop_destructor_empties max i p :
  max < 2 ^ 32 -> tidy max p -> (i < length (p_loops p))%nat ->
  exists p' l', loop_destructor i p = Some p' /\ unwinds max p p' /\ others i p p' /\
    p_loops p' !! i = Some l' /\ m_sessions l' = ∅.
Proof.
  intros Hmax Ht Hi. destruct (lookup_lt_is_Some_2 _ _ Hi) as [l Hl]. unfold loop_destructor.
  set (p1 := on_loop i shutdown_loop p).
  assert (Hl1 : p_loops p1 !! i = Some (shutdown_loop l)) by (cbn; by rewrite list_lookup_alter_eq, Hl).
  assert (Ht1 : tidy max p1).
  { apply (shutdown_loop_tidy max p (alter shutdown_loop i) Ht).
    - intros j m. destruct (decide (i = j)) as [<-|Hne].
      + rewrite list_lookup_alter_eq, Hl. intros [= <-]. by exists l.
      + rewrite list_lookup_alter_ne by done. eauto.
    - intros j m0 Hm0. destruct (decide (i = j)) as [<-|Hne].
      + rewrite list_lookup_alter_eq, Hm0. eexists. split; [done|]. done.
      + rewrite list_lookup_alter_ne by done. eauto. }
  rewrite Hl1. cbn [mbind option_bind].
  destruct (delete_sessions_all max i (set_order (m_sessions (shutdown_loop l))) p1 (shutdown_loop l) Hmax Ht1 Hl1)
    as (p' & l' & Hrun & Hun & [Hlen Ho] & Hl' & He).
  - unfold set_order. rewrite merge_sort_Permutation. apply NoDup_elements.
  - intros s. unfold set_order. by rewrite merge_sort_Permutation, elem_of_elements.
  - exists p', l'. split_and!; [done|done| |done|done]. split.
    + rewrite Hlen. apply length_alter.
    + intros j Hj. rewrite Ho by done. cbn. by rewrite list_lookup_alter_ne.
Qed.

Lemma reset_event_loops_empties max n p :
  max < 2 ^ 32 -> tidy max p -> (n <= length (p_loops p))%nat ->
  exists p', reset_event_loops n p = Some p' /\ unwinds max p p' /\ length (p_loops p') = length (p_loops p) /\
    (forall j, (n <= j)%nat -> p_loops p' !! j = p_loops p !! j) /\
    (forall j m, (j < n)%nat -> p_loops p' !! j = Some m -> m_sessions m = ∅).
Proof.
  intros Hmax. revert p. induction n as [|n IH]; intros p Ht Hn; cbn [reset_event_loops].
  { exists p. split_and!; [done|by split|done|done|]. intros j m Hj. lia. }
  destruct (loop_destructor_empties max n p Hmax Ht) as (q & l & Hq & [Htq Hsq] & [Hlen Ho] & Hl & He); [lia|].
  rewrite Hq. cbn [mbind option_bind]. destruct (IH q Htq) as (p' & Hrun & [Ht' Hs'] & Hlen' & Hge & Hlt); [lia|].
  exists p'. split_and!; [done|split; [done|by etrans]|lia| |].
  - intros j Hj. rewrite Hge by lia. apply Ho. lia.
  - intros j m Hj Hm. destruct (decide (j = n)) as [->|Hne]; [|apply (Hlt j); [lia|done]].
    rewrite Hge in Hm by lia. congruence.
Qed.

Lemma reset_event_loops_closes max p :
  max < 2 ^ 32 -> tidy max p ->
  exists p', reset_event_loops (length (p_loops p)) p = Some p' /\ m_active_sessions (p_server p') = ∅ /\
    closed p' ≡ₚ sockets p /\ Forall (fun l => m_sessions l = ∅) (p_loops p').
Proof.
  intros Hmax Ht.
  destruct (reset_event_loops_empties max (length (p_loops p)) p Hmax Ht (le_n _)) as (p' & Hrun & [Ht' Hs'] & Hlen & _ & Hlt).
  assert (Hempty : Forall (fun l => m_sessions l = ∅) (p_loops p')).
  { apply Forall_lookup. intros j m Hm. apply (Hlt j); [|done]. rewrite <- Hlen. by eapply lookup_lt_Some. }
  assert (Hact : m_active_sessions (p_server p') = ∅).
  { apply set_eq. intros s. rewrite (ag_loops _ (t_agree _ _ Ht') s). split; [|set_solver]. intros (l & Hl & Hs).
    rewrite Forall_forall in Hempty. rewrite (Hempty l Hl) in Hs. done. }
  exists p'. split_and!; [done|done| |done]. rewrite <- (Hs' : sockets p' ≡ₚ sockets p). unfold sockets.
  assert (objects p' = ∅) as -> by (apply dom_empty_inv_L; by rewrite (ag_objects _ (t_agree _ _ Ht'))).
  by rewrite map_to_list_empty, app_nil_r.
Qed.

Lemma shut_down_closes max p :
  max < 2 ^ 32 -> tidy max p ->
  exists p', shut_down p = Some p' /\ m_active_sessions (p_server p') = ∅ /\ closed p' ≡ₚ sockets p /\
    Forall (fun l => m_sessions l = ∅) (p_loops p').
Proof.
  intros Hmax Ht. unfold shut_down. set (p1 := mk_process _ _ _ _ _).
  assert (Ht1 : tidy max p1).
  { apply (shutdown_loop_tidy max p (fmap shutdown_loop) Ht).
    - intros j m (m0 & -> & Hm0)%list_lookup_fmap_Some. by exists m0.
    - intros j m0 Hm0. exists (shutdown_loop m0). by rewrite list_lookup_fmap, Hm0. }
  destruct (reset_event_loops_closes max p1 Hmax Ht1) as (p' & Hrun & Hact & Hcl & Hls).
  exists p'. rewrite Hrun. cbn [mbind option_bind]. unfold delete_active. rewrite decide_True by done. done.
Qed.

(** ** Accepting *)

(** Every connection leaves a tidy process, with its socket in it once. *)
Definition takes_in (max : Z) (cs : list connection) (p p' : process) : Prop :=
  tidy max p -> tidy max p' /\ sockets p' ≡ₚ sockets p ++ (c_sock <$> cs).

Lemma closed_takes_in max c p p' : is_closed max c p p' -> takes_in max [c] p p'.
Proof.
  intros H Ht. split.
  - split.
    + apply (k_agree _ _ _ (closed_keeps _ _ _ _ H)), Ht.
    + intros i j l m s Hl Hm Hs1 Hs2.
      destruct (Forall2_lookup_r _ _ _ _ _ (cl_loops _ _ _ _ H) Hl) as (l0 & Hl0 & Hsl).
      destruct (Forall2_lookup_r _ _ _ _ _ (cl_loops _ _ _ _ H) Hm) as (m0 & Hm0 & Hsm).
      rewrite (same_sessions _ _ Hsl) in Hs1. rewrite (same_sessions _ _ Hsm) in Hs2. by eapply (t_disjoint _ _ Ht).
    + intros a. rewrite (cl_objects _ _ _ _ H), (cl_counts _ _ _ _ H). pose proof (t_counts _ _ Ht a). unfold at_addr.
      destruct (decide (a = c_addr c)) as [->|]; [|lia].
      destruct (Z.ltb_spec (ip_count (p_server p) (c_addr c)) max), (c_memory c); cbn; lia.
  - unfold sockets. rewrite (cl_closed _ _ _ _ H), (cl_objects _ _ _ _ H). cbn. rewrite <- !app_assoc.
    apply Permutation_app_head, Permutation_app_comm.
Qed.

Lemma served_takes_in max timeout a c p p' :
  unknown a p -> ip_count (p_server p) (c_addr c) < max -> is_served timeout a c p p' -> takes_in max [c] p p'.
Proof.
  intros Hf Hlt H Ht. destruct (sv_loop _ _ _ _ _ H) as (l & Hl & l' & Hls & Hs & _).
  pose proof (unknown_objects _ _ Hf) as Hnew. set (i := best_loop _) in *. split.
  - split.
    + apply (k_agree _ _ _ (served_keeps _ _ _ _ _ H)), Ht.
    + assert (Hlook : forall j m s, p_loops p' !! j = Some m -> s ∈ m_sessions m ->
        (j = i /\ s = a) \/ (s <> a /\ exists m0, p_loops p !! j = Some m0 /\ s ∈ m_sessions m0)).
      { intros j m s. rewrite Hls. destruct (decide (i = j)) as [<-|Hne].
        - rewrite list_lookup_insert_eq by by eapply lookup_lt_Some. intros [= <-]. rewrite Hs, elem_of_union, elem_of_singleton.
          destruct (decide (s = a)); [by left|]. intros [?|?]; [done|]. right. eauto.
        - rewrite list_lookup_insert_ne by done. intros Hm Hsm. right. split; [|by eauto]. intros ->.
          by destruct (unknown_loops _ _ Hf m (list_elem_of_lookup_2 _ _ _ Hm)). }
      intros j k m1 m2 s H1 H2 Hs1 Hs2. destruct (Hlook _ _ _ H1 Hs1) as [[-> ->]|(Hne & m3 & Hm3 & Hs3)],
        (Hlook _ _ _ H2 Hs2) as [[-> ?]|(Hne2 & m4 & Hm4 & Hs4)]; try done. by eapply (t_disjoint _ _ Ht).
    + intros b. rewrite (sv_objects _ _ _ _ _ H), (sv_counts _ _ _ _ _ H), at_address_add by done.
      pose proof (t_counts _ _ Ht b). unfold at_addr. destruct (decide (b = c_addr c)) as [->|]; lia.
  - unfold sockets. rewrite (sv_closed _ _ _ _ _ H), (sv_objects _ _ _ _ _ H), map_to_list_insert by done. cbn.
    rewrite <- app_assoc. apply Permutation_app_head. by rewrite (Permutation_app_comm _ [c_sock c]).
Qed.

Global Instance takes_in_chains max : chains max (takes_in max).
Proof.
  split.
  - intros p Ht. split; [done|]. by rewrite app_nil_r.
  - intros cs1 cs2 p q r H1 H2 Ht. destruct (H1 Ht) as [Htq Hq], (H2 Htq) as [Htr Hr].
    split; [done|]. rewrite Hr, Hq, fmap_app. by rewrite app_assoc.
  - intros timeout c p p' Hrd Hone. pose proof (new_address_unknown c p (rd_agree _ Hrd)). unfold accepted_one in Hone.
    destruct (Z.ltb_spec (ip_count (p_server p) (c_addr c)) max); cbn [andb] in Hone.
    + destruct (_ && _) in Hone; [by eapply served_takes_in|by eapply closed_takes_in].
    + by eapply closed_takes_in.
Qed.

Lemma removed_ready max i s c p p' : tidy max p -> removed i s c p p' -> ready p -> ready p'.
Proof.
  intros Ht Hr [_ Hne _]. pose proof (removed_tidy _ _ _ _ _ _ Ht Hr) as Ht'.
  destruct (r_loops _ _ _ _ _ Hr) as (l & l' & Hl & Hls & _). split; [| |apply Ht'].
  - intros a. pose proof (t_counts _ _ Ht' a). lia.
  - intros Hnil. rewrite Hls in Hnil. apply (f_equal length) in Hnil. rewrite length_insert in Hnil. by destruct (p_loops p).
Qed.

(** ** The life of a server *)

(** What happens while the server runs: a turn of the accept loop, or a session
    of loop [i] has ended. *)
Inductive happening : Type :=
  | accepts (events : list listen_event)
  | ends (i : nat) (session : Z).

Section running.
Variables (st : settings) (https4 https6 : Z).

(** [while (!m_shutdown)] of [exec], and the event loops next to it. *)
Fixpoint live (hs : list happening) (trimmed : bool) : M process exn unit :=
  match hs with
  | [] => mret tt
  | accepts es :: hs' =>
      r ← accept_turn st https4 https6 es trimmed;
      live hs' r.2
  | ends i session :: hs' => fun p =>
      match p_loops p !! i with
      | Some l =>
          if decide (session ∈ m_sessions l)
          then match loop_deletes i session p with Some p' => live hs' trimmed p' | None => (Diverge, p) end
          else live hs' trimmed p
      | None => live hs' trimmed p
      end
  end.

(** [exec] once it is set up.  An exception leaves it, and the event loops are
    destroyed with it. *)
Definition serve_until_shutdown (hs : list happening) : M process exn unit := fun p =>
  match live hs false p with
  | (Ok _, p) => match shut_down p with Some p' => (Ok tt, p') | None => (Diverge, p) end
  | (Throw e, p) =>
      match reset_event_loops (length (p_loops p)) p with Some p' => (Throw e, p') | None => (Diverge, p) end
  | (Diverge, p) => (Diverge, p)
  end.

(** The connections of a life, and whether an error of a listening socket ended
    it. *)
Fixpoint accepted_in_life (hs : list happening) : list connection :=
  match hs with
  | [] => []
  | accepts es :: hs' => accepted_in_turn es ++ if existsb event_error es then [] else accepted_in_life hs'
  | ends _ _ :: hs' => accepted_in_life hs'
  end.
Definition fails (h : happening) : bool := match h with accepts es => existsb event_error es | ends _ _ => false end.
Definition life_result (hs : list happening) : outcome exn unit := if existsb fails hs then Throw listen_error else Ok tt.

Lemma deleted_later s l :
  s ∈ m_sessions l -> let l' := (take_deleted (delete_later s false l)).2 in
  m_sessions l' = m_sessions l ∖ {[s]} /\ epoll_set l' ⊆ epoll_set l ∖ {[s]}.
Proof.
  intros Hs. unfold take_deleted, delete_later, unregister_session. rewrite decide_True by done.
  destruct (decide (s ∈ epoll_set l)); cbn; set_solver.
Qed.

Lemma live_takes_in hs trimmed p :
  max_connections_per_ip st < 2 ^ 32 -> ready p -> tidy (max_connections_per_ip st) p ->
  exists p', live hs trimmed p = (life_result hs, p') /\ tidy (max_connections_per_ip st) p' /\
    sockets p' ≡ₚ sockets p ++ (c_sock <$> accepted_in_life hs).
Proof.
  intros Hm. unfold life_result. revert trimmed p.
  induction hs as [|[es|i s] hs IH]; intros trimmed p Hr Ht; cbn [live accepted_in_life existsb fails] in *.
  - exists p. split_and!; [done|done|]. by rewrite app_nil_r.
  - destruct (listen_events_keep st https4 https6 (takes_in (max_connections_per_ip st)) es p Hm Hr) as (q & Hrun & Hk & HR).
    destruct (HR Ht) as [Htq Hsq]. unfold accept_turn, mbind, M_bind, gets. rewrite Hrun. unfold turn_result.
    destruct (existsb event_error es); cbn [orb mret M_ret fst snd].
    { exists q. by rewrite app_nil_r. }
    match goal with |- context [live hs ?t q] => destruct (IH t q) as (p' & Hp' & Ht' & Hs') end;
      [by eapply keeps_ready|done|].
    exists p'. split_and!; [done|done|]. rewrite Hs', Hsq, fmap_app. by rewrite app_assoc.
  - destruct (p_loops p !! i) as [l|] eqn:Hl; [|by apply IH]. case_decide as Hin; [|by apply IH].
    destruct (destructor_removed (max_connections_per_ip st) i l s p
      (fun l => (take_deleted (delete_later s false l)).2) Hm Ht Hl Hin) as (q & c & Hq & Hrem).
    { right. by apply deleted_later. }
    unfold loop_deletes. rewrite Hq. destruct (removed_unwinds _ _ _ _ _ _ Ht Hrem) as [Htq Hsq].
    destruct (IH trimmed q) as (p' & Hp' & Ht' & Hs'); [by apply (removed_ready _ _ _ _ _ _ Ht Hrem)|done|].
    exists p'. split_and!; [done|done|]. by rewrite Hs', Hsq.
Qed.

(** Whatever was accepted, whatever ended in between and however it ends: at the
    end every socket has been closed once, and no session is left. *)
Lemma server_closes (hs : list happening) (p : process) :
  max_connections_per_ip st < 2 ^ 32 -> ready p -> tidy (max_connections_per_ip st) p ->
  exists p', serve_until_shutdown hs p = (life_result hs, p') /\ m_active_sessions (p_server p') = ∅ /\
    Forall (fun l => m_sessions l = ∅) (p_loops p') /\
    closed p' ≡ₚ sockets p ++ (c_sock <$> accepted_in_life hs).
Proof.
  intros Hm Hr Ht. destruct (live_takes_in hs false p Hm Hr Ht) as (q & Hq & Htq & Hsq).
  unfold serve_until_shutdown. rewrite Hq. unfold life_result. destruct (existsb fails hs).
  - destruct (reset_event_loops_closes _ q Hm Htq) as (p' & -> & Hact & Hcl & Hls).
    exists p'. split_and!; [done|done|done|]. by rewrite Hcl, Hsq.
  - destruct (shut_down_closes _ q Hm Htq) as (p' & -> & Hact & Hcl & Hls).
    exists p'. split_and!; [done|done|done|]. by rewrite Hcl, Hsq.
Qed.
End running.

(** ** The start *)

(** [server::server] and the event loops [exec] creates. *)
Definition new_process (n : nat) : process := mk_process new_server (replicate n new_event_loop) ∅ [] [].

Lemma new_process_loops n l : l ∈ p_loops (new_process n) -> l = new_event_loop.
Proof. by intros ->%elem_of_replicate_inv. Qed.

Lemma new_process_agree n : agree (new_process n).
Proof.
  split; [|apply dom_empty_L|by intros l ->%new_process_loops].
  intros s. split; [by intros ?%not_elem_of_empty|]. intros (l & ->%new_process_loops & Hs). by apply not_elem_of_empty in Hs.
Qed.
Lemma new_process_tidy max n : 0 <= max -> tidy max (new_process n).
Proof.
  intros Hm. split; [apply new_process_agree| |].
  - intros i j l m s Hl%list_elem_of_lookup_2%new_process_loops _ Hs. subst l. by apply not_elem_of_empty in Hs.
  - intros a. unfold ip_count, at_address. cbn [p_server objects new_process new_server m_connections_per_ip].
    rewrite map_filter_empty, lookup_empty, map_size_empty. cbn. lia.
Qed.

Lemma new_process_ready n : n <> O -> ready (new_process n).
Proof.
  intros Hn. split; [intros a; unfold ip_count; cbn; by rewrite lookup_empty|by destruct n|apply new_process_agree].
Qed.

(** ** A sample

    Two sessions are served, one of which ends by itself; the next connection
    gets its address; the server is shut down with two sessions open. *)

Definition sample_members (n : Z) : connection := sample_connection (19 + n) (if n =? 4 then 1 else n) true.
Definition two_per_ip : settings := mk_settings 10 5 5 2 false 8080 8443 20000 2 true false [] NO_ID NO_ID.
Definition sample_life : list happening :=
  [accepts [mk_listen_event 3 EPOLLIN [(false, sample_members 1); (false, sample_members 2); (false, sample_members 3)]];
   ends 0 1; accepts []; accepts [mk_listen_event 3 EPOLLIN [(false, sample_members 4)]]].

(** The sockets in the order they are closed: the third connection is over the
    limit, the first ends, the others are closed at the end. *)
Example sample_run :
  closed (serve_until_shutdown two_per_ip 4 6 sample_life sample_process).2 = [22; 20; 21; 23].
Proof. vm_compute. reflexivity. Qed.
