(* ===== verification/Exec.v ===== *)
(** * The process: main, server::exec and the signals (main.cpp, server.cpp)

    [exec] from the command line to its return value, composed of what [Config],
    [Server], [AcceptLoop] and [Shutdown] model, and what the signal handler makes
    of a signal. *)

From S2P Require Import Prelude Utils Charconv Http EventLoop Server Config AcceptLoop Shutdown.

Local Open Scope Z_scope.

(** ** Signals *)

Definition SIGINT : Z := 2.
Definition SIGILL : Z := 4.
Definition SIGFPE : Z := 8.
Definition SIGSEGV : Z := 11.
Definition SIGPIPE : Z := 13.
Definition SIGTERM : Z := 15.
Definition FPE_INTDIV : Z := 1.
Definition FPE_FLTDIV : Z := 3.

(** [signal_handler(sig, info)] with [si_addr] and [si_code], and [m_shutdown]
    after it.  Both classes of exceptions.h are a [std::runtime_error]. *)
Definition signal_handler (sig si_addr si_code : Z) (m_shutdown : bool) : outcome exn unit * bool :=
  if (sig =? SIGSEGV) && (si_addr =? 0)
  then (Throw (ExStd (runtime_error (bs "Segmentation fault"))), m_shutdown)
  else if (sig =? SIGFPE) && ((si_code =? FPE_INTDIV) || (si_code =? FPE_FLTDIV))
  then (Throw (ExStd (runtime_error (bs "Floating point error"))), m_shutdown)
  else if (sig =? SIGTERM) || (sig =? SIGINT) then (Ok tt, true)
  else (Throw (ExStd (runtime_error (bs "Unexpected signal " ++ to_chars 10 sig))), m_shutdown).

(** What the constructor of the server makes of the signals: those with the
    handler of the server, and those that are ignored.  [sigaction] is whether the
    call succeeds. *)
Definition handled_signals : list (Z * bytes) :=
  [(SIGFPE, bs "SIGFPE"); (SIGILL, bs "SIGILL"); (SIGINT, bs "SIGINT"); (SIGSEGV, bs "SIGSEGV"); (SIGTERM, bs "SIGTERM")].
Inductive disposition : Type := runs_handler | ignored.
Fixpoint register_handlers (sigaction : Z -> bool) (signals : list (Z * bytes)) (d : gmap Z disposition)
    : outcome exn (gmap Z disposition) :=
  match signals with
  | [] => Ok d
  | (sig, name) :: signals' =>
      if sigaction sig then register_handlers sigaction signals' (<[sig := runs_handler]> d)
      else Throw (ExStd (runtime_error (bs "Can't register " ++ name ++ bs " signal callback")))
  end.
Definition new_server_signals (sigaction : Z -> bool) : outcome exn (gmap Z disposition) :=
  d ← register_handlers sigaction handled_signals ∅; Ok (<[SIGPIPE := ignored]> d).

(** A signal that arrives; [None]: what the system does by default. *)
Definition signal_arrives (d : gmap Z disposition) (sig si_addr si_code : Z) (m_shutdown : bool)
    : option (outcome exn unit * bool) :=
  match d !! sig with
  | Some runs_handler => Some (signal_handler sig si_addr si_code m_shutdown)
  | Some ignored => Some (Ok tt, m_shutdown)
  | None => None
  end.

(** ** The event loops *)

(** The calls of the constructor that fail. *)
Record loop_calls : Type := mk_loop_calls { no_epoll : bool; not_watched : bool }.

(** [sessions_event_loop()] *)
Definition new_sessions_event_loop (calls : loop_calls) : outcome exn event_loop :=
  if no_epoll calls then Throw (ExStd (runtime_error (bs "Can't create epool handler")))
  else if not_watched calls then Throw (ExStd (runtime_error (bs "Can't register the event handler")))
  else Ok new_event_loop.

(** [make_unique<sessions_event_loop[]>(event_loops_size)] *)
Fixpoint make_event_loops (calls : nat -> loop_calls) (n : nat) : outcome exn (list event_loop) :=
  match n with
  | O => Ok []
  | S n' => loops ← make_event_loops calls n'; l ← new_sessions_event_loop (calls n'); Ok (loops ++ [l])
  end.

Lemma make_event_loops_new calls n loops :
  make_event_loops calls n = Ok loops -> loops = replicate n new_event_loop.
Proof.
  revert loops. induction n as [|n IH]; intros loops; [by intros [= <-]|]. cbn [make_event_loops mbind outcome_bind].
  destruct (make_event_loops calls n) as [ls| |]; [|done..]. rewrite (IH ls eq_refl).
  unfold new_sessions_event_loop. destruct (no_epoll _); [done|]. destruct (not_watched _); [done|].
  cbn. intros [= <-]. by rewrite replicate_cons_app.
Qed.

(** ** exec and main *)

(** What Boost makes of the command line. *)
Inductive command_line : Type :=
  | help
  | bad_option (e : std_exception)
  | options (args : arguments).

Section exec.
(** The readers of the configuration, OpenSSL, the accounts and the privileges,
    as in [Config]; the plugins as in [Server]; [fd] is the socket [bind]
    returns, [init_from_settings] what Boost.Log throws. *)
Context (as_int as_uint32 as_int64 : bytes -> option Z) (as_bool : bytes -> option bool) (ssl : openssl)
  (getpwnam : bytes -> option (Z * Z)) (getgrnam : bytes -> option Z) {creds : Type} (sys : Config.system creds)
  {B H : Type} (sort : list (server_plugin B H) -> list (server_plugin B H)) (dlerror conf_dir : bytes)
  (server_status : request B -> outcome exn (option H))
  (calls : socket_type -> Z -> bind_calls) (fd : socket_type -> Z -> Z) (sigaction : Z -> bool)
  (init_from_settings : list (bytes * bytes) -> option std_exception) (lcalls : nat -> loop_calls).
Local Abbreviation configure := (configure as_int as_uint32 as_int64 as_bool ssl getpwnam getgrnam).
Local Abbreviation start_up := (start_up as_int as_uint32 as_int64 as_bool ssl getpwnam getgrnam sys).

(** [exec] up to its loop: the settings, the plugins in their order, the
    privileges it goes on with and the event loops. *)
Definition set_up (args : arguments) (conf : option ptree) (files : list (option (library B H))) (c : creds)
    : outcome exn (settings * list (server_plugin B H) * creds * list event_loop) :=
  s ← configure (real_uid sys c) args conf;
  plugins ← server_plugins sort dlerror conf_dir files (if enable_server_status s then Some server_status else None);
  bind_all calls (listeners s) ≫= fun _ =>
  c' ← drop_privileges sys (drop_uid s) (drop_gid s) c;
  match init_from_settings (logging_settings s) with Some e => Throw (ExStd e) | None => Ok tt end ≫= fun _ =>
  loops ← make_event_loops lcalls (Z.to_nat (workers args));
  Ok (s, plugins, c', loops).

(** [m_https4_sock] or [m_https6_sock] *)
Definition https_sock (type : socket_type) (s : settings) : Z :=
  if 0 <? https_port s then fd type (https_port s) else -1.

(** [exec(argc, argv)]: its value, and the process at the end.  [hs] is what
    happens until a signal sets [m_shutdown]. *)
Definition exec (cl : command_line) (conf : option ptree) (files : list (option (library B H))) (c : creds) (hs : list happening) : outcome exn Z * process :=
  match cl with
  | help => (Ok 0, new_process 0)
  | bad_option e => (Throw (ExStd e), new_process 0)
  | options args =>
      match set_up args conf files c with
      | Ok (s, _, _, loops) =>
          (serve_until_shutdown s (https_sock IPV4 s) (https_sock IPV6 s) hs;; mret 0)
            (mk_process new_server loops ∅ [] [])
      | Throw e => (Throw e, new_process 0)
      | Diverge => (Diverge, new_process 0)
      end
  end.

(** [main]: the exit status, with every exception caught; the server is
    constructed first. *)
Definition exit_status (o : outcome exn Z) : option Z :=
  match o with Ok status => Some status | Throw _ => Some (-1) | Diverge => None end.
Definition main cl conf files c hs : option Z :=
  match new_server_signals sigaction with
  | Ok _ => exit_status (exec cl conf files c hs).1
  | Throw _ => Some (-1)
  | Diverge => None
  end.

(** ** The life of the process *)

(** Boost reads a [uint32_t]. *)
Definition reads_uint32 : Prop := forall text n, as_uint32 text = Some n -> 0 <= n < 2 ^ 32.

Lemma get_or_range path d t : reads_uint32 -> 0 <= d < 2 ^ 32 -> 0 <= get_or as_uint32 path d t < 2 ^ 32.
Proof.
  intros Hu Hd. unfold get_or. destruct (get_path path t) as [n|]; [|done].
  destruct (as_uint32 (pt_data n)) as [v|] eqn:Hv; [by apply (Hu _ _ Hv)|done].
Qed.
Lemma configure_limits uid args conf s :
  reads_uint32 -> configure uid args conf = Ok s -> 1 <= workers args /\ 0 <= max_connections_per_ip s < 2 ^ 32.
Proof.
  intros Hu. unfold Config.configure, mbind, outcome_bind. destruct (Z.ltb_spec (workers args) 1); [done|].
  destruct conf as [t|].
  - unfold read_settings, mbind, outcome_bind.
    destruct (get_child _ t) as [logging| |]; [|done..].
    destruct (https_settings _ _ _ _ _ t) as [[[[a sh] p] x]| |]; [|done..].
    destruct (privileges _ _ _ _ _ t) as [[u g]| |]; [|done..]. cbn [http_port https_port].
    destruct (_ && _); [done|]. intros [= <-]. split; [done|]. cbn [max_connections_per_ip]. by apply get_or_range.
  - cbn. intros [= <-]. done.
Qed.

(** What a set up that succeeds has done. *)
Lemma set_up_ok args conf files c s plugins c' loops :
  set_up args conf files c = Ok (s, plugins, c', loops) ->
  configure (real_uid sys c) args conf = Ok s /\ start_up args conf calls c = Ok (s, c') /\
  loops = replicate (Z.to_nat (workers args)) new_event_loop.
Proof.
  unfold set_up, Config.start_up, mbind, outcome_bind. destruct (configure _ _ _) as [s0| |]; [|done..].
  destruct (server_plugins _ _ _ _ _) as [ps| |]; [|done..]. destruct (bind_all _ _); [|done..].
  destruct (drop_privileges _ _ _ _); [|done..]. destruct (init_from_settings _); [done|].
  destruct (make_event_loops _ _) as [ls| |] eqn:Hl; [|done..]. apply make_event_loops_new in Hl. by intros [= <- _ <- <-].
Qed.

(** C27: The whole of exec, when Boost reads a uint32_t as one: when its set up
    fails, the logging included, it throws that error and has accepted
    nothing; when it succeeds, whatever connections arrive over the turns
    of the accept loop and whatever sessions end in between, with sessions
    at addresses of deleted ones too, it returns 0 once it is shut down,
    or throws when a listening socket fails. Either way the event loops
    have deleted what they still had, the iterator of their destructor
    never pointed to a session that was gone, no session was left for the
    final loop over m_active_sessions, and the socket of every accepted
    connection, served or refused, has been closed exactly once. *)
Theorem exec_closes_every_socket args conf files c hs :
  reads_uint32 ->
  let '(o, p) := exec (options args) conf files c hs in
  m_active_sessions (p_server p) = ∅ /\ Forall (fun l => m_sessions l = ∅) (p_loops p) /\
  match set_up args conf files c with
  | Ok (s, plugins, c', loops) =>
      start_up args conf calls c = Ok (s, c') /\ length loops = Z.to_nat (workers args) /\
      closed p ≡ₚ c_sock <$> accepted_in_life hs /\ o = if existsb fails hs then Throw listen_error else Ok 0
  | Throw e => closed p = [] /\ o = Throw e
  | Diverge => closed p = [] /\ o = Diverge
  end.
Proof.
  intros Hu. unfold exec.
  destruct (set_up args conf files c) as [[[[s plugins] c'] loops]| |] eqn:Hs; [|by split_and!..].
  destruct (set_up_ok _ _ _ _ _ _ _ _ Hs) as (Hc & Hst & ->). destruct (configure_limits _ _ _ _ Hu Hc) as [Hw Hm].
  set (p0 := new_process (Z.to_nat (workers args))).
  change (mk_process new_server (replicate (Z.to_nat (workers args)) new_event_loop) ∅ [] []) with p0.
  destruct (server_closes s (https_sock IPV4 s) (https_sock IPV6 s) hs p0) as (p & Hp & Hact & Hl & Hcl).
  - lia.
  - apply new_process_ready. lia.
  - apply new_process_tidy. lia.
  - unfold mbind, M_bind. rewrite Hp. unfold life_result.
    destruct (existsb fails hs); by split_and!; rewrite ?length_replicate.
Qed.
End exec.

(** ** Samples *)

(** The configuration and the user of [Config], the files of [Server], the
    connections of [Shutdown]. *)
Definition no_conversion : bytes -> option Z := fun _ => None.
Definition loops_made : nat -> loop_calls := fun _ => mk_loop_calls false false.
Definition no_log_error : list (bytes * bytes) -> option std_exception := fun _ => None.
Definition sample_exec := exec sample_port no_conversion sample_port (fun _ => None) sample_openssl sample_users
  (fun _ => None) sample_system sort_plugins [] (bs "/etc") sample_status all_bound (fun _ port => port) no_log_error loops_made.
Definition sample_main := main sample_port no_conversion sample_port (fun _ => None) sample_openssl sample_users
  (fun _ => None) sample_system sort_plugins [] (bs "/etc") sample_status all_bound (fun _ port => port) (fun _ => true) no_log_error loops_made.

Lemma exec_closes_every_socket_witness :
  let p := (sample_exec (options sample_args) (Some sample_conf) sample_files 0 sample_life).2 in
  sample_main (options sample_args) (Some sample_conf) sample_files 0 sample_life = Some 0 /\
  m_active_sessions (p_server p) = ∅ /\ closed p ≡ₚ [20; 21; 22; 23].
Proof.
  cbn zeta. split; [vm_compute; reflexivity|].
  pose proof (exec_closes_every_socket sample_port no_conversion sample_port (fun _ => None) sample_openssl sample_users
    (fun _ => None) sample_system sort_plugins [] (bs "/etc") sample_status all_bound (fun _ port => port) no_log_error loops_made
    sample_args (Some sample_conf) sample_files 0 sample_life) as Hm.
  fold sample_exec in Hm.
  destruct (sample_exec (options sample_args) (Some sample_conf) sample_files 0 sample_life) as [o p].
  destruct Hm as (Hact & _ & _ & _ & Hcl & _).
  - intros text n [=].
  - split; [exact Hact|exact Hcl].
Defined.

(** The listening socket fails after one connection: the process ends with an
    error, and still closes that one. *)
Example sample_failure :
  let hs := [accepts [mk_listen_event 3 EPOLLIN [(false, sample_members 1)]; mk_listen_event 3 EPOLLERR [];
                      mk_listen_event 3 EPOLLIN [(false, sample_members 2)]]] in
  let w := sample_exec (options sample_args) (Some sample_conf) sample_files 0 hs in
  exit_status w.1 = Some (-1) /\ closed w.2 = [20].
Proof. by vm_compute. Qed.

(** A client that is gone does not end the server, which writes to its socket. *)
Example sample_sigpipe :
  (d ← new_server_signals (fun _ => true); Ok (signal_arrives d SIGPIPE 0 0 false, signal_arrives d SIGTERM 0 0 false))
  = Ok (Some (Ok tt, false), Some (Ok tt, true)).
Proof. by vm_compute. Qed.

(** A null pointer in a handler and a division by zero are exceptions, SIGTERM
    ends the server. *)
Example sample_signals :
  signal_handler SIGSEGV 0 1 false = (Throw (ExStd (runtime_error (bs "Segmentation fault"))), false) /\
  signal_handler SIGFPE 4096 FPE_INTDIV false = (Throw (ExStd (runtime_error (bs "Floating point error"))), false) /\
  signal_handler SIGSEGV 4096 1 false = (Throw (ExStd (runtime_error (bs "Unexpected signal 11"))), false) /\
  signal_handler SIGTERM 0 0 false = (Ok tt, true).
Proof. by vm_compute. Qed.
