(* ===== verification/Serving.v ===== *)
(** * From exec to the answers of a connection

    The plugins and the settings of [exec] are what [io_loop] serves a connection
    with: [server::create_session] asks the plugins in their order. *)

From S2P Require Import Prelude Utils Charconv Http HttpParser Stream Session SessionProofs ReadProofs Pipeline Scripted EventLoop Server Config AcceptLoop Shutdown Exec.

Local Open Scope Z_scope.

(** A plugin that offers nothing but handlers that say where a body goes, read
    the request and answer. *)
Definition polite_plugin {B} (create : request B -> outcome exn (option (handler B))) : Prop :=
  forall q h, create q = Ok (Some h) -> polite h.
Definition polite_library {B} (lib : library B (handler B)) : Prop :=
  forall create, sym_create_session lib = Some create -> polite_plugin create.

Lemma loaded_polite {B} dlerror conf_dir (files : list (option (library B (handler B)))) p :
  (forall lib, Some lib ∈ files -> polite_library lib) ->
  p ∈ omap (loaded_plugin dlerror conf_dir) files -> polite_plugin (Server.create_session p).
Proof.
  intros Hfiles (f & Hf & Hp)%list_elem_of_omap. revert Hp. unfold loaded_plugin, load_plugin, load_failed.
  destruct f as [lib|]; [|done]. specialize (Hfiles lib Hf).
  destruct (match sym_init_plugin lib with Some init => _ | None => _ end) as [[[]|e|] calls]; try done.
  destruct (sym_create_session lib) as [create|] eqn:Hc; [|done]. specialize (Hfiles create Hc).
  destruct (sym_plugin_order lib) as [[order|e|]|]; try done. by intros [= <-].
Qed.

Lemma ask_plugins_offer {B H} (plugins : list (server_plugin B H)) q h :
  ask_plugins plugins q = Ok (Some h) -> exists p, p ∈ plugins /\ Server.create_session p q = Ok (Some h).
Proof.
  induction plugins as [|p plugins IH]; cbn [ask_plugins]; [done|].
  destruct (Server.create_session p q) as [[h'|]|e|] eqn:Hp; try done.
  - intros [= ->]. exists p. split; [by left|done].
  - intros (p' & Hin & Hp')%IH. exists p'. split; [by right|done].
Qed.

Section serving.
Context (as_int as_uint32 as_int64 : bytes -> option Z) (as_bool : bytes -> option bool) (ssl : openssl)
  (getpwnam : bytes -> option (Z * Z)) (getgrnam : bytes -> option Z) {creds : Type} (sys : Config.system creds)
  {B : Type} (sort : list (server_plugin B (handler B)) -> list (server_plugin B (handler B))) (dlerror conf_dir : bytes)
  (server_status : request B -> outcome exn (option (handler B)))
  (calls : socket_type -> Z -> bind_calls) (init_from_settings : list (bytes * bytes) -> option std_exception)
  (lcalls : nat -> loop_calls).
Context {W : Type} `{Hlaws : os_laws W} (tr : transport W) `{Htr : !transport_laws tr} `{Hcodes : !reports_codes tr}.
Local Abbreviation set_up := (set_up as_int as_uint32 as_int64 as_bool ssl getpwnam getgrnam sys sort dlerror conf_dir
  server_status calls init_from_settings lcalls).

Lemma set_up_plugins args conf files c s plugins c' loops :
  set_up args conf files c = Ok (s, plugins, c', loops) ->
  server_plugins sort dlerror conf_dir files (if enable_server_status s then Some server_status else None) = Ok plugins.
Proof.
  unfold Exec.set_up, mbind, outcome_bind. destruct (configure _ _ _ _ _ _ _ _ _ _) as [s0| |]; [|done..].
  destruct (server_plugins _ _ _ _ _) as [ps| |] eqn:Hp; [|done..]. destruct (bind_all _ _); [|done..].
  destruct (drop_privileges _ _ _ _); [|done..]. destruct (init_from_settings _); [done|]. destruct (make_event_loops _ _); [|done..]. by intros [= <- <- _ _].
Qed.

(** C32: Once exec has set the server up, without the status page and with plugins
    whose sessions may register a body callback, read the request and
    answer with one response and at most one more write, any connection is
    served with its timeouts by these plugins: every request is answered
    by the plugin of least order, among those that loaded, that gives any
    answer, an exception of that plugin is the answer, and plugins that
    failed to load take no part. The answers are on the wire in the order
    of the requests, however the network cuts them, and what follows them
    is a part of the next answer or of the answer to the exception the
    next request failed with. *)
Theorem server_connection args conf files c s plugins c' loops (hfuel fuel : nat) (x : session W) q0 env :
  set_up args conf files c = Ok (s, plugins, c', loops) -> sorts_plugins sort -> enable_server_status s = false ->
  (forall lib, Some lib ∈ files -> polite_library lib) -> len (unread x) < 2 ^ 64 ->
  let '(_, x') := io_loop tr (headers_timeout s) (keep_alive_timeout s) (create_plain tr hfuel (ask_plugins plugins)) fuel
                    (x, (q0, env)) in
  (forall q, answers_in_order (omap (loaded_plugin dlerror conf_dir) files) q (ask_plugins plugins q)) /\
  exists outs i' env' t, answers (keep_alive_timeout s) (ask_plugins plugins) (unread x) env outs i' env' /\
    wire (world x'.1) = wire (world x) ++ concat outs ++ t /\
    last_words (keep_alive_timeout s) (ask_plugins plugins) i' env' t.
Proof.
  intros Hset Hsort Hst Hfiles Hlen. pose proof (set_up_plugins _ _ _ _ _ _ _ _ Hset) as Hp. rewrite Hst in Hp.
  assert (Hpol : forall q h, ask_plugins plugins q = Ok (Some h) -> polite h).
  { intros q h (p & Hin & Hq)%ask_plugins_offer. revert Hp. unfold server_plugins, mbind, outcome_bind.
    destruct (load_plugins dlerror conf_dir files) as [loaded| |] eqn:Hload; [|done..]. intros [= <-].
    apply load_plugins_ok in Hload as ->. rewrite app_nil_r in Hin. destruct (Hsort (omap (loaded_plugin dlerror conf_dir) files)) as [Hperm _].
    rewrite Hperm in Hin. by apply (loaded_polite _ _ _ _ Hfiles Hin q). }
  destruct (io_loop_turns tr (keep_alive_timeout s) (ask_plugins plugins) _ Hpol (fun _ h _ => discreet_nothing h)
    (headers_timeout s) hfuel fuel x q0 env Hlen) as (outs & i' & env' & t & H1 & H2 & H3 & _).
  destruct (io_loop _ _ _ _ _ _) as [o x']. split; [|by exists outs, i', env', t].
  intros q. pose proof (plugins_in_order sort dlerror conf_dir files None plugins q Hsort Hp) as Hq. by rewrite app_nil_r in Hq.
Qed.
End serving.

(** ** A sample: a library that greets, behind one that has no page for anybody *)

Definition greeting_files : list (option (library unit (handler unit))) :=
  [Some (mk_library None (Some greets) (Some (Ok 2)) true); None;
   Some (mk_library (Some (fun _ => Ok true)) (Some (fun _ => Ok None)) (Some (Ok 1)) false)].
Definition greeting_set_up := set_up sample_port no_conversion sample_port (fun _ => None) sample_openssl sample_users
  (fun _ => None) sample_system sort_plugins [] (bs "/etc") (fun _ => Ok None) all_bound no_log_error loops_made
  sample_args (Some sample_conf) greeting_files 0.

Lemma greeting_polite_files lib : Some lib ∈ greeting_files -> polite_library lib.
Proof.
  intros Hin create Hc q h. unfold greeting_files in Hin. rewrite !elem_of_cons in Hin.
  destruct Hin as [[= ->]|[[=]|[[= ->]|Hin]]]; [| |by apply not_elem_of_nil in Hin].
  - injection Hc as <-. intros [= <-]. exact greeting_polite.
  - by injection Hc as <-.
Qed.

Lemma server_connection_witness :
  exists s plugins c' loops, greeting_set_up = Ok (s, plugins, c', loops) /\
    let '(_, x') := io_loop socket_session (headers_timeout s) (keep_alive_timeout s)
                      (create_plain socket_session 100 (ask_plugins plugins)) 100 (two_requests, (new_request, tt)) in
    (forall q, answers_in_order (omap (loaded_plugin [] (bs "/etc")) greeting_files) q (ask_plugins plugins q)) /\
    exists outs i' env' t, answers (keep_alive_timeout s) (ask_plugins plugins) (unread two_requests) tt outs i' env' /\
      wire (world x'.1) = wire (world two_requests) ++ concat outs ++ t /\
      last_words (keep_alive_timeout s) (ask_plugins plugins) i' env' t.
Proof.
  assert (Hok : match greeting_set_up with Ok (s, _, _, _) => negb (enable_server_status s) | _ => false end = true)
    by (vm_compute; reflexivity).
  assert (Hlen : len (unread two_requests) < 2 ^ 64) by (vm_compute; reflexivity).
  destruct greeting_set_up as [[[[s plugins] c'] loops]| |] eqn:Hset; try discriminate Hok.
  exists s, plugins, c', loops. split; [reflexivity|].
  apply (server_connection sample_port no_conversion sample_port (fun _ => None) sample_openssl sample_users (fun _ => None)
    sample_system sort_plugins [] (bs "/etc") (fun _ => Ok None) all_bound no_log_error loops_made socket_session
    sample_args (Some sample_conf) greeting_files 0 s plugins c' loops 100 100 two_requests new_request tt Hset).
  - apply sort_plugins_sorts.
  - by destruct (enable_server_status s).
  - exact greeting_polite_files.
  - exact Hlen.
Defined.

(** On the wire: both greetings. *)
Example greetings :
  match greeting_set_up with
  | Ok (s, plugins, _, _) =>
      bool_decide (wire (world (io_loop socket_session (headers_timeout s) (keep_alive_timeout s)
        (create_plain socket_session 100 (ask_plugins plugins)) 100 (two_requests, (new_request, tt))).2.1)
        = greeting_text ++ greeting_text)
  | _ => false
  end = true.
Proof. vm_compute. reflexivity. Qed.
