(* ===== verification/Paths.v ===== *)
(** * What the sources use of std::filesystem::path

    A path of POSIX: whether it begins at the root, its file names, and whether
    a separator follows the last of them.  Repeated separators are one. *)

From S2P Require Import Prelude.

Definition SLASH : ascii := "/"%char.
Definition dot : bytes := bs ".".
Definition dot_dot : bytes := bs "..".

Record path : Type := mk_path {
  p_root : bool;
  p_names : list bytes;
  p_dir : bool;           (** ends with a separator *)
}.

Global Instance path_eq_dec : EqDecision path.
Proof. solve_decision. Defined.

(** The names between separators, of which none is empty. *)
Fixpoint names_from (name : bytes) (s : bytes) : list bytes :=
  match s with
  | [] => match name with [] => [] | _ => [name] end
  | c :: s' =>
      if decide (c = SLASH) then match name with [] => names_from [] s' | _ => name :: names_from [] s' end
      else names_from (name ++ [c]) s'
  end.

(** [path{s}] *)
Definition path_of (s : bytes) : path :=
  let names := names_from [] s in
  mk_path (bool_decide (head s = Some SLASH)) names
    (bool_decide (names <> []) && bool_decide (last s = Some SLASH)).

(** [p.string()] *)
Fixpoint join_names (names : list bytes) : bytes :=
  match names with
  | [] => []
  | [name] => name
  | name :: names' => name ++ SLASH :: join_names names'
  end.
Definition path_string (p : path) : bytes :=
  (if p_root p then [SLASH] else []) ++ join_names (p_names p) ++ (if p_dir p then [SLASH] else []).

(** The elements a path iterates over. *)
Definition elements_of (p : path) : list bytes :=
  (if p_root p then [[SLASH]] else []) ++ p_names p ++ (if p_dir p then [[]] else []).

(** [p /= q] *)
Definition append (p q : path) : path :=
  if p_root q then q
  else match p_names q with
       | [] => mk_path (p_root p) (p_names p) (bool_decide (p_names p <> []))
       | _ => mk_path (p_root p) (p_names p ++ p_names q) (p_dir q)
       end.

(** [p.lexically_normal()]: the names so far, the last one first, and whether a
    separator is at the end of them. *)
Definition normal_step (rooted : bool) (acc : list bytes * bool) (name : bytes) : list bytes * bool :=
  if decide (name = dot) then (acc.1, true)
  else if decide (name = dot_dot) then
    match acc.1 with
    | [] => if rooted then ([], true) else ([dot_dot], false)
    | top :: names => if decide (top = dot_dot) then (dot_dot :: acc.1, false) else (names, true)
    end
  else (name :: acc.1, false).
Definition normal_names (rooted : bool) (names : list bytes) : list bytes * bool :=
  fold_left (normal_step rooted) names ([], false).
Definition lexically_normal (p : path) : path :=
  let '(rev_names, ends) := normal_names (p_root p) (p_names p) in
  if bool_decide (p_names p = []) then p
  else
    match rev_names with
    | [] => if p_root p then mk_path true [] false else mk_path false [dot] false
    | top :: _ => mk_path (p_root p) (rev rev_names) ((ends || p_dir p) && bool_decide (top <> dot_dot))
    end.

(** [boost::starts_with(p, root)]: element by element. *)
Definition path_starts_with (p root : path) : bool :=
  bool_decide (take (length (elements_of root)) (elements_of p) = elements_of root).

(** [p.extension()] *)
Definition filename (p : path) : bytes := if p_dir p then [] else default [] (last (p_names p)).
Fixpoint last_dot (s : bytes) : option nat :=
  match s with
  | [] => None
  | c :: s' => match last_dot s' with
               | Some k => Some (S k)
               | None => if decide (c = "."%char) then Some 0 else None
               end
  end.
Definition extension (p : path) : bytes :=
  let name := filename p in
  if decide (name = dot \/ name = dot_dot) then []
  else match last_dot name with
       | None | Some 0 => []
       | Some k => drop k name
       end.

Example normal_up : path_string (lexically_normal (path_of (bs "/srv/www/../../etc/./passwd"))) = bs "/etc/passwd".
Proof. reflexivity. Qed.
Example normal_dir : path_string (lexically_normal (path_of (bs "a/b/.."))) = bs "a/".
Proof. reflexivity. Qed.
Example normal_dot : path_string (lexically_normal (path_of (bs "a/.."))) = bs ".".
Proof. reflexivity. Qed.
Example normal_above : path_string (lexically_normal (path_of (bs "../../a"))) = bs "../../a".
Proof. reflexivity. Qed.
Example ext_plain : extension (path_of (bs "/a/b.tar.gz")) = bs ".gz".
Proof. reflexivity. Qed.
Example ext_hidden : extension (path_of (bs "/a/.hidden")) = [].
Proof. reflexivity. Qed.

(** ** Lemmas *)

Definition no_dots (names : list bytes) : Prop := Forall (fun n => n <> dot_dot) names.

(** A rooted path cannot climb above its root. *)
Lemma normal_names_rooted names acc :
  no_dots acc.1 -> no_dots (fold_left (normal_step true) names acc).1.
Proof.
  revert acc. induction names as [|name names IH]; intros acc Hacc; cbn [fold_left]; [done|].
  apply IH. unfold normal_step. case_decide; [done|]. case_decide; [|by constructor].
  destruct acc as [[|top rest] e]; cbn in *; [constructor|].
  apply Forall_cons in Hacc as [Ht Hr]. by rewrite decide_False.
Qed.

Lemma lexically_normal_rooted p :
  p_root p = true -> p_root (lexically_normal p) = true /\ no_dots (p_names (lexically_normal p)).
Proof.
  intros Hr. unfold lexically_normal, normal_names. rewrite Hr.
  pose proof (normal_names_rooted (p_names p) ([], false) (Forall_nil_2 _)) as Hn.
  destruct (fold_left _ _ _) as [[|top names] e]; cbn [fst] in Hn; case_bool_decide as Hnil; try done.
  - split; [done|]. rewrite Hnil. constructor.
  - split; [done|]. rewrite Hnil. constructor.
  - split; [done|]. cbn [p_names]. by apply Forall_rev.
Qed.

Lemma append_rooted p q : p_root p = true -> p_root (append p q) = true.
Proof. intros Hp. unfold append. destruct (p_root q) eqn:Hq; [done|]. by destruct (p_names q). Qed.

(** Elementwise, a path that begins with a root has its names first. *)
Lemma starts_with_names p root :
  p_root p = true -> p_root root = true -> Forall (fun n => n <> []) (p_names root) ->
  path_starts_with p root = true -> p_names root `prefix_of` p_names p.
Proof.
  unfold path_starts_with. rewrite bool_decide_eq_true. intros Hp Hr Hne Hs.
  unfold elements_of in Hs. rewrite Hr, Hp in Hs. cbn [app length take] in Hs.
  injection Hs as Hs. rewrite length_app in Hs.
  apply (f_equal (take (length (p_names root)))) in Hs. rewrite take_take, take_app_length in Hs.
  rewrite Nat.min_l in Hs by lia.
  assert (Hpre : p_names root `prefix_of` p_names p ++ (if p_dir p then [[]] else [])).
  { exists (drop (length (p_names root)) (p_names p ++ (if p_dir p then [[]] else []))).
    rewrite <- Hs at 1. by rewrite take_drop. }
  destruct (p_dir p); [|by rewrite app_nil_r in Hpre].
  destruct Hpre as [k Hk]. destruct k as [|x k _] using rev_ind.
  - rewrite app_nil_r in Hk. rewrite <- Hk in Hne. apply Forall_app in Hne as [_ Hne].
    by apply Forall_cons in Hne as [Hne _].
  - rewrite app_assoc in Hk. apply app_inj_tail in Hk as [Hk _]. by exists k.
Qed.

Lemma names_nonempty name s : Forall (fun n => n <> []) (names_from name s).
Proof.
  revert name. induction s as [|c s IH]; intros name; cbn [names_from].
  - destruct name; by repeat constructor.
  - case_decide; [|apply IH]. destruct name; [apply IH|]. constructor; [done|apply IH].
Qed.

Lemma path_of_nonempty s : Forall (fun n => n <> []) (p_names (path_of s)).
Proof. apply names_nonempty. Qed.

Lemma append_nonempty p q :
  Forall (fun n => n <> []) (p_names p) -> Forall (fun n => n <> []) (p_names q) ->
  Forall (fun n => n <> []) (p_names (append p q)).
Proof.
  intros Hp Hq. unfold append. destruct (p_root q); [done|]. destruct (p_names q) as [|n ns] eqn:E; [done|].
  by apply Forall_app.
Qed.
