(* ===== verification/TemplatePlugin.v ===== *)
(** * The plugin template: template/src/main.cpp

    A REST service over a list of device names, with the routes and handlers of
    the template.  nlohmann's JSON is a parameter: what the plugin uses of it is
    the class [json_lib].  [s_devices] is part of what the handlers work on; each
    handler touches it in one critical section, which is one step here. *)

From S2P Require Import Prelude Utils Charconv Http HttpParser BodyProofs ParserTypes Restful HandlerShapes Stream Session SessionProofs ReadProofs Pipeline Scripted Config Paths.

Local Open Scope Z_scope.

(** ** JSON *)

Class json_lib (J : Type) : Type := {
  json_parse : bytes -> option J;                  (** [json::parse]: [None] is an exception *)
  json_dump : J -> bytes + std_exception;          (** [dump()] *)
  json_elements : J -> option (list J);            (** the elements, when [is_array()] *)
  json_string : J -> option bytes;                 (** [get<std::string>()], when [is_string()] *)
  json_find : J -> bytes -> option J;              (** [find(key)] *)
  json_array : list J -> J;                        (** [json::array()] and [push_back] *)
  json_device : Z -> bytes -> J;                   (** [{{"id", index}, {"name", name}}] *)
}.

(** [std::random_device]: [None] when its constructor throws, and otherwise the
    bytes [byte(rd)] gives, each of which may throw. *)
Abbreviation entropy := (option (nat -> option Z)).

Section template.
Context {J : Type} `{json_lib J}.

(** ** Helpers *)

(** The body a handler collects, and [s_devices]. *)
Record devices : Type := mk_devices {
  body : bytes;
  s_devices : list bytes;
}.
Definition set_devices (l : list bytes) (env : devices) : devices := mk_devices (body env) l.

Definition max_body_size : Z := 512 * 1024.

Definition bad_request (msg : bytes) : exn := ExResponse (make_response 400 msg []).
Definition no_such_device : exn := ExResponse (make_response 404 [] []).

(** [device_index(device)] *)
Definition device_index (device : bytes) : outcome exn Z :=
  let '(ptr, ec, index) := from_chars device in
  if bool_decide (ec = conv_ok) && bool_decide (ptr = length device) then Ok index
  else Throw (bad_request (bs "Invalid device id")).

(** [parse_body(body)] *)
Definition parse_json (b : bytes) : outcome exn J :=
  match json_parse b with
  | Some j => Ok j
  | None => Throw (bad_request (bs "Invalid JSON body"))
  end.

(** [read_body(stream, req)] up to the read: an empty body and its callback. *)
Definition collect_body : body_callback devices := fun buff =>
  modify (fun env => mk_devices (body env ++ buff) (s_devices env)).
Definition read_body (q : request devices) (env : devices) : request devices * devices :=
  (append_body_callback q collect_body max_body_size, mk_devices [] (s_devices env)).

Definition dump (j : J) : outcome exn bytes :=
  match json_dump j with inl b => Ok b | inr e => Throw (ExStd e) end.

(** ** The handlers

    What each does before it reads the request, and after. *)

(** The critical section of [get_devices]. *)
Definition devices_json (device : option Z) (l : list bytes) : outcome exn J :=
  match device with
  | None => Ok (json_array (imap (fun i name => json_device (Z.of_nat i) name) l))
  | Some index =>
      if index <? len l then Ok (json_array [json_device index (nth (Z.to_nat index) l [])])
      else Throw no_such_device
  end.

Definition get_devices (device : option bytes) : handler devices :=
  plain_handler (fun q env => Ok (q, env))
  (fun q env =>
    (index ← (match device with
              | Some d => Some <$> device_index d
              | None => Ok None
              end);
     res ← devices_json index (s_devices env);
     text ← dump res;
     Ok (make_response 200 text [(bs "Content-Type", bs "application/json")]), env)).

Definition expected_names : exn := bad_request (bs "Expected an array of device names").

(** The loop of [post_devices] over the elements. *)
Fixpoint device_names (js : list J) : outcome exn (list bytes) :=
  match js with
  | [] => Ok []
  | j :: js' =>
      match json_string j with
      | Some name => names ← device_names js'; Ok (name :: names)
      | None => Throw expected_names
      end
  end.

Definition post_devices : handler devices :=
  plain_handler (fun q env => Ok (read_body q env))
  (fun q env =>
    match (jb ← parse_json (body env);
           match json_elements jb with
           | None => Throw expected_names
           | Some js => device_names js
           end) with
    | Ok names => (Ok (make_response 200 [] []), set_devices names env)
    | Throw e => (Throw e, env)
    | Diverge => (Diverge, env)
    end).

(** The critical sections of [patch_device] and [delete_device]. *)
Definition rename_device (index : Z) (name : bytes) (env : devices) : outcome exn response * devices :=
  if index <? len (s_devices env)
  then (Ok (make_response 200 [] []), set_devices (<[Z.to_nat index := name]> (s_devices env)) env)
  else (Throw no_such_device, env).
Definition erase_device (index : Z) (env : devices) : outcome exn response * devices :=
  if index <? len (s_devices env)
  then (Ok (make_response 200 [] []), set_devices (delete (Z.to_nat index) (s_devices env)) env)
  else (Throw no_such_device, env).

Definition new_name (jb : J) : outcome exn bytes :=
  match json_find jb (bs "name") ≫= json_string with
  | Some name => Ok name
  | None => Throw (bad_request (bs "Expected a " ++ [chr 34] ++ bs "name" ++ [chr 34] ++ bs " string"))
  end.

Definition patch_device (device : bytes) : handler devices :=
  plain_handler (fun q env => index ← device_index device; Ok (read_body q env))
  (fun q env =>
    match (index ← device_index device; jb ← parse_json (body env); name ← new_name jb; Ok (index, name)) with
    | Ok (index, name) => rename_device index name env
    | Throw e => (Throw e, env)
    | Diverge => (Diverge, env)
    end).

Definition delete_device (device : bytes) : handler devices :=
  plain_handler (fun q env => Ok (q, env))
  (fun q env =>
    match device_index device with
    | Ok index => erase_device index env
    | Throw e => (Throw e, env)
    | Diverge => (Diverge, env)
    end).

(** ** The plugin *)

(** [s_restull_v1_root_node], [g_token_algorithm] and [g_token_secret] *)
Record plugin : Type := mk_plugin {
  s_restull_v1_root_node : restful_router (handler devices);
  g_token_algorithm : bytes;
  g_token_secret : bytes;
}.
Definition new_plugin : plugin := mk_plugin (new_router (bs "/v1/")) [] [].

(** What [add_method_handler] makes of a function: it is called with what
    [make_session] binds.  A pointer to a function has no default arguments. *)
Definition bound (ps : list param) (f : list value -> option (handler devices)) : method_handler (handler devices) :=
  fun route =>
    match make_session (mk_signature true false ps []) route with
    | Some (called_with vs) => Ok (f vs)
    | _ => Ok None
    end.

Definition get_handler := bound [p_optional] (fun vs =>
  match vs with [v_optional device] => Some (get_devices device) | _ => None end).
Definition post_handler := bound [] (fun vs => match vs with [] => Some post_devices | _ => None end).
Definition patch_handler := bound [p_string] (fun vs =>
  match vs with [v_string device] => Some (patch_device device) | _ => None end).
Definition delete_handler := bound [p_string] (fun vs =>
  match vs with [v_string device] => Some (delete_device device) | _ => None end).

(** [create_route(route)] and the calls of [add_method_handler] on it. *)
Definition add_route (route : bytes) (handlers : list (bytes * method_handler (handler devices))) : M plugin exn unit :=
  st ← get;
  ir ← lift (create_route (s_restull_v1_root_node st) route);
  modify (fun st => mk_plugin (fold_left (fun r mh => add_method_handler r ir.1 mh.1 mh.2) handlers ir.2)
                      (g_token_algorithm st) (g_token_secret st)).

Definition upper_letter (c : ascii) : ascii :=
  if (code "a" <=? code c) && (code c <=? code "z") then chr (code c - 32) else c.
Definition to_upper (s : bytes) : bytes := upper_letter <$> s.

Definition supported_algorithms : list bytes := [bs "HS256"; bs "HS384"; bs "HS512"].
Definition conf_path (conf_dir : bytes) : bytes :=
  path_string (append (path_of conf_dir) (path_of (bs "MyCoolProject.conf"))).

Definition no_entropy : exn := ExStd (runtime_error (bs "random_device")).
Definition set_secret (secret : bytes) (st : plugin) : plugin :=
  mk_plugin (s_restull_v1_root_node st) (g_token_algorithm st) secret.

(** [for (auto &c : g_token_secret) c = char(byte(rd));] from the [i]-th on. *)
Fixpoint fill_secret (byte : nat -> option Z) (i n : nat) : M plugin exn unit :=
  match n with
  | O => mret tt
  | S n' =>
      match byte i with
      | Some b => modify (fun st => set_secret (<[i := chr b]> (g_token_secret st)) st);; fill_secret byte (S i) n'
      | None => throw no_entropy
      end
  end.
Definition random_secret (rd : entropy) : M plugin exn unit :=
  match rd with
  | Some byte => modify (set_secret (replicate 32 NUL));; fill_secret byte 0 32
  | None => throw no_entropy
  end.

(** The body of the [try] block of [init_plugin]. *)
Definition initialize (read_info : bytes -> option ptree) (rd : entropy) (conf_dir : bytes) : M plugin exn unit :=
  properties ← lift (match read_info (conf_path conf_dir) with
                     | Some t => Ok t
                     | None => Throw (ExStd (runtime_error (bs "cannot open file")))
                     end);
  modify (fun st => mk_plugin (s_restull_v1_root_node st)
    (to_upper (get_or Some [bs "signing"; bs "algorithm"] (bs "HS256") properties)) (g_token_secret st));;
  algorithm ← gets g_token_algorithm;
  throw_if (negb (bool_decide (algorithm ∈ supported_algorithms))) (ExStd (runtime_error (bs "Invalid algorithm")));;
  modify (set_secret (get_or Some [bs "signing"; bs "secret"] [] properties));;
  secret ← gets g_token_secret;
  (if decide (secret = []) then random_secret rd else mret tt);;
  add_route (bs "devices") [(bs "GET", get_handler); (bs "POST", post_handler)];;
  add_route (bs "devices/{device}")
    [(bs "GET", get_handler); (bs "PATCH", patch_handler); (bs "DELETE", delete_handler)].

(** [init_plugin(conf_dir)] *)
Definition init_plugin (read_info : bytes -> option ptree) (rd : entropy) (conf_dir : bytes) (st : plugin)
    : bool * plugin :=
  match initialize read_info rd conf_dir st with
  | (Ok _, st') => (true, st')
  | (_, st') => (false, st')
  end.

(** [plugin_order()] and [create_session(req)] *)
Definition plugin_order : Z := 0.
Definition create_session (st : plugin) (req : request devices) : outcome exn (option (handler devices)) :=
  create_handler (s_restull_v1_root_node st) (m_url req) (m_method req).

(** ** What the routes answer *)

Definition devices_route : restful_route (handler devices) :=
  mk_route [(false, bs "devices")]
    (<[bs "POST" := post_handler]> (<[bs "GET" := get_handler]> ∅)) (bs "GET, POST").
Definition device_route : restful_route (handler devices) :=
  mk_route [(false, bs "devices"); (true, bs "device")]
    (<[bs "DELETE" := delete_handler]> (<[bs "PATCH" := patch_handler]> (<[bs "GET" := get_handler]> ∅)))
    (bs "GET, PATCH, DELETE").
Definition v1_router : restful_router (handler devices) := mk_router [bs "v1"] [devices_route; device_route].

Lemma add_route_new route parts handlers st :
  parse_route_parts route = Ok parts ->
  Forall (fun r => m_route_parts r <> parts) (m_routes (s_restull_v1_root_node st)) ->
  add_route route handlers st =
  (Ok tt, mk_plugin (fold_left
     (fun r mh => add_method_handler r (length (m_routes (s_restull_v1_root_node st))) mh.1 mh.2) handlers
     (mk_router (m_base_url (s_restull_v1_root_node st))
       (m_routes (s_restull_v1_root_node st) ++ [mk_route parts ∅ []]))) (g_token_algorithm st) (g_token_secret st)).
Proof.
  intros Hp Hnew. unfold add_route, create_route, mbind, M_bind, get, lift. cbn [fst snd].
  assert (Hf : forall i, find_route (m_routes (s_restull_v1_root_node st)) route i = Ok None).
  { clear -Hp Hnew. induction Hnew as [|r rs Hr _ IH]; intros i; [done|]. cbn. unfold route_equals. rewrite Hp. cbn.
    by rewrite bool_decide_eq_false_2. }
  rewrite Hf. unfold new_route. by rewrite Hp.
Qed.

Lemma v1_routes algorithm secret :
  (add_route (bs "devices") [(bs "GET", get_handler); (bs "POST", post_handler)];;
   add_route (bs "devices/{device}")
     [(bs "GET", get_handler); (bs "PATCH", patch_handler); (bs "DELETE", delete_handler)])
    (mk_plugin (s_restull_v1_root_node new_plugin) algorithm secret) = (Ok tt, mk_plugin v1_router algorithm secret).
Proof.
  unfold mbind at 1, M_bind at 1.
  rewrite (add_route_new _ [(false, bs "devices")]) by (done || constructor).
  rewrite (add_route_new _ [(false, bs "devices"); (true, bs "device")]); [done|done|].
  by repeat constructor.
Qed.

(** The secret and the algorithm of a configuration. *)
Definition algorithm_of (t : ptree) : bytes :=
  to_upper (get_or Some [bs "signing"; bs "algorithm"] (bs "HS256") t).
Definition secret_of (rd : entropy) (t : ptree) : option bytes :=
  match get_path [bs "signing"; bs "secret"] t with
  | Some (node (c :: s) _) => Some (c :: s)
  | _ => byte ← rd; mapM (fun i => chr <$> byte i) (seq 0 32)
  end.

Lemma fill_secret_spec byte n i st :
  length (g_token_secret st) = (i + n)%nat ->
  match mapM (fun k => chr <$> byte k) (seq i n) with
  | Some s => fill_secret byte i n st = (Ok tt, set_secret (take i (g_token_secret st) ++ s) st)
  | None => exists e secret, fill_secret byte i n st = (Throw e, set_secret secret st)
  end.
Proof.
  revert i st. induction n as [|n IH]; intros i st Hlen; cbn [seq mapM fill_secret mret option_ret].
  { unfold set_secret. rewrite app_nil_r, take_ge by lia. by destruct st. }
  destruct (byte i) as [b|]; cbn [fmap option_fmap option_map].
  2:{ cbn. exists no_entropy, (g_token_secret st). by destruct st. }
  specialize (IH (S i) (set_secret (<[i := chr b]> (g_token_secret st)) st)).
  change ((modify (fun st => set_secret (<[i := chr b]> (g_token_secret st)) st);; fill_secret byte (S i) n) st) with
    (fill_secret byte (S i) n (set_secret (<[i := chr b]> (g_token_secret st)) st)). cbn [mbind option_bind].
  cbn [g_token_secret set_secret] in IH. rewrite length_insert in IH. specialize (IH ltac:(lia)).
  assert (Htake : take (S i) (<[i := chr b]> (g_token_secret st)) = take i (g_token_secret st) ++ [chr b]).
  { rewrite (take_S_r _ _ (chr b)) by (apply list_lookup_insert_eq; lia). by rewrite take_insert_ge by lia. }
  destruct (mapM _ (seq (S i) n)) as [s|]; cbn [mbind option_bind mret option_ret].
  - rewrite IH, Htake, <- app_assoc. done.
  - destruct IH as (e & secret & ->). by exists e, secret.
Qed.

Lemma random_secret_spec rd st :
  match (byte ← rd; mapM (fun i => chr <$> byte i) (seq 0 32)) with
  | Some s => random_secret rd st = (Ok tt, set_secret s st)
  | None => exists e secret, random_secret rd st = (Throw e, set_secret secret st)
  end.
Proof.
  destruct rd as [byte|]; cbn [mbind option_bind random_secret]; [|exists no_entropy, (g_token_secret st); by destruct st].
  pose proof (fill_secret_spec byte 32 0 (set_secret (replicate 32 NUL) st)) as Hf. cbn [g_token_secret set_secret] in Hf.
  rewrite length_replicate in Hf. specialize (Hf eq_refl). unfold mbind, M_bind, modify.
  destruct (mapM _ _) as [s|]; [by rewrite Hf|]. destruct Hf as (e & secret & ->). by exists e, secret.
Qed.

(** What [init_plugin] makes of a plugin just loaded. *)
Definition initialized (read_info : bytes -> option ptree) (rd : entropy) (conf_dir : bytes) : option (bytes * bytes) :=
  t ← read_info (conf_path conf_dir);
  if decide (algorithm_of t ∈ supported_algorithms) then pair (algorithm_of t) <$> secret_of rd t else None.

Lemma init_plugin_eq read_info rd conf_dir :
  match initialized read_info rd conf_dir with
  | Some (algorithm, secret) => init_plugin read_info rd conf_dir new_plugin = (true, mk_plugin v1_router algorithm secret)
  | None => exists algorithm secret, init_plugin read_info rd conf_dir new_plugin =
      (false, mk_plugin (s_restull_v1_root_node new_plugin) algorithm secret)
  end.
Proof.
  unfold initialized. destruct (read_info (conf_path conf_dir)) as [t|] eqn:Ht.
  2:{ exists [], []. unfold init_plugin, initialize. by rewrite Ht. }
  cbn [mbind option_bind]. set (configured := get_or Some [bs "signing"; bs "secret"] [] t).
  assert (Hsec : secret_of rd t = if decide (configured = [])
    then byte ← rd; mapM (fun i => chr <$> byte i) (seq 0 32) else Some configured).
  { unfold configured, get_or, secret_of. destruct (get_path _ t) as [[[|c d] cs]|]; done. }
  assert (Hinit : initialize read_info rd conf_dir new_plugin =
    (throw_if (negb (bool_decide (algorithm_of t ∈ supported_algorithms))) (ExStd (runtime_error (bs "Invalid algorithm")));;
     modify (set_secret configured);; (if decide (configured = []) then random_secret rd else mret tt);;
     add_route (bs "devices") [(bs "GET", get_handler); (bs "POST", post_handler)];;
     add_route (bs "devices/{device}") [(bs "GET", get_handler); (bs "PATCH", patch_handler); (bs "DELETE", delete_handler)])
    (mk_plugin (s_restull_v1_root_node new_plugin) (algorithm_of t) [])) by (unfold initialize; by rewrite Ht).
  unfold init_plugin. rewrite Hinit, Hsec. clearbody configured. clear Hinit Hsec Ht.
  destruct (decide (algorithm_of t ∈ supported_algorithms)) as [Hs|Hs].
  2:{ rewrite bool_decide_eq_false_2 by done. by do 2 eexists. }
  rewrite bool_decide_eq_true_2 by done. cbn [negb throw_if]. rewrite bind_ret.
  rewrite (bind_ok _ _ _ tt (mk_plugin (s_restull_v1_root_node new_plugin) (algorithm_of t) configured)) by done.
  destruct (decide (configured = [])) as [->|Hne].
  - pose proof (random_secret_spec rd (mk_plugin (s_restull_v1_root_node new_plugin) (algorithm_of t) [])) as Hr.
    destruct (rd ≫= _) as [s|]; cbn [fmap option_fmap option_map].
    + rewrite (bind_ok _ _ _ _ _ Hr). unfold set_secret. cbn [s_restull_v1_root_node g_token_algorithm]. by rewrite v1_routes.
    + destruct Hr as (e & secret & Hr). rewrite (bind_throw _ _ _ _ _ Hr). by do 2 eexists.
  - rewrite bind_ret. cbn [fmap option_fmap option_map]. by rewrite v1_routes.
Qed.

(** C40: init_plugin succeeds exactly when the configuration can be read, its
    algorithm, in any case, is one of the three supported ones, and there
    is a secret: the configured one, or 32 bytes of a random device that
    neither its constructor nor a read of it throws; then the routes are
    registered with that algorithm and that secret, which is not empty;
    when it fails no route is registered. *)
Theorem init_plugin_ready (read_info : bytes -> option ptree) (rd : entropy) (conf_dir : bytes) :
  let '(started, st) := init_plugin read_info rd conf_dir new_plugin in
  (started = true <-> exists t secret, read_info (conf_path conf_dir) = Some t /\
     algorithm_of t ∈ supported_algorithms /\ secret_of rd t = Some secret) /\
  (started = true -> exists t secret, read_info (conf_path conf_dir) = Some t /\ secret_of rd t = Some secret /\
     st = mk_plugin v1_router (algorithm_of t) secret /\ secret <> []) /\
  (started = false -> s_restull_v1_root_node st = s_restull_v1_root_node new_plugin).
Proof.
  pose proof (init_plugin_eq read_info rd conf_dir) as He. unfold initialized in He.
  destruct (read_info (conf_path conf_dir)) as [t|].
  2:{ destruct He as (a & s & ->). split_and!; [|done..]. split; [done|]. by intros (t & ? & [=] & _). }
  cbn [mbind option_bind] in He. case_decide as Hs; [destruct (secret_of rd t) as [secret|] eqn:Hsec; cbn in He; [rewrite He|]|].
  2,3: destruct He as (a & s & ->); (split_and!; [|done..]); split; [done|]; intros (t' & ? & [= <-] & ? & ?); congruence.
  split_and!; [|intros _|done].
  - split; [intros _|done]. by exists t, secret.
  - exists t, secret. split_and!; [done..|]. unfold secret_of in Hsec.
    assert (Hr : forall byte, mapM (fun i => chr <$> byte i) (seq 0 32) = Some secret -> secret <> []).
    { intros byte Hm ->. by apply length_mapM in Hm. }
    destruct (get_path _ t) as [[[|c d] cs]|]; [|by injection Hsec as <-|]; destruct rd; try done; by eapply Hr.
Qed.

(** The requests the plugin takes, and the handler of each. *)
Inductive call : Type :=
  | call_get (device : option bytes)
  | call_post
  | call_patch (device : bytes)
  | call_delete (device : bytes).
Definition handler_of (c : call) : handler devices :=
  match c with
  | call_get device => get_devices device
  | call_post => post_devices
  | call_patch device => patch_device device
  | call_delete device => delete_device device
  end.

(** The documented routes: which request a path and a method are. *)
Definition calls_of (path : list bytes) : list (bytes * call) :=
  match path with
  | v1 :: ds :: rest =>
      if decide (bs "v1" = v1) then
        if decide (bs "devices" = ds) then
          match rest with
          | [] => [(bs "GET", call_get None); (bs "POST", call_post)]
          | [device] => [(bs "GET", call_get (Some device)); (bs "PATCH", call_patch device);
                         (bs "DELETE", call_delete device)]
          | _ => []
          end
        else []
      else []
  | _ => []
  end.
Fixpoint find_call (method : bytes) (cs : list (bytes * call)) : option call :=
  match cs with
  | [] => None
  | (m, c) :: cs' => if decide (m = method) then Some c else find_call method cs'
  end.

Lemma devices_methods method :
  m_methods devices_route !! method =
  if decide (bs "GET" = method) then Some get_handler
  else if decide (bs "POST" = method) then Some post_handler else None.
Proof.
  unfold devices_route. cbn [m_methods].
  destruct (decide (bs "GET" = method)) as [<-|Hg]; [done|]. case_decide; [subst; by rewrite lookup_insert_eq|].
  by rewrite !lookup_insert_ne.
Qed.
Lemma device_methods method :
  m_methods device_route !! method =
  if decide (bs "GET" = method) then Some get_handler
  else if decide (bs "PATCH" = method) then Some patch_handler
  else if decide (bs "DELETE" = method) then Some delete_handler else None.
Proof.
  unfold device_route. cbn [m_methods].
  destruct (decide (bs "GET" = method)) as [<-|Hg]; [done|].
  destruct (decide (bs "PATCH" = method)) as [<-|Hp]; [done|]. case_decide; [subst; by rewrite lookup_insert_eq|].
  by rewrite !lookup_insert_ne.
Qed.

Lemma route_loop_v1 resources method query qs :
  (match query with None => Ok [] | Some q => parse_query q end) = Ok qs ->
  route_loop (m_routes v1_router) resources method query None =
  match find_call method (calls_of (bs "v1" :: resources)) with
  | Some c => Ok (Some (handler_of c))
  | None => match calls_of (bs "v1" :: resources) with
            | [] => Ok None
            | cs => Throw (method_not_allowed (comma_separated cs.*1))
            end
  end.
Proof.
  intros Hq. cbn [v1_router m_routes route_loop]. unfold route_create_handler.
  destruct resources as [|ds [|d [|d' rest]]]; cbn [devices_route device_route m_route_parts match_parts]; [done|..].
  - unfold calls_of. rewrite (decide_True (P := bs "v1" = _)) by done.
    destruct (decide (bs "devices" = ds)) as [<-|Hne]; [|done]. rewrite devices_methods. cbn [find_call].
    repeat (destruct (decide (_ = method)); [by rewrite Hq|]). done.
  - unfold calls_of. rewrite (decide_True (P := bs "v1" = _)) by done.
    destruct (decide (bs "devices" = ds)) as [<-|Hne]; [|done]. rewrite device_methods. cbn [find_call].
    repeat (destruct (decide (_ = method)); [by rewrite Hq|]). done.
  - unfold calls_of. rewrite (decide_True (P := bs "v1" = _)) by done. by destruct (decide (bs "devices" = ds)).
Qed.

Lemma v1_create_handler path query qs method :
  ("?"%char ∉ path) -> (match query with None => Ok [] | Some q => parse_query q end) = Ok qs ->
  create_handler v1_router (path ++ match query with None => [] | Some q => "?"%char :: q end) method =
  match find_call method (calls_of (split path "/" npos)) with
  | Some c => Ok (Some (handler_of c))
  | None => match calls_of (split path "/" npos) with
            | [] => Ok None
            | cs => Throw (method_not_allowed (comma_separated cs.*1))
            end
  end.
Proof.
  intros Hpath Hq. rewrite create_handler_path by done. cbn zeta.
  destruct (split path "/" npos) as [|v1 [|ds rest]]; [done|done|].
  change (m_base_url v1_router) with [bs "v1"]. cbn [length take drop Nat.add Nat.ltb Nat.leb].
  destruct (decide (bs "v1" = v1)) as [<-|Hne]; [by rewrite decide_True, (route_loop_v1 _ _ _ qs)|].
  rewrite decide_False by congruence. unfold calls_of. by rewrite decide_False.
Qed.

(** ** The service the plugin promises

    A list of names, and five operations on it. *)

Inductive op : Type :=
  | op_list
  | op_fetch (i : nat)
  | op_replace (names : list bytes)
  | op_rename (i : nat) (name : bytes)
  | op_remove (i : nat).
Inductive reply : Type :=
  | r_devices (ds : list (nat * bytes))
  | r_done
  | r_missing.
Definition serve (o : op) (l : list bytes) : reply * list bytes :=
  match o with
  | op_list => (r_devices (imap pair l), l)
  | op_fetch i => (match l !! i with Some name => r_devices [(i, name)] | None => r_missing end, l)
  | op_replace names => (r_done, names)
  | op_rename i name => match l !! i with Some _ => (r_done, <[i := name]> l) | None => (r_missing, l) end
  | op_remove i => match l !! i with Some _ => (r_done, take i l ++ drop (S i) l) | None => (r_missing, l) end
  end.

(** A device is a number of 64 bits in decimal digits. *)
Definition device_id (device : bytes) : option nat :=
  if negb (bool_decide (device = [])) && forallb is_digit device && (decimal device <? 2 ^ 64)
  then Some (Z.to_nat (decimal device)) else None.

(** The operation a request asks for, if it asks for one. *)
Definition operation (c : call) (text : bytes) : option op :=
  match c with
  | call_get None => Some op_list
  | call_get (Some device) => op_fetch <$> device_id device
  | call_post =>
      j ← json_parse text; js ← json_elements j; names ← mapM json_string js; Some (op_replace names)
  | call_patch device =>
      i ← device_id device; j ← json_parse text; v ← json_find j (bs "name"); name ← json_string v;
      Some (op_rename i name)
  | call_delete device => op_remove <$> device_id device
  end.

(** The response to an operation. *)
Definition rendered (r : reply) : outcome exn response :=
  match r with
  | r_devices ds =>
      text ← dump (json_array ((fun d => json_device (Z.of_nat d.1) d.2) <$> ds));
      Ok (make_response 200 text [(bs "Content-Type", bs "application/json")])
  | r_done => Ok (make_response 200 [] [])
  | r_missing => Throw no_such_device
  end.

Lemma digits_prefix_iff s : digits_prefix s = s <-> forallb is_digit s = true.
Proof.
  induction s as [|c s IH]; cbn; [done|]. destruct (is_digit c); cbn; [|split; [done|done]].
  rewrite <- IH. split; congruence.
Qed.
Lemma digits_prefix_length s : length (digits_prefix s) = length s -> digits_prefix s = s.
Proof.
  induction s as [|c s IH]; cbn; [done|]. destruct (is_digit c); cbn; [|done]. intros [= H1]. by rewrite IH.
Qed.
Lemma device_index_spec device :
  match device_id device with
  | Some i => device_index device = Ok (Z.of_nat i)
  | None => device_index device = Throw (bad_request (bs "Invalid device id"))
  end.
Proof.
  unfold device_id, device_index, from_chars.
  destruct (forallb is_digit device) eqn:Hd.
  - rewrite (proj2 (digits_prefix_iff device) Hd). rewrite andb_true_r.
    destruct (decide (device = [])) as [->|Hne]; [done|]. rewrite bool_decide_eq_false_2 by done. cbn [negb andb].
    rewrite Z.ltb_antisym. destruct (2 ^ 64 <=? decimal device); cbn [negb]; [done|].
    rewrite !bool_decide_eq_true_2 by done. cbn [andb]. rewrite Z2Nat.id; [done|].
    rewrite <- (proj2 (digits_prefix_iff device) Hd). apply decimal_nonneg.
  - rewrite andb_false_r. cbn [andb]. case_decide; [done|].
    assert (Hl : length (digits_prefix device) <> length device).
    { intros H1%digits_prefix_length%digits_prefix_iff. congruence. }
    destruct (2 ^ 64 <=? _); [done|]. rewrite (bool_decide_eq_false_2 (_ = length device)) by done.
    by rewrite andb_false_r.
Qed.

Lemma device_names_spec js :
  device_names js = match mapM json_string js with Some names => Ok names | None => Throw expected_names end.
Proof.
  induction js as [|j js IH]; [done|]. cbn. destruct (json_string j) as [name|]; [|done]. cbn.
  rewrite IH. by destruct (mapM json_string js).
Qed.

Lemma index_lookup {A} (l : list A) i : (Z.of_nat i <? len l) = bool_decide (is_Some (l !! i)).
Proof.
  destruct (Z.ltb_spec (Z.of_nat i) (len l)) as [Hi|Hi]; symmetry.
  - apply bool_decide_eq_true_2, lookup_lt_is_Some. lia.
  - apply bool_decide_eq_false_2. rewrite lookup_lt_is_Some. lia.
Qed.

Lemma devices_json_list l :
  devices_json None l = Ok (json_array ((fun d => json_device (Z.of_nat d.1) d.2) <$> imap pair l)).
Proof. cbn. do 2 f_equal. by rewrite fmap_imap. Qed.

Lemma devices_json_one i l :
  devices_json (Some (Z.of_nat i)) l =
  match l !! i with
  | Some name => Ok (json_array [json_device (Z.of_nat i) name])
  | None => Throw no_such_device
  end.
Proof.
  cbn. rewrite index_lookup, Nat2Z.id. destruct (l !! i) as [name|] eqn:Hi.
  - rewrite bool_decide_eq_true_2 by done. by rewrite (nth_lookup_Some _ _ _ _ Hi).
  - by rewrite bool_decide_eq_false_2 by by intros [].
Qed.

Lemma rename_device_spec i name env :
  rename_device (Z.of_nat i) name env =
  (rendered (serve (op_rename i name) (s_devices env)).1, set_devices (serve (op_rename i name) (s_devices env)).2 env).
Proof.
  unfold rename_device. rewrite index_lookup, Nat2Z.id. destruct env as [b l]. cbn [s_devices serve].
  destruct (l !! i) as [n|]; [by rewrite bool_decide_eq_true_2|by rewrite bool_decide_eq_false_2 by by intros []].
Qed.

Lemma erase_device_spec i env :
  erase_device (Z.of_nat i) env =
  (rendered (serve (op_remove i) (s_devices env)).1, set_devices (serve (op_remove i) (s_devices env)).2 env).
Proof.
  unfold erase_device. rewrite index_lookup, Nat2Z.id. destruct env as [b l]. cbn [s_devices serve].
  destruct (l !! i) as [n|] eqn:Hi; [|by rewrite bool_decide_eq_false_2 by by intros []].
  rewrite bool_decide_eq_true_2 by done. by rewrite delete_take_drop.
Qed.

(** What a handler does to the devices, once the request was read. *)
Lemma handlers_serve c q env :
  h_after (handler_of c) q env =
  match operation c (body env) with
  | Some o => only_response (rendered (serve o (s_devices env)).1, set_devices (serve o (s_devices env)).2 env)
  | None => ((h_after (handler_of c) q env).1, env)
  end /\
  (operation c (body env) = None -> exists msg, (h_after (handler_of c) q env).1 = Throw (bad_request msg)).
Proof.
  destruct env as [b l]. destruct c as [[device|]| |device|device];
    cbn [handler_of h_after plain_handler get_devices post_devices patch_device delete_device operation body s_devices].
  - pose proof (device_index_spec device) as Hd. destruct (device_id device) as [i|]; rewrite Hd; cbn; [|by eauto].
    pose proof (devices_json_one i l) as H1. cbn in H1. rewrite H1. split; [|done]. by destruct (l !! i).
  - cbn [mbind outcome_bind fst snd]. rewrite devices_json_list. done.
  - unfold parse_json. destruct (json_parse b) as [j|]; cbn; [|by eauto].
    destruct (json_elements j) as [js|]; cbn; [|unfold expected_names; by eauto].
    rewrite device_names_spec. destruct (mapM json_string js) as [names|]; cbn; [|unfold expected_names]; by eauto.
  - pose proof (device_index_spec device) as Hd. destruct (device_id device) as [i|]; rewrite Hd; cbn; [|by eauto].
    unfold parse_json. destruct (json_parse b) as [j|]; cbn; [|by eauto].
    unfold new_name. destruct (json_find j _) as [v|]; cbn; [|by eauto].
    destruct (json_string v) as [name|]; cbn; [|by eauto]. split; [|done]. f_equal. apply rename_device_spec.
  - pose proof (device_index_spec device) as Hd. destruct (device_id device) as [i|]; rewrite Hd; cbn; [|by eauto].
    split; [|done]. f_equal. apply erase_device_spec.
Qed.

Lemma handlers_prepare c q env :
  match h_before (handler_of c) q env with
  | Ok (q', env') =>
      (q' = q \/ q' = append_body_callback q collect_body max_body_size) /\ s_devices env' = s_devices env
  | Throw e => (exists msg, e = bad_request msg) /\ forall text, operation c text = None
  | Diverge => False
  end.
Proof.
  destruct c as [device| |device|device];
    cbn [handler_of h_before plain_handler get_devices post_devices patch_device delete_device operation].
  - split; [by left|done].
  - by split; [right|].
  - pose proof (device_index_spec device) as Hd. destruct (device_id device) as [i|]; rewrite Hd; cbn.
    + by split; [right|].
    + split; [by eauto|done].
  - split; [by left|done].
Qed.

(** ** Connections to the plugin *)

Lemma started_router read_info rd conf_dir st :
  init_plugin read_info rd conf_dir new_plugin = (true, st) -> s_restull_v1_root_node st = v1_router.
Proof.
  pose proof (init_plugin_eq read_info rd conf_dir) as He. destruct (initialized _ _ _) as [[a k]|].
  - rewrite He. by intros [= <-].
  - destruct He as (a & k & ->). done.
Qed.

(** A URL is a path and a query; the request is that of the path and the method. *)
Definition path_part (url : bytes) : bytes := match find_char "?" url with Some k => take k url | None => url end.
Definition call_of (q : request devices) : option call :=
  find_call (m_method q) (calls_of (split (path_part (m_url q)) "/" npos)).

Lemma url_parts (url : bytes) :
  ("?"%char ∉ path_part url) /\ exists query, url = path_part url ++ match query with None => [] | Some text => "?"%char :: text end.
Proof.
  unfold path_part. destruct (find_char "?" url) as [k|] eqn:Hk.
  - destruct (find_char_Some _ _ _ Hk) as (_ & Hn & _). split; [done|]. exists (Some (drop (S k) url)). by apply find_char_spec.
  - split; [by apply find_char_None|]. exists None. by rewrite app_nil_r.
Qed.

Lemma route_loop_query {R} (rs : list (restful_route R)) resources method query allowed h :
  route_loop rs resources method query allowed = Ok (Some h) ->
  exists qs, (match query with None => Ok [] | Some text => parse_query text end) = Ok qs.
Proof.
  revert allowed. induction rs as [|r rs IH]; intros allowed; cbn; [by destruct allowed|].
  destruct (route_create_handler r resources method) as [[[cs hd]|] m]; [|apply IH].
  destruct query as [text|]; [|by eauto]. destruct (parse_query text); by eauto.
Qed.

Lemma create_session_call st q h :
  s_restull_v1_root_node st = v1_router -> create_session st q = Ok (Some h) ->
  exists c, h = handler_of c /\ call_of q = Some c.
Proof.
  intros Hst. unfold create_session, call_of. rewrite Hst. destruct (url_parts (m_url q)) as (Hp & query & Hurl).
  set (path := path_part (m_url q)) in *. rewrite Hurl. intros Hh.
  assert (Hq : exists qs, (match query with None => Ok [] | Some text => parse_query text end) = Ok qs).
  { rewrite create_handler_path in Hh by done. cbn zeta in Hh. destruct (_ <? _)%nat; [done|].
    case_decide; [|done]. by eapply route_loop_query. }
  destruct Hq as [qs Hq]. rewrite (v1_create_handler _ _ qs) in Hh by done.
  destruct (find_call _ _) as [c|]; [|by destruct (calls_of _)]. exists c. split; [congruence|done].
Qed.

Lemma call_polite c : polite (handler_of c).
Proof.
  intros q env q' env' Hb. pose proof (handlers_prepare c q env) as Hp. rewrite Hb in Hp.
  destruct Hp as [[->| ->] _]; [by left|]. right. exists collect_body, max_body_size.
  split_and!; [done|unfold max_body_size; lia..|]. intros a b e. unfold agree. cbn. by rewrite app_assoc.
Qed.

(** The devices stay as they are while a request is read. *)
Lemma read_rest_devices d (p : pstate devices) :
  (m_callback (ps_req p) = None \/ m_callback (ps_req p) = Some collect_body) ->
  s_devices (ps_env (read_rest d p).2) = s_devices (ps_env p).
Proof.
  intros Hcb. unfold read_rest. case_decide; [done|].
  apply (parse_body_kept (fun e => s_devices e = s_devices (ps_env p)) (m_callback (ps_req p))); [|done].
  intros f Hf data env He. destruct Hcb as [Hcb|Hcb]; [congruence|]. by assert (f = collect_body) as -> by congruence.
Qed.

Lemma call_discreet c : discreet s_devices (handler_of c).
Proof.
  intros q env q' env' Hb Hcb. pose proof (handlers_prepare c q env) as Hp. rewrite Hb in Hp. destruct Hp as [Hq Hd].
  split; [done|]. destruct Hq as [->| ->]; [by rewrite Hcb|]. by intros f [= <-].
Qed.

(** *** What a client asks for

    The bytes [i] begin with a complete request for [c], with the body [text], in
    the state [l]; [q] is the request as its handler prepared it and [rest] what
    follows. *)
Definition asks (st : plugin) (i : bytes) (l : list bytes) (c : call) (text : bytes) (q : request devices) (rest : bytes) : Prop :=
  exists b p2, read_out (create_session st) i (mk_devices b l) = Some (handler_of c, q, p2, rest) /\
    call_of q = Some c /\ body (ps_env p2) = text.

(** The service on a list of devices: to each request that asks for an operation,
    in its turn, the response to the operation, after a 100 Continue where the
    client asked for one. *)
Inductive service (st : plugin) (ka : Z) : bytes -> list bytes -> list bytes -> bytes -> list bytes -> Prop :=
  | service_end i l : service st ka i l [] i l
  | service_next i l c text q rest o res outs i' l' :
      asks st i l c text q rest -> operation c text = Some o -> rendered (serve o l).1 = Ok res ->
      service st ka rest (serve o l).2 outs i' l' ->
      service st ka i l ((continue_text ka q ++ answer_text ka q res) :: outs) i' l'.

Lemma read_out_asks st i env h q p2 rest :
  s_restull_v1_root_node st = v1_router -> read_out (create_session st) i env = Some (h, q, p2, rest) ->
  exists c, h = handler_of c /\ asks st i (s_devices env) c (body (ps_env p2)) q rest /\ s_devices (ps_env p2) = s_devices env.
Proof.
  intros Hst Hro. pose proof Hro as Hro'. unfold read_out, next_request in Hro.
  pose proof (parse_head_part i (fresh env)) as Hpart.
  destruct (parse_head i (fresh env)) as [[n|e|] p]; [|by cbn in Hro..]. injection Hpart as Hcb _ Henv.
  destruct (head_parsed _); [|by cbn in Hro]. destruct (create_session st (ps_req p)) as [[h'|]|e|] eqn:Hc; [|by cbn in Hro..].
  destruct (create_session_call _ _ _ Hst Hc) as (c & -> & Hcall).
  pose proof (handlers_prepare c (ps_req p) (ps_env p)) as Hprep.
  destruct (h_before _ _ _) as [[q' env1]|e|]; [|by cbn in Hro..]. destruct Hprep as [Hq Hdev].
  destruct (refuses q'); [by cbn in Hro|]. cbn [mbind option_bind] in Hro.
  pose proof (read_rest_devices (drop n i) (mk_pstate (ps_parser p) q' env1)) as Hread.
  destruct (read_rest _ _) as [[m|e|] p3]; [|done..]. case_decide; [|done]. injection Hro as <- -> -> <-.
  cbn [ps_env ps_req snd] in *. exists c. split_and!; [done| |].
  - exists (body env), p2. split_and!; [by destruct env| |done]. unfold call_of in *. by destruct Hq as [->| ->].
  - rewrite Hread, Hdev, Henv; [done|]. destruct Hq as [->| ->]; [left; by rewrite Hcb|by right].
Qed.

Lemma answers_serve ka st i env outs i' env' :
  s_restull_v1_root_node st = v1_router -> answers ka (create_session st) i env outs i' env' ->
  service st ka i (s_devices env) outs i' (s_devices env').
Proof.
  intros Hst. induction 1 as [i env|i env a i1 env1 outs i2 env2 Hex _ IH]; [constructor|].
  unfold exchange in Hex. destruct (read_out (create_session st) i env) as [[[[h q] p2] rest]|] eqn:Hro; [|done].
  cbn [mbind option_bind] in Hex. destruct (read_out_asks _ _ _ _ _ _ _ Hst Hro) as (c & -> & Hasks & Hdev).
  destruct (handlers_serve c (ps_req p2) (ps_env p2)) as [Hs Hnone].
  destruct (operation c (body (ps_env p2))) as [o|] eqn:Ho.
  - rewrite Hs, Hdev in Hex. destruct (rendered (serve o (s_devices env)).1) as [res|e|] eqn:Hr; [|done..].
    injection Hex as <- -> <-. rewrite app_nil_r. by eapply service_next.
  - destruct (Hnone eq_refl) as [msg Hmsg]. rewrite Hs, Hmsg in Hex. done.
Qed.

(** What a connection leaves of the devices, when the service had come to [i']
    and [l']: a last request may have been executed whose answer is not, or not
    all, on the wire. *)
Definition leaves (st : plugin) (i' : bytes) (l' l : list bytes) : Prop :=
  l = l' \/ exists c text q rest o, asks st i' l' c text q rest /\ operation c text = Some o /\ l = (serve o l').2.

Lemma settles_leaves st i env v :
  s_restull_v1_root_node st = v1_router -> settles (create_session st) s_devices i env v -> leaves st i (s_devices env) v.
Proof.
  intros Hst [->|(h & q & p2 & rest & Hro & ->)]; [by left|].
  destruct (read_out_asks _ _ _ _ _ _ _ Hst Hro) as (c & -> & Hasks & Hdev).
  destruct (handlers_serve c (ps_req p2) (ps_env p2)) as [Hs _].
  destruct (operation c (body (ps_env p2))) as [o|] eqn:Ho; rewrite Hs; [|left; exact Hdev].
  right. exists c, (body (ps_env p2)), q, rest, o. split_and!; [done|done|]. cbn [only_response snd set_devices s_devices]. by rewrite Hdev.
Qed.

(** C39: The routes init_plugin registers answer exactly the documented requests:
    the devices and one device, each with its methods and the device from
    the path, 405 with the list of methods for another method, and every
    other path is left to the next plugin. *)
Theorem template_routes (read_info : bytes -> option ptree) (rd : entropy) (conf_dir : bytes) st
    (path : bytes) (query : option bytes) qs (q : request devices) :
  init_plugin read_info rd conf_dir new_plugin = (true, st) ->
  ("?"%char ∉ path) -> (match query with None => Ok [] | Some text => parse_query text end) = Ok qs ->
  m_url q = path ++ match query with None => [] | Some text => "?"%char :: text end ->
  create_session st q =
  match find_call (m_method q) (calls_of (split path "/" npos)) with
  | Some c => Ok (Some (handler_of c))
  | None => match calls_of (split path "/" npos) with
            | [] => Ok None
            | cs => Throw (method_not_allowed (comma_separated cs.*1))
            end
  end.
Proof.
  intros Hst Hpath Hq Hurl. unfold create_session. rewrite (started_router _ _ _ _ Hst), Hurl.
  by apply (v1_create_handler _ _ qs).
Qed.

Section connection.
Context {W : Type} `{Hlaws : os_laws W} (tr : transport W) `{Htr : !transport_laws tr} `{Hcodes : !reports_codes tr}.
Context (read_info : bytes -> option ptree) (rd : entropy) (conf_dir : bytes) (st : plugin).

(** C38: A connection to a server with the plugin of the template, however the
    network cuts it: the answers on the wire are those of an abstract
    service, a list of names with the operations of its methods, each
    applied to the device and the body that its request names, in the
    order of the requests; after them comes at most a part of the next
    answer or of the answer to the exception the next request failed with;
    and the devices at the end are those after these operations, but for
    the one operation of a next request that was read to its end: a
    request that is refused changes no device. *)
Theorem template_connection (headers_timeout keep_alive_timeout : Z) (hfuel fuel : nat) (s : session W) q0 env :
  init_plugin read_info rd conf_dir new_plugin = (true, st) -> len (unread s) < 2 ^ 64 ->
  let '(_, x') := io_loop tr headers_timeout keep_alive_timeout (create_plain tr hfuel (create_session st)) fuel
                    (s, (q0, env)) in
  exists outs i' env' t, service st keep_alive_timeout (unread s) (s_devices env) outs i' (s_devices env') /\
    wire (world x'.1) = wire (world s) ++ concat outs ++ t /\
    last_words keep_alive_timeout (create_session st) i' env' t /\
    leaves st i' (s_devices env') (s_devices x'.2.2).
Proof.
  intros Hst%started_router Hlen.
  assert (Hcall : forall q h, create_session st q = Ok (Some h) -> exists c, h = handler_of c).
  { intros q h Hh. destruct (create_session_call st q h Hst Hh) as (c & -> & _). by exists c. }
  assert (Hpol : forall q h, create_session st q = Ok (Some h) -> polite h).
  { intros q h Hh. destruct (Hcall q h Hh) as [c ->]. apply call_polite. }
  assert (Hdis : forall q h, create_session st q = Ok (Some h) -> discreet s_devices h).
  { intros q h Hh. destruct (Hcall q h Hh) as [c ->]. apply call_discreet. }
  destruct (io_loop_turns tr keep_alive_timeout (create_session st) s_devices Hpol Hdis headers_timeout hfuel fuel s q0 env Hlen)
    as (outs & i' & env' & t & Hans & Hw & Hlast & Hset).
  destruct (io_loop _ _ _ _ _ _) as [o x']. exists outs, i', env', t.
  split_and!; [by eapply answers_serve|done|done|by apply settles_leaves].
Qed.
End connection.
End template.

(** ** A concrete server

    In place of JSON, a format of its own: [[a,b]] are strings, [{a}] is an object
    whose name is [a]. *)

Inductive toy : Type := toy_string (s : bytes) | toy_list (names : list bytes) | toy_object (name : bytes).

Definition toy_dump (j : toy) : bytes :=
  match j with
  | toy_string s => s
  | toy_list names => bs "[" ++ concat ((.++ bs ";") <$> names) ++ bs "]"
  | toy_object name => bs "{" ++ name ++ bs "}"
  end.
Definition toy_parse (s : bytes) : option toy :=
  match s with
  | c :: s' =>
      let inner := take (length s' - 1) s' in
      if decide (c = "["%char) then Some (toy_list (split inner "," npos))
      else if decide (c = "{"%char) then Some (toy_object inner) else None
  | [] => None
  end.
Global Instance toy_json : json_lib toy := {|
  json_parse := toy_parse;
  json_dump := fun j => inl (toy_dump j);
  json_elements := fun j => match j with toy_list names => Some (toy_string <$> names) | _ => None end;
  json_string := fun j => match j with toy_string s => Some s | _ => None end;
  json_find := fun j key => match j with toy_object name => Some (toy_string name) | _ => None end;
  json_array := fun js => toy_list (toy_dump <$> js);
  json_device := fun i name => toy_string (to_chars 10 i ++ bs ":" ++ name);
|}.

Definition sample_conf : ptree := node [] [(bs "signing", node [] [(bs "algorithm", node (bs "hs512") [])])].
Definition sample_info (file : bytes) : option ptree :=
  if decide (file = bs "/etc/dracon/MyCoolProject.conf") then Some sample_conf else None.
Definition sample_random : entropy := Some (fun i => Some (Z.of_nat i)).
Definition started : plugin := (init_plugin sample_info sample_random (bs "/etc/dracon") new_plugin).2.

Lemma started_eq : init_plugin sample_info sample_random (bs "/etc/dracon") new_plugin = (true, started).
Proof.
  unfold started. pose proof (init_plugin_eq sample_info sample_random (bs "/etc/dracon")) as He.
  assert (Hi : bool_decide (initialized sample_info sample_random (bs "/etc/dracon") = None) = false) by by_compute.
  apply bool_decide_eq_false in Hi.
  destruct (initialized sample_info sample_random (bs "/etc/dracon")) as [[a k]|]; [|destruct (Hi eq_refl)].
  rewrite He. reflexivity.
Qed.
(** No entropy, no secret: the plugin does not start. *)
Example no_entropy_no_start :
  (init_plugin sample_info None (bs "/etc/dracon") new_plugin).1 = false /\
  (init_plugin sample_info (Some (fun i => if decide (i = 20)%nat then None else Some 7)) (bs "/etc/dracon") new_plugin).1 = false.
Proof. by vm_compute. Qed.

Definition get_second : request devices :=
  set_state (mk_request [] true (bs "/v1/devices/1?verbose") (bs "PUT") None headers_completed 0) headers_completed.

Lemma template_routes_witness :
  create_session started get_second = Throw (method_not_allowed (bs "GET, PATCH, DELETE")).
Proof.
  rewrite (template_routes sample_info sample_random (bs "/etc/dracon") started (bs "/v1/devices/1")
    (Some (bs "verbose")) [(bs "verbose", [])] get_second started_eq); [reflexivity| |reflexivity|reflexivity].
  by_compute.
Defined.

Definition line (s : bytes) : bytes := s ++ crlf_string.
Definition admin : session script :=
  scripted [line (bs "POST /v1/devices HTTP/1.1") ++ line (bs "Host: a") ++ line (bs "Content-Length: 10") ++ line [] ++ bs "[tv";
            []; bs ",phone]" ++ line (bs "PATCH /v1/devices/1 HTTP/1.1");
            line (bs "Host: a") ++ line (bs "Content-Length: 6") ++ line [] ++ bs "{oven}";
            line (bs "DELETE /v1/devices/0 HTTP/1.1") ++ line (bs "Host: a") ++ line [] ++
            line (bs "GET /v1/devices HTTP/1.1") ++ line (bs "Host: a") ++ line []] [7; 0]%nat (Some 9%nat).
Definition no_devices : devices := mk_devices [] [].
Definition done_text : bytes := to_string (make_response 200 [] []) 10.

Lemma template_connection_witness :
  let w := io_loop socket_session 5 10 (create_plain socket_session 100 (create_session started)) 100
             (admin, (new_request, no_devices)) in
  wire (world w.2.1) = done_text ++ done_text ++ done_text ++
    to_string (make_response 200 (bs "[0:oven;]") [(bs "Content-Type", bs "application/json")]) 10 /\
  exists outs i' env' t, service started 10 (unread admin) [] outs i' (s_devices env') /\
    wire (world w.2.1) = concat outs ++ t /\ last_words 10 (create_session started) i' env' t /\
    leaves started i' (s_devices env') (s_devices w.2.2.2).
Proof.
  cbn zeta. set (w := io_loop _ _ _ _ _ _). split; [vm_compute; reflexivity|].
  assert (Hlen : len (unread admin) < 2 ^ 64) by (vm_compute; reflexivity).
  pose proof (template_connection socket_session sample_info sample_random (bs "/etc/dracon") started
    5 10 100 100 admin new_request no_devices started_eq Hlen) as H.
  destruct w as [o x'] eqn:E. unfold w in E. rewrite E in H. exact H.
Defined.
