(* ===== verification/StaticContent.v ===== *)
(** * The static_content plugin: src/plugins/static_content/static_content_plugin.cpp

    Which file a request names, the check that it is below the root, the cache
    of mapped files and the answer.  The file system is a parameter: what
    [canonical], [status], [file_size], [last_write_time] and the mapping of a
    file say of a path.  Logging is left out. *)

From S2P Require Import Prelude Utils Charconv Http HttpParser HeadProofs Unobserved Stream Session SessionProofs ReadProofs Pipeline PluginRefinement Scripted Paths LruCache Config.

Local Open Scope Z_scope.

(** ** The file system *)

Inductive file_type : Type := regular_file | directory | other_file.

(** [None] is an error code, or for [mapped] an exception. *)
Record file_system : Type := mk_file_system {
  canonical : path -> option path;
  status : path -> option file_type;
  file_size : path -> option Z;
  last_write_time : path -> option Z;
  mapped : path -> option bytes;
}.

(** ** The state of the plugin *)

Record file_map : Type := mk_file_map {
  m_last_write_time : Z;
  m_data : bytes;
}.

(** A [std::shared_ptr<file_map>], which is null by default. *)
Abbreviation file_map_ptr := (option file_map).
Abbreviation files_cache := (@lru_cache bytes file_map_ptr list_eq_dec list_countable).

Global Instance file_map_ptr_inhabited : Inhabited file_map_ptr := populate None.

Record config : Type := mk_config {
  s_default_file : bytes;
  s_urls : list (bytes * bytes);
  s_allow_symlinks : bool;
  s_custom_fields : fields;
}.

(** [p.second.get_value<std::string>()] of the children of a node. *)
Definition child_values (t : ptree) : list (bytes * bytes) := (fun c => (c.1, pt_data c.2)) <$> pt_children t.

(** [init_plugin(conf_dir)]: [read_info] throws for a file that is not there or
    not well formed, [get_child] for a section that is missing.  The globals keep
    what was set before. *)
Definition init_plugin (read_info : bytes -> outcome exn ptree) (as_bool : bytes -> option bool) (conf_dir : bytes)
    (c : config) : outcome exn bool * config :=
  match (properties ← read_info (path_string (append (path_of conf_dir) (path_of (bs "static_files.conf"))));
         paths ← get_child [bs "paths"] properties; Ok (properties, paths)) with
  | Ok (properties, paths) =>
      let c := mk_config (s_default_file c) (s_urls c ++ child_values paths) (s_allow_symlinks c) (s_custom_fields c) in
      match get_child [bs "custom_headers"] properties with
      | Ok headers =>
          let custom := fold_left (fun f p => fields_set f p.1 p.2) (child_values headers) (s_custom_fields c) in
          (Ok (bool_decide (s_urls c <> [])),
           mk_config (get_or Some [bs "default_file"] [] properties) (s_urls c)
             (get_or as_bool [bs "allow_symlinks"] false properties) custom)
      | Throw e => (Throw e, c)
      | Diverge => (Diverge, c)
      end
  | Throw e => (Throw e, c)
  | Diverge => (Diverge, c)
  end.
Definition new_config : config := mk_config [] [] false [].

(** The callback of the timer: entries nobody else holds leave the cache. *)
Definition drop_unused (use_count : file_map_ptr -> Z) (c : files_cache) : files_cache :=
  fold_left (fun c e => if use_count e.2.2 =? 1 then erase e.1 c else c) (m_cache_items c) c.

(** [mime_type(ext)] *)
Definition mime_types : list (bytes * bytes) := [
  (bs ".htm", bs "text/html"); (bs ".html", bs "text/html"); (bs ".php", bs "text/html");
  (bs ".css", bs "text/css"); (bs ".js", bs "application/javascript");
  (bs ".json", bs "application/json"); (bs ".xml", bs "application/xml");
  (bs ".png", bs "image/png"); (bs ".jpe", bs "image/jpeg"); (bs ".jpeg", bs "image/jpeg");
  (bs ".jpg", bs "image/jpeg"); (bs ".gif", bs "image/gif"); (bs ".bmp", bs "image/bmp");
  (bs ".tiff", bs "image/tiff"); (bs ".tif", bs "image/tiff"); (bs ".svg", bs "image/svg+xml");
  (bs ".svgz", bs "image/svg+xml"); (bs ".txt", bs "text/plain"); (bs ".webp", bs "image/webp");
  (bs ".webm", bs "video/webmx"); (bs ".weba", bs "audio/webm");
  (bs ".swf", bs "application/x-shockwave-flash"); (bs ".flv", bs "video/x-flv")].
Definition mime_type (ext : bytes) : bytes :=
  default (bs "application/octet-stream") (fields_find mime_types ext).

(** ** create_session *)

(** What is bound to [static_content_session]. *)
Record bound_session : Type := mk_bound {
  b_root : path;
  b_path : path;
  b_head : bool;
}.

Definition unescaped (s : bytes) : outcome exn bytes :=
  match unescape_url s with
  | Ok u => Ok u
  | Throw e => Throw (ExStd e)
  | Diverge => Diverge
  end.

(** The mapping of users, "/~". *)
Definition user_session (home url : bytes) (head : bool) : outcome exn (option bound_session) :=
  let pos := default (length url) (find_from SLASH url 1) in
  user ← unescaped (substr url 2 (pos - 2));
  if decide (user = bs "." \/ user = bs "..") then Ok None
  else
    let root_path := append (append (path_of home) (path_of user)) (path_of (bs "public_html")) in
    file_path ← (if decide (1 < length url - pos)%nat
                 then file ← unescaped (substr url (pos + 1) (length url - pos - 1));
                      Ok (append (path_of []) (path_of file))
                 else Ok (path_of []));
    Ok (Some (mk_bound root_path (lexically_normal file_path) head)).

Fixpoint session_of_url (urls : list (bytes * bytes)) (url : bytes) (head : bool) : outcome exn (option bound_session) :=
  match urls with
  | [] => Ok None
  | (first, second) :: urls' =>
      if starts_with url first then
        if starts_with first (bs "/~") then user_session second url head
        else
          file ← unescaped (drop (length first) url);
          Ok (Some (mk_bound (path_of second) (lexically_normal (path_of file)) head))
      else session_of_url urls' url head
  end.

(** [create_session(req)] *)
Definition create_session {B} (cfg : config) (req : request B) : outcome exn (option bound_session) :=
  if decide (m_method req <> bs "GET" /\ m_method req <> bs "HEAD") then Ok None
  else session_of_url (s_urls cfg) (m_url req) (bool_decide (m_method req = bs "HEAD")).

(** ** static_content_session *)

Section session.
Variables (fs : file_system) (cfg : config).

(** From the path of a request to the file that is served. *)
Definition find_file (root file : path) : option path :=
  let p := lexically_normal (append root file) in
  p ← (if s_allow_symlinks cfg then Some p else canonical fs p);
  if path_starts_with p root then
    let '(p, st) :=
      match status fs p with
      | Some directory => let p := append p (path_of (s_default_file cfg)) in (p, status fs p)
      | st => (p, st)
      end in
    match st with Some regular_file => Some p | _ => None end
  else None.

(** [file_map(path, size, last_write_time)] *)
Definition map_file (p : path) (size time : Z) : option file_map :=
  if size =? 0 then Some (mk_file_map time [])
  else mk_file_map time <$> mapped fs p.

Definition not_found : exn := ExResponse (make_response 404 [] []).

(** The part under the lock of the cache. *)
Definition map_again (p : path) (size time : Z) : M files_cache exn file_map := fun c =>
  match map_file p size time with
  | None => (Throw not_found, c)
  | Some file =>
      match put (path_string p) (Some file) c with
      | Some c' => (Ok file, c')
      | None => (Diverge, c)
      end
  end.
Definition cached_file (p : path) (size time : Z) : M files_cache exn file_map := fun c =>
  match value (path_string p) c with
  | (Some (Some file), c') => if m_last_write_time file =? time then (Ok file, c') else map_again p size time c'
  | (Some None, c') => map_again p size time c'
  | (None, c') => (Diverge, c')
  end.

(** The head of the answer. *)
Definition file_response (p : path) (file : file_map) : response :=
  set_content_length
    (make_response 200 [] (fields_set (s_custom_fields cfg) (bs "Content-Type") (mime_type (extension p))))
    (len (m_data file)).

Section stream.
Context {S : Type} `{abstract_stream S}.
(** The cache is what the sessions of the plugin share; they have no callback. *)
Abbreviation FM := (M (S * (request files_cache * files_cache)) exn).

Definition on_cache {A} (m : M files_cache exn A) : FM A := fun x =>
  let '(o, c) := m x.2.2 in (o, (x.1, (x.2.1, c))).
Definition or_404 {X A} (a : option A) : M X exn A := match a with Some a => mret a | None => throw not_found end.

Definition static_content_session (root file : path) (head : bool) : FM unit :=
  receive_request;;
  p ← or_404 (find_file root file);
  size ← or_404 (file_size fs p);
  time ← or_404 (last_write_time fs p);
  file ← on_cache (cached_file p size time);
  with_request (send_response (file_response p file));;
  if (head : bool) then mret tt else with_request (stream_write (m_data file)).
End stream.
End session.

(** ** Files below the root *)

(** What [std::filesystem::canonical] gives: an absolute path without dots. *)
Definition canonical_resolves (fs : file_system) : Prop :=
  forall p q, canonical fs p = Some q -> p_root q = true /\ no_dots (p_names q).

(** A default file that is a relative path and does not climb. *)
Definition plain_default (cfg : config) : Prop :=
  p_root (path_of (s_default_file cfg)) = false /\ no_dots (p_names (path_of (s_default_file cfg))).

(** Below a directory: begins with its names, and has no dots to leave it by. *)
Definition below (root p : path) : Prop :=
  p_root p = true /\ p_names root `prefix_of` p_names p /\ no_dots (p_names p).

Lemma below_append root p q :
  below root p -> p_root q = false -> no_dots (p_names q) -> below root (append p q).
Proof.
  intros (Hr & Hp & Hn) Hq Hqn. unfold append. rewrite Hq.
  destruct (p_names q) as [|n ns] eqn:E; [by split_and!|]. rewrite <- E in *. split_and!; cbn [p_root p_names].
  - done.
  - by apply prefix_app_r.
  - by apply Forall_app.
Qed.

Lemma find_file_below fs cfg root file p :
  canonical_resolves fs -> plain_default cfg ->
  p_root root = true -> Forall (fun n => n <> []) (p_names root) ->
  find_file fs cfg root file = Some p -> below root p /\ status fs p = Some regular_file.
Proof.
  intros Hcan [Hd1 Hd2] Hr Hne. unfold find_file.
  set (p0 := lexically_normal (append root file)).
  assert (Hp1 : forall p1, (if s_allow_symlinks cfg then Some p0 else canonical fs p0) = Some p1 ->
    p_root p1 = true /\ no_dots (p_names p1)).
  { intros p1. destruct (s_allow_symlinks cfg); [|apply Hcan]. intros [= <-].
    by apply lexically_normal_rooted, append_rooted. }
  destruct (if s_allow_symlinks cfg then Some p0 else canonical fs p0) as [p1|]; [|done].
  destruct (Hp1 p1 eq_refl) as [Hroot Hdots]. cbn [mbind option_bind].
  destruct (path_starts_with p1 root) eqn:Hs; [|done].
  assert (Hb : below root p1) by (split_and!; [done|by apply starts_with_names|done]).
  destruct (status fs p1) as [[]|] eqn:Hst; try done; cbn.
  - by intros [= <-].
  - destruct (status fs (append p1 _)) as [[]|] eqn:Hst2; try done. intros [= <-].
    split; [by apply below_append|done].
Qed.

(** The root of a session is the one that is configured, but for users. *)
Lemma session_of_url_root urls url head b :
  (forall u, u ∈ urls -> starts_with u.1 (bs "/~") = false) ->
  session_of_url urls url head = Ok (Some b) ->
  exists u, u ∈ urls /\ starts_with url u.1 = true /\ b_root b = path_of u.2.
Proof.
  induction urls as [|[first second] urls IH]; intros Hu; cbn [session_of_url]; [done|].
  destruct (starts_with url first) eqn:Hs.
  - pose proof (Hu (first, second) ltac:(by left)) as Hfirst. cbn [fst] in Hfirst. rewrite Hfirst. destruct (unescaped _) as [file| |]; [|done..].
    intros [= <-]. exists (first, second). split_and!; [by left|done|done].
  - intros Hb. destruct IH as (u & Hin & H1 & H2); [|done|].
    + intros u Hin. apply Hu. by right.
    + exists u. split_and!; [by right|done|done].
Qed.

(** ** The cache of files *)

Section coherence.
(** The content a file had at a time it was last written. *)
Variable content : bytes -> Z -> bytes.

(** A file keeps its content as long as its time stays the same. *)
Definition coherent_files (fs : file_system) : Prop :=
  forall p size time, file_size fs p = Some size -> last_write_time fs p = Some time ->
    (size = 0 -> content (path_string p) time = []) /\
    (forall data, mapped fs p = Some data -> data = content (path_string p) time).
Definition coherent_cache (c : files_cache) : Prop :=
  lru_inv c /\ forall key f, (key, Some f) ∈ abstract c -> m_data f = content key (m_last_write_time f).

Lemma lookup_key_In (key : bytes) (v : file_map_ptr) l : lookup_key key l = Some v -> (key, v) ∈ l.
Proof.
  induction l as [|[k w] l IH]; cbn; [done|]. case_decide; [intros [= ->]; subst; by left|].
  intros ?. right. by apply IH.
Qed.

Lemma spec_use_subset (key : bytes) (l : list (bytes * file_map_ptr)) e : e ∈ spec_use key l -> e ∈ l.
Proof.
  unfold spec_use. destruct (lookup_key key l) as [v|] eqn:E; [|done].
  intros [->|Hin]%elem_of_cons; [by apply lookup_key_In|]. by apply list_elem_of_filter in Hin as [_ ?].
Qed.

Lemma spec_put_subset n (key : bytes) (v : file_map_ptr) l e : e ∈ spec_put n key v l -> e = (key, v) \/ e ∈ l.
Proof.
  intros Hin. assert (Hi : e ∈ (key, v) :: without key l).
  { rewrite <- (take_drop n ((key, v) :: without key l)). apply elem_of_app. by left. }
  apply elem_of_cons in Hi as [->|Hi]; [by left|]. right. by apply list_elem_of_filter in Hi as [_ ?].
Qed.

(** A file that can be looked at can be mapped. *)
Definition readable_files (fs : file_system) : Prop :=
  forall p size time, file_size fs p = Some size -> last_write_time fs p = Some time -> size <> 0 -> is_Some (mapped fs p).

Context (fs : file_system) (p : path) (size time : Z).
Context (Hfs : coherent_files fs) (Hrd : readable_files fs).
Context (Hsz : file_size fs p = Some size) (Ht : last_write_time fs p = Some time).
Local Abbreviation current := (mk_file_map time (content (path_string p) time)).

Lemma map_file_current : map_file fs p size time = Some current.
Proof.
  unfold map_file. destruct (Hfs p size time Hsz Ht) as [H0 H1].
  destruct (Z.eqb_spec size 0) as [Hz|Hz]; [by rewrite H0|].
  destruct (Hrd p size time Hsz Ht Hz) as [d Hd]. rewrite Hd. cbn. by rewrite (H1 d Hd).
Qed.

Lemma map_again_current c :
  coherent_cache c ->
  (map_again fs p size time c).1 = Ok current /\ coherent_cache (map_again fs p size time c).2.
Proof.
  intros [Hinv Hc]. unfold map_again. rewrite map_file_current.
  destruct (put_refines (path_string p) (Some current) c Hinv) as (c1 & -> & Hi1 & _ & Ha1).
  split; [done|]. split; [done|]. intros key g. cbn [snd]. rewrite Ha1.
  intros [[= -> ->]|?]%spec_put_subset; [done|by apply Hc].
Qed.

Lemma cached_file_current c :
  coherent_cache c ->
  (cached_file fs p size time c).1 = Ok current /\ coherent_cache (cached_file fs p size time c).2.
Proof.
  intros [Hinv Hc]. unfold cached_file.
  destruct (value_refines (path_string p) c Hinv) as (Hv & Hi1 & Ha1 & _).
  destruct (value (path_string p) c) as [v c1]. cbn [fst snd] in *. subst v.
  assert (Hc1 : coherent_cache c1).
  { split; [done|]. intros key f. rewrite Ha1. intros ?%spec_use_subset. by apply Hc. }
  destruct (lookup_key (path_string p) (abstract c)) as [[f|]|] eqn:Hl; cbn [default]; unfold id;
    try (by apply map_again_current).
  destruct (Z.eqb_spec (m_last_write_time f) time) as [Heq|Hne]; [|by apply map_again_current].
  split; [|done]. apply lookup_key_In in Hl. specialize (Hc _ _ Hl). destruct f as [t d]. cbn in *. by subst.
Qed.

(** The timer only takes entries away. *)
Lemma erase_keeps (it : nat) (c : files_cache) :
  lru_inv c -> lru_inv (erase it c) /\ forall e, e ∈ abstract (erase it c) -> e ∈ abstract c.
Proof.
  intros Hinv. destruct (filter (fun e => e.1 = it) (m_cache_items c)) as [|e l] eqn:Hf.
  - unfold erase, abstract. rewrite Hf. assert (Hall : erase_node it (m_cache_items c) = m_cache_items c).
    { apply filter_all, Forall_forall. intros x Hx Heq.
      assert (Hin : x ∈ filter (fun e => e.1 = it) (m_cache_items c)) by by apply list_elem_of_filter.
      rewrite Hf in Hin. by apply not_elem_of_nil in Hin. }
    rewrite Hall. destruct c; done.
  - assert (Hin : e ∈ filter (fun e => e.1 = it) (m_cache_items c)) by (rewrite Hf; by left).
    apply list_elem_of_filter in Hin as [He Hin]. pose proof Hinv as (_ & H2 & _ & H4).
    destruct (erase_refines it (entry_key e) c Hinv) as [Hi Ha].
    { rewrite H4. apply index_of_Some; [done|]. exists e.2.2. unfold entry_key. subst it. by destruct e as [? []]. }
    split; [done|]. rewrite Ha. intros x Hx. by apply list_elem_of_filter in Hx as [_ ?].
Qed.

Lemma drop_unused_coherent use_count c : coherent_cache c -> coherent_cache (drop_unused use_count c).
Proof.
  unfold drop_unused. generalize (m_cache_items c) as l. intros l. revert c.
  induction l as [|e l IH]; intros c Hc; cbn [fold_left]; [done|]. apply IH.
  destruct (_ =? _); [|done]. destruct Hc as [Hinv Hc]. destruct (erase_keeps e.1 c Hinv) as [Hi Hk].
  split; [done|]. intros key f ?%Hk. by apply Hc.
Qed.
End coherence.

(** ** The session as a handler *)

(** What [static_content_session] answers, once the request was read. *)
Definition answer_file (fs : file_system) (cfg : config) (b : bound_session) : M files_cache exn (response * option bytes) :=
  p ← or_404 (find_file fs cfg (b_root b) (b_path b));
  size ← or_404 (file_size fs p);
  time ← or_404 (last_write_time fs p);
  file ← cached_file fs p size time;
  mret (file_response cfg p file, if b_head b then None else Some (m_data file)).
Definition static_handler (fs : file_system) (cfg : config) (b : bound_session) : handler files_cache :=
  mk_handler (fun q c => Ok (q, c)) (fun _ c => answer_file fs cfg b c).

(** The plugin, as the server asks it. *)
Definition static_plugin (fs : file_system) (cfg : config) (q : request files_cache)
    : outcome exn (option (handler files_cache)) :=
  b ← create_session cfg q; Ok (fmap (M:=option) (static_handler fs cfg) b).

Lemma static_session_handler {W} `{os W} (tr : transport W) (fuel : nat) (fs : file_system) (cfg : config) (b : bound_session)
    (x : session W * (request files_cache * files_cache)) :
  static_content_session (H:=session_stream tr fuel) fs cfg (b_root b) (b_path b) (b_head b) x =
  run_handler tr fuel (static_handler fs cfg b) x.
Proof.
  destruct x as [s [q c]]. unfold static_content_session, run_handler, static_handler, send_answer, answer_file.
  cbn [h_before h_after fst snd]. unfold mbind at 1 7, M_bind at 1 7.
  destruct (receive_request (s, (q, c))) as [[[]|e|] [s1 [q1 c1]]]; [|done..]. cbn [fst snd].
  unfold or_404, mbind, M_bind, throw, mret, M_ret, on_cache.
  destruct (find_file fs cfg (b_root b) (b_path b)) as [p|]; [|done].
  destruct (file_size fs p) as [size|]; [|done]. destruct (last_write_time fs p) as [time|]; [|done]. cbn [fst snd].
  destruct (cached_file fs p size time c1) as [[f|e|] c2]; [|done..]. unfold with_request. cbn [fst snd].
  destruct (send_response (file_response cfg p f) s1) as [[[]|e|] s2]; [|done..]. by destruct (b_head b).
Qed.

(** C30: With a configuration whose paths have absolute roots and of which none is
    a user mapping (/~), with a default file that is a relative path
    without dots, and canonical giving absolute paths without dots:
    whatever the URL, with its escapes, dots and repeated separators, the
    path of a file the plugin serves lies below the root configured for
    that URL, that is it begins with the names of the root and has no dots
    after them. (The path, not the target: a default file that is itself a
    symbolic link is outside of this claim.) *)
Theorem static_content_confined (fs : file_system) (cfg : config) (req : request files_cache) h q c res more c' :
  canonical_resolves fs -> plain_default cfg ->
  (forall u, u ∈ s_urls cfg -> starts_with u.1 (bs "/~") = false /\ p_root (path_of u.2) = true) ->
  static_plugin fs cfg req = Ok (Some h) -> h_after h q c = (Ok (res, more), c') ->
  exists b u p, create_session cfg req = Ok (Some b) /\ h = static_handler fs cfg b /\ u ∈ s_urls cfg /\ starts_with (m_url req) u.1 = true /\
    find_file fs cfg (b_root b) (b_path b) = Some p /\ below (path_of u.2) p /\ status fs p = Some regular_file.
Proof.
  intros Hcan Hdef Hurls. unfold static_plugin. destruct (create_session cfg req) as [[b|]| |] eqn:Hcreate; try done.
  intros [= <-]. pose proof Hcreate as Hb. unfold create_session in Hb. destruct (decide _); [done|].
  destruct (session_of_url_root _ _ _ _ (fun u Hu => proj1 (Hurls u Hu)) Hb) as (u & Hin & Hstart & Hroot).
  cbn [static_handler h_after]. unfold answer_file, mbind, M_bind, or_404, throw, mret, M_ret.
  destruct (find_file fs cfg (b_root b) (b_path b)) as [p|] eqn:Hp; [|done]. intros _.
  exists b, u, p. split_and!; try done; rewrite Hroot in Hp;
    destruct (find_file_below fs cfg (path_of u.2) (b_path b) p) as [H1 H2]; try done;
    by apply path_of_nonempty || apply Hurls.
Qed.

(** ** Without the cache *)

(** The same plugin, if it mapped the file for every request. *)
Definition uncached_answer (fs : file_system) (cfg : config) (b : bound_session) : outcome exn (response * option bytes) :=
  match (p ← find_file fs cfg (b_root b) (b_path b);
         size ← file_size fs p; time ← last_write_time fs p; file ← map_file fs p size time; Some (p, file)) with
  | Some (p, file) => Ok (file_response cfg p file, if b_head b then None else Some (m_data file))
  | None => Throw not_found
  end.
Definition uncached_handler (fs : file_system) (cfg : config) (b : bound_session) : handler files_cache :=
  mk_handler (fun q c => Ok (q, c)) (fun _ c => (uncached_answer fs cfg b, c)).
Definition uncached_plugin (fs : file_system) (cfg : config) (q : request files_cache)
    : outcome exn (option (handler files_cache)) :=
  b ← create_session cfg q;
  Ok (fmap (M:=option) (uncached_handler fs cfg) b).

Lemma answer_file_uncached content fs cfg b c :
  coherent_files content fs -> readable_files fs -> coherent_cache content c ->
  (answer_file fs cfg b c).1 = uncached_answer fs cfg b /\ coherent_cache content (answer_file fs cfg b c).2.
Proof.
  intros Hfs Hrd Hc. unfold answer_file, uncached_answer, mbind, M_bind, option_bind, or_404, throw, mret, M_ret.
  destruct (find_file fs cfg (b_root b) (b_path b)) as [p|]; [|done].
  destruct (file_size fs p) as [size|] eqn:Hsz; [|done]. destruct (last_write_time fs p) as [time|] eqn:Ht; [|done].
  rewrite (map_file_current content fs p size time Hfs Hrd Hsz Ht).
  destruct (cached_file_current content fs p size time Hfs Hrd Hsz Ht c Hc) as [Ho Hc'].
  destruct (cached_file fs p size time c) as [o c']. cbn [fst snd] in *. by subst o.
Qed.

Lemma static_plugins_same (content : bytes -> Z -> bytes) (fs : file_system) (cfg : config) (q : request files_cache) :
  coherent_files content fs -> readable_files fs ->
  same_offer (coherent_cache content) (static_plugin fs cfg q) (uncached_plugin fs cfg q).
Proof.
  intros Hfs Hrd. unfold static_plugin, uncached_plugin. destruct (create_session cfg q) as [[b|]| |]; [|done..]. cbn.
  split; [done|]. intros q' c e Hc. destruct (answer_file_uncached content fs cfg b c Hfs Hrd Hc) as [H1 H2]. by split_and!.
Qed.

Section connection.
Context {W : Type} `{Hlaws : os_laws W} (tr : transport W) `{Htr : !transport_laws tr} `{Hcodes : !reports_codes tr}.

(** [create_session] as the server calls it. *)
Definition create_static (fuel : nat) (fs : file_system) (cfg : config) (q : request files_cache)
    : M (session W * (request files_cache * files_cache)) exn
        (option (M (session W * (request files_cache * files_cache)) exn unit)) := fun x =>
  (match create_session cfg q with
   | Ok (Some b) => Ok (Some (static_content_session (H:=session_stream tr fuel) fs cfg (b_root b) (b_path b) (b_head b)))
   | Ok None => Ok None
   | Throw e => Throw e
   | Diverge => Diverge
   end, x).

Lemma create_static_same fuel fs cfg q x :
  same_created (create_static fuel fs cfg q x) (create_plain tr fuel (static_plugin fs cfg) q x).
Proof.
  unfold create_static, create_plain, static_plugin. split; [done|].
  destruct (create_session cfg q) as [[b|]|e|]; cbn; try done. intros y. apply static_session_handler.
Qed.

(** C31: A connection to the static_content plugin, from the bytes of the requests
    to the bytes on the wire and however the network cuts them, is the
    connection to a plugin without a cache that maps the file for every
    request: the same answers in the same order, each with the length and
    the content the file has at its last write, the head alone for HEAD,
    404 where there is no such file; and when it breaks off, what follows
    is a part of the next answer of that plugin or of the answer to the
    exception the next request failed with. This is for regular files that
    can be mapped and whose content is determined by their last write.
    Whatever happens, the cache is left coherent with the files, for the
    next connection. *)
Theorem static_content_connection (content : bytes -> Z -> bytes) (fs : file_system) (cfg : config) (headers_timeout keep_alive_timeout : Z) (hfuel fuel : nat)
    (s : session W) q0 (c e : files_cache) :
  coherent_files content fs -> readable_files fs -> coherent_cache content c -> len (unread s) < 2 ^ 64 ->
  let '(_, x') := io_loop tr headers_timeout keep_alive_timeout (create_static hfuel fs cfg) fuel (s, (q0, c)) in
  coherent_cache content x'.2.2 /\
  exists outs i' t, answers keep_alive_timeout (uncached_plugin fs cfg) (unread s) e outs i' e /\
    wire (world x'.1) = wire (world s) ++ concat outs ++ t /\
    last_words keep_alive_timeout (uncached_plugin fs cfg) i' e t.
Proof.
  intros Hfs Hrd Hc Hlen.
  pose proof (fun q => static_plugins_same content fs cfg q Hfs Hrd) as Hsame.
  destruct (io_loop_turns tr keep_alive_timeout (static_plugin fs cfg) _ (plugin_polite _ _ _ Hsame)
    (fun _ h _ => discreet_nothing h) headers_timeout hfuel fuel s q0 c Hlen) as (outs & i' & c' & t & Hans & Hw & Hlast & _).
  destruct (answers_alike _ _ _ _ Hsame _ _ _ _ _ e Hans Hc) as [H1 H2].
  pose proof (io_loop_keeps tr (coherent_cache content) keep_alive_timeout (static_plugin fs cfg)
    (offers_keep _ _ _ Hsame) headers_timeout hfuel fuel (s, (q0, c)) Hc) as Hkept.
  rewrite (io_loop_same tr _ _ _ _ (create_static_same hfuel fs cfg)).
  destruct (io_loop _ _ _ _ _ _) as [o x']. split; [done|]. exists outs, i', t.
  split_and!; [done|done|by apply (last_words_alike (coherent_cache content) _ (static_plugin fs cfg) _ Hsame i' c')].
Qed.
End connection.

(** ** Roots that are not the configured one *)

(** The user of "/~" may be an absolute path, which replaces the home. *)
Theorem user_replaces_root (home : bytes) (head : bool) :
  user_session home (bs "/~%2Fetc/passwd") head
  = Ok (Some (mk_bound (path_of (bs "/etc/public_html")) (path_of (bs "passwd")) head)).
Proof. reflexivity. Qed.

(** The default file is looked for after the check of the root. *)
Definition linked_default : file_system := mk_file_system
  (fun p => Some (if decide (p = path_of (bs "/srv/d/index.html")) then path_of (bs "/etc/shadow")
                  else mk_path true (p_names p) false))
  (fun p => if decide (p_names p = p_names (path_of (bs "/srv/d"))) then Some directory else Some regular_file)
  (fun _ => Some 5) (fun _ => Some 1) (fun _ => Some (bs "hello")).
Definition no_symlinks : config := mk_config (bs "index.html") [(bs "/", bs "/srv")] false [].

Theorem default_file_leaves_root :
  exists p q, find_file linked_default no_symlinks (path_of (bs "/srv")) (path_of (bs "d")) = Some p /\
    canonical linked_default p = Some q /\ path_starts_with q (path_of (bs "/srv")) = false.
Proof. eexists _, _. split; [reflexivity|]. split; [reflexivity|]. reflexivity. Qed.

(** ** A sample request *)

(** A file system without links, in which every name with an "x" is a file. *)
Definition sample_content (key : bytes) (time : Z) : bytes := key.
Definition sample_fs : file_system := mk_file_system
  (fun p => Some (mk_path true (p_names (lexically_normal (mk_path true (p_names p) false))) false))
  (fun p => if decide ("x"%char ∈ filename p) then Some regular_file else Some directory)
  (fun p => Some (len (path_string p))) (fun _ => Some 7) (fun p => Some (path_string p)).
Definition sample_request : request files_cache := set_method (set_url new_request (bs "/a/../b%2e/")) (bs "GET").
Definition sample_cache : files_cache := new_lru 100.
Definition sample_bound : bound_session := mk_bound (path_of (bs "/srv")) (path_of (bs "b./")) false.

Lemma sample_canonical : canonical_resolves sample_fs.
Proof. intros p q [= <-]. split; [done|]. by apply lexically_normal_rooted. Qed.

Lemma sample_plain : plain_default no_symlinks.
Proof. split; [reflexivity|]. constructor; [discriminate|constructor]. Qed.

Lemma sample_coherent : coherent_files sample_content sample_fs.
Proof.
  intros p size time [= <-] [= <-]. split; [|by intros data [= <-]].
  intros Hz. apply nil_length_inv. unfold sample_content. lia.
Qed.

Lemma static_content_confined_witness :
  exists p, find_file sample_fs no_symlinks (b_root sample_bound) (b_path sample_bound) = Some p /\
    path_string p = bs "/srv/b./index.html" /\ below (path_of (bs "/srv")) p.
Proof.
  set (w := h_after (static_handler sample_fs no_symlinks sample_bound) sample_request sample_cache).
  assert (Hurls : forall u, u ∈ s_urls no_symlinks -> starts_with u.1 (bs "/~") = false /\ p_root (path_of u.2) = true).
  { intros u Hu. apply list_elem_of_singleton in Hu as ->. split; vm_compute; reflexivity. }
  assert (Hw : exists res more c', w = (Ok (res, more), c')).
  { destruct w as [[[res more]|e|] c'] eqn:E; [by eauto| |]; apply (f_equal fst) in E; vm_compute in E; discriminate E. }
  destruct Hw as (res & more & c' & Hw).
  assert (Hcreate : create_session no_symlinks sample_request = Ok (Some sample_bound)) by (vm_compute; reflexivity).
  destruct (static_content_confined sample_fs no_symlinks sample_request (static_handler sample_fs no_symlinks sample_bound)
    sample_request sample_cache res more c' sample_canonical sample_plain Hurls) as (b & u & p & Hb & _ & Hu & _ & Hp & Hbelow & _).
  - unfold static_plugin. rewrite Hcreate. reflexivity.
  - exact Hw.
  - rewrite Hcreate in Hb. injection Hb as <-. apply list_elem_of_singleton in Hu as ->. exists p. split; [exact Hp|].
    assert (Hp' : find_file sample_fs no_symlinks (b_root sample_bound) (b_path sample_bound)
      = Some (path_of (bs "/srv/b./index.html"))) by (vm_compute; reflexivity).
    rewrite Hp' in Hp. injection Hp as <-. split; [reflexivity|exact Hbelow].
Defined.

(** A configuration without custom headers, and one without their section. *)
Definition static_conf (headers : list (bytes * ptree)) : bytes -> outcome exn ptree := fun _ =>
  Ok (node [] ((bs "default_file", node (bs "index.html") []) ::
               (bs "paths", node [] [(bs "/", node (bs "/srv") [])]) :: headers)).
Example sample_init :
  init_plugin (static_conf [(bs "custom_headers", node [] [])]) (fun _ => None) (bs "/etc") new_config = (Ok true, no_symlinks) /\
  (init_plugin (static_conf []) (fun _ => None) (bs "/etc") new_config).1 = Throw bad_path.
Proof. by vm_compute. Qed.

(** A client that asks twice for a file, the second time for its head: the file is
    mapped once. *)
Definition file_client : session script :=
  scripted [bs "GET /x.css HTTP/1.1" ++ crlf_string; crlf_string ++ bs "HEAD /x.css HTTP/1.1" ++ crlf_string ++ crlf_string]
    [7; 0]%nat (Some 5%nat).
Definition file_text (head : bool) : bytes :=
  to_string (file_response no_symlinks (path_of (bs "/srv/x.css")) (mk_file_map 7 (bs "/srv/x.css"))) 10 ++
  if head then [] else bs "/srv/x.css".

Lemma sample_readable : readable_files sample_fs.
Proof. by eexists. Qed.
Lemma sample_cache_coherent : coherent_cache sample_content sample_cache.
Proof.
  split; [apply new_lru_inv|]. intros key f Hin. change (abstract sample_cache) with (@nil (bytes * file_map_ptr)) in Hin.
  exfalso. exact (not_elem_of_nil _ Hin).
Qed.

Lemma static_content_connection_witness :
  let w := io_loop socket_session 5 10 (create_static socket_session 200 sample_fs no_symlinks) 200
    (file_client, (new_request, sample_cache)) in
  wire (world w.2.1) = file_text false ++ file_text true /\
  coherent_cache sample_content w.2.2.2 /\
  exists outs i' t, answers 10 (uncached_plugin sample_fs no_symlinks) (unread file_client) sample_cache outs i' sample_cache /\
    wire (world w.2.1) = concat outs ++ t /\
    last_words 10 (uncached_plugin sample_fs no_symlinks) i' sample_cache t.
Proof.
  cbn zeta. set (w := io_loop _ _ _ _ _ _). split; [vm_compute; reflexivity|].
  assert (Hlen : len (unread file_client) < 2 ^ 64) by (vm_compute; reflexivity).
  pose proof (static_content_connection socket_session sample_content sample_fs no_symlinks 5 10 200 200 file_client
    new_request sample_cache sample_cache sample_coherent sample_readable sample_cache_coherent Hlen) as H.
  destruct w as [o x'] eqn:E. unfold w in E. rewrite E in H. exact H.
Defined.
